(* ===== verification/_CoqProject ===== *)
-Q . S2P
Prelude.v
PyStr.v
PyVal.v
SettingsMerge.v
Sha256.v
JsonDumps.v
PiiScrub.v
AuditEvent.v
AuditChain.v
AuditVerify.v
Idempotency.v
Usage.v
ShortTermMemory.v
TenantSlots.v
SkillWrite.v
HttpRetry.v
SearchTrim.v
AuditQueue.v
LifecycleAudit.v
LifecycleRun.v
Scheduler.v
IngestChunking.v
SkillPromote.v
Consult.v
Collect.v
BusClient.v
AgentRegistry.v
MemoryAccess.v
Suppression.v
AuthContext.v
Contradiction.v
Pipeline.v
WriteHold.v
WriteMetadata.v
Governance.v
WriteSteps.v
WritePipeline.v
WriteExample.v
WriteLogic.v
WriteSafety.v
WriteUnique.v
ReadScope.v
ListScope.v
MemoryList.v
RowLife.v
RowHold.v
RowRollback.v
MemoryAdmin.v
ProviderKeys.v
EventBus.v
EventPull.v
EventSlots.v
SuppressionMirror.v
