(* ===== verification/Prelude.v ===== *)
(** * Caura: a verification development

    Caura is shared memory for fleets of AI agents. Its Python services are core-api
    (HTTP and MCP: requests, pipelines, policy), core-storage-api (the only writer of
    PostgreSQL), core-worker (consumers of the event bus) and core-operations (the
    scheduler), over a library they share, [common/]. This development translates
    the parts that carry guarantees across those services into Rocq definitions and
    proves the guarantees of the definitions.

    ** The files, and what each models

    Shared by all:
    - [Prelude]: fallible code ([result], an exception or a value), transition systems
      ([reachable], [steps], the invariant rule), sorting, slices, strings, tactics.
    - [PyStr], [PyVal]: Python's [str] and JSON-shaped values with [==], [bool],
      and the operations of [dict].
    - [Sha256], [JsonDumps]: the digest, and [json.dumps] with sorted keys; the text
      of a value determines the value ([dumps_inj]).

    The audit trail:
    - [PiiScrub]: [assert_pii_safe] and [scrub_pii] of [services/audit_chain.py].
    - [AuditEvent]: [canonical_event], [compute_event_hash], the event's fields.
    - [AuditChain]: the tables, the batch writer [audit_add_batch_chained] and its
      per-tenant transaction, the verifier [_verify_audit_chain_rows] and
      [audit_verify_chain] of [services/postgres_service.py].
    - [AuditVerify]: the theorems about writer and verifier together. A written chain
      verifies from every window; following [next_seq] is one full pass; a retried
      batch appends nothing; a valid batch is always accepted; and two valid complete
      chains with one head hold the same events unless a hash input collides.
    - [AuditQueue]: core-api's bounded queue in front of it ([services/audit_queue.py]
      with [_flush_audit_batch] of [app.py]): every accepted event is accounted for,
      an uncancelled drain posts everything, slices are the tenants' own.

    Requests:
    - [Idempotency]: [middleware/idempotency.py] as a program over storage calls, the
      four storage transactions, and a transition system of concurrent requests,
      clock and purges (Module [System]): one handler at a time under a claim, a
      recorded response is final until it expires, a replay was recorded.
    - [TenantSlots]: the per-tenant semaphores of core-api (Module [Api]) and
      core-worker (Module [Worker]) over asyncio's own, futures and cancellations
      included: caps hold, tenants do not contend, no wake-up is lost, grants are in
      order of arrival. The class [RegistryOk] states what the slots need of a
      registry; the two modules are its instances.
    - [HttpRetry]: [common/http_retry.py]: a POST reaches storage at most once; every
      call ends with its last attempt's answer within its budget.
    - [Suppression]: the cached guard of [core_api/suppression.py] against tenants whose
      organization is deleted: overlapping requests included, it refuses from thirty seconds
      after storage does.
    - [SuppressionMirror]: how storage comes to say so: the handler of the suppression event
      ([common/events/suppression_handlers.py]) and the upsert ordered by event time. Whatever is redelivered,
      late or in part, the newest decision stands, and a suppression once acknowledged cuts its tenants off.
    - [AuthContext]: [core_api/auth.py]: the four authentication paths with what they change
      on the request, and the gates of the context. An established identity needs the gateway,
      and a suppressed tenant is neither read nor acted on, the admin key apart.

    Who may do what:
    - [AgentRegistry]: the tables [agents] and [agent_tombstones] with their transactions,
      and the registration half of [services/agent_service.py], as programs over reads that
      may lag and writes that may race (the class [World]). A deleted agent stays restricted
      until an admin approves it; an install's write ends with an agent it owns (against the
      class [FairWorld], which bounds what the others may do).
    - [MemoryAccess]: the trust gates and the by-id checks of [services/agent_service.py] and
      [services/trust_service.py], as functions of the rows the replica and the primary show
      (the class [Rows]): what each trust level reads, that the by-id check is the fleet gate,
      that one reader answers as the check of each row, that no status change stands in for
      a delete.
    - [SkillWrite]: [validate_and_normalize_skill_write] of
      [services/skill_lifecycle.py]: who may write which status and source over which
      stored row, caps, hash binding, and which errors it raises.
    - [SkillPromote]: the promoter's gates over candidates ([services/skill_promoter.py]):
      only a candidate past every gate moves, and to the shelf its scan allows.

    Memories:
    - [Pipeline]: the runner of [pipeline/runner.py] over any steps, and what its result says
      of them.
    - [SearchTrim]: the relevance floor and final trim of a search on both of its
      paths, with the diagnostic trace.
    - [IngestChunking]: the section and block splitter of an ingested document: nothing of it
      is lost, breadcrumbs are the heading trail, slices are exact.
    - [Contradiction]: the pass over single-valued facts of
      [services/contradiction_detector.py], its query and its writes row by row. Chains of
      supersession have no cycle under any interleaving of passes; a demotion needs an author
      trusted as much; no loser goes untraced; the retraction's mirror is the query.

    What is read:
    - [ReadScope]: the conditions a search puts on a row, as three-valued SQL over the columns they
      name, in [services/postgres_service.py] with the filters of [core_api/services] that fill them:
      every row a search scores, loads by id or adds as a correction is in the caller's reach, and
      the explanation of a row says what the search decides of it.
    - [ListScope]: storage's list, counts and map over the same rows, their pages and cursors.
    - [MemoryList]: the routes over them ([GET /memories], its stats, the map, MCP's list): what is
      listed the reader may read, following the cursor serves each row once, the stats count the list,
      and what a scoped list shows its reader may open.

    The life of a row:
    - [RowLife]: the statements of storage that move a stored memory between live, held, superseded and
      deleted: the status update with its release of a hold, the session rollback, the deletes, the
      governance drop, the reassignment, the sweeps, the generations of insights.
    - [RowHold]: any sequence of them as operations on a table: a held memory waits, whole, until a person's
      decision of it, no row enters the hold after its write, and a decision moves the write with its chunks.
    - [RowRollback]: what a rollback undoes and restores, that it ends, and that a second one does nothing.
    - [MemoryAdmin]: the routes over them: only a person decides a hold, the queue is walked once, each row of
      a rollback is on the audit record, a delete takes what the list of its filters shows, a wipe is confirmed,
      a reassignment accounts for each id.

    The write of a memory:
    - [WriteMetadata]: the boundary between what the platform and what the caller wrote in a
      row's metadata ([services/system_metadata.py], [services/auto_capture.py]): a caller
      cannot forge, and both views give back what was written.
    - [Governance]: [common/governance/pii_patterns.py]: the validators, the scan and its overlap
      resolution, the mask: whatever a rule matched is masked and the rest of the text kept.
    - [WriteHold]: [services/write_hold.py], the settings cache and storage's version check, with
      any number of processes (Module [System]): a write the settings would hold is never stored
      live, and each write is stored once or not at all.
    - [WriteSteps], [WritePipeline]: the steps of [pipeline/steps/write/] as programs over the
      pipeline context, the table and a clock, the storage transactions under them, and
      [create_memory] with its four pipelines. [WriteLogic] is a Hoare logic for them;
      [WriteSafety] proves that every effect of a write is accounted for by its outcome and that
      only governed content is stored; [WriteUnique] that no two live rows hold one content, that
      a repeat reaches no model, and what a near-duplicate refusal takes. [WriteExample] is a
      deployment on which the witnesses are evaluated.

    Scheduled work:
    - [LifecycleAudit], [LifecycleRun]: the run table's claims, and the event handler around
      them as a state machine: one run at a time, and no acknowledgement without a record.
    - [Scheduler]: the slots, the lease of a tick and the loop of core-operations.

    Events and secrets ([common/events], [common/settings_crypto.py]):
    - [EventBus]: topics under two brands, in-process delivery, the names and start of the Pub/Sub bus and its
      resolver: a published event is pulled by one loop of each service, broadcasts by each process.
    - [EventSlots]: how the worker processes of an instance claim distinct names for those broadcasts through
      locks and a linked file, processes killed at any point included, and how a respawn takes its predecessor's.
    - [EventPull]: a pulled batch: what is acknowledged and how long the rest waits, and, as two tasks with
      calls on threads (Module [Lease]), that no lease extension undoes a settlement.
    - [ProviderKeys]: the tenants' provider keys as stored, shown, saved, re-encrypted and carried to the worker:
      nothing but ciphertext at rest and on the wire, keys survive rotation, and the worker uses the tenant's or none.

    The collaboration bus ([clients/collaboration]):
    - [Consult], [Collect], [BusClient]: the budget of a task's requests, the collection of
      their answers, and the request, listing and event-stream loops of the client: budgets
      bound what is sent, collections are faithful and end, a stream loses nothing it does
      not announce.

    State in process and in tables:
    - [SettingsMerge]: [common/organization_settings_merge.py] and the settings write
      of storage: merges are idempotent and leave no null, diffs hide secrets, the
      transaction with its first-write race is linearizable.
    - [Usage]: [common/usage/] and [usage_flush]: what is recorded is conserved
      through aggregation, queueing, splitting and at-least-once delivery.
    - [ShortTermMemory]: [providers/inmemory_stm.py] refines a log of posts.

    ** How to read a model

    A function that may raise returns a [result]; one that sleeps or calls storage is
    a program whose answers are given to it, or a step of a transition system whose
    steps are what one transaction, or one coroutine between two awaits, does. Time
    is a number read from an argument: clocks are unbounded integers. Tables are
    finite maps or lists of rows; a unique constraint is a test on the result of the
    insertion.

    Bounds and fuel. The loops of the code that are bounded there are bounded here by
    the same numbers: 20 polls of a pending claim, hence 23 storage calls for one
    request; five connection attempts. [walk_windows] takes one more turn than
    there are rows, [drain_loop] as many as there are events, [wake_loop] as many as
    there are permits, a chain of reassignments one more than there are deliveries
    ([slot_fuel_enough]), the sentence splitter as many as there are characters, each
    proved enough where it is used; a rollback one more pass than there are rows
    ([rollback_happens_once]). A claim of a broadcast slot makes at most six
    calls and one for each slot ([claim_always_has_an_id]). A lifecycle handler awaits at most 11 times, a
    collection polls at most 46 times, a client call is sent at most 3 times.

    What is abstract. Strings are the code points U+0000-U+00FF, on which the code's
    character classes, comparisons and UTF-8 lengths are computed
    exactly. Timestamps of events are UTC fields. The text of a float is the class
    [FloatRepr] (any injective rendering with a mark integers lack; an exact one is
    its instance), [uuid5] the class [Uuid5] (injective on the inputs used), the
    skill scanner the class [Sentinel] and Python's [dict] of a list of pairs the
    class [DictOfPairs]; the ingest splitter takes a [Tokenizer], a sentence [Segmenter]
    and [FromIso] reads dates. Other callers, the replica, clocks and storage's answers
    are the classes [World], [Rows] and [Boundary]. For a write, deployment settings are the class
    [Settings], what other writers, storage, models and caches do at each tick the class
    [Services] (of which nothing is assumed), and the regular expressions with the heuristics that
    read them the class [Patterns]. Fernet is the class [Fernet] (a key reads what it encrypted), a message's
    decoding [Decoder], random hex strings [Hex12]. Storage, HTTP and the event loop answer as they like, within
    the named hypotheses of the theorem.

    What is not modelled: the ranking of a scored search, model and embedding providers and every
    verdict they give, the Pub/Sub client with its publisher and teardown, FastAPI and MCP routing, migrations, the MCP session of the bus, the
    plugin, logging. Of the modelled tables: the generic patch of a memory, the hard purge, recall
    counters and dedup stamps. Of the write: the auto-chunk branch and bulk writes. Of a contradiction:
    its review queue and the judge. Lifecycle fan-out, the hash of a rule set and the remediation of
    stored rows are left out too. *)

From Stdlib Require Export Lia ZArith Sorted.
From stdpp Require Export base tactics option numbers strings gmap list.

#[global] Unset Printing Implicit Defensive.

Declare Scope caura_scope.
Delimit Scope caura_scope with caura.

(** ** Fallible code

    A Python function that may raise is a [result]: [Ok] is the value it
    returns, [Err] the exception it raises. *)

Inductive result (E A : Type) : Type :=
| Ok (val : A)
| Err (err : E).
Arguments Ok {E A} val.
Arguments Err {E A} err.

Section Result.
  Context {E : Type}.

#[export] Instance result_ret : MRet (result E) := @Ok E.
#[export] Instance result_bind : MBind (result E) := λ A B f r,
    match r with Ok v => f v | Err e => Err e end.
#[export] Instance result_fmap : FMap (result E) := λ A B f r,
    match r with Ok v => Ok (f v) | Err e => Err e end.

Definition is_ok {A} (r : result E A) : bool :=
    match r with Ok _ => true | Err _ => false end.

  (** [if c: raise e] as a statement of the monad. *)
Definition raise_if (c : bool) (e : E) : result E unit :=
    if c then Err e else Ok tt.

Lemma bind_ok {A B} (m : result E A) (k : A → result E B) v :
  (x ← m; k x) = Ok v → ∃ x, m = Ok x ∧ k x = Ok v.
Proof. destruct m as [x|e]; [eauto|discriminate]. Qed.

Lemma raise_if_ok c (e : E) u : raise_if c e = Ok u → c = false.
Proof. by destruct c. Qed.
End Result.

#[export] Instance result_eq_dec {E A} `{EqDecision E, EqDecision A} :
  EqDecision (result E A).
Proof. solve_decision. Defined.

(** The exceptions the modelled code raises: FastAPI's [HTTPException] with its
    status and detail, and the built-in exceptions by class name and message. *)
Inductive exn : Type :=
| HTTPException (status_code : Z) (detail : string)
| PyError (cls : string) (msg : string).

#[export] Instance exn_eq_dec : EqDecision exn.
Proof. solve_decision. Defined.

Definition exn_status (e : exn) : option Z :=
  match e with HTTPException s _ => Some s | PyError _ _ => None end.

(** ** Transition systems *)

Section Steps.
  Context {S : Type} (step : S → S → Prop) (init : S → Prop).

Inductive reachable : S → Prop :=
  | reach_init s : init s → reachable s
  | reach_step s s' : reachable s → step s s' → reachable s'.

  (** The invariant rule: it holds initially and every step keeps it. *)
Lemma reachable_invariant (I : S → Prop) :
    (∀ s, init s → I s) →
    (∀ s s', reachable s → I s → step s s' → I s') →
    ∀ s, reachable s → I s.
  Proof. intros Hi Hs s Hr. induction Hr; eauto. Qed.

Inductive steps : S → S → Prop :=
  | steps_refl s : steps s s
  | steps_cons s s1 s2 : step s s1 → steps s1 s2 → steps s s2.

Lemma steps_preserve (I : S → Prop) :
    (∀ s s', I s → step s s' → I s') → ∀ s s', steps s s' → I s → I s'.
  Proof. intros Hs s s' Hr. induction Hr; eauto. Qed.

Lemma steps_trans s1 s2 s3 : steps s1 s2 → steps s2 s3 → steps s1 s3.
  Proof. induction 1; eauto using steps. Qed.
End Steps.

Create HintDb caura.
#[export] Hint Constructors steps reachable : caura.

(** ** Tactics *)

(** Case analysis on the innermost scrutinee of the goal or of a hypothesis. *)
Ltac case_match_all :=
  repeat (case_match; simplify_eq/=).

(** Closed decidable goals, by evaluation. *)
Ltac by_compute := apply (bool_decide_unpack _); vm_compute; exact I.

(** Booleans of the code to propositions. *)
Ltac bool_to_prop :=
  repeat match goal with
  | H : (_ && _)%bool = true |- _ => apply andb_true_iff in H; destruct H
  | H : (_ || _)%bool = false |- _ => apply orb_false_iff in H; destruct H
  | H : (_ || _)%bool = true |- _ => apply orb_true_iff in H
  | H : negb _ = true |- _ => apply negb_true_iff in H
  | H : negb _ = false |- _ => apply negb_false_iff in H
  | H : bool_decide _ = true |- _ => apply bool_decide_eq_true in H
  | H : bool_decide _ = false |- _ => apply bool_decide_eq_false in H
  | H : (_ <=? _)%Z = true |- _ => apply Z.leb_le in H
  | H : (_ <=? _)%Z = false |- _ => apply Z.leb_gt in H
  | H : (_ <? _)%Z = true |- _ => apply Z.ltb_lt in H
  | H : (_ <? _)%Z = false |- _ => apply Z.ltb_ge in H
  | H : (_ =? _)%Z = true |- _ => apply Z.eqb_eq in H
  | H : (_ =? _)%Z = false |- _ => apply Z.eqb_neq in H
  | H : (_ <=? _)%nat = true |- _ => apply Nat.leb_le in H
  | H : (_ <=? _)%nat = false |- _ => apply Nat.leb_gt in H
  | H : (_ <? _)%nat = true |- _ => apply Nat.ltb_lt in H
  | H : (_ <? _)%nat = false |- _ => apply Nat.ltb_ge in H
  end.

(** Sequenced code: take apart [x ← m; k] when it is known to return. *)
Ltac inv_bind H :=
  repeat match type of H with
  | context [mbind _ ?m] => destruct m eqn:?; simpl in H; try discriminate
  end.

(** ** Slices *)

(** [l[:n]]: a negative bound counts from the end. *)
Definition py_take {A} (n : Z) (l : list A) : list A :=
  if (n <? 0)%Z then take (Z.to_nat ((Z.of_nat (length l) + n)%Z)) l else take (Z.to_nat n) l.

(** ** Lists *)

Section Lists.
  Context {A : Type}.
  Implicit Types l : list A.

Lemma filter_length_le (P : A → Prop) `{∀ x, Decision (P x)} l :
    length (filter P l) ≤ length l.
  Proof. induction l; simpl; [lia|]. rewrite filter_cons. case_decide; simpl; lia. Qed.

Lemma StronglySorted_filter (R : A → A → Prop) (P : A → Prop) `{∀ x, Decision (P x)} l :
    StronglySorted R l → StronglySorted R (filter P l).
  Proof.
    induction 1 as [|x l Hs IH Hx]; [constructor|]. rewrite filter_cons. case_decide; [|done].
    constructor; [done|]. rewrite Forall_forall in *. intros y [_ Hy]%list_elem_of_filter. auto.
  Qed.

Lemma StronglySorted_lt (R : A → A → Prop) l i j x y :
    StronglySorted R l → l !! i = Some x → l !! j = Some y → i < j → R x y.
  Proof.
    intros Hs. revert i j. induction Hs as [|z l Hs IH Hz]; intros i j Hi Hj Hij; [done|].
    destruct j as [|j]; [lia|]. simpl in Hj. destruct i as [|i]; simpl in Hi.
    - injection Hi as <-. rewrite Forall_forall in Hz. apply Hz. by eapply list_elem_of_lookup_2.
    - apply (IH i j); [done..|lia].
  Qed.
End Lists.

Lemma filter_keeps_all {A} (P : A → Prop) `{∀ x, Decision (P x)} l : Forall P l → filter P l = l.
Proof. induction 1 as [|x l Hx _ IH]; [done|]. by rewrite filter_cons_True, IH. Qed.
Lemma filter_keeps_none {A} (P : A → Prop) `{∀ x, Decision (P x)} l : Forall (λ x, ¬ P x) l → filter P l = [].
Proof. induction 1 as [|x l Hx _ IH]; [done|]. by rewrite filter_cons_False. Qed.

Lemma NoDup_fmap_filter {A B} (f : A → B) (P : A → Prop) `{∀ x, Decision (P x)} l :
  NoDup (f <$> l) → NoDup (f <$> filter P l).
Proof.
  induction l as [|x l IH]; [done|]. rewrite fmap_cons, NoDup_cons. intros [Hx Hl]. rewrite filter_cons.
  case_decide; [|auto]. rewrite fmap_cons, NoDup_cons. split; [|auto].
  intros (y & Hf & [_ Hy]%list_elem_of_filter)%list_elem_of_fmap. apply Hx, list_elem_of_fmap. by exists y.
Qed.

(** ** Sorting

    Python's [sorted] and SQL's [ORDER BY] are stable sorts by a total preorder;
    a stable insertion sort computes the same list. *)

Section Sort.
  Context {A : Type} (leb : A → A → bool).

Fixpoint sort_insert (x : A) (l : list A) : list A :=
    match l with
    | [] => [x]
    | y :: l' => if leb x y then x :: l else y :: sort_insert x l'
    end.

Fixpoint py_sorted (l : list A) : list A :=
    match l with [] => [] | x :: l => sort_insert x (py_sorted l) end.

Lemma sort_insert_perm x l : sort_insert x l ≡ₚ x :: l.
  Proof.
    induction l as [|y l IH]; simpl; [done|]. case_match; [done|]. rewrite IH. constructor.
  Qed.

Lemma py_sorted_perm l : py_sorted l ≡ₚ l.
  Proof. induction l as [|x l IH]; simpl; [done|]. by rewrite sort_insert_perm, IH. Qed.

Lemma py_sorted_elem x l : x ∈ py_sorted l ↔ x ∈ l.
  Proof. by rewrite py_sorted_perm. Qed.

  (** A list already in order is left alone. *)
Lemma py_sorted_id l : StronglySorted (λ x y, leb x y = true) l → py_sorted l = l.
  Proof.
    induction 1 as [|x l Hs IH Hx]; simpl; [done|]. rewrite IH.
    destruct l as [|y l]; simpl; [done|]. by apply Forall_cons in Hx as [-> _].
  Qed.

  (** Two sorted arrangements of the same elements agree, when the order tells
      the elements apart. *)
Lemma sorted_perm_unique l1 l2 :
    (∀ x y, x ∈ l1 → y ∈ l1 → leb x y = true → leb y x = true → x = y) →
    StronglySorted (λ x y, leb x y = true) l1 → StronglySorted (λ x y, leb x y = true) l2 →
    l1 ≡ₚ l2 → l1 = l2.
  Proof.
    intros Hanti Hs1. revert l2 Hanti. induction Hs1 as [|x l1 Hs1 IH Hx]; intros l2 Hanti Hs2 Hp.
    { symmetry in Hp. by apply Permutation_nil_r in Hp. }
    destruct Hs2 as [|y l2 Hs2 Hy]; [by apply Permutation_nil_r in Hp|].
    assert (x = y) as ->.
    { assert (x ∈ y :: l2) as Hin by (rewrite <-Hp; left).
      assert (y ∈ x :: l1) as Hin' by (rewrite Hp; left).
      apply elem_of_cons in Hin as [|Hin]; [done|]. apply elem_of_cons in Hin' as [|Hin']; [done|].
      rewrite Forall_forall in Hx, Hy. apply Hanti; auto using list_elem_of_here.
      by right. }
    f_equal. apply IH; [|done|by apply Permutation_cons_inv in Hp].
    intros a b Ha Hb. apply Hanti; by right.
  Qed.

  Context (leb_total : ∀ x y, leb x y = true ∨ leb y x = true).
  Context (leb_trans : ∀ x y z, leb x y = true → leb y z = true → leb x z = true).

Lemma sort_insert_sorted x l :
    StronglySorted (λ x y, leb x y = true) l →
    StronglySorted (λ x y, leb x y = true) (sort_insert x l).
  Proof.
    induction 1 as [|y l Hs IH Hy]; simpl; [repeat constructor|].
    destruct (leb x y) eqn:E.
    - constructor; [by constructor|]. constructor; [done|].
      eapply Forall_impl; [done|]. eauto.
    - constructor; [done|]. rewrite Forall_forall. intros z.
      rewrite sort_insert_perm, elem_of_cons. intros [->|Hz].
      + destruct (leb_total x y); congruence.
      + by eapply Forall_forall in Hy.
  Qed.

Lemma py_sorted_sorted l : StronglySorted (λ x y, leb x y = true) (py_sorted l).
  Proof. induction l; simpl; eauto using sort_insert_sorted, SSorted_nil. Qed.
End Sort.

(** ** Strings *)

#[global] Arguments String.append !_ _ /.
#[global] Arguments String.length !_ /.

Lemma string_app_inj_l s s1 s2 : s +:+ s1 = s +:+ s2 → s1 = s2.
Proof. induction s; simpl; [done|]. intros [=]. auto. Qed.

Lemma string_app_assoc (a b c : string) : (a +:+ b) +:+ c = a +:+ b +:+ c.
Proof. induction a; simpl; [done|]. by f_equal. Qed.

Lemma string_app_nil_r (a : string) : a +:+ "" = a.
Proof. induction a; simpl; [done|]. by f_equal. Qed.

Lemma string_length_app a b : String.length (a +:+ b) = String.length a + String.length b.
Proof. induction a; simpl; congruence. Qed.

(** Two texts of equal length followed by anything are recovered. *)
Lemma string_app_inj_length a b s1 s2 :
  String.length a = String.length b → a +:+ s1 = b +:+ s2 → a = b ∧ s1 = s2.
Proof.
  revert b. induction a as [|c a IH]; intros [|c' b]; simpl; try done.
  intros [= Hl] [= -> He]. destruct (IH _ Hl He) as [-> ->]. done.
Qed.

#[export] Hint Rewrite string_app_assoc string_app_nil_r string_length_app : caura.
