(* ===== verification/PyStr.v ===== *)
(** * The [str] methods the modelled code uses

    Characters are code points U+0000-U+00FF, so the classes below are Python's
    ([str.isspace], [str.lower], [\d], [\w]) restricted to Latin-1. *)

From Stdlib Require Export Ascii.
From Stdlib Require Import DecimalString DecimalZ DecimalPos.
From S2P Require Export Prelude.

#[local] Open Scope string_scope.
#[local] Open Scope N_scope.

(** ** Character classes *)

Definition code (c : ascii) : N := Ascii.N_of_ascii c.

Definition in_range (lo hi : N) (c : ascii) : bool := (lo <=? code c) && (code c <=? hi).

(** [\d] *)
Definition is_digit : ascii → bool := in_range 48 57.
(** [[a-z]] and [[A-Z]] *)
Definition is_az : ascii → bool := in_range 97 122.
Definition is_AZ : ascii → bool := in_range 65 90.
(** [[0-9a-fA-F]] *)
Definition is_hex (c : ascii) : bool := is_digit c || in_range 97 102 c || in_range 65 70 c.

(** [str.isspace] *)
Definition is_space (c : ascii) : bool :=
  in_range 9 13 c || in_range 28 32 c || (code c =? 133) || (code c =? 160).

(** [\w]: alphanumeric or underscore. *)
Definition is_word (c : ascii) : bool :=
  is_digit c || is_az c || is_AZ c || (code c =? 95)
  || existsb (N.eqb (code c)) [170; 178; 179; 181; 185; 186; 188; 189; 190]
  || in_range 192 214 c || in_range 216 246 c || in_range 248 255 c.

Definition lower_char (c : ascii) : ascii :=
  if is_AZ c || (in_range 192 222 c && negb (code c =? 215))
  then Ascii.ascii_of_N (code c + 32) else c.

(** ** Methods *)

Fixpoint str_map (f : ascii → ascii) (s : string) : string :=
  match s with "" => "" | String c s => String (f c) (str_map f s) end.

(** [s.lower()] *)
Definition lower : string → string := str_map lower_char.

(** [s.startswith(p)] *)
Fixpoint startswith (p s : string) : bool :=
  match p, s with
  | "", _ => true
  | String c p, String c' s => bool_decide (c = c') && startswith p s
  | String _ _, "" => false
  end.

(** [s.endswith(p)] *)
Fixpoint endswith (p s : string) : bool :=
  bool_decide (s = p) || match s with "" => false | String _ s => endswith p s end.

(** [s.strip(chars)] *)
Fixpoint lstrip_of (f : ascii → bool) (s : string) : string :=
  match s with "" => "" | String c s' => if f c then lstrip_of f s' else s end.
Fixpoint rstrip_of (f : ascii → bool) (s : string) : string :=
  match s with
  | "" => ""
  | String c s' =>
      match rstrip_of f s' with
      | "" => if f c then "" else String c ""
      | r => String c r
      end
  end.
Definition strip_of (f : ascii → bool) (s : string) : string := lstrip_of f (rstrip_of f s).

(** [s.strip()] *)
Definition strip : string → string := strip_of is_space.

(** [s.rsplit(sep, 1)[-1]] for a one-character separator: what follows the last
    separator, the whole string when there is none. *)
Fixpoint after_last (sep : ascii) (s : string) : option string :=
  match s with
  | "" => None
  | String c s' =>
      match after_last sep s' with
      | Some r => Some r
      | None => if bool_decide (c = sep) then Some s' else None
      end
  end.
Definition rsplit_last (sep : ascii) (s : string) : string :=
  default s (after_last sep s).

(** [s.replace(p, "")] for a non-empty [p]: [skip] characters of an occurrence are
    still to drop. *)
Fixpoint remove_from (p : string) (skip : nat) (s : string) : string :=
  match s with
  | "" => ""
  | String c s' =>
      match skip with
      | S k => remove_from p k s'
      | O => if startswith p s then remove_from p (String.length p - 1) s'
             else String c (remove_from p 0 s')
      end
  end.
Definition remove_all (p s : string) : string := remove_from p 0 s.

(** ["%0<w>d" % n] and ["%0<w>x" % n] for [0 <= n < base ** w]. *)
Definition digit_char (d : Z) : ascii :=
  Ascii.ascii_of_N (Z.to_N (if (d <? 10)%Z then 48 + d else 87 + d)).
Fixpoint pad_digits (base : Z) (w : nat) (n : Z) : string :=
  match w with
  | O => ""
  | S w => pad_digits base w (n / base) +:+ String (digit_char (n mod base)) ""
  end.

(** [len(s)] *)
Definition str_len (s : string) : Z := Z.of_nat (String.length s).

(** [s[:n]] *)
Fixpoint str_take (n : nat) (s : string) : string :=
  match n, s with
  | S n, String c s => String c (str_take n s)
  | _, _ => ""
  end.

(** [any(f(c) for c in s)] *)
Fixpoint str_any (f : ascii → bool) (s : string) : bool :=
  match s with "" => false | String c s => f c || str_any f s end.
Fixpoint str_all (f : ascii → bool) (s : string) : bool :=
  match s with "" => true | String c s => f c && str_all f s end.

(** [s.encode("utf-8")]: one byte below U+0080, two bytes from there. *)
Definition utf8_char (c : ascii) : string :=
  if code c <? 128 then String c ""
  else String (Ascii.ascii_of_N (192 + code c / 64))
        (String (Ascii.ascii_of_N (128 + code c mod 64)) "").
Fixpoint utf8 (s : string) : string :=
  match s with "" => "" | String c s => utf8_char c +:+ utf8 s end.

(** [str.partition(sep)] around a separator that is there, and [str.split(sep)]. *)
Fixpoint partition_at (sep : ascii) (s : string) : option (string * string) :=
  match s with
  | "" => None
  | String c s => if Ascii.eqb c sep then Some ("", s) else (λ p, (String c p.1, p.2)) <$> partition_at sep s
  end.
Fixpoint split_on (sep : ascii) (s : string) : list string :=
  match s with
  | "" => [""]
  | String c s =>
      if Ascii.eqb c sep then "" :: split_on sep s
      else match split_on sep s with [] => [String c ""] | w :: ws => String c w :: ws end
  end.

(** [str(n)] for an [int]. *)
Definition str_of_Z (z : Z) : string := DecimalString.NilZero.string_of_int (Z.to_int z).

(** Comparison by code point, as [sorted] compares strings. *)
Definition str_leb (a b : string) : bool := String.leb a b.

(** ** Lemmas *)

Lemma partition_at_first sep a b :
  str_all (λ c, negb (Ascii.eqb c sep)) a = true → partition_at sep (a +:+ String sep b) = Some (a, b).
Proof.
  induction a as [|c a IH]; cbn; [by rewrite Ascii.eqb_refl|]. intros [Hc Ha]%andb_true_iff.
  apply negb_true_iff in Hc. rewrite Hc, IH; done.
Qed.
Lemma startswith_spec p s : startswith p s = true ↔ ∃ r, s = p +:+ r.
Proof.
  revert s. induction p as [|c p IH]; intros s; simpl.
  - split; [|done]. intros _. by exists s.
  - destruct s as [|c' s]; simpl.
    + split; [done|]. by intros (r & ?).
    + rewrite andb_true_iff, bool_decide_eq_true, IH. split.
      * intros [-> [r ->]]. by exists r.
      * intros (r & [= -> ->]). eauto.
Qed.

Lemma endswith_spec p s : endswith p s = true ↔ ∃ r, s = r +:+ p.
Proof.
  induction s as [|c s IH]; simpl; rewrite orb_true_iff, bool_decide_eq_true.
  - split.
    + intros [<-|?]; [by exists ""|done].
    + intros ([|] & Hr); [by left|done].
  - rewrite IH. split.
    + intros [<-|[r ->]]; [by exists ""|by exists (String c r)].
    + intros ([|c' r] & Hr); [by left|]. injection Hr as -> ->. right. by exists r.
Qed.

Lemma to_int_nonnil z : Z.to_int z ≠ Decimal.Pos Decimal.Nil ∧ Z.to_int z ≠ Decimal.Neg Decimal.Nil.
Proof.
  destruct z as [|p|p]; simpl; split; try done;
    intros [= H]; by apply DecimalPos.Unsigned.to_uint_nonnil in H.
Qed.

Lemma str_of_Z_inj z1 z2 : str_of_Z z1 = str_of_Z z2 → z1 = z2.
Proof.
  unfold str_of_Z. intros H.
  apply (f_equal DecimalString.NilZero.int_of_string) in H.
  destruct (to_int_nonnil z1), (to_int_nonnil z2).
  rewrite !DecimalString.NilZero.isi in H by done.
  apply DecimalZ.to_int_inj. by injection H.
Qed.

Lemma pad_digits_length base w n : String.length (pad_digits base w n) = w.
Proof.
  revert n. induction w as [|w IH]; intros n; simpl; [done|].
  rewrite string_length_app, IH. simpl. lia.
Qed.

Lemma digit_char_inj d d' :
  (0 <= d < 16 → 0 <= d' < 16 → digit_char d = digit_char d' → d = d')%Z.
Proof.
  intros Hd Hd' H.
  assert (∀ k, 0 <= k < 16 → Z.of_N (code (digit_char k)) = if k <? 10 then 48 + k else 87 + k)%Z
    as Hc.
  { intros k Hk. unfold code, digit_char. rewrite Ascii.N_ascii_embedding.
    - case_match; lia.
    - case_match; lia. }
  apply (f_equal (λ c, Z.of_N (code c))) in H. rewrite !Hc in H by done.
  destruct (Z.ltb_spec d 10), (Z.ltb_spec d' 10); lia.
Qed.

Lemma pad_digits_inj base w n n' :
  (2 <= base <= 16 → 0 <= n < base ^ Z.of_nat w → 0 <= n' < base ^ Z.of_nat w →
   pad_digits base w n = pad_digits base w n' → n = n')%Z.
Proof.
  intros Hb. revert n n'. induction w as [|w IH]; intros n n' Hn Hn'; simpl.
  { change (Z.of_nat 0) with 0%Z in *. simpl in *. lia. }
  intros H. apply string_app_inj_length in H as [H Hd]; [|by rewrite !pad_digits_length].
  injection Hd as Hd. apply digit_char_inj in Hd; [|pose proof (Z.mod_pos_bound n base); lia
    |pose proof (Z.mod_pos_bound n' base); lia].
  rewrite Nat2Z.inj_succ, Z.pow_succ_r in Hn, Hn' by lia.
  apply IH in H.
  - rewrite (Z.div_mod n base), (Z.div_mod n' base) by lia. congruence.
  - split; [apply Z.div_pos; lia|apply Z.div_lt_upper_bound; lia].
  - split; [apply Z.div_pos; lia|apply Z.div_lt_upper_bound; lia].
Qed.

(** [sorted] on strings is a total order. *)
Lemma str_leb_total a b : str_leb a b = true ∨ str_leb b a = true.
Proof. apply String.leb_total. Qed.

Lemma str_leb_antisym a b : str_leb a b = true → str_leb b a = true → a = b.
Proof. apply String.leb_antisym. Qed.

Lemma str_leb_cons c a d b :
  str_leb (String c a) (String d b) =
    match (code c ?= code d) with Lt => true | Gt => false | Eq => str_leb a b end.
Proof.
  unfold str_leb, String.leb. simpl. unfold Ascii.compare, code.
  by destruct (_ ?= _).
Qed.

Lemma str_leb_trans a b c : str_leb a b = true → str_leb b c = true → str_leb a c = true.
Proof.
  revert b c. induction a as [|x a IH]; intros [|y b] [|z c]; try done.
  rewrite !str_leb_cons.
  destruct (N.compare_spec (code x) (code y)), (N.compare_spec (code y) (code z)),
    (N.compare_spec (code x) (code z)); try done; try lia; eauto.
Qed.

(** ** Colon-separated fields *)

Definition no_colon (s : string) : bool := str_all (λ c, negb (bool_decide (c = ":"%char))) s.

Lemma colon_split a b x y :
  no_colon a = true → no_colon b = true →
  a +:+ String ":" x = b +:+ String ":" y → a = b ∧ x = y.
Proof.
  revert b. unfold no_colon. induction a as [|c a IH]; intros [|d b]; simpl.
  - by intros _ _ [=].
  - intros _ Hb [= <- _]. done.
  - intros Ha _ [= -> _]. done.
  - intros [_ Ha]%andb_true_iff [_ Hb]%andb_true_iff [= -> H].
    by destruct (IH _ Ha Hb H) as [-> ->].
Qed.

Lemma digits_no_colon d : no_colon (DecimalString.NilEmpty.string_of_uint d) = true.
Proof. unfold no_colon. by induction d. Qed.

Lemma str_of_Z_no_colon z : no_colon (str_of_Z z) = true.
Proof.
  assert (∀ d, no_colon (DecimalString.NilZero.string_of_uint d) = true) as H.
  { intros []; [done|..]; exact (digits_no_colon _). }
  unfold str_of_Z. destruct (Z.to_int z) as [d|d]; simpl; [apply H|]. exact (H d).
Qed.
