(* ===== verification/PyVal.v ===== *)
(** * Python values

    The JSON-shaped values the services pass around (request bodies, metadata,
    settings, audit details), their equality, their truth value, and the
    operations of [dict] the modelled code uses.

    - [int] is [Z] (Python integers are unbounded).
    - [float] is an IEEE-754 value in the Standard Library's [spec_float]:
      a finite one is [± m * 2 ^ e].
    - [str] is a [string] whose characters are the code points U+0000-U+00FF.
    - [dict] is the list of its items in insertion order, keys unique. *)

From Stdlib Require Import SpecFloat.
From S2P Require Import Prelude.

#[local] Set Warnings "-register-all".

Inductive pyval : Type :=
| PNone
| PBool (b : bool)
| PInt (z : Z)
| PFloat (f : spec_float)
| PStr (s : string)
| PList (l : list pyval)
| PDict (d : list (string * pyval)).

#[global] Instance spec_float_eq_dec : EqDecision spec_float.
Proof. solve_decision. Defined.

(** ** dict *)

Section Dict.
  Context {V : Type}.
  Implicit Types d : list (string * V).

  (** [d.get(k)] *)
Fixpoint dict_get (k : string) d : option V :=
    match d with
    | [] => None
    | (k', v) :: d => if bool_decide (k = k') then Some v else dict_get k d
    end.

  (** [k in d] *)
Definition dict_mem (k : string) d : bool :=
    match dict_get k d with Some _ => true | None => false end.

  (** [d[k] = v]: a present key keeps its position, a new one goes last. *)
Fixpoint dict_set (k : string) (v : V) d : list (string * V) :=
    match d with
    | [] => [(k, v)]
    | (k', v') :: d =>
        if bool_decide (k = k') then (k', v) :: d else (k', v') :: dict_set k v d
    end.

  (** [d.pop(k, None)] *)
Definition dict_pop (k : string) d : list (string * V) :=
    filter (λ kv, kv.1 ≠ k) d.

  (** [d.update(d')], and [{**d, **d'}] *)
Definition dict_update d d' : list (string * V) :=
    foldl (λ acc kv, dict_set kv.1 kv.2 acc) d d'.

Definition dict_keys d : list string := d.*1.
End Dict.

(** ** Numbers *)

(** [float.is_integer] *)
Definition float_is_integer (f : spec_float) : bool :=
  match f with
  | S754_zero _ => true
  | S754_finite _ m e =>
      if (0 <=? e)%Z then true else (Z.pos m mod 2 ^ (- e) =? 0)%Z
  | S754_infinity _ | S754_nan => false
  end.

(** [int(f)] for a finite float: truncation towards zero. *)
Definition float_to_Z (f : spec_float) : Z :=
  match f with
  | S754_finite s m e =>
      let a := if (0 <=? e)%Z then (Z.pos m * 2 ^ e)%Z else (Z.pos m / 2 ^ (- e))%Z in
      if s then (- a)%Z else a
  | _ => 0%Z
  end.

(** A number of the tower bool < int < float, as [m * 2 ^ e]. *)
Inductive num : Type :=
| NDyadic (m e : Z)
| NInf (neg : bool)
| NNan.

Definition num_of (v : pyval) : option num :=
  match v with
  | PBool b => Some (NDyadic (if b then 1 else 0) 0)
  | PInt z => Some (NDyadic z 0)
  | PFloat (S754_zero _) => Some (NDyadic 0 0)
  | PFloat (S754_infinity s) => Some (NInf s)
  | PFloat S754_nan => Some NNan
  | PFloat (S754_finite s m e) => Some (NDyadic (if s then Z.neg m else Z.pos m) e)
  | _ => None
  end.

(** Exact comparison, as Python compares an int with a float. *)
Definition dyadic_cmp (m1 e1 m2 e2 : Z) : comparison :=
  let e := Z.min e1 e2 in
  (m1 * 2 ^ (e1 - e) ?= m2 * 2 ^ (e2 - e))%Z.

Definition num_eqb (a b : num) : bool :=
  match a, b with
  | NDyadic m1 e1, NDyadic m2 e2 =>
      match dyadic_cmp m1 e1 m2 e2 with Eq => true | _ => false end
  | NInf s, NInf t => Bool.eqb s t
  | _, _ => false
  end.

(** ** Equality and truth *)

(** [a == b] *)
Fixpoint py_eqb (a b : pyval) {struct a} : bool :=
  match a, b with
  | PNone, PNone => true
  | PStr s, PStr t => bool_decide (s = t)
  | PList l, PList l' =>
      (fix go l l' := match l, l' with
        | [], [] => true
        | x :: l, y :: l' => py_eqb x y && go l l'
        | _, _ => false
        end) l l'
  | PDict d, PDict d' =>
      (length d =? length d') &&
      forallb (λ kv, match dict_get kv.1 d' with
                     | Some w => py_eqb kv.2 w
                     | None => false
                     end) d
  | _, _ =>
      match num_of a, num_of b with
      | Some x, Some y => num_eqb x y
      | _, _ => false
      end
  end.

(** [bool(v)] *)
Definition truthy (v : pyval) : bool :=
  match v with
  | PNone => false
  | PBool b => b
  | PInt z => negb (z =? 0)%Z
  | PFloat (S754_zero _) => false
  | PFloat _ => true
  | PStr s => negb (bool_decide (s = ""%string))
  | PList l => match l with [] => false | _ => true end
  | PDict d => match d with [] => false | _ => true end
  end.

(** [isinstance(v, dict)] and the like. *)
Definition as_dict (v : pyval) : option (list (string * pyval)) :=
  match v with PDict d => Some d | _ => None end.
Definition as_str (v : pyval) : option string :=
  match v with PStr s => Some s | _ => None end.
Definition as_list (v : pyval) : option (list pyval) :=
  match v with PList l => Some l | _ => None end.

(** ** Well-formed values: the keys of every dict are unique. *)
Fixpoint wf_val (v : pyval) : Prop :=
  match v with
  | PList l => (fix go l := match l with [] => True | x :: l => wf_val x ∧ go l end) l
  | PDict d => NoDup (d.*1) ∧
      (fix go d := match d with [] => True | kv :: d => wf_val kv.2 ∧ go d end) d
  | _ => True
  end.

(** ** Induction through lists and dicts *)
Section PyvalInd.
  Context (P : pyval → Prop).
  Context (HNone : P PNone) (HBool : ∀ b, P (PBool b)) (HInt : ∀ z, P (PInt z))
    (HFloat : ∀ f, P (PFloat f)) (HStr : ∀ s, P (PStr s))
    (HList : ∀ l, Forall P l → P (PList l))
    (HDict : ∀ d, Forall (λ kv, P kv.2) d → P (PDict d)).

Fixpoint pyval_rect' (v : pyval) : P v :=
    match v with
    | PNone => HNone
    | PBool b => HBool b
    | PInt z => HInt z
    | PFloat f => HFloat f
    | PStr s => HStr s
    | PList l => HList l
        ((fix go l := match l return Forall P l with
          | [] => Forall_nil_2 P
          | x :: l => Forall_cons_2 P x l (pyval_rect' x) (go l)
          end) l)
    | PDict d => HDict d
        ((fix go d := match d return Forall (λ kv, P kv.2) d with
          | [] => Forall_nil_2 _
          | kv :: d => Forall_cons_2 (λ kv, P kv.2) kv d (pyval_rect' kv.2) (go d)
          end) d)
    end.
End PyvalInd.

Definition pyval_nested_ind := pyval_rect'.

(** Decidable Leibniz equality. *)
Fixpoint pyval_beq (a b : pyval) {struct a} : bool :=
  match a, b with
  | PNone, PNone => true
  | PBool x, PBool y => Bool.eqb x y
  | PInt x, PInt y => (x =? y)%Z
  | PFloat x, PFloat y => bool_decide (x = y)
  | PStr s, PStr t => bool_decide (s = t)
  | PList l, PList l' =>
      (fix go l l' := match l, l' with
        | [], [] => true
        | x :: l, y :: l' => pyval_beq x y && go l l'
        | _, _ => false
        end) l l'
  | PDict d, PDict d' =>
      (fix go d d' := match d, d' with
        | [], [] => true
        | (k, x) :: d, (k', y) :: d' => bool_decide (k = k') && pyval_beq x y && go d d'
        | _, _ => false
        end) d d'
  | _, _ => false
  end.

Lemma pyval_beq_eq a b : pyval_beq a b = true ↔ a = b.
Proof.
  revert b. induction a as [| | | | |l IH|d IH] using pyval_nested_ind;
    intros [| | | | |l'|d']; simpl; try (split; done).
  - rewrite eqb_true_iff. naive_solver.
  - rewrite Z.eqb_eq. naive_solver.
  - rewrite bool_decide_eq_true. naive_solver.
  - rewrite bool_decide_eq_true. naive_solver.
  - revert l'. induction IH as [|x l Hx _ IHl]; intros [|y l']; try (split; done).
    rewrite andb_true_iff, Hx, IHl. naive_solver.
  - revert d'. induction IH as [|[k x] d Hx _ IHl]; intros [|[k' y] d']; try (split; done).
    simpl in Hx. rewrite !andb_true_iff, Hx, IHl, bool_decide_eq_true. naive_solver.
Qed.

#[global] Instance pyval_eq_dec : EqDecision pyval.
Proof.
  intros a b. destruct (pyval_beq a b) eqn:E.
  - left. by apply pyval_beq_eq.
  - right. intros H. apply pyval_beq_eq in H. congruence.
Defined.

(** ** Lemmas on dicts *)
Section DictFacts.
  Context {V : Type}.
  Implicit Types d : list (string * V).

Lemma dict_get_set k v d k' :
    dict_get k' (dict_set k v d) = if bool_decide (k' = k) then Some v else dict_get k' d.
  Proof.
    induction d as [|[k0 v0] d IH]; simpl; [done|].
    destruct (decide (k = k0)) as [->|Hk].
    - rewrite bool_decide_true by done. simpl. by repeat case_bool_decide; subst.
    - rewrite bool_decide_false by done. simpl. rewrite IH.
      by repeat case_bool_decide; subst.
  Qed.

Lemma dict_get_set_eq k v d : dict_get k (dict_set k v d) = Some v.
  Proof. by rewrite dict_get_set, bool_decide_true. Qed.

Lemma dict_get_set_ne k k' v d : k' ≠ k → dict_get k' (dict_set k v d) = dict_get k' d.
  Proof. intros. by rewrite dict_get_set, bool_decide_false. Qed.

Lemma dict_get_pop k k' d :
    dict_get k' (dict_pop k d) = if bool_decide (k' = k) then None else dict_get k' d.
  Proof.
    unfold dict_pop. induction d as [|[k0 v0] d IH]; simpl; [by case_bool_decide|].
    rewrite filter_cons; simpl.
    repeat (case_decide || case_bool_decide; simplify_eq/=; try done).
  Qed.

Lemma dict_get_elem k v d : dict_get k d = Some v → (k, v) ∈ d.
  Proof.
    induction d as [|[k0 v0] d IH]; simpl; [done|].
    case_bool_decide; intros; simplify_eq; [left|right; auto].
  Qed.

Lemma dict_get_None k d : dict_get k d = None ↔ k ∉ d.*1.
  Proof.
    induction d as [|[k0 v0] d IH]; simpl; [set_solver|].
    case_bool_decide; set_solver.
  Qed.

Lemma dict_get_NoDup k v d : NoDup (d.*1) → (k, v) ∈ d → dict_get k d = Some v.
  Proof.
    induction d as [|[k0 v0] d IH]; simpl; [set_solver|].
    intros [Hn Hd]%NoDup_cons Hin. case_bool_decide.
    - subst. apply elem_of_cons in Hin as [|Hin]; [congruence|].
      exfalso. apply Hn, list_elem_of_fmap. by exists (k0, v).
    - apply elem_of_cons in Hin as [|Hin]; [congruence|]. auto.
  Qed.

Lemma dict_set_keys k v d :
    (dict_set k v d).*1 = if dict_mem k d then d.*1 else d.*1 ++ [k].
  Proof.
    unfold dict_mem. induction d as [|[k0 v0] d IH]; simpl; [done|].
    case_bool_decide; simplify_eq/=; [done|]. rewrite IH. by destruct (dict_get k d).
  Qed.

Lemma dict_set_NoDup k v d : NoDup (d.*1) → NoDup ((dict_set k v d).*1).
  Proof.
    intros Hd. rewrite dict_set_keys. unfold dict_mem.
    destruct (dict_get k d) eqn:E; [done|]. apply dict_get_None in E.
    apply NoDup_app. split_and!; [done| |apply NoDup_singleton]. set_solver.
  Qed.

Lemma dict_pop_NoDup k d : NoDup (d.*1) → NoDup ((dict_pop k d).*1).
  Proof.
    unfold dict_pop. induction d as [|[k0 v0] d IH]; simpl; [done|].
    intros [Hn Hd]%NoDup_cons. rewrite filter_cons; simpl. case_decide; [|auto].
    simpl. apply NoDup_cons. split; [|auto].
    intros (x & -> & Hx)%list_elem_of_fmap. apply Hn, list_elem_of_fmap.
    apply list_elem_of_filter in Hx as [_ Hx]. eauto.
  Qed.

Lemma dict_mem_true k d : dict_mem k d = true ↔ k ∈ d.*1.
  Proof.
    unfold dict_mem. destruct (dict_get k d) eqn:E.
    - split; [|done]. intros _. apply dict_get_elem in E.
      apply list_elem_of_fmap. by exists (k, v).
    - apply dict_get_None in E. done.
  Qed.
End DictFacts.

Lemma dict_get_fmap {V W} (f : V → W) k (d : list (string * V)) :
  dict_get k ((λ kv, (kv.1, f kv.2)) <$> d) = f <$> dict_get k d.
Proof. induction d as [|[k' v] d IH]; simpl; [done|]. by case_bool_decide. Qed.

Lemma dict_keys_fmap {V W} (f : V → W) (d : list (string * V)) :
  ((λ kv, (kv.1, f kv.2)) <$> d).*1 = d.*1.
Proof. induction d as [|[k' v] d IH]; simpl; [done|]. by f_equal. Qed.

Lemma dict_mem_fmap {V W} (f : V → W) k (d : list (string * V)) :
  dict_mem k ((λ kv, (kv.1, f kv.2)) <$> d) = dict_mem k d.
Proof. unfold dict_mem. rewrite dict_get_fmap. by destruct (dict_get k d). Qed.

#[export] Hint Resolve dict_set_NoDup dict_pop_NoDup dict_get_set_eq : caura.

Lemma wf_dict d : wf_val (PDict d) ↔ NoDup (d.*1) ∧ Forall (λ kv, wf_val kv.2) d.
Proof.
  simpl. apply and_iff_compat_l. induction d; [done|].
  rewrite Forall_cons, IHd. done.
Qed.

Lemma wf_list l : wf_val (PList l) ↔ Forall wf_val l.
Proof. simpl. induction l; [done|]. rewrite Forall_cons, IHl. done. Qed.

(** Well-formedness is decidable. *)
Fixpoint wf_valb (v : pyval) : bool :=
  match v with
  | PList l => forallb wf_valb l
  | PDict d => bool_decide (NoDup (d.*1)) && forallb (λ kv, wf_valb kv.2) d
  | _ => true
  end.

Lemma wf_valb_spec v : wf_valb v = true ↔ wf_val v.
Proof.
  induction v as [| | | | |l IH|d IH] using pyval_nested_ind; try done.
  - rewrite wf_list. simpl. induction IH as [|x l Hx _ IHl]; [done|].
    simpl. by rewrite andb_true_iff, Forall_cons, Hx, IHl.
  - rewrite wf_dict. simpl. rewrite andb_true_iff, bool_decide_eq_true.
    apply and_iff_compat_l. induction IH as [|x l Hx _ IHl]; [done|].
    simpl. by rewrite andb_true_iff, Forall_cons, Hx, IHl.
Qed.
