(* ===== verification/SettingsMerge.v ===== *)
(** * Organization settings: merge, diff and the transactional update

    [common/organization_settings_merge.py] and the update transaction of
    [PostgresService.organization_settings_update]. Settings and diffs are
    Python values ([PyVal]); one organization's row is the value it holds, the
    audit table the list of diffs written. *)

From S2P Require Import PyStr PyVal.

#[local] Open Scope string_scope.

(** ** Merging *)

Fixpoint deep_merge (old new : pyval) {struct new} : pyval :=
  match old, new with
  | PDict o, PDict n =>
      PDict ((fix go (out n : list (string * pyval)) {struct n} :=
        match n with
        | [] => out
        | (k, v) :: n =>
            go (match v, dict_get k out with
                | PDict _, Some (PDict od) => dict_set k (deep_merge (PDict od) v) out
                | _, _ => dict_set k v out
                end) n
        end) o n)
  | _, _ => new
  end.

Fixpoint merge_settings_update (old new : pyval) {struct new} : pyval :=
  match old, new with
  | PDict o, PDict n =>
      PDict ((fix go (out n : list (string * pyval)) {struct n} :=
        match n with
        | [] => out
        | (k, v) :: n =>
            go (match v, dict_get k out with
                | PNone, _ => dict_pop k out
                | PDict _, Some (PDict od) =>
                    dict_set k (merge_settings_update (PDict od) v) out
                | PDict _, _ => dict_set k (merge_settings_update (PDict []) v) out
                | _, _ => dict_set k v out
                end) n
        end) o n)
  | _, _ => new
  end.

(** ** Diffing *)

Definition secret_section_prefixes : list string := ["api_keys."].
Definition secret_leaf_suffixes : list string :=
  ["_token"; "_secret"; "_api_key"; "_password"].

Definition is_secret_path (path : string) : bool :=
  existsb (λ p, startswith p path) secret_section_prefixes ||
  existsb (λ p, endswith p (lower (rsplit_last "." path))) secret_leaf_suffixes.

Definition mask (value : pyval) : pyval :=
  match value with
  | PNone => PNone
  | PStr "" => PStr ""
  | _ => PStr "****"
  end.

Fixpoint diff_settings (old new : pyval) (prefix : string) {struct new}
  : list (string * pyval) :=
  match new with
  | PDict n =>
      (fix go (out n : list (string * pyval)) {struct n} :=
        match n with
        | [] => out
        | (k, new_v) :: n =>
            let path := prefix +:+ k in
            let old_v := match old with
                         | PDict o => default PNone (dict_get k o)
                         | _ => PNone
                         end in
            go (match new_v with
                | PDict _ =>
                    let old_dict := match old_v with PDict _ => old_v | _ => PDict [] end in
                    dict_update out (diff_settings old_dict new_v (path +:+ "."))
                | _ =>
                    if py_eqb new_v old_v then out
                    else if is_secret_path path
                    then dict_set path (PList [mask old_v; mask new_v]) out
                    else dict_set path (PList [old_v; new_v]) out
                end) n
        end) [] n
  | _ => []
  end.

(** ** The update transaction *)

(** What one organization has in the two tables. *)
Record org_store := OrgStore {
  os_row : option pyval;               (* organization_settings.settings *)
  os_audit : list (list (string * pyval));   (* diffs, newest first *)
}.

Record update_reply := UpdateReply { ur_settings : pyval; ur_changed : bool }.

Definition row_dict (row : pyval) : pyval :=
  match row with PDict _ => row | _ => PDict [] end.

(** [_locked_overrides]: the row under [FOR UPDATE], [None] if absent. *)
Definition locked_overrides (st : org_store) : option pyval := row_dict <$> os_row st.

(** The update of a row that exists, held by the lock. *)
Definition update_locked (current new_settings : pyval) (st : org_store)
  : update_reply * org_store :=
  let diff := diff_settings current new_settings "" in
  match diff with
  | [] => (UpdateReply current false, st)
  | _ =>
      let merged := merge_settings_update current new_settings in
      (UpdateReply merged true, OrgStore (Some merged) (diff :: os_audit st))
  end.

(** [organization_settings_update]. [FOR UPDATE] locks nothing when the row is
    absent, so another transaction may commit the row between that read and this
    one's claim: [before_claim] is the store as the [INSERT] finds it. *)
Definition organization_settings_update (new_settings : pyval) (st before_claim : org_store)
  : update_reply * org_store :=
  match locked_overrides st with
  | Some current => update_locked current new_settings st
  | None =>
      let seed_diff := diff_settings (PDict []) new_settings "" in
      match seed_diff with
      | [] => (UpdateReply (PDict []) false, before_claim)
      | _ =>
          let seeded := merge_settings_update (PDict []) new_settings in
          match os_row before_claim with
          | None => (UpdateReply seeded true,
                     OrgStore (Some seeded) (seed_diff :: os_audit before_claim))
          | Some row => update_locked (row_dict row) new_settings before_claim
          end
      end
  end.

(** [organization_settings_encrypt_api_keys]: swap the plaintext keys that are
    still what core-api read for its ciphertext. *)
Definition encrypted_setting_prefixes : list string := ["enc:v1:"; "enc:v2:"].

Definition key_swap (stored : list (string * pyval)) (expected encrypted : list (string * string))
  : list (string * pyval) :=
  omap (λ nv : string * string,
    let e := default "" (dict_get nv.1 encrypted) in
    if existsb (λ p, startswith p e) encrypted_setting_prefixes
       && py_eqb (default PNone (dict_get nv.1 stored)) (PStr nv.2)
    then Some (nv.1, PStr e) else None) expected.

Definition organization_settings_encrypt_api_keys
    (expected encrypted : list (string * string)) (st : org_store)
  : list string * org_store :=
  match os_row st with
  | Some (PDict cur) =>
      match dict_get "api_keys" cur with
      | Some (PDict stored) =>
          match key_swap stored expected encrypted with
          | [] => ([], st)
          | swap =>
              let patch := PDict [("api_keys", PDict swap)] in
              (py_sorted str_leb (swap.*1),
               OrgStore (Some (merge_settings_update (PDict cur) patch))
                 (diff_settings (PDict cur) patch "" :: os_audit st))
          end
      | _ => ([], st)
      end
  | _ => ([], st)
  end.

(** ** The merge as a fold of one-key updates *)

Definition msu_value (v : pyval) (old : option pyval) : pyval :=
  match v, old with
  | PDict _, Some (PDict od) => merge_settings_update (PDict od) v
  | PDict _, _ => merge_settings_update (PDict []) v
  | _, _ => v
  end.

Definition msu_step (out : list (string * pyval)) (kv : string * pyval) :=
  match kv.2 with
  | PNone => dict_pop kv.1 out
  | v => dict_set kv.1 (msu_value v (dict_get kv.1 out)) out
  end.

Lemma merge_settings_update_dict o n :
  merge_settings_update (PDict o) (PDict n) = PDict (foldl msu_step o n).
Proof.
  simpl. f_equal. revert o. induction n as [|[k v] n IH]; intros o; simpl; [done|].
  rewrite <-IH. f_equal. unfold msu_step, msu_value; simpl.
  destruct v; try done. by repeat case_match.
Qed.

Lemma dict_set_id {V} k (v : V) d : dict_get k d = Some v → dict_set k v d = d.
Proof.
  induction d as [|[k' v'] d IH]; simpl; [done|].
  case_bool_decide; intros; simplify_eq; [done|]. by rewrite IH.
Qed.

Lemma dict_pop_id {V} k (d : list (string * V)) : dict_get k d = None → dict_pop k d = d.
Proof.
  unfold dict_pop. induction d as [|[k' v] d IH]; simpl; [done|].
  case_bool_decide; [done|]. intros Hk. rewrite filter_cons_True by done. by rewrite IH.
Qed.

(** What one update leaves at a key it names, and that it touches no other. *)
Definition msu_post (v : pyval) (old : option pyval) : option pyval :=
  match v with PNone => None | _ => Some (msu_value v old) end.

Lemma msu_step_get out k v k' :
  dict_get k' (msu_step out (k, v)) =
    if bool_decide (k' = k) then msu_post v (dict_get k out) else dict_get k' out.
Proof.
  unfold msu_step, msu_post; simpl.
  destruct v; rewrite ?dict_get_set, ?dict_get_pop; by case_bool_decide; subst.
Qed.

Lemma msu_fold_get_other o n k :
  k ∉ n.*1 → dict_get k (foldl msu_step o n) = dict_get k o.
Proof.
  revert o. induction n as [|[k' v] n IH]; intros o; simpl; [done|].
  intros [Hk Hn]%not_elem_of_cons. rewrite IH by done.
  by rewrite msu_step_get, bool_decide_false.
Qed.

Lemma msu_fold_get o n k v :
  NoDup (n.*1) → (k, v) ∈ n →
  dict_get k (foldl msu_step o n) = msu_post v (dict_get k o).
Proof.
  revert o. induction n as [|[k' v'] n IH]; intros o; simpl; [set_solver|].
  intros [Hk Hn]%NoDup_cons [[= -> ->]|Hin]%elem_of_cons.
  - by rewrite msu_fold_get_other, msu_step_get, bool_decide_true.
  - rewrite IH by done. f_equal. rewrite msu_step_get, bool_decide_false; [done|].
    intros ->. apply Hk, list_elem_of_fmap. by exists (k', v).
Qed.

(** Applying the same key again changes nothing once its value has settled. *)
Definition settled (out : list (string * pyval)) (kv : string * pyval) : Prop :=
  match kv.2 with
  | PNone => dict_get kv.1 out = None
  | v => ∃ w, dict_get kv.1 out = Some w ∧ msu_value v (Some w) = w
  end.

Lemma msu_step_settled out kv : settled out kv → msu_step out kv = out.
Proof.
  destruct kv as [k v]. unfold settled, msu_step; simpl.
  destruct v; try apply dict_pop_id; intros (w & Hw & E);
    apply dict_set_id; rewrite Hw; simpl in *; congruence.
Qed.

Lemma msu_fold_settled out n : Forall (settled out) n → foldl msu_step out n = out.
Proof. induction 1; simpl; [done|]. by rewrite msu_step_settled. Qed.

Lemma merge_result_dict o n : ∃ d, merge_settings_update (PDict o) (PDict n) = PDict d.
Proof. rewrite merge_settings_update_dict. eauto. Qed.

(** ** No stored nulls *)

Fixpoint no_null (v : pyval) : Prop :=
  match v with
  | PDict d => (fix go d := match d with
      | [] => True
      | kv :: d => kv.2 ≠ PNone ∧ no_null kv.2 ∧ go d
      end) d
  | _ => True
  end.

Lemma no_null_dict d : no_null (PDict d) ↔ Forall (λ kv, kv.2 ≠ PNone ∧ no_null kv.2) d.
Proof.
  simpl. induction d as [|kv d IH]; [done|]. rewrite Forall_cons, IH. tauto.
Qed.

Lemma dict_set_Forall {V} (P : string * V → Prop) k v d :
  P (k, v) → Forall P d → Forall P (dict_set k v d).
Proof.
  intros Hv. induction 1 as [|[k' v'] d Hx Hd IH]; simpl; [by constructor|].
  case_bool_decide; subst; constructor; auto.
Qed.

Lemma dict_update_Forall {V} (P : string * V → Prop) d d' :
  Forall P d → Forall P d' → Forall P (dict_update d d').
Proof.
  intros Hd Hd'. revert d Hd. unfold dict_update.
  induction Hd' as [|[k v] d' Hx _ IH]; intros d Hd; simpl; [done|].
  apply IH. by apply dict_set_Forall.
Qed.

Lemma dict_get_Forall {V} (P : string * V → Prop) k v d :
  Forall P d → dict_get k d = Some v → P (k, v).
Proof. intros Hd Hk. by eapply Forall_forall in Hd; [|apply dict_get_elem]. Qed.

Lemma msu_step_no_null out k v :
  (∀ old, no_null (PDict old) → no_null (merge_settings_update (PDict old) v)) →
  no_null (PDict out) → no_null (PDict (msu_step out (k, v))).
Proof.
  intros IH Hout. rewrite no_null_dict in Hout |- *. unfold msu_step; simpl.
  assert (∀ w, no_null w → w ≠ PNone →
    Forall (λ kv, kv.2 ≠ PNone ∧ no_null kv.2) (dict_set k w out)) as Hset.
  { intros w Hw Hn. apply dict_set_Forall; simpl; auto. }
  destruct v as [| | | | | |n].
  { eapply Forall_forall. intros kv [_ Hin]%list_elem_of_filter.
    by eapply Forall_forall in Hout. }
  all: try by apply Hset.
  change (Forall (λ kv, kv.2 ≠ PNone ∧ no_null kv.2)
    (dict_set k (msu_value (PDict n) (dict_get k out)) out)).
  assert (∃ old, no_null (PDict old) ∧
    msu_value (PDict n) (dict_get k out) = merge_settings_update (PDict old) (PDict n))
    as (old & Hold & ->).
  { destruct (dict_get k out) as [[| | | | | |od]|] eqn:E;
      try (by exists []). exists od. split; [|done].
    by apply (dict_get_Forall _ _ _ _ Hout) in E as [_ ?]. }
  apply Hset; [auto|]. by destruct (merge_result_dict old n) as [d ->].
Qed.

Lemma msu_no_null n old :
  no_null (PDict old) → no_null (merge_settings_update (PDict old) (PDict n)).
Proof.
  revert old. assert (∀ v old, no_null (PDict old) →
    match v with PDict _ => no_null (merge_settings_update (PDict old) v) | _ => True end)
    as H; [|exact (λ old, H (PDict n) old)].
  intros v. induction v as [| | | | | |d IH] using pyval_nested_ind; try done.
  intros old. rewrite merge_settings_update_dict. revert old.
  induction IH as [|[k v] d Hv _ IHd]; intros old Hold; simpl; [done|].
  apply IHd. apply msu_step_no_null; [|done]. intros o Ho. simpl in Hv.
  destruct v; try done. by apply Hv.
Qed.

Lemma msu_idem n o :
  wf_val (PDict n) →
  merge_settings_update (merge_settings_update (PDict o) (PDict n)) (PDict n)
  = merge_settings_update (PDict o) (PDict n).
Proof.
  revert o. assert (∀ v, wf_val v → ∀ o, match v with
    | PDict _ => merge_settings_update (merge_settings_update (PDict o) v) v
                 = merge_settings_update (PDict o) v
    | _ => True end) as H; [|exact (λ o Hn, H (PDict n) Hn o)].
  intros v. induction v as [| | | | | |d IH] using pyval_nested_ind; try done.
  intros [Hnd Hwf]%wf_dict o. rewrite !merge_settings_update_dict. f_equal. apply msu_fold_settled.
  apply Forall_forall. intros [k v] Hin. unfold settled; simpl.
  rewrite (msu_fold_get o d k v) by done.
  eapply Forall_forall in IH, Hwf; [|done..]. simpl in IH, Hwf. specialize (IH Hwf).
  destruct v as [| | | | | |m]; try done; try (eexists; split; done).
  eexists. split; [reflexivity|].
  assert (∀ od, msu_value (PDict m) (Some (merge_settings_update (PDict od) (PDict m)))
    = merge_settings_update (PDict od) (PDict m)) as Hs.
  { intros od. specialize (IH od). destruct (merge_result_dict od m) as [w Hw].
    rewrite Hw in IH |- *. exact IH. }
  destruct (dict_get k o) as [[| | | | | |od]|]; apply Hs.
Qed.

(** ** What the audit diff shows of a secret *)

Definition masked (v : pyval) : Prop := v = PNone ∨ v = PStr "" ∨ v = PStr "****".

Lemma mask_masked v : masked (mask v).
Proof. unfold masked. destruct v as [| | | |[]| |]; simpl; auto. Qed.

Definition hides_secret (kv : string * pyval) : Prop :=
  is_secret_path kv.1 = true → ∃ a b, kv.2 = PList [a; b] ∧ masked a ∧ masked b.

Definition diff_step (old : pyval) (prefix : string) (out : list (string * pyval))
    (kv : string * pyval) : list (string * pyval) :=
  let path := prefix +:+ kv.1 in
  let old_v := match old with PDict o => default PNone (dict_get kv.1 o) | _ => PNone end in
  match kv.2 with
  | PDict _ =>
      dict_update out (diff_settings (match old_v with PDict _ => old_v | _ => PDict [] end)
        kv.2 (path +:+ "."))
  | _ =>
      if py_eqb kv.2 old_v then out
      else if is_secret_path path then dict_set path (PList [mask old_v; mask kv.2]) out
      else dict_set path (PList [old_v; kv.2]) out
  end.

Lemma diff_settings_dict old n prefix :
  diff_settings old (PDict n) prefix = foldl (diff_step old prefix) [] n.
Proof.
  change (diff_settings old (PDict n) prefix) with
    ((fix go (out n : list (string * pyval)) {struct n} :=
        match n with [] => out | (k, new_v) :: n => go (diff_step old prefix out (k, new_v)) n end)
      [] n).
  generalize (@nil (string * pyval)). induction n as [|[k v] n IH]; intros out; [done|].
  apply IH.
Qed.

Lemma diff_settings_hides new : ∀ old prefix, Forall hides_secret (diff_settings old new prefix).
Proof.
  induction new as [| | | | | |n IH] using pyval_nested_ind; intros old prefix; try by constructor.
  rewrite diff_settings_dict. assert (Forall hides_secret []) as Hout by constructor. revert Hout.
  generalize (@nil (string * pyval)).
  induction IH as [|[k v] n Hv _ IHn]; intros out Hout; [done|]. simpl in Hv.
  apply IHn. clear IHn. unfold diff_step; simpl.
  set (ov := match old with PDict o => _ | _ => _ end).
  assert (Forall hides_secret (if py_eqb v ov then out
     else if is_secret_path (prefix +:+ k)
          then dict_set (prefix +:+ k) (PList [mask ov; mask v]) out
          else dict_set (prefix +:+ k) (PList [ov; v]) out)) as Hleaf.
  { case_match; [done|]. destruct (is_secret_path (prefix +:+ k)) eqn:Es;
      apply dict_set_Forall; try done; intros Hs; simpl in *; [|congruence].
    eauto using mask_masked. }
  destruct v; try apply Hleaf. by apply dict_update_Forall.
Qed.

(** ** Properties *)

(** Applying the same settings payload twice stores what applying it once
    stores: a retried [PUT /settings] is harmless, nested sections, deletions by
    [null] and key order included. *)
Theorem merge_settings_update_idempotent o n :
  wf_val (PDict n) →
  merge_settings_update (merge_settings_update (PDict o) (PDict n)) (PDict n)
  = merge_settings_update (PDict o) (PDict n).
Proof. apply msu_idem. Qed.

Lemma merge_settings_update_idempotent_witness :
  let n := [("search", PDict [("top_k", PNone); ("floor", PInt 3)]); ("x", PNone)] in
  wf_val (PDict n) ∧
  merge_settings_update (merge_settings_update (PDict [("x", PInt 1)]) (PDict n)) (PDict n)
  = merge_settings_update (PDict [("x", PInt 1)]) (PDict n).
Proof.
  intros n. assert (wf_val (PDict n)) as Hn by (by apply wf_valb_spec; vm_compute).
  split; [exact Hn|]. exact (merge_settings_update_idempotent [("x", PInt 1)] n Hn).
Defined.

(** The write path never stores an explicit [null] at any depth of nested
    sections: merging any payload into overrides that hold none yields overrides
    that hold none, and each key whose payload value is [null] is gone. *)
Theorem merge_settings_update_no_null o n :
  no_null (PDict o) →
  no_null (merge_settings_update (PDict o) (PDict n)) ∧
  (NoDup (n.*1) → ∀ k, (k, PNone) ∈ n →
    ∃ d, merge_settings_update (PDict o) (PDict n) = PDict d ∧ dict_get k d = None).
Proof.
  intros Ho. split; [by apply msu_no_null|]. intros Hn k Hk.
  eexists. split; [apply merge_settings_update_dict|]. by rewrite (msu_fold_get o n k PNone).
Qed.

Lemma merge_settings_update_no_null_witness :
  let o := [("skills_factory", PDict [("body_max_bytes", PInt 10)])] in
  let n := [("skills_factory", PDict [("body_max_bytes", PNone)]); ("a", PNone)] in
  no_null (PDict o) ∧ no_null (merge_settings_update (PDict o) (PDict n)).
Proof.
  intros o n. assert (no_null (PDict o)) as Ho by (simpl; auto).
  split; [exact Ho|]. exact (proj1 (merge_settings_update_no_null o n Ho)).
Defined.

(** No audit diff shows a secret. Whatever the stored and the new settings,
    an entry of the diff at a path under [api_keys.] or at a leaf named as a
    credential holds only [None], the empty string or ["****"] on both sides. *)
Theorem diff_settings_masks_secrets old new path v :
  (path, v) ∈ diff_settings old new "" → is_secret_path path = true →
  ∃ a b, v = PList [a; b] ∧ masked a ∧ masked b.
Proof.
  intros Hin Hs. pose proof (diff_settings_hides new old "") as H.
  eapply Forall_forall in H; [|done]. by apply H.
Qed.

Lemma diff_settings_masks_secrets_witness :
  let new := PDict [("api_keys", PDict [("openai", PStr "sk-1")])] in
  ("api_keys.openai", PList [PNone; PStr "****"]) ∈ diff_settings PNone new "" ∧
  ∃ a b, PList [PNone; PStr "****"] = PList [a; b] ∧ masked a ∧ masked b.
Proof.
  intros new.
  assert (("api_keys.openai", PList [PNone; PStr "****"]) ∈ diff_settings PNone new "") as H
    by (vm_compute; left).
  split; [exact H|]. exact (diff_settings_masks_secrets PNone new _ _ H eq_refl).
Defined.

(** C34: the update is linearizable, first-time race included. Whatever another
    transaction committed between the unlocked read and the claim, the reply and
    the store are those of running the whole update either on the store as first
    read (when nothing needed storing) or on the store as the claim found it; and
    a reply that says [changed] quotes exactly the overrides now stored, with one
    more, non-empty, audit diff. *)
Theorem organization_settings_update_linearizable new st st' reply out :
  (os_row st = None ∨ st' = st) →
  organization_settings_update new st st' = (reply, out) →
  (organization_settings_update new st' st' = (reply, out) ∨
   organization_settings_update new st st = (reply, st) ∧ out = st') ∧
  (if ur_changed reply
   then os_row out = Some (ur_settings reply) ∧
        ∃ d, d ≠ [] ∧ os_audit out = d :: os_audit st'
   else out = st').
Proof.
  intros Hst Hu. unfold organization_settings_update, locked_overrides, update_locked in *.
  destruct (os_row st) as [row|] eqn:Er; simpl in *.
  - destruct Hst as [| ->]; [done|]. rewrite Er. simpl.
    repeat case_match; simplify_eq/=; split_and!; eauto; by (eexists; split; [|reflexivity]).
  - destruct (os_row st') as [row'|] eqn:Er'; simpl in *;
      repeat case_match; simplify_eq/=; split_and!; eauto; by (eexists; split; [|reflexivity]).
Qed.

Lemma organization_settings_update_linearizable_witness :
  let a := PDict [("ui", PDict [("theme", PStr "dark")])] in
  let b := OrgStore (Some (PDict [("ui", PDict [("lang", PStr "en")])])) [[]] in
  ∃ reply out,
    (os_row (OrgStore None []) = None ∨ b = OrgStore None []) ∧
    organization_settings_update a (OrgStore None []) b = (reply, out) ∧
    ur_changed reply = true ∧
    (organization_settings_update a b b = (reply, out) ∨
     organization_settings_update a (OrgStore None []) (OrgStore None [])
       = (reply, OrgStore None []) ∧ out = b).
Proof.
  intros a b. eexists _, _. split; [by left|]. split; [reflexivity|]. split; [reflexivity|].
  exact (proj1 (organization_settings_update_linearizable a (OrgStore None []) b _ _
    (or_introl eq_refl) eq_refl)).
Defined.
