(* ===== verification/Sha256.v ===== *)
(** * SHA-256

    [hashlib.sha256(b).digest()] (FIPS 180-4) on byte strings: a [bytes] value is
    a [string] whose characters are its bytes. Words are 32-bit numbers kept in
    range by [add32] and the masks of the shifts. *)

From S2P Require Import PyStr.
From stdpp Require Import numbers.

#[local] Open Scope N_scope.

Definition mask32 : N := 0xffffffff.
Definition add32 (a b : N) : N := N.land (a + b) mask32.
Definition rotr (n x : N) : N :=
  N.lor (N.shiftr x n) (N.land (N.shiftl x (32 - n)) mask32).
Definition not32 (x : N) : N := N.lxor x mask32.

Definition ch (x y z : N) : N := N.lxor (N.land x y) (N.land (not32 x) z).
Definition maj (x y z : N) : N := N.lxor (N.lxor (N.land x y) (N.land x z)) (N.land y z).
Definition bsig0 (x : N) : N := N.lxor (N.lxor (rotr 2 x) (rotr 13 x)) (rotr 22 x).
Definition bsig1 (x : N) : N := N.lxor (N.lxor (rotr 6 x) (rotr 11 x)) (rotr 25 x).
Definition ssig0 (x : N) : N := N.lxor (N.lxor (rotr 7 x) (rotr 18 x)) (N.shiftr x 3).
Definition ssig1 (x : N) : N := N.lxor (N.lxor (rotr 17 x) (rotr 19 x)) (N.shiftr x 10).

(** The round constants and the initial state are the leading 32 bits of the
    fractional parts of the cube roots of the first 64 primes and of the square
    roots of the first 8. *)
Definition is_prime (n : N) : bool :=
  forallb (λ d, negb (n mod N.of_nat d =? 0)) (seq 2 (N.to_nat n - 2)).
Definition primes : list N :=
  filter is_prime (N.of_nat <$> seq 2 310).

(** The largest [r] below [2 ^ bits] with [pow r <= n], from the top bit down. *)
Fixpoint root_bits (pow : N → N) (n : N) (bits : nat) (acc : N) : N :=
  match bits with
  | O => acc
  | S b => let c := acc + 2 ^ N.of_nat b in
           root_bits pow n b (if pow c <=? n then c else acc)
  end.
Definition frac_cbrt (p : N) : N := N.land (root_bits (λ r, r * r * r) (p * 2 ^ 96) 40 0) mask32.
Definition frac_sqrt (p : N) : N := N.land (root_bits (λ r, r * r) (p * 2 ^ 64) 40 0) mask32.

Definition k256 : list N := Eval vm_compute in frac_cbrt <$> primes.

Record sha_state := Sha { sa : N; sb : N; sc : N; sd : N; se : N; sf : N; sg : N; sh : N }.

Definition sha_init : sha_state := Eval vm_compute in
  match frac_sqrt <$> take 8 primes with
  | [a; b; c; d; e; f; g; h] => Sha a b c d e f g h
  | _ => Sha 0 0 0 0 0 0 0 0
  end.

Definition sha_round (s : sha_state) (kw : N * N) : sha_state :=
  let t1 := add32 (add32 (add32 (sh s) (bsig1 (se s))) (ch (se s) (sf s) (sg s)))
                  (add32 kw.1 kw.2) in
  let t2 := add32 (bsig0 (sa s)) (maj (sa s) (sb s) (sc s)) in
  Sha (add32 t1 t2) (sa s) (sb s) (sc s) (add32 (sd s) t1) (se s) (sf s) (sg s).

(** The message schedule, newest word first. *)
Fixpoint schedule (n : nat) (w : list N) : list N :=
  match n with
  | O => w
  | S n =>
      let at_ i := nth i w 0 in
      schedule n (add32 (add32 (ssig1 (at_ 1%nat)) (at_ 6%nat))
                        (add32 (ssig0 (at_ 14%nat)) (at_ 15%nat)) :: w)
  end.

Definition sha_block (s : sha_state) (block : list N) : sha_state :=
  let w := rev (schedule 48 (rev block)) in
  let t := foldl sha_round s (zip k256 w) in
  Sha (add32 (sa s) (sa t)) (add32 (sb s) (sb t)) (add32 (sc s) (sc t)) (add32 (sd s) (sd t))
      (add32 (se s) (se t)) (add32 (sf s) (sf t)) (add32 (sg s) (sg t)) (add32 (sh s) (sh t)).

(** Big-endian words and bytes. *)
Fixpoint words_of_bytes (fuel : nat) (l : list N) : list N :=
  match fuel, l with
  | S fuel, a :: b :: c :: d :: l =>
      (a * 0x1000000 + b * 0x10000 + c * 0x100 + d) :: words_of_bytes fuel l
  | _, _ => []
  end.

Definition bytes_of_word (x : N) : list N :=
  [N.shiftr x 24 mod 256; N.shiftr x 16 mod 256; N.shiftr x 8 mod 256; x mod 256].

Definition bytes_of_string (s : string) : list N := code <$> String.list_ascii_of_string s.
Definition string_of_bytes (l : list N) : string := String.string_of_list_ascii (Ascii.ascii_of_N <$> l).

Definition sha_pad (l : list N) : list N :=
  let len := length l in
  let zeros := Z.to_nat ((55 - Z.of_nat len) mod 64) in
  let bits := N.of_nat len * 8 in
  l ++ [0x80] ++ repeat 0 zeros ++
  bytes_of_word (N.shiftr bits 32) ++ bytes_of_word (N.land bits mask32).

Fixpoint sha_blocks (fuel : nat) (s : sha_state) (w : list N) : sha_state :=
  match fuel, w with
  | S fuel, _ :: _ => sha_blocks fuel (sha_block s (take 16 w)) (drop 16 w)
  | _, _ => s
  end.

Definition sha_digest (s : sha_state) : list N :=
  [sa s; sb s; sc s; sd s; se s; sf s; sg s; sh s] ≫= bytes_of_word.

Definition sha256 (b : string) : string :=
  let l := sha_pad (bytes_of_string b) in
  let w := words_of_bytes (length l) l in
  string_of_bytes (sha_digest (sha_blocks (length w) sha_init w)).

(** [.hexdigest()] *)
Definition hex_digit (n : N) : Ascii.ascii :=
  Ascii.ascii_of_N (if n <? 10 then 48 + n else 87 + n).
Fixpoint hexdigest (s : string) : string :=
  match s with
  | ""%string => ""%string
  | String c s => String (hex_digit (code c / 16)) (String (hex_digit (code c mod 16)) (hexdigest s))
  end.

(** The FIPS test vectors, and one that spans two blocks. *)
Example sha256_empty :
  hexdigest (sha256 "") = "e3b0c44298fc1c149afbf4c8996fb92427ae41e4649b934ca495991b7852b855"%string.
Proof. vm_compute. reflexivity. Qed.

Example sha256_abc :
  hexdigest (sha256 "abc") = "ba7816bf8f01cfea414140de5dae2223b00361a396177a9cb410ff61f20015ad"%string.
Proof. vm_compute. reflexivity. Qed.

Example sha256_two_blocks :
  hexdigest (sha256 "abcdbcdecdefdefgefghfghighijhijkijkljklmklmnlmnomnopnopq")
  = "248d6a61d20638b8e5c026930c3e6039a33ce45964ff2167f6ecedd419db06c1"%string.
Proof. vm_compute. reflexivity. Qed.

Lemma string_of_bytes_length l : String.length (string_of_bytes l) = length l.
Proof. unfold string_of_bytes. induction l as [|x l IH]; simpl; [done|]. by f_equal. Qed.

(** A digest has 32 bytes. *)
Lemma sha256_length b : String.length (sha256 b) = 32%nat.
Proof. unfold sha256. rewrite string_of_bytes_length. reflexivity. Qed.
