(* ===== verification/JsonDumps.v ===== *)
(** * Canonical JSON

    [json.dumps(obj, sort_keys=True, separators=(",", ":"), ensure_ascii=False)]
    and its UTF-8 encoding, and the proof that the text determines the value: two
    values with the same canonical JSON differ at most in the order of the keys
    of their dicts. *)

From Stdlib Require Import SpecFloat.
From S2P Require Import PyStr PyVal.

#[local] Open Scope string_scope.

(** ** Floats

    [float.__repr__] of a finite float is the shortest decimal text that reads
    back as the same float. The development uses only what that documents: the
    text determines the float, it is made of digits, signs, [.] and [e], and it
    shows a [.] or an [e], so it is never the text of an [int]. *)

Definition finite (f : spec_float) : bool :=
  match f with S754_zero _ | S754_finite _ _ _ => true | _ => false end.

Definition float_char (c : ascii) : bool :=
  is_digit c || bool_decide (c ∈ ["+"; "-"; "."; "e"]%char).
Definition float_mark (c : ascii) : bool := bool_decide (c ∈ ["."; "e"]%char).

Class FloatRepr := {
  float_repr : spec_float → string;
  float_repr_inj : ∀ f g, finite f = true → finite g = true →
    float_repr f = float_repr g → f = g;
  float_repr_chars : ∀ f, finite f = true → str_all float_char (float_repr f) = true;
  float_repr_mark : ∀ f, finite f = true → str_any float_mark (float_repr f) = true;
}.

(** ** Rendering *)

(** [json.encoder]'s escapes with [ensure_ascii=False]. *)
Definition hex_char (n : N) : ascii :=
  Ascii.ascii_of_N (if (n <? 10)%N then 48 + n else 87 + n)%N.

Definition dquote : ascii := "034"%char.
Definition bslash : ascii := "092"%char.

Definition esc_char (c : ascii) : string :=
  let two (x : ascii) := String bslash (String x "") in
  match code c with
  | 34 => two dquote | 92 => two bslash
  | 10 => two "n"%char | 13 => two "r"%char | 9 => two "t"%char
  | 12 => two "f"%char | 8 => two "b"%char
  | n => if (n <? 32)%N
         then String bslash ("u00" +:+ String (hex_char (n / 16)) (String (hex_char (n mod 16)) ""))
         else String c ""
  end%N.

Fixpoint esc (s : string) : string :=
  match s with "" => "" | String c s => esc_char c +:+ esc s end.

Definition quote (s : string) : string := String dquote (esc s +:+ String dquote "").

#[global] Arguments quote : simpl never.

Section Dumps.
Context {FR : FloatRepr}.

Definition render_float (f : spec_float) : string :=
  match f with
  | S754_nan => "NaN"
  | S754_infinity false => "Infinity"
  | S754_infinity true => "-Infinity"
  | _ => float_repr f
  end.

(** The encoder on a value whose keys are already in the order wanted. *)
Fixpoint render (v : pyval) : string :=
  match v with
  | PNone => "null"
  | PBool true => "true"
  | PBool false => "false"
  | PInt z => str_of_Z z
  | PFloat f => render_float f
  | PStr s => quote s
  | PList [] => "[]"
  | PList (x :: l) => "[" +:+ render x +:+
      (fix tail l := match l with
        | [] => "]"
        | x :: l => "," +:+ render x +:+ tail l
        end) l
  | PDict [] => "{}"
  | PDict ((k, x) :: d) => "{" +:+ quote k +:+ ":" +:+ render x +:+
      (fix tail d := match d with
        | [] => "}"
        | (k, x) :: d => "," +:+ quote k +:+ ":" +:+ render x +:+ tail d
        end) d
  end.

End Dumps.

(** [sort_keys=True], at every level. *)
Definition key_leb {V} (a b : string * V) : bool := str_leb a.1 b.1.

Fixpoint sort_keys (v : pyval) : pyval :=
  match v with
  | PList l => PList (sort_keys <$> l)
  | PDict d => PDict (py_sorted key_leb ((λ kv, (kv.1, sort_keys kv.2)) <$> d))
  | _ => v
  end.

Definition dumps {FR : FloatRepr} (v : pyval) : string := render (sort_keys v).

(** ** Strings are read back *)

Definition from_hex (c : ascii) : N :=
  if (code c <? 58)%N then (code c - 48)%N else (code c - 87)%N.

(** The first character of an escaped text, and what follows it. *)
Definition unesc (s : string) : option (ascii * string) :=
  match s with
  | String c r =>
      if bool_decide (c = dquote) then None
      else if bool_decide (c = bslash) then
        match r with
        | String "u"%char (String _ (String _ (String h (String l r)))) =>
            Some (Ascii.ascii_of_N (from_hex h * 16 + from_hex l), r)
        | String "n"%char r => Some ("010"%char, r)
        | String "r"%char r => Some ("013"%char, r)
        | String "t"%char r => Some ("009"%char, r)
        | String "f"%char r => Some ("012"%char, r)
        | String "b"%char r => Some ("008"%char, r)
        | String x r => Some (x, r)
        | "" => None
        end
      else Some (c, r)
  | "" => None
  end.

Lemma unesc_esc c r : unesc (esc_char c +:+ r) = Some (c, r).
Proof. destruct c as [[] [] [] [] [] [] [] []]; reflexivity. Qed.

Lemma esc_inj s s' r r' :
  esc s +:+ String dquote r = esc s' +:+ String dquote r' → s = s' ∧ r = r'.
Proof.
  revert s'. induction s as [|c s IH]; intros [|c' s']; simpl; rewrite ?string_app_assoc.
  - by intros [=].
  - intros H%(f_equal unesc). by rewrite unesc_esc in H.
  - intros H%(f_equal unesc). by rewrite unesc_esc in H.
  - intros H%(f_equal unesc). rewrite !unesc_esc in H. injection H as -> H.
    by apply IH in H as [-> ->].
Qed.

Lemma quote_inj s s' r r' : quote s +:+ r = quote s' +:+ r' → s = s' ∧ r = r'.
Proof.
  unfold quote. simpl. rewrite !string_app_assoc. intros [= H]. by apply esc_inj in H.
Qed.

(** ** Numbers are read back *)

Definition int_char (c : ascii) : bool := is_digit c || bool_decide (c = "-"%char).
Definition num_char (c : ascii) : bool :=
  float_char c || bool_decide (c ∈ ["N"; "a"; "I"; "n"; "f"; "i"; "t"; "y"]%char).

(** A remainder that cannot extend a number. *)
Definition delim (r : string) : bool :=
  match r with "" => true | String c _ => negb (num_char c) end.

Lemma str_all_app f a b : str_all f (a +:+ b) = str_all f a && str_all f b.
Proof. induction a as [|c a IH]; simpl; [done|]. by rewrite IH, andb_assoc. Qed.

Lemma str_all_impl (f g : ascii → bool) s :
  (∀ c, f c = true → g c = true) → str_all f s = true → str_all g s = true.
Proof.
  intros Hfg. induction s as [|c s IH]; simpl; [done|].
  rewrite !andb_true_iff. intros [? ?]. auto.
Qed.

(** A run of number characters ends where the delimiter starts. *)
Lemma run_inj s s' r r' :
  str_all num_char s = true → str_all num_char s' = true →
  delim r = true → delim r' = true → s +:+ r = s' +:+ r' → s = s' ∧ r = r'.
Proof.
  revert s'. induction s as [|c s IH]; intros [|c' s']; simpl; try done.
  - intros _ [Hc _]%andb_true_iff Hr _ ->. simpl in Hr. by rewrite Hc in Hr.
  - intros [Hc _]%andb_true_iff _ _ Hr <-. simpl in Hr. by rewrite Hc in Hr.
  - intros [_ Hs]%andb_true_iff [_ Hs']%andb_true_iff Hr Hr' [= -> H].
    by destruct (IH _ Hs Hs' Hr Hr' H) as [-> ->].
Qed.

Lemma uint_chars d : str_all is_digit (DecimalString.NilEmpty.string_of_uint d) = true.
Proof. by induction d. Qed.

Lemma uint_chars' d : str_all is_digit (DecimalString.NilZero.string_of_uint d) = true.
Proof. destruct d; [done|..]; exact (uint_chars _). Qed.

Lemma str_of_Z_chars z : str_all int_char (str_of_Z z) = true.
Proof.
  assert (∀ d, str_all int_char (DecimalString.NilZero.string_of_uint d) = true) as H.
  { intros d. eapply str_all_impl; [|apply uint_chars'].
    intros c. unfold int_char. by intros ->. }
  unfold str_of_Z. destruct (Z.to_int z) as [d|d]; simpl; [apply H|].
  by rewrite H.
Qed.

Lemma str_of_Z_nonempty z : str_of_Z z ≠ "".
Proof.
  unfold str_of_Z. destruct (Z.to_int z) as [[]|d]; simpl; done.
Qed.

Lemma int_char_float c : int_char c = true → float_char c = true.
Proof.
  unfold int_char, float_char. intros [->|H%bool_decide_eq_true]%orb_true_iff; [done|].
  subst. reflexivity.
Qed.

Lemma float_char_num c : float_char c = true → num_char c = true.
Proof. unfold num_char. by intros ->. Qed.

Lemma no_mark s : str_all int_char s = true → str_any float_mark s = false.
Proof.
  induction s as [|c s IH]; simpl; [done|]. intros [Hc Hs]%andb_true_iff.
  rewrite IH by done. rewrite orb_false_r.
  destruct c as [[] [] [] [] [] [] [] []]; by vm_compute in Hc |- *.
Qed.

Section Injective.
Context {FR : FloatRepr}.

Lemma render_float_chars f : str_all num_char (render_float f) = true.
Proof.
  destruct f as [s|[]| |s m e]; try done;
    (eapply str_all_impl; [apply float_char_num|by apply float_repr_chars]).
Qed.

Lemma render_float_inj f g : render_float f = render_float g → f = g.
Proof.
  assert (∀ f, finite f = true → str_all float_char (render_float f) = true) as Hfin.
  { intros [| | |]; try done; intros; by apply float_repr_chars. }
  intros H. destruct (finite f) eqn:Ef, (finite g) eqn:Eg.
  - apply float_repr_inj; [done..|]. destruct f, g; try done.
  - pose proof (Hfin f Ef) as Hf. rewrite H in Hf. by destruct g as [|[]| |].
  - pose proof (Hfin g Eg) as Hg. rewrite <-H in Hg. by destruct f as [|[]| |].
  - destruct f as [|[]| |], g as [|[]| |]; done.
Qed.

Lemma int_float_text z f : str_of_Z z ≠ render_float f.
Proof.
  intros H. pose proof (str_of_Z_chars z) as Hz. rewrite H in Hz.
  destruct f as [s|[]| |s m e]; try done; simpl in Hz; apply no_mark in Hz;
    by rewrite float_repr_mark in Hz.
Qed.

(** The first character tells the kind of value. *)
Definition tag (c : ascii) : nat :=
  if float_char c || bool_decide (c ∈ ["N"; "I"]%char) then 6
  else if bool_decide (c = "n"%char) then 0 else if bool_decide (c = "t"%char) then 1
  else if bool_decide (c = "f"%char) then 2 else if bool_decide (c = dquote) then 3
  else if bool_decide (c = "["%char) then 4 else if bool_decide (c = "{"%char) then 5 else 7.

Definition kind (v : pyval) : nat :=
  match v with
  | PNone => 0 | PBool true => 1 | PBool false => 2 | PStr _ => 3
  | PList _ => 4 | PDict _ => 5 | PInt _ | PFloat _ => 6
  end.

Definition head_tag (s : string) : option nat :=
  match s with "" => None | String c _ => Some (tag c) end.

Lemma head_tag_app s r : s ≠ "" → head_tag (s +:+ r) = head_tag s.
Proof. by destruct s. Qed.

Lemma head_tag_float s : s ≠ "" → str_all float_char s = true → head_tag s = Some 6.
Proof. destruct s as [|c s]; simpl; [done|]. unfold tag. by intros _ [-> _]%andb_true_iff. Qed.

Lemma render_head v : head_tag (render v) = Some (kind v).
Proof.
  destruct v as [|[]|z|f|s|[|x l]|[|[k x] d]]; try reflexivity.
  - apply head_tag_float; [apply str_of_Z_nonempty|].
    eapply str_all_impl; [apply int_char_float|apply str_of_Z_chars].
  - destruct f as [s|[]| |s m e]; try reflexivity.
    all: simpl; apply head_tag_float; [|by apply float_repr_chars].
    all: intros H; match type of H with float_repr ?f = _ =>
      pose proof (float_repr_mark f eq_refl) as Hm end; by rewrite H in Hm.
Qed.

Lemma render_nonempty v : render v ≠ "".
Proof. intros H. pose proof (render_head v) as Hh. by rewrite H in Hh. Qed.

Lemma render_kind v v' r r' : render v +:+ r = render v' +:+ r' → kind v = kind v'.
Proof.
  intros H%(f_equal head_tag). rewrite !head_tag_app in H by apply render_nonempty.
  rewrite !render_head in H. congruence.
Qed.

(** Numbers, as one text. *)
Definition num_text (v : pyval) : option string :=
  match v with PInt z => Some (str_of_Z z) | PFloat f => Some (render_float f) | _ => None end.

Lemma kind_num v : kind v = 6 → ∃ t, num_text v = Some t ∧ render v = t ∧ str_all num_char t = true.
Proof.
  destruct v as [|[]|z|f| | |]; try done; intros _; eexists; split_and!; try done.
  - eapply str_all_impl; [|apply str_of_Z_chars]. intros c Hc.
    by apply float_char_num, int_char_float.
  - apply render_float_chars.
Qed.

Lemma num_text_inj v v' t : num_text v = Some t → num_text v' = Some t → v = v'.
Proof.
  destruct v as [| |z|f| | |], v' as [| |z'|f'| | |]; simpl; intros [=] [=]; subst; try done.
  - f_equal. by apply str_of_Z_inj.
  - by destruct (int_float_text z f').
  - by destruct (int_float_text z' f).
  - f_equal. by apply render_float_inj.
Qed.

(** The rest of a list or of a dict after its first element. *)
Fixpoint list_tail (l : list pyval) : string :=
  match l with [] => "]" | x :: l => "," +:+ render x +:+ list_tail l end.
Fixpoint dict_tail (d : list (string * pyval)) : string :=
  match d with
  | [] => "}"
  | (k, x) :: d => "," +:+ quote k +:+ ":" +:+ render x +:+ dict_tail d
  end.

Lemma render_list x l : render (PList (x :: l)) = "[" +:+ render x +:+ list_tail l.
Proof. reflexivity. Qed.

Lemma render_dict k x d :
  render (PDict ((k, x) :: d)) = "{" +:+ quote k +:+ ":" +:+ render x +:+ dict_tail d.
Proof. reflexivity. Qed.

Lemma list_tail_delim l r : delim (list_tail l +:+ r) = true.
Proof. by destruct l. Qed.
Lemma dict_tail_delim d r : delim (dict_tail d +:+ r) = true.
Proof. by destruct d as [|[]]. Qed.

Definition reads_back (v : pyval) : Prop := ∀ v' r r',
  delim r = true → delim r' = true → render v +:+ r = render v' +:+ r' → v = v' ∧ r = r'.

Lemma list_tail_inj l l' r r' :
  Forall reads_back l → list_tail l +:+ r = list_tail l' +:+ r' → l = l' ∧ r = r'.
Proof.
  intros Hl. revert l'. induction Hl as [|x l Hx _ IH]; intros [|x' l']; simpl; try by intros [=].
  rewrite !string_app_assoc. intros [= H].
  destruct (Hx _ _ _ (list_tail_delim _ _) (list_tail_delim _ _) H) as [-> H'].
  by destruct (IH _ H') as [-> ->].
Qed.

Lemma dict_tail_inj d d' r r' :
  Forall (λ kv, reads_back kv.2) d → dict_tail d +:+ r = dict_tail d' +:+ r' → d = d' ∧ r = r'.
Proof.
  intros Hd. revert d'. induction Hd as [|[k x] d Hx _ IH]; intros [|[k' x'] d'];
    cbn [dict_tail]; try by intros [=].
  rewrite !string_app_assoc. intros [-> H%string_app_inj_l]%string_app_inj_l%quote_inj.
  simpl in Hx. destruct (Hx _ _ _ (dict_tail_delim _ _) (dict_tail_delim _ _) H) as [-> H'].
  by destruct (IH _ H') as [-> ->].
Qed.

Lemma render_num_chars v t : num_text v = Some t → str_all num_char t = true.
Proof.
  intros Ht. destruct (kind_num v) as (t' & Ht' & _ & Hc); [by destruct v|]. congruence.
Qed.

Lemma reads_back_num v : kind v = 6 → reads_back v.
Proof.
  intros K v' r r' Hr Hr' H. pose proof (render_kind _ _ _ _ H) as K'. rewrite K in K'.
  destruct (kind_num v K) as (t & Ht & Et & Hc), (kind_num v') as (t' & Ht' & Et' & Hc'); [done|].
  rewrite Et, Et' in H. apply run_inj in H as [-> ->]; try done.
  split; [|done]. by eapply num_text_inj.
Qed.

Lemma render_not_close v r r' : render v +:+ r ≠ String "]" r'.
Proof.
  intros H%(f_equal head_tag). rewrite head_tag_app, render_head in H by apply render_nonempty.
  injection H as H. by destruct v as [|[]| | | | |].
Qed.

Lemma reads_back_list l : Forall reads_back l → reads_back (PList l).
Proof.
  intros Hl v' r r' Hr Hr' H. pose proof (render_kind _ _ _ _ H) as K.
  destruct v' as [|[]| | | |l'|]; try done. destruct Hl as [|x l Hx Hl], l' as [|x' l'].
  - by apply string_app_inj_l in H.
  - rewrite render_list in H. injection H as H. rewrite string_app_assoc in H.
    by destruct (render_not_close _ _ _ (eq_sym H)).
  - rewrite render_list in H. injection H as H. rewrite string_app_assoc in H.
    by destruct (render_not_close _ _ _ H).
  - rewrite !render_list in H. injection H as H. rewrite !string_app_assoc in H.
    destruct (Hx _ _ _ (list_tail_delim _ _) (list_tail_delim _ _) H) as [-> H'].
    by destruct (list_tail_inj _ _ _ _ Hl H') as [-> ->].
Qed.

Lemma reads_back_dict d : Forall (λ kv, reads_back kv.2) d → reads_back (PDict d).
Proof.
  intros Hd v' r r' Hr Hr' H. pose proof (render_kind _ _ _ _ H) as K.
  destruct v' as [|[]| | | | |d']; try done.
  destruct Hd as [|[k x] d Hx Hd], d' as [|[k' x'] d']; rewrite ?render_dict in H.
  - by apply string_app_inj_l in H.
  - rewrite !string_app_assoc in H. by injection H.
  - rewrite !string_app_assoc in H. by injection H.
  - rewrite !string_app_assoc in H. apply string_app_inj_l, quote_inj in H as [-> H].
    apply string_app_inj_l in H.
    simpl in Hx. destruct (Hx _ _ _ (dict_tail_delim _ _) (dict_tail_delim _ _) H) as [-> H'].
    by destruct (dict_tail_inj _ _ _ _ Hd H') as [-> ->].
Qed.

(** Canonical JSON determines the value, whatever delimiter follows. *)
Lemma render_reads_back v : reads_back v.
Proof.
  induction v as [|b|z|f|s|l IH|d IH] using pyval_nested_ind;
    [| |by apply reads_back_num..| |by apply reads_back_list|by apply reads_back_dict];
    intros v' r r' Hr Hr' H; pose proof (render_kind _ _ _ _ H) as K.
  - destruct v' as [|[]| | | | |]; try done. by apply string_app_inj_l in H.
  - destruct b, v' as [|[]| | | | |]; try done; by apply string_app_inj_l in H.
  - destruct v' as [|[]| | |s'| |]; try done. by apply quote_inj in H as [-> ->].
Qed.

(** Equal canonical texts come from values equal up to the order of dict keys. *)
Lemma dumps_inj v v' : dumps v = dumps v' → sort_keys v = sort_keys v'.
Proof.
  intros H. apply (render_reads_back _ _ "" ""); [done..|].
  unfold dumps in H. by rewrite H.
Qed.
End Injective.

(** ** UTF-8 is injective *)

Definition utf8_decode (s : string) : option (ascii * string) :=
  match s with
  | String c r =>
      if (code c <? 128)%N then Some (c, r)
      else match r with
           | String c' r => Some (Ascii.ascii_of_N ((code c - 192) * 64 + (code c' - 128)), r)
           | "" => None
           end
  | "" => None
  end.

Lemma utf8_decode_char c r : utf8_decode (utf8_char c +:+ r) = Some (c, r).
Proof. destruct c as [[] [] [] [] [] [] [] []]; reflexivity. Qed.

Lemma utf8_inj s s' : utf8 s = utf8 s' → s = s'.
Proof.
  revert s'. induction s as [|c s IH]; intros [|c' s']; simpl; [done|..];
    intros H%(f_equal utf8_decode); rewrite ?utf8_decode_char in H; try done.
  injection H as -> H. f_equal. by apply IH.
Qed.

(** ** An instance

    The class is inhabited: the exact text [<m>.0e<exp>] satisfies the documented
    properties (the real [repr] is shorter). *)

Definition exact_mantissa (f : spec_float) : string :=
  match f with
  | S754_zero s => if s then "-0" else "0"
  | S754_finite s m _ => str_of_Z (if s then Z.neg m else Z.pos m)
  | _ => ""
  end.
Definition exact_exponent (f : spec_float) : Z :=
  match f with S754_finite _ _ e => e | _ => 0%Z end.
Definition exact_repr (f : spec_float) : string :=
  exact_mantissa f +:+ ".0e" +:+ str_of_Z (exact_exponent f).

Lemma exact_mantissa_chars f : str_all int_char (exact_mantissa f) = true.
Proof. destruct f as [[]|[]| |s m e]; try done. apply str_of_Z_chars. Qed.

Lemma int_run_inj s s' r r' :
  str_all int_char s = true → str_all int_char s' = true →
  s +:+ String "." r = s' +:+ String "." r' → s = s' ∧ r = r'.
Proof.
  revert s'. induction s as [|c s IH]; intros [|c' s']; simpl.
  - by intros _ _ [=].
  - intros _ Hs [= <- _]. done.
  - intros Hs _ [= -> _]. done.
  - intros [_ Hs]%andb_true_iff [_ Hs']%andb_true_iff [= -> H].
    by destruct (IH _ Hs Hs' H) as [-> ->].
Qed.

Lemma str_of_Z_minus_zero z : str_of_Z z ≠ "-0".
Proof.
  unfold str_of_Z. intros H. apply (f_equal DecimalString.NilZero.int_of_string) in H.
  destruct (to_int_nonnil z). rewrite DecimalString.NilZero.isi in H by done.
  injection H as H. pose proof (f_equal Z.of_int H) as Hz.
  rewrite DecimalZ.of_to in Hz. subst z. done.
Qed.

Lemma exact_repr_inj f g :
  finite f = true → finite g = true → exact_repr f = exact_repr g → f = g.
Proof.
  intros Hf Hg [Hm He]%int_run_inj; try apply exact_mantissa_chars.
  injection He as He%str_of_Z_inj.
  destruct f as [[]| | |s m e], g as [[]| | |s' m' e']; try done; cbn in Hm, He.
  - by destruct (str_of_Z_minus_zero _ (eq_sym Hm)).
  - apply (str_of_Z_inj 0) in Hm. by destruct s'.
  - by destruct (str_of_Z_minus_zero _ Hm).
  - apply (str_of_Z_inj _ 0) in Hm. by destruct s.
  - apply str_of_Z_inj in Hm. subst. destruct s, s'; congruence.
Qed.

Lemma exact_repr_chars f : str_all float_char (exact_repr f) = true.
Proof.
  unfold exact_repr. rewrite !str_all_app. simpl.
  rewrite !(str_all_impl _ _ _ int_char_float); try done;
    eauto using exact_mantissa_chars, str_of_Z_chars.
Qed.

Lemma str_any_app f a b : str_any f (a +:+ b) = str_any f a || str_any f b.
Proof. induction a as [|c a IH]; simpl; [done|]. by rewrite IH, orb_assoc. Qed.

Lemma exact_repr_mark f : str_any float_mark (exact_repr f) = true.
Proof. unfold exact_repr. rewrite str_any_app. by destruct (str_any _ _). Qed.

#[local] Instance exact_float_repr : FloatRepr := {|
  float_repr := exact_repr;
  float_repr_inj := exact_repr_inj;
  float_repr_chars f _ := exact_repr_chars f;
  float_repr_mark f _ := exact_repr_mark f;
|}.
