(* ===== verification/PiiScrub.v ===== *)
(** * The PII guard of the audit log

    [core-storage-api/.../services/audit_chain.py]: the card and SSN shapes, the
    assertion that refuses a detail showing one ([assert_pii_safe]), and the
    scrubber that replaces them ([scrub_pii]). The three regular expressions are
    written out as matchers: the two shapes are a fixed number of character
    classes between word boundaries, so a match at a position is unique and
    [re.sub] is a left-to-right scan. *)

From S2P Require Import PyStr PyVal.

#[local] Open Scope string_scope.

(** ** Fixed-length shapes between word boundaries *)

Definition shape := list (ascii → bool).

Definition sep_char (c : ascii) : bool := bool_decide (c ∈ [" "; "-"]%char).
Definition dash_char (c : ascii) : bool := bool_decide (c = "-"%char).

(** [\b\d{4}[ -]\d{4}[ -]\d{4}[ -]\d{4}\b] *)
Definition CARD_SHAPE : shape :=
  (repeat is_digit 4 ++ [sep_char] ++ repeat is_digit 4 ++ [sep_char]
   ++ repeat is_digit 4 ++ [sep_char] ++ repeat is_digit 4)%list.
(** [\b\d{3}-\d{2}-\d{4}\b] *)
Definition SSN_SHAPE : shape :=
  (repeat is_digit 3 ++ [dash_char] ++ repeat is_digit 2 ++ [dash_char]
   ++ repeat is_digit 4)%list.

Definition head_word (s : string) : bool :=
  match s with "" => false | String c _ => is_word c end.
Definition prev_word (prev : option ascii) : bool :=
  match prev with None => false | Some c => is_word c end.

(** [\b] between the character before and the text after. *)
Definition boundary (prev : option ascii) (s : string) : bool :=
  xorb (prev_word prev) (head_word s).

(** The classes in order; the last character read and the remaining text. *)
Fixpoint match_classes (p : shape) (prev : option ascii) (s : string)
    : option (option ascii * string) :=
  match p, s with
  | [], _ => Some (prev, s)
  | f :: p, String c s => if f c then match_classes p (Some c) s else None
  | _ :: _, "" => None
  end.

(** A match of the whole pattern at this position. *)
Definition match_at (p : shape) (prev : option ascii) (s : string) : bool :=
  boundary prev s &&
  match match_classes p prev s with
  | Some (last, rest) => boundary last rest
  | None => false
  end.

(** [p.search(s)] *)
Fixpoint search_from (p : shape) (prev : option ascii) (s : string) : bool :=
  match_at p prev s ||
  match s with "" => false | String c s => search_from p (Some c) s end.
Definition search (p : shape) (s : string) : bool := search_from p None s.

(** [p.sub(repl, s)]: [skip] counts the characters of a match still to drop. *)
Fixpoint sub_from (p : shape) (repl : string) (skip : nat) (prev : option ascii) (s : string)
    : string :=
  match s with
  | "" => ""
  | String c s' =>
      match skip with
      | S k => sub_from p repl k (Some c) s'
      | O =>
          if match_at p prev s
          then repl +:+ sub_from p repl (length p - 1) (Some c) s'
          else String c (sub_from p repl 0 (Some c) s')
      end
  end.
Definition sub (p : shape) (repl s : string) : string := sub_from p repl 0 None s.

(** ** Hash tokens *)

(** The longest prefix in the class, and the rest. *)
Fixpoint span (f : ascii → bool) (s : string) : string * string :=
  match s with
  | "" => ("", "")
  | String c s' => if f c then let '(a, b) := span f s' in (String c a, b) else ("", s)
  end.

Definition hex32 (s : string) : bool := str_all is_hex s && (32 <=? String.length s)%nat.

Definition az09 (c : ascii) : bool := is_az c || is_digit c.

(** [\A(?:[a-z0-9]+-[a-z0-9]+:)?[0-9a-fA-F]{32,}\Z] *)
Definition HASH_TOKEN (s : string) : bool :=
  hex32 s ||
  match span az09 s with
  | (String _ _, String "-" r) =>
      match span az09 r with
      | (String _ _, String ":" h) => hex32 h
      | _ => false
      end
  | _ => false
  end.

(** ** The guard and the scrubber *)

Definition PIIInAuditError : exn :=
  PyError "PIIInAuditError"
    "audit detail appears to contain raw PII; emit category/spans/hashes instead".

Fixpoint iter_str_leaves (v : pyval) : list string :=
  match v with
  | PStr s => [s]
  | PDict d => (fix go d := match d with [] => [] | kv :: d => (iter_str_leaves kv.2 ++ go d)%list end) d
  | PList l => (fix go l := match l with [] => [] | x :: l => (iter_str_leaves x ++ go l)%list end) l
  | _ => []
  end.

Definition leaf_is_pii (s : string) : bool :=
  if HASH_TOKEN s then false else search CARD_SHAPE s || search SSN_SHAPE s.

Definition assert_pii_safe (detail : pyval) : result exn unit :=
  if negb (truthy detail) then Ok tt
  else raise_if (existsb leaf_is_pii (iter_str_leaves detail)) PIIInAuditError.

Definition CARD_PLACEHOLDER : string := "[redacted:card]".
Definition SSN_PLACEHOLDER : string := "[redacted:ssn]".
Definition SCRUBBED_MARKER_KEY : string := "_pii_scrubbed".

Definition scrub_leaf (s : string) : string :=
  if HASH_TOKEN s then s
  else sub SSN_SHAPE SSN_PLACEHOLDER (sub CARD_SHAPE CARD_PLACEHOLDER s).

(** [_scrub] and its [changed] flag. *)
Fixpoint scrub_obj (v : pyval) (changed : bool) : pyval * bool :=
  match v with
  | PStr s => let out := scrub_leaf s in (PStr out, changed || negb (bool_decide (out = s)))
  | PDict d =>
      let '(d', changed) :=
        (fix go d changed := match d with
          | [] => ([], changed)
          | (k, x) :: d =>
              let '(x', changed) := scrub_obj x changed in
              let '(d', changed) := go d changed in ((k, x') :: d', changed)
          end) d changed in
      (PDict d', changed)
  | PList l =>
      let '(l', changed) :=
        (fix go l changed := match l with
          | [] => ([], changed)
          | x :: l =>
              let '(x', changed) := scrub_obj x changed in
              let '(l', changed) := go l changed in (x' :: l', changed)
          end) l changed in
      (PList l', changed)
  | _ => (v, changed)
  end.

Definition scrub_pii (detail : pyval) : result exn pyval :=
  if negb (truthy detail) then Ok detail
  else
    let '(scrubbed, changed) := scrub_obj detail false in
    if negb changed then Ok detail
    else match scrubbed with
         | PDict d => Ok (PDict (dict_set SCRUBBED_MARKER_KEY (PBool true) d))
         | _ => Err (PyError "AssertionError" "")
         end.

Example scrub_example :
  scrub_leaf "pay 4111 1111-1111 1111, ssn 123-45-6789; id 12345678901234567890"
  = "pay [redacted:card], ssn [redacted:ssn]; id 12345678901234567890".
Proof. reflexivity. Qed.

(** ** The scan *)

(** A shape starts and ends with a digit and never accepts a bracket; a
    placeholder ends with a bracket and shows no digit. *)
Definition good_shape (p : shape) : Prop :=
  (∃ p', p = is_digit :: p') ∧ (∃ p', p = (p' ++ [is_digit])%list) ∧ Forall (λ f, f "["%char = false) p.
Definition good_repl (t : string) : Prop :=
  (∃ t', t = String "[" t') ∧ (∃ t', t = t' +:+ "]") ∧ str_all (λ c, negb (is_digit c)) t = true.

Lemma card_good : good_shape CARD_SHAPE ∧ good_repl CARD_PLACEHOLDER.
Proof.
  split; split_and!; try (eexists; reflexivity); try reflexivity.
  - by exists (take 18 CARD_SHAPE).
  - repeat constructor.
  - by exists "[redacted:card".
Qed.
Lemma ssn_good : good_shape SSN_SHAPE ∧ good_repl SSN_PLACEHOLDER.
Proof.
  split; split_and!; try (eexists; reflexivity); try reflexivity.
  - by exists (take 10 SSN_SHAPE).
  - repeat constructor.
  - by exists "[redacted:ssn".
Qed.

Lemma digit_word c : is_digit c = true → is_word c = true.
Proof. unfold is_word. by intros ->. Qed.

Section Scan.
Context (q : shape) (repl : string).
Context (Hq : good_shape q) (Hrepl : good_repl repl).

Lemma match_at_digit p prev s :
  good_shape p → match_at p prev s = true → ∃ c s', s = String c s' ∧ is_digit c = true.
Proof.
  intros [(p' & ->) _]. unfold match_at. intros [_ Hm]%andb_true_iff.
  destruct s as [|c s']; simpl in Hm; [done|]. exists c, s'. split; [done|].
  by destruct (is_digit c).
Qed.

(** The last character a shape reads is a digit. *)
Lemma match_classes_last p' prev s last rest :
  match_classes (p' ++ [is_digit])%list prev s = Some (last, rest) → prev_word last = true.
Proof.
  revert prev s. induction p' as [|f p' IH]; intros prev [|c s]; simpl; try done.
  - destruct (is_digit c) eqn:E; [|done]. intros [= <- <-]. simpl. by apply digit_word.
  - destruct (f c); [|done]. apply IH.
Qed.

Lemma match_at_boundary p prev s :
  match_at p prev s = true →
  boundary prev s = true ∧ ∃ last rest, match_classes p prev s = Some (last, rest) ∧
    boundary last rest = true.
Proof.
  unfold match_at. intros [Hb Hm]%andb_true_iff. split; [done|].
  destruct (match_classes p prev s) as [[last rest]|]; [|done]. eauto.
Qed.

(** A match cannot start right after a word character. *)
Lemma match_at_after_word p prev s :
  good_shape p → prev_word prev = true → match_at p prev s = false.
Proof.
  intros Hp Hw. destruct (match_at p prev s) eqn:E; [|done]. exfalso.
  destruct (match_at_digit p prev s Hp E) as (c & s' & -> & Hd).
  apply match_at_boundary in E as [Hb _]. unfold boundary in Hb. simpl in Hb.
  by rewrite Hw, (digit_word c Hd) in Hb.
Qed.

(** What a shape reads in the output, it reads in the input: no placeholder can
    start inside a match. *)
Lemma match_classes_sub p prev s last rest :
  Forall (λ f, f "["%char = false) p →
  match_classes p prev (sub_from q repl 0 prev s) = Some (last, rest) →
  ∃ rest', match_classes p prev s = Some (last, rest') ∧ rest = sub_from q repl 0 last rest'.
Proof.
  destruct Hrepl as ((t & Ht) & _ & _).
  intros Hp. revert prev s. induction Hp as [|f p Hf Hp IH]; intros prev s; simpl.
  { intros [= <- <-]. eauto. }
  destruct s as [|c s]; simpl; [done|]. destruct (match_at q prev (String c s)) eqn:E.
  - rewrite Ht. simpl. by rewrite Hf.
  - destruct (f c); [|done]. apply IH.
Qed.

Lemma head_word_sub prev s :
  match_at q prev s = false →
  head_word (sub_from q repl 0 prev s) = head_word s.
Proof. intros Hm. destruct s as [|c s]; simpl; [done|]. by rewrite Hm. Qed.

(** A match in the output is a match at the same place in the input. *)
Lemma match_at_sub p prev s :
  good_shape p → match_at q prev s = false →
  match_at p prev (sub_from q repl 0 prev s) = true → match_at p prev s = true.
Proof.
  intros Hp Hn Hm. destruct Hp as (Hp1 & (p' & Hp') & Hf).
  apply match_at_boundary in Hm as (Hb & last & rest & Hc & Hr).
  apply match_classes_sub in Hc as (rest' & Hc' & ->); [|done].
  unfold match_at, boundary in *. rewrite head_word_sub in Hb by done.
  rewrite Hb, Hc'. simpl. rewrite <-Hr. f_equal. symmetry. apply head_word_sub.
  apply match_at_after_word; [done|]. rewrite Hp' in Hc'. by apply match_classes_last in Hc'.
Qed.

(** Every match of [p] from here on is also one of [q]. *)
Fixpoint covered (p : shape) (prev : option ascii) (s : string) : Prop :=
  (match_at p prev s = true → match_at q prev s = true) ∧
  match s with "" => True | String c s => covered p (Some c) s end.

Lemma covered_self prev s : covered q prev s.
Proof. revert prev. induction s; simpl; auto. Qed.
Lemma covered_none p prev s : search_from p prev s = false → covered p prev s.
Proof.
  revert prev. induction s as [|c s IH]; simpl; intros prev [Hm Hs]%orb_false_iff;
    (split; [by rewrite Hm|]); auto.
Qed.

Lemma search_no_digits p t prev r :
  good_shape p → t ≠ "" → str_all (λ c, negb (is_digit c)) t = true →
  (∃ t', t = t' +:+ "]") →
  search_from p prev (t +:+ r) = search_from p (Some "]"%char) r.
Proof.
  intros Hp Hne Hd (t' & ->). clear Hne. revert prev.
  assert (∀ c x prev, is_digit c = false → match_at p prev (String c x) = false) as Hno.
  { intros c x prev Hc. destruct (match_at _ _ _) eqn:E; [|done].
    destruct (match_at_digit _ _ _ Hp E) as (? & ? & [= <- <-] & ?). congruence. }
  induction t' as [|c t' IH]; intros prev; simpl in *.
  - by rewrite Hno.
  - apply andb_true_iff in Hd as [Hc%negb_true_iff Hd]. rewrite Hno by done. simpl. auto.
Qed.

(** Position [k] of the text starts with a non-word character (or is its end). *)
Fixpoint nonword_at (k : nat) (s : string) : Prop :=
  match k, s with
  | O, s => head_word s = false
  | S k, String _ s => nonword_at k s
  | S _, "" => True
  end.

Lemma match_classes_nonword p prev s last rest :
  match_classes p prev s = Some (last, rest) → head_word rest = false → nonword_at (length p) s.
Proof.
  revert prev s. induction p as [|f p IH]; intros prev [|c s]; simpl; try done.
  - by intros [= <- <-].
  - destruct (f c); [|done]. apply IH.
Qed.

Lemma match_at_nonword prev c s :
  match_at q prev (String c s) = true → nonword_at (length q - 1) s.
Proof.
  intros (_ & last & rest & Hc & Hr)%match_at_boundary.
  destruct Hq as ((p' & Hp') & (p'' & Hp'') & _).
  assert (nonword_at (length q) (String c s)) as Hn.
  { eapply match_classes_nonword; [done|]. rewrite Hp'' in Hc. apply match_classes_last in Hc.
    unfold boundary in Hr. rewrite Hc in Hr. by destruct (head_word rest). }
  rewrite Hp' in Hn |- *. simpl in *. by rewrite Nat.sub_0_r.
Qed.

(** The substituted text has no match of [p], when every match of [p] was one of [q]. *)
Lemma search_sub p skip prev oprev s :
  good_shape p → covered p prev s →
  (skip = 0 ∧ oprev = prev) ∨ (oprev = Some "]"%char ∧ nonword_at skip s) →
  search_from p oprev (sub_from q repl skip prev s) = false.
Proof.
  intros Hp. revert skip prev oprev. induction s as [|c s IH]; intros skip prev oprev Hc Hi.
  - simpl. rewrite orb_false_r. destruct (match_at p oprev "") eqn:E; [|done].
    destruct (match_at_digit _ _ _ Hp E) as (? & ? & ? & ?). done.
  - destruct Hc as [Hm Hc]. cbn [sub_from]. destruct skip as [|k].
    + destruct (match_at q prev (String c s)) eqn:E.
      * destruct Hrepl as ((t & Ht) & Hl & Hd). rewrite search_no_digits; try done; [|by rewrite Ht].
        apply IH; [done|]. right. split; [done|]. by eapply match_at_nonword.
      * assert (match_at p oprev (String c (sub_from q repl 0 (Some c) s)) = false) as Hno.
        { destruct (match_at p oprev _) eqn:E'; [|done]. exfalso.
          destruct Hi as [[_ ->]|[-> Hn]].
          - pose proof (match_at_sub p prev (String c s) Hp E) as H. simpl in H.
            rewrite E in H. specialize (H E'). apply Hm in H. congruence.
          - destruct (match_at_digit _ _ _ Hp E') as (? & ? & [= <- <-] & Hd).
            simpl in Hn. by rewrite digit_word in Hn. }
        simpl. rewrite Hno. simpl. apply IH; [done|]. by left.
    + apply IH; [done|]. destruct Hi as [[? _]|[-> Hn]]; [done|]. by right.
Qed.

Lemma search_sub_self s : search q (sub q repl s) = false.
Proof. apply search_sub; eauto using covered_self. Qed.

Lemma search_sub_keep p s :
  good_shape p → search p s = false → search p (sub q repl s) = false.
Proof. intros Hp Hs. apply search_sub; eauto using covered_none. Qed.

(** No match: the text is left alone. *)
Lemma sub_no_match prev s : search_from q prev s = false → sub_from q repl 0 prev s = s.
Proof.
  revert prev. induction s as [|c s IH]; intros prev; simpl; [done|].
  intros [-> Hs]%orb_false_iff. by rewrite IH.
Qed.
End Scan.

(** ** Leaves *)

Lemma scrub_leaf_safe s : leaf_is_pii (scrub_leaf s) = false.
Proof.
  unfold leaf_is_pii, scrub_leaf. destruct card_good as [Hc Hcr], ssn_good as [Hs Hsr].
  destruct (HASH_TOKEN s) eqn:E; [by rewrite E|]. case_match; [done|].
  rewrite search_sub_self, search_sub_keep by auto using search_sub_self. done.
Qed.

Lemma scrub_leaf_id s : scrub_leaf s = s ↔ leaf_is_pii s = false.
Proof.
  split.
  - intros H. rewrite <-H. apply scrub_leaf_safe.
  - unfold leaf_is_pii, scrub_leaf. destruct (HASH_TOKEN s); [done|].
    intros [Hc Hs]%orb_false_iff. unfold sub. rewrite (sub_no_match CARD_SHAPE) by done.
    by rewrite sub_no_match.
Qed.

(** ** Values *)

Fixpoint scrub_map (v : pyval) : pyval :=
  match v with
  | PStr s => PStr (scrub_leaf s)
  | PDict d => PDict ((λ kv, (kv.1, scrub_map kv.2)) <$> d)
  | PList l => PList (scrub_map <$> l)
  | _ => v
  end.

Definition has_pii (v : pyval) : bool := existsb leaf_is_pii (iter_str_leaves v).

Lemma leaves_dict k x d :
  iter_str_leaves (PDict ((k, x) :: d)) = (iter_str_leaves x ++ iter_str_leaves (PDict d))%list.
Proof. reflexivity. Qed.
Lemma leaves_list x l :
  iter_str_leaves (PList (x :: l)) = (iter_str_leaves x ++ iter_str_leaves (PList l))%list.
Proof. reflexivity. Qed.

Lemma scrub_obj_spec v ch : scrub_obj v ch = (scrub_map v, ch || has_pii v).
Proof.
  revert ch. induction v as [| | | |s|l IH|d IH] using pyval_nested_ind; intros ch;
    try (simpl; by rewrite orb_false_r).
  - simpl. unfold has_pii. simpl. do 2 f_equal. rewrite orb_false_r.
    pose proof (scrub_leaf_id s). case_bool_decide; destruct (leaf_is_pii s); naive_solver.
  - revert ch. induction IH as [|x l Hx _ IHl]; intros ch; [simpl; by rewrite orb_false_r|].
    specialize (IHl (ch || has_pii x)). simpl in IHl |- *. rewrite Hx.
    revert IHl. case_match. intros [= -> ->].
    f_equal. unfold has_pii. rewrite leaves_list, existsb_app. by rewrite orb_assoc.
  - revert ch. induction IH as [|[k x] d Hx _ IHd]; intros ch; [simpl; by rewrite orb_false_r|].
    specialize (IHd (ch || has_pii x)). simpl in IHd, Hx |- *. rewrite Hx.
    revert IHd. case_match. intros [= -> ->].
    f_equal. unfold has_pii. rewrite leaves_dict, existsb_app. by rewrite orb_assoc.
Qed.

Lemma scrub_map_safe v : has_pii (scrub_map v) = false.
Proof.
  unfold has_pii. induction v as [| | | |s|l IH|d IH] using pyval_nested_ind; try done.
  - simpl. by rewrite scrub_leaf_safe.
  - induction IH as [|x l Hx _ IHl]; [done|].
    change (scrub_map (PList (x :: l))) with (PList (scrub_map x :: (scrub_map <$> l))).
    rewrite leaves_list, existsb_app, Hx. apply IHl.
  - induction IH as [|[k x] d Hx _ IHd]; [done|].
    change (scrub_map (PDict ((k, x) :: d)))
      with (PDict ((k, scrub_map x) :: ((λ kv, (kv.1, scrub_map kv.2)) <$> d))).
    simpl in Hx. rewrite leaves_dict, existsb_app, Hx. apply IHd.
Qed.

Lemma has_pii_set k b d : has_pii (PDict d) = false → has_pii (PDict (dict_set k (PBool b) d)) = false.
Proof.
  unfold has_pii. induction d as [|[k' x] d IH]; [done|].
  rewrite leaves_dict, existsb_app. intros [Hx Hd]%orb_false_iff. simpl dict_set.
  case_bool_decide; rewrite leaves_dict, existsb_app; [done|]. rewrite Hx. by apply IH.
Qed.

Lemma truthy_no_pii v : truthy v = false → has_pii v = false.
Proof.
  destruct v as [| | | |s|[]|[]]; try done. simpl. intros H%negb_false_iff%bool_decide_eq_true.
  by subst.
Qed.

Lemma assert_pii_safe_spec v :
  assert_pii_safe v = if has_pii v then Err PIIInAuditError else Ok tt.
Proof.
  unfold assert_pii_safe. destruct (truthy v) eqn:E; [done|]. simpl.
  by rewrite (truthy_no_pii v).
Qed.

Lemma scrub_pii_spec v :
  scrub_pii v =
    if has_pii v then
      match scrub_map v with
      | PDict d => Ok (PDict (dict_set SCRUBBED_MARKER_KEY (PBool true) d))
      | _ => Err (PyError "AssertionError" "")
      end
    else Ok v.
Proof.
  unfold scrub_pii. destruct (truthy v) eqn:E; simpl; [|by rewrite (truthy_no_pii v)].
  rewrite scrub_obj_spec. simpl. by destruct (has_pii v).
Qed.

(** The scrubber and the assertion agree on every [detail] object. A detail
    the assertion accepts is returned as it is; a detail it refuses is never
    refused by the writer: the scrubber returns a detail with the same keys in the
    same order (the marker set to true besides) that the assertion accepts, so one
    event that echoes a card or an SSN cannot fail its tenant's batch. *)
Theorem scrub_pii_assert_agree (d : list (string * pyval)) :
  match assert_pii_safe (PDict d) with
  | Ok _ => scrub_pii (PDict d) = Ok (PDict d)
  | Err _ => ∃ d', scrub_pii (PDict d) = Ok (PDict d') ∧ assert_pii_safe (PDict d') = Ok tt
      ∧ dict_get SCRUBBED_MARKER_KEY d' = Some (PBool true)
      ∧ dict_keys d' = (if dict_mem SCRUBBED_MARKER_KEY d then dict_keys d
                        else dict_keys d ++ [SCRUBBED_MARKER_KEY])%list
  end.
Proof.
  rewrite assert_pii_safe_spec, scrub_pii_spec. destruct (has_pii (PDict d)); [|done].
  exists (dict_set SCRUBBED_MARKER_KEY (PBool true) ((λ kv, (kv.1, scrub_map kv.2)) <$> d)).
  split_and!; [done| |apply dict_get_set_eq|].
  - rewrite assert_pii_safe_spec, has_pii_set; [done|]. apply (scrub_map_safe (PDict d)).
  - unfold dict_keys. by rewrite dict_set_keys, dict_mem_fmap, dict_keys_fmap.
Qed.
