(* ===== verification/AuditEvent.v ===== *)
(** * The hashed form of an audit event

    [core-storage-api/.../services/audit_chain.py], first half: the canonical
    timestamp, number and resource id, the canonical event and its hash. A row is
    hashed when it is written and again when it is verified, from what the database
    returns; the theorems say that the two agree and that the canonical bytes
    determine the event.

    An aware [datetime] is modelled by its UTC fields, so [astimezone(UTC)] is the
    identity; a [UUID] by its 128-bit integer. *)

From Stdlib Require Import SpecFloat.
From S2P Require Import PyStr PyVal JsonDumps Sha256 PiiScrub.

#[local] Open Scope string_scope.

(** ** Timestamps *)

Record datetime := Datetime {
  dt_year : Z; dt_month : Z; dt_day : Z;
  dt_hour : Z; dt_minute : Z; dt_second : Z; dt_microsecond : Z;
}.

#[global] Instance datetime_eq_dec : EqDecision datetime.
Proof. solve_decision. Defined.

(** The ranges [datetime] enforces. *)
Definition dt_valid (t : datetime) : Prop :=
  (0 <= dt_year t < 10000 ∧ 0 <= dt_month t < 100 ∧ 0 <= dt_day t < 100 ∧
   0 <= dt_hour t < 100 ∧ 0 <= dt_minute t < 100 ∧ 0 <= dt_second t < 100 ∧
   0 <= dt_microsecond t < 1000000)%Z.

(** [created_at.astimezone(UTC).strftime("%Y-%m-%dT%H:%M:%S.%f") + "Z"] *)
Definition canonical_created_at (t : datetime) : string :=
  pad_digits 10 4 (dt_year t) +:+ "-" +:+ pad_digits 10 2 (dt_month t) +:+ "-" +:+
  pad_digits 10 2 (dt_day t) +:+ "T" +:+ pad_digits 10 2 (dt_hour t) +:+ ":" +:+
  pad_digits 10 2 (dt_minute t) +:+ ":" +:+ pad_digits 10 2 (dt_second t) +:+ "." +:+
  pad_digits 10 6 (dt_microsecond t) +:+ "Z".

(** ** Numbers *)

Fixpoint normalise_numbers (v : pyval) : pyval :=
  match v with
  | PBool _ => v
  | PFloat f => if float_is_integer f then PInt (float_to_Z f) else v
  | PDict d => PDict ((λ kv, (kv.1, normalise_numbers kv.2)) <$> d)
  | PList l => PList (normalise_numbers <$> l)
  | _ => v
  end.

(** ** Resource ids *)

(** [int(s, 16)]: optional sign and [0x], single underscores between digits. *)
Definition hex_digit (c : ascii) : option Z :=
  if is_digit c then Some (Z.of_N (code c) - 48)%Z
  else if in_range 97 102 c then Some (Z.of_N (code c) - 87)%Z
  else if in_range 65 70 c then Some (Z.of_N (code c) - 55)%Z
  else None.

Fixpoint int16_digits (acc : Z) (after_digit : bool) (s : string) : option Z :=
  match s with
  | "" => if after_digit then Some acc else None
  | String c s =>
      if bool_decide (c = "_"%char) then
        if after_digit then int16_digits acc false s else None
      else match hex_digit c with
           | Some d => int16_digits (16 * acc + d)%Z true s
           | None => None
           end
  end.

Definition int16_prefix (s : string) : option Z :=
  match s with
  | String "0" (String x r) =>
      if bool_decide (x ∈ ["x"; "X"]%char) then
        int16_digits 0 false (match r with String "_" r' => r' | _ => r end)
      else int16_digits 0 false s
  | _ => int16_digits 0 false s
  end.

Definition int16 (s : string) : option Z :=
  match strip s with
  | String "+" r => int16_prefix r
  | String "-" r => Z.opp <$> int16_prefix r
  | r => int16_prefix r
  end.

(** [uuid.UUID(s)]; [None] is its [ValueError]. *)
Definition UUID (s : string) : option Z :=
  let hex := remove_all "uuid:" (remove_all "urn:" s) in
  let hex := remove_all "-" (strip_of (λ c, bool_decide (c ∈ ["{"; "}"]%char)) hex) in
  if negb (bool_decide (str_len hex = 32%Z)) then None
  else match int16 hex with
       | Some n => if (0 <=? n)%Z && (n <? 2 ^ 128)%Z then Some n else None
       | None => None
       end.

(** [str(u)]: 32 lower-case hexadecimal digits, hyphenated 8-4-4-4-12. *)
Definition uuid_str (n : Z) : string :=
  pad_digits 16 8 (n / 16 ^ 24) +:+ "-" +:+ pad_digits 16 4 (n / 16 ^ 20 mod 16 ^ 4) +:+ "-" +:+
  pad_digits 16 4 (n / 16 ^ 16 mod 16 ^ 4) +:+ "-" +:+
  pad_digits 16 4 (n / 16 ^ 12 mod 16 ^ 4) +:+ "-" +:+ pad_digits 16 12 (n mod 16 ^ 12).

(** [str | UUID]; the absent id is [None] of [option]. *)
Inductive resource_ref :=
| RStr (s : string)
| RUuid (n : Z).

#[global] Instance resource_ref_eq_dec : EqDecision resource_ref.
Proof. solve_decision. Defined.

Definition canonical_resource_id (r : option resource_ref) : option string :=
  match r with
  | None => None
  | Some (RStr s) =>
      if bool_decide (s = "") then None
      else match UUID s with Some n => Some (uuid_str n) | None => Some s end
  | Some (RUuid n) => Some (uuid_str n)
  end.

Example uuid_upper :
  canonical_resource_id (Some (RStr "{URN:uuid:00112233-4455-6677-8899-AABBCCDDEEFF}"))
  = Some "{URN:uuid:00112233-4455-6677-8899-AABBCCDDEEFF}"
  ∧ canonical_resource_id (Some (RStr "{00112233-4455-6677-8899-AABBCCDDEEFF}"))
  = Some "00112233-4455-6677-8899-aabbccddeeff".
Proof. split; reflexivity. Qed.

(** ** The canonical event *)

Record canonical_fields := CanonicalFields {
  cf_tenant_id : string;
  cf_seq : Z;
  cf_agent_id : option string;
  cf_action : string;
  cf_resource_type : string;
  cf_resource_id : option resource_ref;
  cf_detail : pyval;
  cf_created_at_iso : string;
}.

Definition opt_str (o : option string) : pyval :=
  match o with Some s => PStr s | None => PNone end.

Definition canonical_obj (e : canonical_fields) : pyval :=
  PDict [("tenant_id", PStr (cf_tenant_id e));
         ("seq", PInt (cf_seq e));
         ("agent_id", opt_str (cf_agent_id e));
         ("action", PStr (cf_action e));
         ("resource_type", PStr (cf_resource_type e));
         ("resource_id", opt_str (canonical_resource_id (cf_resource_id e)));
         ("detail", normalise_numbers (cf_detail e));
         ("created_at", PStr (cf_created_at_iso e))].

Definition canonical_event {FR : FloatRepr} (e : canonical_fields) : string :=
  utf8 (dumps (canonical_obj e)).

(** [SHA256(canonical || prev_hash)], 32 raw bytes. *)
Definition compute_event_hash (canonical prev_hash : string) : string :=
  sha256 (canonical +:+ prev_hash).

(** [b"\x00" * 32] *)
Definition GENESIS_PREV_HASH : string := String.string_of_list_ascii (repeat "000"%char 32).

#[global] Arguments canonical_event : simpl never.
#[global] Arguments compute_event_hash : simpl never.
#[global] Arguments canonical_created_at : simpl never.

Lemma compute_event_hash_length c p : String.length (compute_event_hash c p) = 32.
Proof. unfold compute_event_hash. rewrite sha256_length. reflexivity. Qed.

(** ** Canonical timestamps are injective *)

Lemma pad_app_inj w n n' r r' :
  (0 <= n < 10 ^ Z.of_nat w → 0 <= n' < 10 ^ Z.of_nat w →
   pad_digits 10 w n +:+ r = pad_digits 10 w n' +:+ r' → n = n' ∧ r = r')%Z.
Proof.
  intros Hn Hn' H. apply string_app_inj_length in H as [H ->]; [|by rewrite !pad_digits_length].
  split; [|done]. by apply pad_digits_inj in H.
Qed.

Lemma canonical_created_at_inj t t' :
  dt_valid t → dt_valid t' → canonical_created_at t = canonical_created_at t' → t = t'.
Proof.
  destruct t as [Y M D h m s u], t' as [Y' M' D' h' m' s' u'].
  unfold dt_valid, canonical_created_at. cbn [dt_year dt_month dt_day dt_hour dt_minute dt_second
    dt_microsecond]. intros (?&?&?&?&?&?&?) (?&?&?&?&?&?&?) Heq.
  repeat match type of Heq with
  | pad_digits _ _ _ +:+ _ = _ => apply pad_app_inj in Heq as [-> Heq]; [|done..]
  | _ +:+ _ = _ => apply string_app_inj_l in Heq
  end.
  done.
Qed.

(** ** What the canonical bytes determine *)

(** Two events the hash cannot tell apart: equal fields, the resource id up to its
    spelling, the detail up to the order of its keys and to integral floats. *)
Record same_event (e e' : canonical_fields) : Prop := SameEvent {
  se_tenant : cf_tenant_id e = cf_tenant_id e';
  se_seq : cf_seq e = cf_seq e';
  se_agent : cf_agent_id e = cf_agent_id e';
  se_action : cf_action e = cf_action e';
  se_type : cf_resource_type e = cf_resource_type e';
  se_resource : canonical_resource_id (cf_resource_id e)
                = canonical_resource_id (cf_resource_id e');
  se_detail : sort_keys (normalise_numbers (cf_detail e))
              = sort_keys (normalise_numbers (cf_detail e'));
  se_created : cf_created_at_iso e = cf_created_at_iso e';
}.

#[export] Instance same_event_equiv : Equivalence same_event.
Proof.
  split.
  - by intros e.
  - intros e e' []. by split.
  - intros e1 e2 e3 [] []. split; congruence.
Qed.

Lemma sort_canonical_obj e :
  sort_keys (canonical_obj e) =
  PDict [("action", PStr (cf_action e));
         ("agent_id", sort_keys (opt_str (cf_agent_id e)));
         ("created_at", PStr (cf_created_at_iso e));
         ("detail", sort_keys (normalise_numbers (cf_detail e)));
         ("resource_id", sort_keys (opt_str (canonical_resource_id (cf_resource_id e))));
         ("resource_type", PStr (cf_resource_type e));
         ("seq", PInt (cf_seq e));
         ("tenant_id", PStr (cf_tenant_id e))].
Proof. reflexivity. Qed.

Lemma sort_opt_str_inj o o' : sort_keys (opt_str o) = sort_keys (opt_str o') → o = o'.
Proof. destruct o, o'; simpl; congruence. Qed.

Section Canonical.
Context {FR : FloatRepr}.

#[export] Instance canonical_event_proper : Proper (same_event ==> eq) canonical_event.
Proof.
  intros e e' [Ht Hs Ha Hac Hty Hr Hd Hc]. unfold canonical_event, dumps.
  by rewrite !sort_canonical_obj, Ht, Hs, Ha, Hac, Hty, Hr, Hd, Hc.
Qed.

Lemma canonical_event_inj e e' : canonical_event e = canonical_event e' → same_event e e'.
Proof.
  intros He%utf8_inj%dumps_inj. rewrite !sort_canonical_obj in He.
  injection He as H1 H2 H3 H4 H5 H6 H7 H8.
  apply sort_opt_str_inj in H2, H5. by split.
Qed.
End Canonical.

(** ** The JSON column *)

(** What a JSON(B) column may return for a stored value: the same scalars, an
    integral float possibly as an integer, the items of a dict in any order. *)
Inductive json_rt : pyval → pyval → Prop :=
| rt_refl v : json_rt v v
| rt_float f : float_is_integer f = true → json_rt (PFloat f) (PInt (float_to_Z f))
| rt_list l l' : Forall2 json_rt l l' → json_rt (PList l) (PList l')
| rt_dict d d' d'' :
    Forall2 (λ kv kv', kv.1 = kv'.1 ∧ json_rt kv.2 kv'.2) d d' → d' ≡ₚ d'' →
    json_rt (PDict d) (PDict d'').

Lemma sort_keys_dict_perm d d' :
  NoDup (d.*1) → d ≡ₚ d' → sort_keys (PDict d) = sort_keys (PDict d').
Proof.
  intros Hnd Hp. simpl. f_equal.
  set (f := λ kv : string * pyval, (kv.1, sort_keys kv.2)).
  assert (f <$> d ≡ₚ f <$> d') as Hf by (by apply fmap_Permutation).
  apply (sorted_perm_unique key_leb).
  - intros [k x] [k' x'] Hx Hx' Hle Hle'. apply py_sorted_elem in Hx, Hx'.
    assert (k = k') as -> by (by apply str_leb_antisym).
    assert (NoDup ((f <$> d).*1)) as Hnd' by (by unfold f; rewrite dict_keys_fmap).
    apply (dict_get_NoDup _ _ _ Hnd') in Hx, Hx'. congruence.
  - apply py_sorted_sorted; [intros; apply str_leb_total|intros; by eapply str_leb_trans].
  - apply py_sorted_sorted; [intros; apply str_leb_total|intros; by eapply str_leb_trans].
  - by rewrite !py_sorted_perm.
Qed.

Lemma json_rt_canonical v v' :
  wf_val v → json_rt v v' → sort_keys (normalise_numbers v) = sort_keys (normalise_numbers v').
Proof.
  revert v'. induction v as [| | |f| |l IH|d IH] using pyval_nested_ind; intros v' Hwf Hrt;
    inversion Hrt as [|? Hf|? l' Hl|? d' d'' Hd Hp]; subst; try done.
  - simpl. by rewrite Hf.
  - apply wf_list in Hwf. simpl. f_equal. rewrite <-!list_fmap_compose. clear Hrt.
    revert Hwf IH. induction Hl as [|x x' l l' Hx _ IHl]; [done|].
    intros [Hwx Hwf]%Forall_cons [Hix IH]%Forall_cons. simpl. f_equal; auto.
  - apply wf_dict in Hwf as [Hnd Hwf].
    transitivity (sort_keys (normalise_numbers (PDict d'))).
    + simpl. do 2 f_equal. rewrite <-!list_fmap_compose. clear Hrt Hp Hnd.
      revert Hwf IH. induction Hd as [|x x' l l' [Hk Hx] _ IHl]; [done|].
      intros [Hwx Hwf]%Forall_cons [Hix IH]%Forall_cons. simpl.
      f_equal; [|auto]. rewrite Hk. f_equal. auto.
    + apply (sort_keys_dict_perm ((λ kv, (kv.1, normalise_numbers kv.2)) <$> d')
        ((λ kv, (kv.1, normalise_numbers kv.2)) <$> d'')).
      * rewrite dict_keys_fmap. assert (d'.*1 = d.*1) as ->; [|done].
        clear -Hd. induction Hd as [|x x' l l' [Hk _] _ IHl]; [done|]. simpl. by f_equal.
      * by apply fmap_Permutation.
Qed.

(** ** UUIDs are read back *)

Definition hexl_char (c : ascii) : bool := is_digit c || in_range 97 102 c.
Definition hexl (s : string) : bool := str_all hexl_char s.

Lemma remove_absent c p s :
  str_all (λ x, negb (bool_decide (c = x))) s = true → remove_all (String c p) s = s.
Proof.
  unfold remove_all. induction s as [|x s IH]; simpl; [done|].
  intros [Hx%negb_true_iff Hs]%andb_true_iff. rewrite Hx. simpl. by rewrite IH.
Qed.

Lemma remove_dash_app a r :
  hexl a = true → remove_all "-" (a +:+ r) = a +:+ remove_all "-" r.
Proof.
  unfold remove_all. induction a as [|x a IH]; cbn -[startswith]; [done|].
  intros [Hx Ha]%andb_true_iff. assert (startswith "-" (String x (a +:+ r)) = false) as ->.
  { simpl. rewrite bool_decide_false; [done|]. by intros <-. }
  by rewrite IH.
Qed.

Lemma strip_of_absent f s : str_all (λ c, negb (f c)) s = true → strip_of f s = s.
Proof.
  intros Hs. assert (rstrip_of f s = s) as Hr.
  { induction s as [|c s IH]; simpl in *; [done|].
    apply andb_true_iff in Hs as [Hc%negb_true_iff Hs]. rewrite IH by done.
    destruct s; [by rewrite Hc|done]. }
  unfold strip_of. rewrite Hr. destruct s as [|c s]; simpl in *; [done|].
  apply andb_true_iff in Hs as [Hc%negb_true_iff _]. by rewrite Hc.
Qed.

Lemma strip_absent s : str_all (λ c, negb (is_space c)) s = true → strip s = s.
Proof. apply strip_of_absent. Qed.

Lemma hex_digits (P : Z → Prop) :
  Forall P [0;1;2;3;4;5;6;7;8;9;10;11;12;13;14;15]%Z → ∀ d, (0 <= d < 16)%Z → P d.
Proof.
  intros HP d Hd. rewrite Forall_forall in HP. apply HP. rewrite !elem_of_cons. lia.
Qed.

Lemma digit_char_hexl d : (0 <= d < 16)%Z → hexl_char (digit_char d) = true.
Proof.
  revert d. apply hex_digits. by repeat constructor.
Qed.

Lemma pad_hexl w n : hexl (pad_digits 16 w n) = true.
Proof.
  revert n. unfold hexl. induction w as [|w IH]; intros n; simpl; [done|].
  rewrite str_all_app, IH. simpl. rewrite digit_char_hexl; [done|]. apply Z.mod_pos_bound. lia.
Qed.

Lemma pad_mod w n : pad_digits 16 w (n mod 16 ^ Z.of_nat w) = pad_digits 16 w n.
Proof.
  revert n. induction w as [|w IH]; intros n; [done|].
  rewrite Nat2Z.inj_succ, Z.pow_succ_r by lia. simpl. rewrite <-(IH (n / 16)%Z). f_equal.
  - f_equal. rewrite Z.rem_mul_r by lia. rewrite Z.add_comm, Z.mul_comm, Z.div_add_l by lia.
    rewrite (Z.div_small (n mod 16)) by (apply Z.mod_pos_bound; lia). lia.
  - f_equal. f_equal. rewrite Z.rem_mul_r by lia.
    rewrite Z.add_comm, Z.mul_comm, Z.add_comm, Z.mod_add by lia. by apply Z.mod_mod.
Qed.

Lemma pad_split w1 w2 n :
  pad_digits 16 (w1 + w2) n = pad_digits 16 w1 (n / 16 ^ Z.of_nat w2) +:+ pad_digits 16 w2 n.
Proof.
  revert n. induction w2 as [|w2 IH]; intros n.
  - rewrite Nat.add_0_r. simpl. by rewrite Z.div_1_r, string_app_nil_r.
  - rewrite Nat.add_succ_r. simpl. rewrite IH, string_app_assoc, Zdiv_Zdiv by lia.
    by rewrite Nat2Z.inj_succ, Z.pow_succ_r by lia.
Qed.

Lemma hex_digit_char d : (0 <= d < 16)%Z → hex_digit (digit_char d) = Some d ∧ digit_char d ≠ "_"%char.
Proof.
  revert d. apply hex_digits. by repeat constructor.
Qed.

Lemma int16_pad w n acc ad r :
  (0 <= n < 16 ^ Z.of_nat w)%Z →
  int16_digits acc ad (pad_digits 16 w n +:+ r) =
    int16_digits (acc * 16 ^ Z.of_nat w + n) (ad || (0 <? w)%nat) r.
Proof.
  revert n acc ad r. induction w as [|w IH]; intros n acc ad r Hn.
  { simpl in *. rewrite orb_false_r. f_equal. change (Z.of_nat 0) with 0%Z in Hn. simpl in Hn. lia. }
  rewrite Nat2Z.inj_succ, Z.pow_succ_r in * by lia. simpl pad_digits.
  rewrite string_app_assoc, IH.
  2: { split; [apply Z.div_pos; lia|apply Z.div_lt_upper_bound; lia]. }
  destruct (hex_digit_char (n mod 16)) as [Hd Hu]; [apply Z.mod_pos_bound; lia|].
  simpl. rewrite bool_decide_false, Hd by done. f_equal; [|by destruct ad].
  pose proof (Z.div_mod n 16 ltac:(lia)). lia.
Qed.

Lemma int16_hexl s : hexl s = true → int16 s = int16_digits 0 false s.
Proof.
  intros Hs. unfold int16. rewrite strip_absent.
  2: { eapply str_all_impl; [|exact Hs]. intros c.
       by destruct c as [[] [] [] [] [] [] [] []]; vm_compute. }
  destruct s as [|c s]; [done|]. unfold hexl in Hs. simpl in Hs.
  apply andb_true_iff in Hs as [Hc Hs].
  assert (int16_prefix (String c s) = int16_digits 0 false (String c s)) as Hp.
  { destruct s as [|x s]; simpl in Hs.
    - by destruct c as [[] [] [] [] [] [] [] []].
    - apply andb_true_iff in Hs as [Hx _]. unfold int16_prefix.
      rewrite bool_decide_false; [|by intros [->|[->|[]%elem_of_nil]%elem_of_cons]%elem_of_cons].
      by destruct c as [[] [] [] [] [] [] [] []]. }
  rewrite <-Hp. by destruct c as [[] [] [] [] [] [] [] []]; vm_compute in Hc.
Qed.

Lemma remove_dash_cons r : remove_all "-" ("-" +:+ r) = remove_all "-" r.
Proof. reflexivity. Qed.

Lemma remove_dash_end a : hexl a = true → remove_all "-" a = a.
Proof. intros Ha. rewrite <-(string_app_nil_r a) at 1. by rewrite remove_dash_app, string_app_nil_r. Qed.

Lemma remove_dash_seg a r :
  hexl a = true → remove_all "-" (a +:+ "-" +:+ r) = a +:+ remove_all "-" r.
Proof. intros Ha. by rewrite remove_dash_app. Qed.

Lemma uuid_str_digits n :
  remove_all "-" (uuid_str n) = pad_digits 16 32 n.
Proof.
  unfold uuid_str. rewrite !remove_dash_seg, remove_dash_end by apply pad_hexl.
  rewrite !(pad_mod 4 : ∀ k, pad_digits 16 4 (k mod 16 ^ 4) = _).
  rewrite (pad_mod 12 n : pad_digits 16 12 (n mod 16 ^ 12) = _).
  change 32 with (8 + (4 + (4 + (4 + 12)))). rewrite !pad_split. done.
Qed.

(** The text of a UUID shows hexadecimal digits and hyphens only. *)
Lemma uuid_str_chars n : str_all (λ c, hexl_char c || dash_char c) (uuid_str n) = true.
Proof.
  assert (∀ w k, str_all (λ c, hexl_char c || dash_char c) (pad_digits 16 w k) = true) as Hp.
  { intros w k. eapply str_all_impl; [|apply pad_hexl]. by intros c ->. }
  unfold uuid_str. by rewrite !str_all_app, !Hp.
Qed.

(** A UUID survives its text: [UUID(str(u)) == u] for every 128-bit [u], so
    the id the verifier reads back from the UUID column is hashed as the one the
    writer was given, whichever way a caller spelled it. *)
Theorem uuid_roundtrip (n : Z) :
  (0 <= n < 2 ^ 128)%Z →
  UUID (uuid_str n) = Some n ∧
  ∀ s, UUID s = Some n →
    canonical_resource_id (Some (RStr s)) = canonical_resource_id (Some (RUuid n)).
Proof.
  intros Hn. split.
  - unfold UUID. pose proof (uuid_str_chars n) as Hc.
    rewrite (remove_absent "u" "rn:"), (remove_absent "u" "uid:"), strip_of_absent.
    2-4: eapply str_all_impl; [|exact Hc]; intros c;
      by destruct c as [[] [] [] [] [] [] [] []]; vm_compute.
    rewrite uuid_str_digits. unfold str_len. rewrite pad_digits_length, bool_decide_true by done.
    cbn [negb]. rewrite int16_hexl by apply pad_hexl.
    rewrite <-(string_app_nil_r (pad_digits 16 32 n)), int16_pad by (simpl Z.of_nat; lia).
    cbn [int16_digits orb Nat.ltb Nat.leb]. rewrite Z.mul_0_l, Z.add_0_l. destruct (Z.leb_spec 0 n), (Z.ltb_spec n (2 ^ 128)); try lia. done.
  - intros s Hs. simpl. rewrite Hs. case_bool_decide; [|done]. by subst.
Qed.

Lemma uuid_roundtrip_witness :
  (0 <= 0xaabbccdd00112233445566778899eeff < 2 ^ 128)%Z ∧
  UUID (uuid_str 0xaabbccdd00112233445566778899eeff) = Some 0xaabbccdd00112233445566778899eeff%Z.
Proof.
  assert (0 <= 0xaabbccdd00112233445566778899eeff < 2 ^ 128)%Z as Hn by lia.
  split; [exact Hn|]. exact (proj1 (uuid_roundtrip _ Hn)).
Defined.
