(* ===== verification/AuditChain.v ===== *)
(** * The tamper-evident audit log: tables, writer and verifier

    [core-storage-api/.../services/postgres_service.py]: [audit_add],
    [audit_add_batch], [audit_add_batch_chained], [_audit_chain_one_tenant],
    [audit_verify_chain] and [_verify_audit_chain_rows] over the tables of
    [common/models/audit.py]. A transaction is a function from the database to the
    database it commits, or to the exception that rolls it back; the head row's
    [FOR UPDATE] lock makes the transactions of one tenant sequential, so a history
    is a sequence of them. *)

From S2P Require Import PyStr PyVal JsonDumps Sha256 PiiScrub AuditEvent.

#[local] Open Scope string_scope.

(** ** Tables *)

Record audit_row := AuditRow {
  row_id : string;
  row_tenant_id : string;
  row_agent_id : option string;
  row_action : string;
  row_resource_type : string;
  row_resource_id : option resource_ref;
  row_detail : pyval;
  row_created_at : datetime;
  row_seq : option Z;
  row_prev_hash : option string;
  row_event_hash : option string;
  row_client_event_id : option string;
}.

Record chain_head := ChainHead {
  last_seq : Z;
  last_hash : string;
  updated_at : datetime;
}.

Record audit_db := AuditDb {
  audit_log : list audit_row;
  heads : gmap string chain_head;
}.

#[global] Instance audit_row_eq_dec : EqDecision audit_row.
Proof. solve_decision. Defined.
#[global] Instance chain_head_eq_dec : EqDecision chain_head.
Proof. solve_decision. Defined.

(** The unique indexes on [audit_log]: [(tenant_id, seq)] where [seq] is set, and
    [(tenant_id, client_event_id)] where the id is set. *)
Definition seq_key (r : audit_row) : option (string * Z) := pair (row_tenant_id r) <$> row_seq r.
Definition client_key (r : audit_row) : option (string * string) :=
  pair (row_tenant_id r) <$> row_client_event_id r.
Definition unique_ok (log : list audit_row) : bool :=
  bool_decide (NoDup (omap seq_key log)) && bool_decide (NoDup (omap client_key log)).

(** ** Events *)

Record audit_event := AuditEvent {
  ev_tenant_id : string;
  ev_agent_id : option string;
  ev_action : string;
  ev_resource_type : string;
  ev_resource_id : option resource_ref;
  ev_detail : pyval;
  ev_created_at : option datetime;
  ev_client_event_id : option string;
}.

(** The hashed fields of a row, as the verifier reads them. *)
Definition row_fields (r : audit_row) : canonical_fields := {|
  cf_tenant_id := row_tenant_id r;
  cf_seq := default 0%Z (row_seq r);
  cf_agent_id := row_agent_id r;
  cf_action := row_action r;
  cf_resource_type := row_resource_type r;
  cf_resource_id := row_resource_id r;
  cf_detail := row_detail r;
  cf_created_at_iso := canonical_created_at (row_created_at r);
|}.

Section Chain.
Context {FR : FloatRepr}.

(** ** The writer *)

Section Writer.
(** The transaction's clock reading and the random primary keys it draws. *)
Context (now : datetime) (new_id : Z → string).

(** The loop of [_audit_chain_one_tenant]: [already] are the client event ids in
    the table, [seen] those of this batch so far. *)
Fixpoint chain_events (tenant_id : string) (already seen : gset string)
    (seq : Z) (prev_hash : string) (events : list audit_event)
    : result exn (list audit_row * Z * string) :=
  match events with
  | [] => Ok ([], seq, prev_hash)
  | ev :: events =>
      let dup := match ev_client_event_id ev with
                 | Some c => bool_decide (c ∈ already) || bool_decide (c ∈ seen)
                 | None => false
                 end in
      if dup then chain_events tenant_id already seen seq prev_hash events
      else
        let seen := match ev_client_event_id ev with
                    | Some c => {[c]} ∪ seen | None => seen end in
        detail ← scrub_pii (ev_detail ev);
        _ ← assert_pii_safe detail;
        let seq := (seq + 1)%Z in
        let created := default now (ev_created_at ev) in
        let canon := canonical_event {|
          cf_tenant_id := tenant_id; cf_seq := seq; cf_agent_id := ev_agent_id ev;
          cf_action := ev_action ev; cf_resource_type := ev_resource_type ev;
          cf_resource_id := ev_resource_id ev; cf_detail := detail;
          cf_created_at_iso := canonical_created_at created |} in
        let this_hash := compute_event_hash canon prev_hash in
        let row := {|
          row_id := new_id seq; row_tenant_id := tenant_id; row_agent_id := ev_agent_id ev;
          row_action := ev_action ev; row_resource_type := ev_resource_type ev;
          row_resource_id := ev_resource_id ev; row_detail := detail;
          row_created_at := created; row_seq := Some seq; row_prev_hash := Some prev_hash;
          row_event_hash := Some this_hash; row_client_event_id := ev_client_event_id ev |} in
        '(rows, seq', prev') ← chain_events tenant_id already seen seq this_hash events;
        Ok (row :: rows, seq', prev')
  end.

(** The head row, locked, after the insert that creates it when it is missing. *)
Definition head_of (tenant_id : string) (db : audit_db) : chain_head :=
  default (ChainHead 0 GENESIS_PREV_HASH now) (heads db !! tenant_id).

Definition incoming_ids (events : list audit_event) : list string :=
  omap ev_client_event_id events.

(** [SELECT client_event_id ... WHERE tenant_id = ... AND client_event_id IN ...] *)
Definition chained_ids (tenant_id : string) (ids : list string) (log : list audit_row)
    : gset string :=
  list_to_set (filter (λ c, c ∈ ids)
    (omap row_client_event_id (filter (λ r, row_tenant_id r = tenant_id) log))).

Definition audit_chain_one_tenant (tenant_id : string) (events : list audit_event)
    (db : audit_db) : result exn audit_db :=
  let head := head_of tenant_id db in
  let already := chained_ids tenant_id (incoming_ids events) (audit_log db) in
  '(rows, seq, prev_hash) ←
    chain_events tenant_id already ∅ (last_seq head) (last_hash head) events;
  let log := (audit_log db ++ rows)%list in
  _ ← raise_if (negb (unique_ok log)) (PyError "IntegrityError" "");
  Ok {| audit_log := log;
        heads := <[tenant_id := ChainHead seq prev_hash now]> (heads db) |}.
End Writer.

(** Grouping by tenant, in order of first appearance. *)
Definition by_tenant (events : list audit_event) : list (string * list audit_event) :=
  foldl (λ d ev, dict_set (ev_tenant_id ev)
                   (default [] (dict_get (ev_tenant_id ev) d) ++ [ev])%list d) [] events.

(** Each group in its own transaction, with its own clock reading and keys; the
    first failure is raised once every group has been tried. *)
Fixpoint chain_groups (now : string → datetime) (new_id : string → Z → string)
    (groups : list (string * list audit_event)) (db : audit_db) (first_error : option exn)
    : audit_db * option exn :=
  match groups with
  | [] => (db, first_error)
  | (t, evs) :: groups =>
      match audit_chain_one_tenant (now t) (new_id t) t evs db with
      | Ok db' => chain_groups now new_id groups db' first_error
      | Err e => chain_groups now new_id groups db
                   (match first_error with None => Some e | Some _ => first_error end)
      end
  end.

Definition audit_add_batch_chained (now : string → datetime) (new_id : string → Z → string)
    (events : list audit_event) (db : audit_db) : audit_db * result exn unit :=
  match events with
  | [] => (db, Ok tt)
  | _ =>
      let '(db', first_error) := chain_groups now new_id (by_tenant events) db None in
      (db', match first_error with Some e => Err e | None => Ok tt end)
  end.

Definition audit_add_batch := audit_add_batch_chained.

Definition audit_add (now : datetime) (new_id : Z → string)
    (tenant_id : string) (agent_id : option string) (action resource_type : string)
    (resource_id : option resource_ref) (detail : pyval) (db : audit_db) : result exn audit_db :=
  audit_chain_one_tenant now new_id tenant_id
    [AuditEvent tenant_id agent_id action resource_type resource_id detail None None] db.

(** ** The verifier *)

Inductive broken :=
| BrokenSeed (seq : Z) (reason : string)
| BrokenRow (seq : option Z) (id reason : string) (created_at : datetime)
| BrokenTail (reason : string) (head_seq chain_seq : option Z).

Record verdict := Verdict {
  valid : bool;
  verified_count : Z;
  first_broken : option broken;
  v_head_seq : option Z;
  v_truncated : option bool;
  next_seq : option Z;
}.

Definition broken_verdict (n : Z) (b : broken) : verdict :=
  Verdict false n (Some b) None None None.

(** Why a row does not link, if it does not. *)
Definition row_reason (r : audit_row) (expected_seq : Z) (expected_prev : option string)
    : option string :=
  if negb (bool_decide (row_seq r = Some expected_seq)) then Some "seq_gap"
  else if negb (bool_decide (row_prev_hash r = expected_prev)) then Some "prev_hash_mismatch"
  else if negb (bool_decide (
    Some (compute_event_hash (canonical_event (row_fields r)) (default "" (row_prev_hash r)))
    = row_event_hash r)) then Some "event_hash_mismatch"
  else None.

(** The walk: the next expected sequence number and link, or the broken row. *)
Fixpoint walk_rows (rows : list audit_row) (expected_seq : Z) (expected_prev : option string)
    : result (Z * audit_row * string) (Z * option string) :=
  match rows with
  | [] => Ok (expected_seq, expected_prev)
  | r :: rows =>
      match row_reason r expected_seq expected_prev with
      | Some reason => Err (expected_seq, r, reason)
      | None => walk_rows rows (expected_seq + 1) (row_event_hash r)
      end
  end.

Definition verify_audit_chain_rows (rows : list audit_row) (head : option chain_head)
    (limit start_seq : Z) (seed_prev : option string) : verdict :=
  match seed_prev with
  | None => broken_verdict 0 (BrokenSeed start_seq "missing_predecessor")
  | Some seed =>
      match walk_rows rows start_seq (Some seed) with
      | Err (expected_seq, r, reason) =>
          broken_verdict (expected_seq - start_seq)
            (BrokenRow (row_seq r) (row_id r) reason (row_created_at r))
      | Ok _ =>
          let n := Z.of_nat (length rows) in
          let truncated := (limit <=? n)%Z in
          let '(head_seq, head_hash) :=
            match head with
            | Some h => (Some (last_seq h), Some (last_hash h))
            | None => (Some 0%Z, Some GENESIS_PREV_HASH)
            end in
          let '(lseq, lhash) :=
            match last rows with
            | Some r => (row_seq r, row_event_hash r)
            | None => if (1 <? start_seq)%Z then (Some (start_seq - 1)%Z, Some seed)
                      else (Some 0%Z, Some GENESIS_PREV_HASH)
            end in
          if negb truncated &&
             (negb (bool_decide (head_seq = lseq)) || negb (bool_decide (head_hash = lhash)))
          then broken_verdict n (BrokenTail "tail_truncated" head_seq lseq)
          else Verdict true n None lseq (Some truncated)
                 (if truncated then Z.succ <$> lseq else None)
      end
  end.

(** The rows of a window, in [seq] order. *)
Definition in_window (tenant_id : string) (start_seq : Z) (r : audit_row) : bool :=
  bool_decide (row_tenant_id r = tenant_id) &&
  match row_seq r with Some s => (start_seq <=? s)%Z | None => false end.
Definition seq_leb (a b : audit_row) : bool :=
  (default 0 (row_seq a) <=? default 0 (row_seq b))%Z.
Definition window (tenant_id : string) (start_seq : Z) (log : list audit_row) : list audit_row :=
  py_sorted seq_leb (filter (λ r, in_window tenant_id start_seq r) log).

(** The link the window attaches to: the hash of row [start_seq - 1]. *)
Definition seed_of (tenant_id : string) (start_seq : Z) (log : list audit_row) : option string :=
  if (1 <? start_seq)%Z then
    r ← head (filter (λ r, row_tenant_id r = tenant_id ∧ row_seq r = Some (start_seq - 1)%Z) log);
    row_event_hash r
  else Some GENESIS_PREV_HASH.

Definition audit_verify_chain (tenant_id : string) (limit start_seq : Z) (db : audit_db) : verdict :=
  verify_audit_chain_rows (take (Z.to_nat limit) (window tenant_id start_seq (audit_log db)))
    (heads db !! tenant_id) limit start_seq (seed_of tenant_id start_seq (audit_log db)).
End Chain.

(** ** Walks *)

#[local] Close Scope string_scope.
#[local] Open Scope list_scope.

Section Walks.
Context {FR : FloatRepr}.

Lemma walk_rows_app a b s p :
  walk_rows (a ++ b) s p = '(s', p') ← walk_rows a s p; walk_rows b s' p'.
Proof.
  revert s p. induction a as [|r a IH]; intros s p; simpl; [done|].
  by destruct (row_reason r s p).
Qed.

Lemma row_reason_None r s p :
  row_reason r s p = None →
  row_seq r = Some s ∧ row_prev_hash r = p ∧
  row_event_hash r = Some (compute_event_hash (canonical_event (row_fields r)) (default ""%string p)).
Proof.
  unfold row_reason. repeat (case_bool_decide; simpl; [|done]). intros _.
  subst. split_and!; congruence.
Qed.

Lemma row_reason_ok r s p :
  row_seq r = Some s → row_prev_hash r = p →
  row_event_hash r = Some (compute_event_hash (canonical_event (row_fields r)) (default ""%string p)) →
  row_reason r s p = None.
Proof.
  intros Hs Hp Hh. unfold row_reason.
  rewrite (bool_decide_true _ Hs), (bool_decide_true _ Hp). cbn [negb].
  rewrite Hp, Hh. by rewrite bool_decide_true.
Qed.

(** A walk that ends has visited consecutive numbers, each row chained. *)
Lemma walk_rows_seqs rows s p s' p' :
  walk_rows rows s p = Ok (s', p') →
  s' = (s + Z.of_nat (length rows))%Z ∧
  (∀ i r, rows !! i = Some r → row_seq r = Some (s + Z.of_nat i)%Z).
Proof.
  revert s p. induction rows as [|r rows IH]; intros s p; simpl.
  { intros [= -> ->]. split; [lia|]. done. }
  destruct (row_reason r s p) eqn:Er; [done|]. intros [-> Hi]%IH. split; [lia|].
  intros [|i] r' Hr'; simpl in Hr'.
  - injection Hr' as <-. apply row_reason_None in Er as [-> _]. f_equal. lia.
  - apply Hi in Hr' as ->. f_equal. lia.
Qed.

(** The link a walk ends on is the hash of the last row, or the seed. *)
Lemma walk_rows_last rows s p s' p' :
  walk_rows rows s p = Ok (s', p') →
  match last rows with
  | None => p' = p ∧ s' = s
  | Some r => row_event_hash r = p' ∧ row_seq r = Some (s' - 1)%Z
  end.
Proof.
  revert s p. induction rows as [|r rows IH]; intros s p; simpl; [by intros [= -> ->]|].
  destruct (row_reason r s p) eqn:Er; [done|]. intros Hw. pose proof (IH _ _ Hw) as Hl.
  rewrite last_cons. destruct rows as [|r' rows].
  2: { rewrite last_cons in *. by destruct (last rows). }
  injection Hw as <- <-. simpl.
  apply row_reason_None in Er as [-> _]. split; [done|]. f_equal. lia.
Qed.

(** The chained rows of a tenant, in the order they were inserted. *)
Definition tenant_rows (t : string) (log : list audit_row) : list audit_row :=
  filter (λ r, row_tenant_id r = t ∧ is_Some (row_seq r)) log.

Definition genesis_walk (t : string) (db : audit_db) : result (Z * audit_row * string) (Z * option string) :=
  walk_rows (tenant_rows t (audit_log db)) 1 (Some GENESIS_PREV_HASH).

Definition head_link (t : string) (db : audit_db) : Z * string :=
  match heads db !! t with
  | Some h => (last_seq h, last_hash h)
  | None => (0%Z, GENESIS_PREV_HASH)
  end.

(** The invariant of the tables: the unique indexes hold, every tenant's rows
    are a chain that ends where its head row says, and every detail is a dict of
    the language (or absent). *)
Definition chain_inv (db : audit_db) : Prop :=
  unique_ok (audit_log db) = true ∧
  (∀ t, genesis_walk t db = Ok ((head_link t db).1 + 1, Some (head_link t db).2)%Z) ∧
  (∀ r, r ∈ audit_log db → wf_val (row_detail r)).

(** ** One transaction *)

(** A detail as the emitters send it: absent or an object. *)
Definition detail_ok (v : pyval) : Prop :=
  wf_val v ∧ (v = PNone ∨ ∃ d, v = PDict d).

Lemma scrub_map_wf v : wf_val v → wf_val (scrub_map v).
Proof.
  induction v as [| | | |s|l IH|d IH] using pyval_nested_ind; try done.
  - rewrite wf_list. intros Hl. change (scrub_map (PList l)) with (PList (scrub_map <$> l)).
    apply wf_list. rewrite Forall_fmap. rewrite Forall_forall in *. unfold compose. auto.
  - rewrite wf_dict. intros [Hnd Hd].
    change (scrub_map (PDict d)) with (PDict ((λ kv, (kv.1, scrub_map kv.2)) <$> d)).
    apply wf_dict. rewrite dict_keys_fmap. split; [done|].
    rewrite Forall_fmap. rewrite Forall_forall in *. unfold compose. simpl. auto.
Qed.

Lemma wf_dict_set k v d : wf_val (PDict d) → wf_val v → wf_val (PDict (dict_set k v d)).
Proof.
  rewrite !wf_dict. intros [Hnd Hd] Hv. split; [by apply dict_set_NoDup|].
  clear Hnd. induction Hd as [|[k' x] d Hx Hd IH]; simpl; [by repeat constructor|].
  case_bool_decide; constructor; auto.
Qed.

Lemma scrub_pii_ok v :
  detail_ok v → ∃ v', scrub_pii v = Ok v' ∧ assert_pii_safe v' = Ok tt ∧ wf_val v'.
Proof.
  intros [Hwf [->|[d ->]]]; [by exists PNone|].
  pose proof (scrub_pii_spec (PDict d)) as Hs. destruct (has_pii (PDict d)) eqn:Hp.
  - eexists. split_and!; [exact Hs| |].
    + rewrite assert_pii_safe_spec, has_pii_set; [done|]. apply (scrub_map_safe (PDict d)).
    + apply wf_dict_set; [|done]. by apply (scrub_map_wf (PDict d)).
  - exists (PDict d). by rewrite assert_pii_safe_spec, Hp.
Qed.

Section OneTenant.
Context (now : datetime) (new_id : Z → string).

(** What the loop appends: rows of this tenant that continue the chain, with
    fresh client ids; and every id of the batch is accounted for. *)
Record chained (t : string) (already seen : gset string) (seq : Z) (prev : string)
    (evs : list audit_event) (rows : list audit_row) (seq' : Z) (prev' : string) : Prop := {
  ch_walk : walk_rows rows (seq + 1) (Some prev) = Ok (seq' + 1, Some prev')%Z;
  ch_rows : Forall (λ r, row_tenant_id r = t ∧ is_Some (row_seq r) ∧ wf_val (row_detail r)) rows;
  ch_fresh : ∀ c, c ∈ omap row_client_event_id rows → c ∉ already ∧ c ∉ seen ∧ c ∈ incoming_ids evs;
  ch_nodup : NoDup (omap row_client_event_id rows);
  ch_all : ∀ c, c ∈ incoming_ids evs →
    c ∈ already ∨ c ∈ seen ∨ c ∈ omap row_client_event_id rows;
}.

Lemma chain_events_ok t already seen seq prev evs :
  Forall (λ ev, detail_ok (ev_detail ev)) evs →
  ∃ rows seq' prev', chain_events now new_id t already seen seq prev evs = Ok (rows, seq', prev')
    ∧ chained t already seen seq prev evs rows seq' prev'.
Proof.
  intros Hd. revert seen seq prev. induction Hd as [|ev evs Hev _ IH]; intros seen seq prev.
  { exists [], seq, prev. split; [done|]. split; try done; try by constructor.
    all: intros c Hc; by apply elem_of_nil in Hc. }
  simpl. destruct (match ev_client_event_id ev with Some _ => _ | None => false end) eqn:Edup.
  - destruct (IH seen seq prev) as (rows & seq' & prev' & -> & [Hw Hr Hf Hn Ha]).
    do 3 eexists. split; [done|]. destruct (ev_client_event_id ev) as [c|] eqn:Ec; [|done].
    split; try done; unfold incoming_ids in *; simpl; rewrite Ec.
    + intros c' (?&?&?)%Hf. split_and!; try done. by right.
    + intros c' [->|Hc]%elem_of_cons; [|auto]. bool_to_prop.
      destruct Edup as [?%bool_decide_eq_true|?%bool_decide_eq_true]; auto.
  - destruct (scrub_pii_ok _ Hev) as (v & -> & Hs & Hwf). simpl. rewrite Hs. simpl.
    set (seen' := match ev_client_event_id ev with Some c => {[c]} ∪ seen | None => seen end).
    match goal with |- context [chain_events _ _ _ _ _ (seq + 1) ?h evs] => set (h0 := h) end.
    destruct (IH seen' (seq + 1)%Z h0) as (rows & seq' & prev' & -> & [Hw Hr Hf Hn Ha]).
    simpl. do 3 eexists. split; [done|]. split.
    + cbn [walk_rows]. by rewrite row_reason_ok.
    + constructor; [|done]. simpl. eauto.
    + unfold incoming_ids in *. simpl. unfold seen' in Hf.
      destruct (ev_client_event_id ev) as [c|]; simpl; [|exact Hf].
      intros c' [->|(?&?&?)%Hf]%elem_of_cons.
      * bool_to_prop. split_and!; try done. by left.
      * split_and!; [done|set_solver|by right].
    + simpl. unfold seen' in Hf. destruct (ev_client_event_id ev) as [c|]; simpl; [|done].
      constructor; [|done]. intros (?&?&?)%Hf. set_solver.
    + unfold incoming_ids in *. simpl. unfold seen' in Ha.
      destruct (ev_client_event_id ev) as [c|]; simpl; [|exact Ha].
      intros c' [->|Hc]%elem_of_cons; [by do 2 right; left|].
      destruct (Ha c' Hc) as [?|[[->%elem_of_singleton|?]%elem_of_union|?]];
        [auto|by do 2 right; left|auto|by do 2 right; right].
Qed.
End OneTenant.
(** ** The invariant is kept *)

Lemma elem_seq_key t n (log : list audit_row) :
  (t, n) ∈ omap seq_key log ↔ ∃ r, r ∈ log ∧ row_tenant_id r = t ∧ row_seq r = Some n.
Proof.
  rewrite list_elem_of_omap. unfold seq_key. split.
  - intros (r & Hr & Hk). exists r. destruct (row_seq r); naive_solver.
  - intros (r & Hr & <- & Hs). exists r. by rewrite Hs.
Qed.

Lemma elem_client_key t c (log : list audit_row) :
  (t, c) ∈ omap client_key log ↔ ∃ r, r ∈ log ∧ row_tenant_id r = t ∧ row_client_event_id r = Some c.
Proof.
  rewrite list_elem_of_omap. unfold client_key. split.
  - intros (r & Hr & Hk). exists r. destruct (row_client_event_id r); naive_solver.
  - intros (r & Hr & <- & Hs). exists r. by rewrite Hs.
Qed.

Lemma walk_rows_bound rows s p s' p' r n :
  walk_rows rows s p = Ok (s', p') → r ∈ rows → row_seq r = Some n → (s <= n < s')%Z.
Proof.
  intros [-> Hi]%walk_rows_seqs [i Hr]%list_elem_of_lookup Hn.
  pose proof (lookup_lt_Some _ _ _ Hr). apply Hi in Hr. rewrite Hn in Hr. injection Hr as ->. lia.
Qed.

Lemma walk_rows_NoDup rows s p s' p' :
  walk_rows rows s p = Ok (s', p') → NoDup (omap seq_key rows).
Proof.
  revert s p. induction rows as [|r rows IH]; intros s p; simpl; [constructor|].
  destruct (row_reason r s p) eqn:Er; [done|]. intros Hw.
  apply row_reason_None in Er as [Hs _]. unfold seq_key at 1. rewrite Hs. simpl.
  constructor; [|by eapply IH]. intros (r' & Hr' & _ & Hn)%elem_seq_key.
  pose proof (walk_rows_bound _ _ _ _ _ _ _ Hw Hr' Hn). lia.
Qed.

Lemma client_NoDup t rows :
  Forall (λ r, row_tenant_id r = t) rows → NoDup (omap row_client_event_id rows) →
  NoDup (omap client_key rows).
Proof.
  induction 1 as [|r rows Hr Hrs IH]; simpl; [constructor|]. unfold client_key at 1.
  destruct (row_client_event_id r) as [c|]; simpl; [|exact IH].
  intros [Hc Hn]%NoDup_cons. constructor; [|auto].
  intros (r' & Hr' & _ & Hc')%elem_client_key. apply Hc. apply list_elem_of_omap. eauto.
Qed.

Lemma tenant_rows_app t a b : tenant_rows t (a ++ b) = tenant_rows t a ++ tenant_rows t b.
Proof. apply filter_app. Qed.

Lemma tenant_rows_own t rows :
  Forall (λ r, row_tenant_id r = t ∧ is_Some (row_seq r)) rows → tenant_rows t rows = rows.
Proof.
  induction 1 as [|r rows Hr _ IH]; [done|]. unfold tenant_rows in *.
  by rewrite filter_cons_True, IH.
Qed.

Lemma tenant_rows_other t t' rows :
  t ≠ t' → Forall (λ r, row_tenant_id r = t) rows → tenant_rows t' rows = [].
Proof.
  intros Ht. induction 1 as [|r rows Hr _ IH]; [done|]. unfold tenant_rows in *.
  rewrite filter_cons_False; [exact IH|]. intros [? _]. congruence.
Qed.

Lemma elem_tenant_rows t r log :
  r ∈ tenant_rows t log ↔ r ∈ log ∧ row_tenant_id r = t ∧ is_Some (row_seq r).
Proof. unfold tenant_rows. rewrite list_elem_of_filter. naive_solver. Qed.

Lemma unique_ok_app t db rows seq' prev' evs :
  chain_inv db →
  chained t (chained_ids t (incoming_ids evs) (audit_log db)) ∅
    (head_link t db).1 (head_link t db).2 evs rows seq' prev' →
  unique_ok (audit_log db ++ rows) = true.
Proof.
  intros (Hu & Hg & _) [Hw Hr Hf Hn _]. unfold unique_ok in *.
  apply andb_true_iff in Hu as [Hu1%bool_decide_eq_true Hu2%bool_decide_eq_true].
  apply andb_true_iff. rewrite !bool_decide_eq_true, !omap_app, !NoDup_app.
  split; split_and!; try done; [|by eapply walk_rows_NoDup| |].
  - intros [t' n] (r & Hr1 & <- & Hs)%elem_seq_key (r' & Hr1' & Ht & Hs')%elem_seq_key.
    pose proof (walk_rows_bound _ _ _ _ _ _ _ Hw Hr1' Hs').
    assert (row_tenant_id r = t) as Heq.
    { rewrite <-Ht. rewrite Forall_forall in Hr. by apply Hr in Hr1' as [-> _]. }
    specialize (Hg t). unfold genesis_walk in Hg.
    eapply walk_rows_bound in Hg; [|apply elem_tenant_rows; eauto|done]. lia.
  - intros [t' c] (r & Hr1 & <- & Hs)%elem_client_key (r' & Hr1' & Ht & Hs')%elem_client_key.
    assert (row_tenant_id r = t) as Heq.
    { rewrite <-Ht. rewrite Forall_forall in Hr. by apply Hr in Hr1' as [-> _]. }
    assert (c ∈ omap row_client_event_id rows) as Hc by (apply list_elem_of_omap; eauto).
    apply Hf in Hc as (Hno & _ & Hin). apply Hno. unfold chained_ids.
    rewrite elem_of_list_to_set, list_elem_of_filter, list_elem_of_omap. split; [done|].
    exists r. split; [|done]. by apply list_elem_of_filter.
  - apply (client_NoDup t); [|done]. eapply Forall_impl; [done|]. by intros r [-> _].
Qed.

Lemma head_of_link now t db :
  (last_seq (head_of now t db), last_hash (head_of now t db)) = head_link t db.
Proof. unfold head_of, head_link. by destruct (heads db !! t). Qed.

(** One tenant's transaction, under the invariant, always commits: it appends
    what [chained] says and keeps the invariant. *)
Lemma one_tenant_ok now new_id t evs db :
  chain_inv db → Forall (λ ev, detail_ok (ev_detail ev)) evs →
  ∃ rows seq' prev',
    audit_chain_one_tenant now new_id t evs db =
      Ok (AuditDb (audit_log db ++ rows) (<[t := ChainHead seq' prev' now]> (heads db))) ∧
    chained t (chained_ids t (incoming_ids evs) (audit_log db)) ∅
      (head_link t db).1 (head_link t db).2 evs rows seq' prev' ∧
    chain_inv (AuditDb (audit_log db ++ rows) (<[t := ChainHead seq' prev' now]> (heads db))).
Proof.
  intros Hinv Hd. pose proof (head_of_link now t db) as Hh.
  destruct (head_link t db) as [seq prev] eqn:Hl. injection Hh as Hh1 Hh2.
  destruct (chain_events_ok now new_id t (chained_ids t (incoming_ids evs) (audit_log db)) ∅
    seq prev evs Hd) as (rows & seq' & prev' & He & Hc).
  exists rows, seq', prev'. unfold audit_chain_one_tenant. rewrite Hh1, Hh2, He. simpl.
  assert (unique_ok (audit_log db ++ rows) = true) as Hu.
  { eapply (unique_ok_app t); [done|]. rewrite Hl. exact Hc. }
  rewrite Hu. simpl. split_and!; [done..|].
  destruct Hinv as (_ & Hg & Hwf), Hc as [Hw Hr _ _ _]. split_and!; [done| |].
  - intros t'. specialize (Hg t'). unfold genesis_walk, head_link in *. simpl.
    rewrite tenant_rows_app. destruct (decide (t' = t)) as [->|Ht].
    + rewrite lookup_insert_eq, walk_rows_app, Hg, Hl. simpl.
      rewrite tenant_rows_own; [exact Hw|]. eapply Forall_impl; [done|]. naive_solver.
    + rewrite lookup_insert_ne by done.
      rewrite (tenant_rows_other t t' rows), app_nil_r; [exact Hg|done|].
      eapply Forall_impl; [done|]. naive_solver.
  - simpl. intros r [Hin|Hin]%elem_of_app; [by apply Hwf|].
    rewrite Forall_forall in Hr. by apply Hr.
Qed.
End Walks.
