(* ===== verification/AuditVerify.v ===== *)
(** * What verification of the audit chain establishes

    Theorems over [AuditChain]: every history of chained writes verifies, in any
    window; a paginated walk reaches the verdict of a full pass; a valid chain and
    its head row determine the events; storage may respell a row without changing
    the verdict; a retried batch appends nothing. *)

From S2P Require Import PyStr PyVal JsonDumps Sha256 PiiScrub AuditEvent AuditChain.

Section Verify.
Context {FR : FloatRepr}.

(** ** The verifier, restated on the walk *)

Definition head_opt (h : option chain_head) : Z * string :=
  match h with Some h => (last_seq h, last_hash h) | None => (0%Z, GENESIS_PREV_HASH) end.

(** The verdict of a walk that ended at [s'] on the link [p']. *)
Definition tail_verdict (h : option chain_head) (limit n s' : Z) (p' : option string) : verdict :=
  let truncated := (limit <=? n)%Z in
  if negb truncated &&
     negb (bool_decide ((head_opt h).1 = s' - 1)%Z && bool_decide (Some (head_opt h).2 = p'))
  then broken_verdict n (BrokenTail "tail_truncated" (Some (head_opt h).1) (Some (s' - 1)%Z))
  else Verdict true n None (Some (s' - 1)%Z) (Some truncated) (if truncated then Some s' else None).

Lemma verify_walk rows h limit s seed :
  (1 < s)%Z ∨ (s = 1%Z ∧ seed = GENESIS_PREV_HASH) →
  verify_audit_chain_rows rows h limit s (Some seed) =
    match walk_rows rows s (Some seed) with
    | Err (e, r, reason) =>
        broken_verdict (e - s) (BrokenRow (row_seq r) (row_id r) reason (row_created_at r))
    | Ok (s', p') => tail_verdict h limit (Z.of_nat (length rows)) s' p'
    end.
Proof.
  intros Hs. unfold verify_audit_chain_rows.
  destruct (walk_rows rows s (Some seed)) as [[s' p']|[[e r] reason]] eqn:Hw; [|done].
  pose proof (walk_rows_last _ _ _ _ _ Hw) as Hl. unfold tail_verdict.
  assert ((if (1 <? s)%Z then (Some (s - 1)%Z, Some seed) else (Some 0%Z, Some GENESIS_PREV_HASH))
          = (Some (s - 1)%Z, Some seed)) as Hseed.
  { destruct Hs as [Hs|[-> ->]]; [|done]. by destruct (Z.ltb_spec 1 s); [|lia]. }
  rewrite Hseed. destruct (last rows) as [r|]; [destruct Hl as [-> ->]|destruct Hl as [-> ->]].
  all: cbn [fmap option_fmap option_map].
  all: match goal with |- context [Z.succ (?x - 1)] => replace (Z.succ (x - 1)) with x by lia end.
  all: assert (∀ a b : Z, bool_decide (Some a = Some b) = bool_decide (a = b)) as Hb
    by (intros; apply bool_decide_ext; naive_solver).
  all: by destruct h as [h|]; cbn [head_opt fst snd]; rewrite Hb, negb_andb.
Qed.

Lemma tail_truncated h limit n s' p' :
  (limit <= n)%Z →
  tail_verdict h limit n s' p' = Verdict true n None (Some (s' - 1)%Z) (Some true) (Some s').
Proof. intros Hl. unfold tail_verdict. by destruct (Z.leb_spec limit n); [|lia]. Qed.

Lemma tail_whole h limit n s' p' :
  (n < limit)%Z →
  tail_verdict h limit n s' p' =
    if bool_decide ((head_opt h).1 = s' - 1)%Z && bool_decide (Some (head_opt h).2 = p')
    then Verdict true n None (Some (s' - 1)%Z) (Some false) None
    else broken_verdict n (BrokenTail "tail_truncated" (Some (head_opt h).1) (Some (s' - 1)%Z)).
Proof.
  intros Hl. unfold tail_verdict. destruct (Z.leb_spec limit n); [lia|]. cbn [negb andb].
  by destruct (bool_decide _ && bool_decide _).
Qed.

(** ** Windows *)

Definition seq_of (r : audit_row) : Z := default 0%Z (row_seq r).

(** The part of a list at or above a bound, when the list is cut at [k] by it. *)
Lemma filter_from_drop (l : list audit_row) k b :
  (∀ i r, l !! i = Some r → (b <= seq_of r)%Z ↔ k ≤ i) →
  filter (λ r, (b <= seq_of r)%Z) l = drop k l.
Proof.
  revert k. induction l as [|r l IH]; intros k Hk; [by destruct k|].
  rewrite filter_cons. pose proof (Hk 0 r eq_refl) as H0. destruct k as [|k].
  - rewrite decide_True by (apply H0; lia). simpl. f_equal. rewrite (IH 0).
    + by rewrite drop_0.
    + intros i x Hx. rewrite (Hk (S i) x Hx). lia.
  - rewrite decide_False by (rewrite H0; lia). simpl. apply IH.
    intros i x Hx. rewrite (Hk (S i) x Hx). lia.
Qed.

Lemma seq_leb_total a b : seq_leb a b = true ∨ seq_leb b a = true.
Proof. unfold seq_leb. rewrite !Z.leb_le. lia. Qed.
Lemma seq_leb_trans a b c : seq_leb a b = true → seq_leb b c = true → seq_leb a c = true.
Proof. unfold seq_leb. rewrite !Z.leb_le. lia. Qed.

(** Unique index: the rows of a tenant with one sequence number are one row. *)
Lemma unique_seq log r r' :
  unique_ok log = true → r ∈ log → r' ∈ log → row_tenant_id r = row_tenant_id r' →
  is_Some (row_seq r) → row_seq r = row_seq r' → r = r'.
Proof.
  unfold unique_ok. intros [Hu%bool_decide_eq_true _]%andb_true_iff.
  revert Hu. induction log as [|x log IH]; intros Hu Hr Hr' Ht [n Hn] Hs; [by apply elem_of_nil in Hr|].
  assert (∀ y, y ∈ log → row_tenant_id y = row_tenant_id x → row_seq x = Some n →
    row_seq y = Some n → False) as Hno.
  { intros y Hy Hty Hx Hyn. simpl in Hu. unfold seq_key at 1 in Hu. rewrite Hx in Hu. simpl in Hu.
    apply NoDup_cons in Hu as [Hni _]. apply Hni, elem_seq_key. eauto. }
  assert (NoDup (omap seq_key log)) as Hu'.
  { simpl in Hu. destruct (seq_key x); [by apply NoDup_cons in Hu as [_ ?]|done]. }
  apply elem_of_cons in Hr as [->|Hr], Hr' as [->|Hr']; try done.
  - exfalso. apply (Hno r'); congruence.
  - exfalso. apply (Hno r); congruence.
  - apply IH; eauto.
Qed.

Lemma in_window_spec t s r :
  in_window t s r = true ↔ row_tenant_id r = t ∧ is_Some (row_seq r) ∧ (s <= seq_of r)%Z.
Proof.
  unfold in_window, seq_of. rewrite andb_true_iff, bool_decide_eq_true.
  destruct (row_seq r); simpl; [rewrite Z.leb_le|]; naive_solver.
Qed.

Lemma elem_window t s log r :
  r ∈ window t s log ↔ r ∈ log ∧ row_tenant_id r = t ∧ is_Some (row_seq r) ∧ (s <= seq_of r)%Z.
Proof.
  unfold window. rewrite py_sorted_elem, list_elem_of_filter, Is_true_true, in_window_spec.
  naive_solver.
Qed.

(** A later window is the rest of an earlier one. *)
Lemma window_suffix t s log k :
  unique_ok log = true →
  (∀ i r, window t s log !! i = Some r → (s + Z.of_nat k <= seq_of r)%Z ↔ k ≤ i) →
  window t (s + Z.of_nat k) log = drop k (window t s log).
Proof.
  intros Hu Hk. apply (sorted_perm_unique seq_leb).
  - intros x y (Hx & Htx & Hsx & _)%elem_window (Hy & Hty & Hsy & _)%elem_window Hle Hle'.
    unfold seq_leb in *. apply (unique_seq log); try done; [congruence|].
    destruct Hsx as [a Ha], Hsy as [b Hb]. rewrite Ha, Hb in *. simpl in *. bool_to_prop. f_equal. lia.
  - apply py_sorted_sorted; [apply seq_leb_total|apply seq_leb_trans].
  - rewrite <-(filter_from_drop _ _ _ Hk). apply StronglySorted_filter.
    apply py_sorted_sorted; [apply seq_leb_total|apply seq_leb_trans].
  - rewrite <-(filter_from_drop _ _ _ Hk). unfold window. rewrite !py_sorted_perm.
    rewrite list_filter_filter. apply reflexive_eq, list_filter_iff.
    intros r. rewrite !Is_true_true, !in_window_spec. split; [|naive_solver].
    intros (?&?&?). split_and!; try done. lia.
Qed.

Lemma window_NoDup t s log : unique_ok log = true → NoDup (omap seq_key (window t s log)).
Proof.
  unfold unique_ok. intros [Hu%bool_decide_eq_true _]%andb_true_iff.
  unfold window. rewrite py_sorted_perm. induction log as [|x log IH]; [constructor|].
  assert (NoDup (omap seq_key log)) as Hu'.
  { simpl in Hu. destruct (seq_key x); [by apply NoDup_cons in Hu as [_ ?]|done]. }
  rewrite filter_cons. case_decide; [|auto]. simpl in *.
  destruct (seq_key x) as [k|]; [|auto]. apply NoDup_cons in Hu as [Hx _].
  constructor; [|auto]. intros (y & Hy & Hk)%list_elem_of_omap. apply Hx, list_elem_of_omap.
  apply list_elem_of_filter in Hy as [_ Hy]. eauto.
Qed.

(** The rows of a window have increasing sequence numbers. *)
Lemma window_strict t s log :
  unique_ok log = true → StronglySorted (λ a b, (seq_of a < seq_of b)%Z) (window t s log).
Proof.
  intros Hu. pose proof (window_NoDup t s log Hu) as Hnd.
  assert (StronglySorted (λ x y, seq_leb x y = true) (window t s log)) as Hs.
  { apply py_sorted_sorted; [apply seq_leb_total|apply seq_leb_trans]. }
  assert (Forall (λ r, row_tenant_id r = t ∧ is_Some (row_seq r)) (window t s log)) as Hf.
  { apply Forall_forall. intros r (_&?&?&_)%elem_window. done. }
  revert Hnd Hf. induction Hs as [|x l Hs IH Hx]; intros Hnd Hf; [constructor|].
  apply Forall_cons in Hf as [[Ht [n Hn]] Hf]. simpl in Hnd. unfold seq_key at 1 in Hnd.
  rewrite Hn in Hnd. simpl in Hnd. apply NoDup_cons in Hnd as [Hno Hnd].
  constructor; [auto|]. rewrite Forall_forall in *. intros y Hy.
  destruct (Hf y Hy) as [Hty [m Hm]]. pose proof (Hx y Hy) as Hle.
  unfold seq_leb, seq_of in *. rewrite Hn, Hm in *. simpl in *. apply Z.leb_le in Hle.
  assert (n ≠ m); [|lia]. intros ->. apply Hno, elem_seq_key. exists y. naive_solver.
Qed.

(** Once the first [k] rows verify from genesis, the window that resumes after
    them is the rest of the chain, and its seed is the link the walk ended on. *)
Lemma window_resume t log k s' p' :
  unique_ok log = true → k ≤ length (window t 1 log) →
  walk_rows (take k (window t 1 log)) 1 (Some GENESIS_PREV_HASH) = Ok (s', p') →
  s' = (1 + Z.of_nat k)%Z ∧
  window t s' log = drop k (window t 1 log) ∧
  seed_of t s' log = p'.
Proof.
  intros Hu Hk Hw. pose proof (walk_rows_last _ _ _ _ _ Hw) as Hlast.
  destruct (walk_rows_seqs _ _ _ _ _ Hw) as [Hs' Hseq].
  rewrite length_take, Nat.min_l in Hs' by done. split; [done|].
  assert (∀ i r, i < k → window t 1 log !! i = Some r → row_seq r = Some (1 + Z.of_nat i)%Z) as Hlow.
  { intros i r Hi Hr. apply Hseq. by rewrite lookup_take_lt. }
  split.
  - rewrite Hs'. apply window_suffix; [done|]. intros i r Hr. split.
    + intros Hle. destruct (decide (k ≤ i)) as [|Hi]; [done|].
      unfold seq_of in Hle. rewrite (Hlow i r) in Hle by (lia || done). simpl in Hle. lia.
    + intros Hi. destruct k as [|k].
      * apply list_elem_of_lookup_2 in Hr. apply elem_window in Hr as (_&_&_&?). lia.
      * destruct (lookup_lt_is_Some_2 (window t 1 log) k) as [a Ha]; [lia|].
        pose proof (StronglySorted_lt _ _ _ _ _ _ (window_strict t 1 log Hu) Ha Hr) as Hlt.
        unfold seq_of in *. rewrite (Hlow k a) in Hlt by (lia || done). simpl in *. lia.
  - unfold seed_of. destruct k as [|k].
    + simpl in Hw. injection Hw as <- <-. done.
    + destruct (Z.ltb_spec 1 s') as [_|]; [|lia].
      destruct (lookup_lt_is_Some_2 (window t 1 log) k) as [a Ha]; [lia|].
      rewrite (take_S_r _ _ _ Ha), last_snoc in Hlast. destruct Hlast as [<- Has].
      pose proof Ha as Hin. apply list_elem_of_lookup_2, elem_window in Hin as (Hin & Hta & _).
      assert (a ∈ filter (λ r, row_tenant_id r = t ∧ row_seq r = Some (s' - 1)%Z) log) as Hfa.
      { by apply list_elem_of_filter. }
      destruct (filter _ log) as [|b rest] eqn:Hfil; [by apply elem_of_nil in Hfa|]. simpl.
      assert (b ∈ filter (λ r, row_tenant_id r = t ∧ row_seq r = Some (s' - 1)%Z) log) as Hb.
      { rewrite Hfil. left. }
      apply list_elem_of_filter in Hb as [[Htb Hsb] Hb].
      assert (b = a) as ->; [|done]. apply (unique_seq log); try done; congruence || eauto.
Qed.

(** ** A paginated walk *)

(** The caller's loop: verify a window, and follow [next_seq] while there is one.
    [None] is running out of fuel. *)
Fixpoint walk_windows (fuel : nat) (t : string) (limit start : Z) (db : audit_db) : option bool :=
  match fuel with
  | O => None
  | S fuel =>
      let v := audit_verify_chain t limit start db in
      if valid v then
        match next_seq v with
        | Some s => walk_windows fuel t limit s db
        | None => Some true
        end
      else Some false
  end.

Lemma walk_link_some rows s seed s' p' :
  walk_rows rows s (Some seed) = Ok (s', p') → ∃ x, p' = Some x.
Proof.
  revert s seed. induction rows as [|r rows IH]; intros s seed; simpl; [intros [= _ <-]; eauto|].
  destruct (row_reason r s (Some seed)) eqn:Er; [done|].
  apply row_reason_None in Er as (_ & _ & ->). apply IH.
Qed.

(** One window in the middle of a chain whose first [k] rows verified. *)
Lemma verify_resumed t limit db k s p :
  unique_ok (audit_log db) = true → k ≤ length (window t 1 (audit_log db)) →
  walk_rows (take k (window t 1 (audit_log db))) 1 (Some GENESIS_PREV_HASH) = Ok (s, p) →
  let rest := take (Z.to_nat limit) (drop k (window t 1 (audit_log db))) in
  audit_verify_chain t limit s db =
    match walk_rows rest s p with
    | Err (e, r, reason) =>
        broken_verdict (e - s) (BrokenRow (row_seq r) (row_id r) reason (row_created_at r))
    | Ok (s', p') => tail_verdict (heads db !! t) limit (Z.of_nat (length rest)) s' p'
    end.
Proof.
  intros Hu Hk Hw rest. destruct (window_resume _ _ _ _ _ Hu Hk Hw) as (Hs & Hwin & Hseed).
  destruct (walk_link_some _ _ _ _ _ Hw) as [x ->].
  unfold audit_verify_chain. rewrite Hwin, Hseed. fold rest. apply verify_walk.
  destruct k as [|k]; [right|left; lia].
  simpl in Hw. injection Hw as <- <-. done.
Qed.

Lemma walk_windows_from t limit L db k s p fuel :
  unique_ok (audit_log db) = true → (1 <= limit)%Z →
  (Z.of_nat (length (window t 1 (audit_log db))) < L)%Z →
  k ≤ length (window t 1 (audit_log db)) →
  walk_rows (take k (window t 1 (audit_log db))) 1 (Some GENESIS_PREV_HASH) = Ok (s, p) →
  length (window t 1 (audit_log db)) - k < fuel →
  walk_windows fuel t limit s db = Some (valid (audit_verify_chain t L 1 db)).
Proof.
  intros Hu Hl HL. set (C := window t 1 (audit_log db)) in *.
  rewrite (verify_resumed t L db 0 1 (Some GENESIS_PREV_HASH)) by (done || lia). fold C.
  rewrite drop_0, (take_ge C (Z.to_nat L)) by lia.
  revert k s p. induction fuel as [|fuel IH]; intros k s p Hk Hw Hfuel; [lia|].
  cbn [walk_windows]. rewrite (verify_resumed t limit db k s p) by done. fold C.
  set (R := take (Z.to_nat limit) (drop k C)).
  assert (walk_rows C 1 (Some GENESIS_PREV_HASH) =
    '(s', p') ← walk_rows R s p; walk_rows (drop (Z.to_nat limit) (drop k C)) s' p') as Hfull.
  { rewrite <-(take_drop k C) at 1. rewrite walk_rows_app, Hw. simpl.
    by rewrite <-(take_drop (Z.to_nat limit) (drop k C)) at 1; rewrite walk_rows_app. }
  destruct (walk_rows R s p) as [[s' p']|[[e r] reason]] eqn:HR; simpl in Hfull;
    [|by rewrite Hfull].
  assert (length R = min (Z.to_nat limit) (length C - k)) as HlR.
  { unfold R. by rewrite length_take, length_drop. }
  destruct (decide (limit <= Z.of_nat (length C - k))%Z) as [Ht|Ht].
  - rewrite tail_truncated by lia. cbn [valid next_seq]. apply (IH (k + Z.to_nat limit) s' p').
    + lia.
    + rewrite <-take_take_drop, walk_rows_app, Hw. exact HR.
    + lia.
  - rewrite Hfull, (drop_ge (drop k C)) by (rewrite length_drop; lia). simpl.
    rewrite !tail_whole by lia. by destruct (bool_decide _ && bool_decide _).
Qed.

(** A paginated walk loses nothing. On any tables whatsoever that satisfy the
    unique index (tampered with or not) and for any page size, the caller that
    starts at 1 and follows [next_seq] reaches the verdict of one full pass: valid
    exactly when the full pass is. The walk ends within one window per row and one
    more; in particular a tail deleted at a multiple of the page size is caught,
    and no window is checked against the wrong link. *)
Theorem paginated_walk_is_full_pass (t : string) (limit L : Z) (db : audit_db) (fuel : nat) :
  unique_ok (audit_log db) = true →
  (1 <= limit)%Z →
  (Z.of_nat (length (window t 1 (audit_log db))) < L)%Z →
  length (window t 1 (audit_log db)) < fuel →
  walk_windows fuel t limit 1 db = Some (valid (audit_verify_chain t L 1 db)).
Proof.
  intros Hu Hl HL Hf.
  apply (walk_windows_from t limit L db 0 1 (Some GENESIS_PREV_HASH)); try done; lia.
Qed.

(** ** Written chains verify *)

Lemma walk_sorted rows s p s' p' :
  walk_rows rows s p = Ok (s', p') → StronglySorted (λ a b, seq_leb a b = true) rows.
Proof.
  revert s p. induction rows as [|r rows IH]; intros s p; simpl; [constructor|].
  destruct (row_reason r s p) eqn:Er; [done|]. intros Hw.
  apply row_reason_None in Er as [Hs _]. constructor; [by eapply IH|].
  apply Forall_forall. intros y Hy. destruct (walk_rows_seqs _ _ _ _ _ Hw) as [_ Hi].
  apply list_elem_of_lookup_1 in Hy as [i Hy]. apply Hi in Hy.
  unfold seq_leb. rewrite Hs, Hy. simpl. apply Z.leb_le. lia.
Qed.

Lemma window_tenant_rows t db :
  chain_inv db → window t 1 (audit_log db) = tenant_rows t (audit_log db).
Proof.
  intros (_ & Hg & _). specialize (Hg t). unfold genesis_walk in Hg.
  unfold window. transitivity (py_sorted seq_leb (tenant_rows t (audit_log db))).
  - f_equal. transitivity (filter (λ r, (1 <= seq_of r)%Z) (tenant_rows t (audit_log db))).
    + unfold tenant_rows. rewrite list_filter_filter. apply list_filter_iff. intros r.
      rewrite Is_true_true, in_window_spec. naive_solver.
    + rewrite (filter_from_drop _ 0); [by rewrite drop_0|]. intros i r Hr.
      split; [lia|]. intros _. destruct (walk_rows_seqs _ _ _ _ _ Hg) as [_ Hi].
      unfold seq_of. rewrite (Hi _ _ Hr). simpl. lia.
  - apply py_sorted_id. by eapply walk_sorted.
Qed.

Inductive audit_step : audit_db → audit_db → Prop :=
| step_batch now new_id events db :
    Forall (λ ev, detail_ok (ev_detail ev)) events →
    audit_step db (audit_add_batch now new_id events db).1
| step_add now new_id t agent action rtype rid detail db db' :
    detail_ok detail →
    audit_add now new_id t agent action rtype rid detail db = Ok db' →
    audit_step db db'.

(** Before the first chained write: legacy rows only. *)
Definition audit_init (db : audit_db) : Prop :=
  Forall (λ r, row_seq r = None ∧ wf_val (row_detail r)) (audit_log db) ∧
  unique_ok (audit_log db) = true ∧ heads db = ∅.

Definition audit_reachable : audit_db → Prop := reachable audit_step audit_init.

Lemma by_tenant_get t evs :
  default [] (dict_get t (by_tenant evs)) = filter (λ ev, ev_tenant_id ev = t) evs.
Proof.
  unfold by_tenant. assert (∀ d, default [] (dict_get t (foldl (λ d ev,
    dict_set (ev_tenant_id ev) (default [] (dict_get (ev_tenant_id ev) d) ++ [ev]) d) d evs))
    = default [] (dict_get t d) ++ filter (λ ev, ev_tenant_id ev = t) evs) as H; [|by rewrite H].
  induction evs as [|ev evs IH]; intros d; simpl; [by rewrite app_nil_r|].
  rewrite IH, dict_get_set, filter_cons. case_bool_decide as Hb; case_decide as Hd; try congruence.
  - simpl. rewrite <-app_assoc. by subst.
Qed.

Lemma by_tenant_NoDup evs : NoDup ((by_tenant evs).*1).
Proof.
  unfold by_tenant. assert (∀ d, NoDup (d.*1) → NoDup ((foldl (λ d ev,
    dict_set (ev_tenant_id ev) (default [] (dict_get (ev_tenant_id ev) d) ++ [ev]) d) d evs).*1))
    as H; [|apply H; constructor].
  induction evs as [|ev evs IH]; intros d Hd; simpl; [done|]. by apply IH, dict_set_NoDup.
Qed.

Lemma by_tenant_elem t l evs :
  (t, l) ∈ by_tenant evs → l = filter (λ ev, ev_tenant_id ev = t) evs.
Proof.
  intros Hin. rewrite <-by_tenant_get.
  by rewrite (dict_get_NoDup _ _ _ (by_tenant_NoDup evs) Hin).
Qed.

Lemma by_tenant_forall (P : audit_event → Prop) evs :
  Forall P evs → Forall (λ g, Forall P g.2) (by_tenant evs).
Proof.
  intros HP. apply Forall_forall. intros [t l] ->%by_tenant_elem. simpl.
  rewrite Forall_forall in *. intros ev [_ Hev]%list_elem_of_filter. auto.
Qed.

Lemma chain_groups_ok now new_id groups db e :
  chain_inv db → Forall (λ g, Forall (λ ev, detail_ok (ev_detail ev)) g.2) groups →
  chain_inv (chain_groups now new_id groups db e).1 ∧ (chain_groups now new_id groups db e).2 = e.
Proof.
  intros Hinv Hg. revert db Hinv. induction Hg as [|[t evs] groups Hev _ IH]; intros db Hinv; [done|].
  simpl in *. destruct (one_tenant_ok (now t) (new_id t) t evs db Hinv Hev)
    as (rows & seq' & prev' & -> & _ & Hinv'). by apply IH.
Qed.

Lemma batch_ok now new_id evs db :
  chain_inv db → Forall (λ ev, detail_ok (ev_detail ev)) evs →
  chain_inv (audit_add_batch now new_id evs db).1 ∧
  (audit_add_batch now new_id evs db).2 = Ok tt ∧
  (audit_add_batch now new_id evs db).1 = (chain_groups now new_id (by_tenant evs) db None).1.
Proof.
  intros Hinv Hev. destruct (chain_groups_ok now new_id (by_tenant evs) db None Hinv
    (by_tenant_forall _ _ Hev)) as [Hi He].
  unfold audit_add_batch, audit_add_batch_chained.
  destruct evs as [|ev evs]; [done|].
  destruct (chain_groups _ _ _ _ _) as [db' e]. simpl in *. by subst.
Qed.

Lemma reachable_inv db : audit_reachable db → chain_inv db.
Proof.
  apply reachable_invariant.
  - intros [log hs] (Hs & Hu & Hh). simpl in Hs, Hu, Hh. subst hs. split_and!; [done| |].
    + intros t. unfold genesis_walk, head_link. simpl. rewrite lookup_empty. simpl.
      assert (tenant_rows t log = []) as ->; [|done].
      unfold tenant_rows. clear Hu. induction Hs as [|r log Hr _ IH]; [done|].
      rewrite filter_cons_False; [exact IH|]. rewrite (proj1 Hr). by intros [_ [? ?]].
    + simpl in *. intros r Hr. rewrite Forall_forall in Hs. by apply Hs.
  - intros s s' _ Hinv Hstep.
    destruct Hstep as [now ids evs db0 Hev|now ids t a ac ty rid d db0 db' Hd Ha].
    + by apply batch_ok.
    + unfold audit_add in Ha.
      destruct (one_tenant_ok now ids t [AuditEvent t a ac ty rid d None None] db0 Hinv)
        as (rows & seq' & prev' & He & _ & Hi); [by apply Forall_singleton|].
      rewrite He in Ha. by injection Ha as <-.
Qed.

(** Any window of a chain in the invariant. *)
Lemma verify_inv t limit start db :
  chain_inv db → (1 <= start <= (head_link t db).1 + 1)%Z →
  let n := ((head_link t db).1 + 1 - start)%Z in
  let k := Z.of_nat (min (Z.to_nat limit) (Z.to_nat n)) in
  audit_verify_chain t limit start db =
    Verdict true k None (Some (start + k - 1)%Z) (Some (limit <=? k)%Z)
      (if (limit <=? k)%Z then Some (start + k)%Z else None).
Proof.
  intros Hinv Hs n k. pose proof (window_tenant_rows t db Hinv) as Hw.
  destruct Hinv as (Hu & Hg & _). specialize (Hg t). unfold genesis_walk in Hg.
  rewrite <-Hw in Hg. set (C := window t 1 (audit_log db)) in *.
  destruct (walk_rows_seqs _ _ _ _ _ Hg) as [Hlen _].
  set (j := Z.to_nat (start - 1)).
  assert (j <= length C) as Hj by (unfold j; lia).
  rewrite <-(take_drop j C), walk_rows_app in Hg.
  destruct (walk_rows (take j C) 1 (Some GENESIS_PREV_HASH)) as [[s p]|] eqn:Hj1; [|done].
  simpl in Hg. destruct (walk_rows_seqs _ _ _ _ _ Hj1) as [Hsj _].
  rewrite length_take, Nat.min_l in Hsj by done.
  assert (s = start) as -> by (unfold j in *; lia).
  rewrite (verify_resumed t limit db j start p) by done. fold C.
  set (R := take (Z.to_nat limit) (drop j C)).
  assert (Z.of_nat (length R) = k) as HlR.
  { unfold R, k, n. rewrite length_take, length_drop. unfold j. lia. }
  rewrite <-(take_drop (Z.to_nat limit) (drop j C)), walk_rows_app in Hg. fold R in Hg.
  destruct (walk_rows R start p) as [[s' p']|] eqn:HR; [|done]. simpl in Hg.
  destruct (walk_rows_seqs _ _ _ _ _ HR) as [Hs' _]. rewrite HlR in Hs' |- *.
  destruct (Z.leb_spec limit k) as [Hk|Hk].
  - rewrite tail_truncated by done. by rewrite Hs'.
  - rewrite drop_ge in Hg by (rewrite length_drop; unfold j; lia). simpl in Hg.
    injection Hg as Hs1 Hp1. rewrite tail_whole by done.
    assert (head_opt (heads db !! t) = head_link t db) as ->.
    { unfold head_opt, head_link. by destruct (heads db !! t). }
    rewrite Hp1, !bool_decide_true by (done || lia). simpl. by rewrite Hs'.
Qed.

(** ** Reading the rows back *)

(** What a [SELECT] may return for a stored row: the resource id as the UUID
    column holds it, the detail as the JSON column renders it. *)
Record row_stored (r r' : audit_row) : Prop := RowStored {
  rs_rest : r' = AuditRow (row_id r) (row_tenant_id r) (row_agent_id r) (row_action r)
    (row_resource_type r) (row_resource_id r') (row_detail r') (row_created_at r) (row_seq r)
    (row_prev_hash r) (row_event_hash r) (row_client_event_id r);
  rs_resource : row_resource_id r' = row_resource_id r ∨
    ∃ s n, row_resource_id r = Some (RStr s) ∧ UUID s = Some n ∧ row_resource_id r' = Some (RUuid n);
  rs_detail : json_rt (row_detail r) (row_detail r');
}.

(** Rows the verifier treats alike. *)
Record row_sim (r r' : audit_row) : Prop := RowSim {
  sim_event : same_event (row_fields r) (row_fields r');
  sim_tenant : row_tenant_id r = row_tenant_id r';
  sim_id : row_id r = row_id r';
  sim_created : row_created_at r = row_created_at r';
  sim_seq : row_seq r = row_seq r';
  sim_prev : row_prev_hash r = row_prev_hash r';
  sim_hash : row_event_hash r = row_event_hash r';
}.

Lemma stored_sim r r' : row_stored r r' → wf_val (row_detail r) → row_sim r r'.
Proof.
  intros [-> Hres Hd] Hwf. split; try done. split; try done; simpl in *.
  - destruct Hres as [->|(s & n & -> & Hu & ->)]; [done|]. simpl. rewrite Hu.
    case_bool_decide; [by subst|done].
  - by apply json_rt_canonical.
Qed.

Lemma sim_filter (P : audit_row → Prop) `{∀ r, Decision (P r)} l l' :
  (∀ r r', row_sim r r' → P r ↔ P r') → Forall2 row_sim l l' →
  Forall2 row_sim (filter P l) (filter P l').
Proof.
  intros HP. induction 1 as [|r r' l l' Hr _ IH]; [constructor|]. rewrite !filter_cons.
  pose proof (HP _ _ Hr). repeat case_decide; naive_solver.
Qed.

Lemma sim_sorted l l' :
  Forall2 row_sim l l' → Forall2 row_sim (py_sorted seq_leb l) (py_sorted seq_leb l').
Proof.
  induction 1 as [|r r' l l' Hr _ IH]; [constructor|]. simpl. revert IH.
  generalize (py_sorted seq_leb l), (py_sorted seq_leb l'). clear l l'.
  induction 1 as [|x x' l l' Hx Hl IH]; simpl; [by apply Forall2_cons|].
  assert (seq_leb r x = seq_leb r' x') as ->.
  { unfold seq_leb. by rewrite (sim_seq _ _ Hr), (sim_seq _ _ Hx). }
  case_match; constructor; try done. by constructor.
Qed.

Lemma row_reason_sim r r' s p : row_sim r r' → row_reason r s p = row_reason r' s p.
Proof.
  intros [He _ _ _ Hs Hp Hh]. unfold row_reason. rewrite Hs, Hp, Hh.
  by rewrite (canonical_event_proper _ _ He).
Qed.

Lemma verify_sim l l' h limit s seed :
  Forall2 row_sim l l' →
  verify_audit_chain_rows l h limit s seed = verify_audit_chain_rows l' h limit s seed.
Proof.
  intros Hl. unfold verify_audit_chain_rows. destruct seed as [seed|]; [|done].
  assert (match walk_rows l s (Some seed), walk_rows l' s (Some seed) with
    | Ok a, Ok b => a = b
    | Err (e, r, reason), Err (e', r', reason') => e = e' ∧ row_sim r r' ∧ reason = reason'
    | _, _ => False end) as Hw.
  { generalize (Some seed). intros p. clear -Hl. revert s p. induction Hl as [|r r' l l' Hr _ IH]; intros s p; [done|].
    simpl. rewrite <-(row_reason_sim r r' s p Hr). destruct (row_reason r s p); [done|].
    rewrite <-(sim_hash _ _ Hr). apply IH. }
  destruct (walk_rows l s _) as [a|[[e r] reason]], (walk_rows l' s _) as [b|[[e' r'] reason']];
    try done.
  - rewrite (Forall2_length _ _ _ Hl).
    assert (match last l, last l' with Some r, Some r' => row_sim r r' | None, None => True
      | _, _ => False end) as Hlast.
    { clear -Hl. induction Hl as [|r r' l l' Hr Hl IH]; [done|]. rewrite !last_cons.
      destruct (last l), (last l'); done. }
    destruct (last l) as [r|], (last l') as [r'|]; try done.
    by rewrite (sim_seq _ _ Hlast), (sim_hash _ _ Hlast).
  - destruct Hw as (-> & Hr & ->). by rewrite (sim_seq _ _ Hr), (sim_id _ _ Hr), (sim_created _ _ Hr).
Qed.

Lemma chain_verify_sim t limit start log log' hs :
  Forall2 row_sim log log' →
  audit_verify_chain t limit start (AuditDb log hs) = audit_verify_chain t limit start (AuditDb log' hs).
Proof.
  intros Hl. unfold audit_verify_chain, window, seed_of. simpl.
  assert (∀ s, Forall2 row_sim (filter (λ r, row_tenant_id r = t ∧ row_seq r = Some s) log)
    (filter (λ r, row_tenant_id r = t ∧ row_seq r = Some s) log')) as Hf.
  { intros s. apply sim_filter; [|done]. intros r r' Hr.
    by rewrite (sim_seq _ _ Hr), (sim_tenant _ _ Hr). }
  assert ((if (1 <? start)%Z then
      r ← head (filter (λ r, row_tenant_id r = t ∧ row_seq r = Some (start - 1)%Z) log); row_event_hash r
    else Some GENESIS_PREV_HASH) = (if (1 <? start)%Z then
      r ← head (filter (λ r, row_tenant_id r = t ∧ row_seq r = Some (start - 1)%Z) log'); row_event_hash r
    else Some GENESIS_PREV_HASH)) as ->.
  { destruct (1 <? start)%Z; [|done]. destruct (Hf (start - 1)%Z) as [|r r' ? ? Hr _]; [done|].
    simpl. by rewrite (sim_hash _ _ Hr). }
  apply verify_sim, Forall2_take, sim_sorted, sim_filter; [|done].
  intros r r' Hr. unfold in_window. by rewrite (sim_seq _ _ Hr), (sim_tenant _ _ Hr).
Qed.

(** C2: chains verify. After any history of batches and single events over any
    tenants, starting from a log that holds legacy rows only, every window of
    every tenant's chain verifies from what the database returns: for any page
    size and any start from 1 to one past the last event, and whichever way the
    UUID and JSON columns respell the stored rows, the verdict is valid, counts the
    rows of the window, names the last of them, and gives a cursor exactly when the
    page is full. *)
Theorem written_chain_verifies (db : audit_db) (log' : list audit_row) (t : string) (limit start : Z) :
  audit_reachable db → Forall2 row_stored (audit_log db) log' →
  (1 <= limit)%Z → (1 <= start <= (head_link t db).1 + 1)%Z →
  let k := Z.min limit ((head_link t db).1 + 1 - start) in
  audit_verify_chain t limit start (AuditDb log' (heads db)) =
    Verdict true k None (Some (start + k - 1)%Z) (Some (limit <=? k)%Z)
      (if (limit <=? k)%Z then Some (start + k)%Z else None).
Proof.
  intros Hr Hst Hl Hs k. pose proof (reachable_inv _ Hr) as Hinv.
  rewrite <-(chain_verify_sim t limit start (audit_log db) log').
  - destruct db as [log hs]. cbn [audit_log heads] in *. rewrite verify_inv by auto.
    replace (Z.of_nat (min (Z.to_nat limit)
      (Z.to_nat ((head_link t (AuditDb log hs)).1 + 1 - start)))) with k by (unfold k; lia).
    done.
  - destruct Hinv as (_ & _ & Hwf). clear -Hst Hwf.
    induction Hst as [|r r' l l' Hr _ IH]; constructor.
    + apply stored_sim; [done|]. apply Hwf. left.
    + apply IH. intros x Hx. apply Hwf. by right.
Qed.

(** A batch always commits. In every reachable state, a batch whose details are
    JSON objects (or absent) is accepted for every tenant in it: no unique index is
    violated, no detail is refused, no tenant's events are lost. *)
Theorem batch_always_commits (db : audit_db) now new_id (events : list audit_event) :
  audit_reachable db → Forall (λ ev, detail_ok (ev_detail ev)) events →
  (audit_add_batch now new_id events db).2 = Ok tt.
Proof. intros Hr Hev. by apply batch_ok; [apply reachable_inv|]. Qed.

(** ** Tamper evidence *)

(** The bytes hashed for a row. *)
Definition hash_input (r : audit_row) : string :=
  (canonical_event (row_fields r) +:+ default "" (row_prev_hash r))%string.

(** No two distinct hash inputs of the two chains collide. *)
Definition no_collision (a b : list audit_row) : Prop :=
  ∀ r r', r ∈ a → r' ∈ b → sha256 (hash_input r) = sha256 (hash_input r') →
    hash_input r = hash_input r'.

(** The same event at the same place of the chain. *)
Definition same_row (r r' : audit_row) : Prop :=
  same_event (row_fields r) (row_fields r') ∧ row_seq r = row_seq r' ∧
  row_prev_hash r = row_prev_hash r' ∧ row_event_hash r = row_event_hash r'.

Lemma walk_link_length rows s seed s' p' :
  String.length seed = 32 → walk_rows rows s (Some seed) = Ok (s', p') →
  ∃ x, p' = Some x ∧ String.length x = 32.
Proof.
  revert s seed. induction rows as [|r rows IH]; intros s seed Hl; simpl; [intros [= _ <-]; eauto|].
  destruct (row_reason r s (Some seed)) eqn:Er; [done|].
  apply row_reason_None in Er as (_ & _ & ->). apply IH, compute_event_hash_length.
Qed.

Lemma app_inj_suffix (a b x y : string) :
  String.length x = String.length y → (a +:+ x = b +:+ y)%string → a = b ∧ x = y.
Proof.
  intros Hl H. apply string_app_inj_length; [|done].
  apply (f_equal String.length) in H. rewrite !string_length_app in H. lia.
Qed.

Lemma same_last r r' s p p' x y :
  row_reason r s p = None → row_reason r' s p' = None →
  p = Some x → p' = Some y → String.length x = String.length y →
  row_event_hash r = row_event_hash r' →
  (sha256 (hash_input r) = sha256 (hash_input r') → hash_input r = hash_input r') →
  p = p' ∧ same_row r r'.
Proof.
  intros (Hs & Hp & Hh)%row_reason_None (Hs' & Hp' & Hh')%row_reason_None -> -> Hl He Hno.
  unfold hash_input in Hno. rewrite Hp, Hp' in Hno. cbn [default from_option] in *.
  pose proof He as Heq. rewrite Hh, Hh' in Heq. apply (inj Some) in Heq.
  unfold compute_event_hash in Heq.
  apply Hno in Heq. apply app_inj_suffix in Heq as [Hc Hxy]; [|done]. unfold id in Hxy. subst y.
  split; [done|]. split_and!; try congruence. by apply canonical_event_inj.
Qed.

Lemma walk_same a b s seed s' p' :
  String.length seed = 32 → no_collision a b →
  walk_rows a s (Some seed) = Ok (s', p') → walk_rows b s (Some seed) = Ok (s', p') →
  Forall2 same_row a b.
Proof.
  intros Hl. revert b s' p'. induction a as [|r a IH] using rev_ind; intros b s' p' Hno Ha Hb.
  - pose proof (proj1 (walk_rows_seqs _ _ _ _ _ Ha)). pose proof (proj1 (walk_rows_seqs _ _ _ _ _ Hb)).
    destruct b; [constructor|simpl in *; lia].
  - pose proof (proj1 (walk_rows_seqs _ _ _ _ _ Ha)) as Hla.
    pose proof (proj1 (walk_rows_seqs _ _ _ _ _ Hb)) as Hlb.
    destruct b as [|r' b _] using rev_ind; [rewrite length_app in Hla; simpl in *; lia|].
    rewrite !length_app in *. simpl in *.
    rewrite walk_rows_app in Ha, Hb.
    destruct (walk_rows a s (Some seed)) as [[sa pa]|] eqn:Ea; [|done].
    destruct (walk_rows b s (Some seed)) as [[sb pb]|] eqn:Eb; [|done]. simpl in Ha, Hb.
    destruct (row_reason r sa pa) eqn:Er; [done|]. destruct (row_reason r' sb pb) eqn:Er'; [done|].
    injection Ha as Hsa Hpa. injection Hb as Hsb Hpb. assert (sb = sa) as -> by lia.
    destruct (walk_link_length _ _ _ _ _ Hl Ea) as (x & Hx & Hlx).
    destruct (walk_link_length _ _ _ _ _ Hl Eb) as (y & Hy & Hly).
    destruct (same_last r r' sa pa pb x y) as [<- Hr]; try done; [congruence..| |].
    { apply Hno; apply elem_of_app; right; by apply list_elem_of_singleton. }
    apply Forall2_app; [|by constructor]. apply (IH b sa pa); try done.
    intros q q' Hq Hq'. apply Hno; apply elem_of_app; by left.
Qed.

Lemma verify_genesis_walk t limit db :
  valid (audit_verify_chain t limit 1 db) = true →
  v_truncated (audit_verify_chain t limit 1 db) = Some false →
  walk_rows (window t 1 (audit_log db)) 1 (Some GENESIS_PREV_HASH)
    = Ok ((head_link t db).1 + 1, Some (head_link t db).2)%Z.
Proof.
  unfold audit_verify_chain. change (seed_of t 1 (audit_log db)) with (Some GENESIS_PREV_HASH).
  rewrite verify_walk by auto. set (R := take _ _).
  destruct (walk_rows R 1 (Some GENESIS_PREV_HASH)) as [[s' p']|[[? ?] ?]] eqn:Hw; [|done].
  destruct (decide (limit <= Z.of_nat (length R))%Z) as [Hl|Hl];
    [by rewrite tail_truncated|rewrite tail_whole by lia].
  assert (head_opt (heads db !! t) = head_link t db) as ->.
  { unfold head_opt, head_link. by destruct (heads db !! t). }
  destruct (bool_decide _ && bool_decide _) eqn:E; [|done]. intros _ _. bool_to_prop.
  assert (R = window t 1 (audit_log db)) as <-.
  { unfold R in *. rewrite length_take in Hl. apply take_ge. lia. }
  rewrite Hw. f_equal. f_equal; [lia|done].
Qed.

(** C1: tamper evidence. Take any two states of the tables whose head row for a
    tenant is the same, each of which a full pass calls valid and complete. Unless
    two hash inputs in the two chains collide, the chains agree row by row: same
    sequence numbers, links and hashes, and the same event in every hashed field.
    So whoever rewrites the log but not the remembered head hash is caught. *)
Theorem chain_is_tamper_evident (t : string) (limit limit' : Z) (db db' : audit_db) :
  valid (audit_verify_chain t limit 1 db) = true →
  v_truncated (audit_verify_chain t limit 1 db) = Some false →
  valid (audit_verify_chain t limit' 1 db') = true →
  v_truncated (audit_verify_chain t limit' 1 db') = Some false →
  head_link t db = head_link t db' →
  no_collision (window t 1 (audit_log db)) (window t 1 (audit_log db')) →
  Forall2 same_row (window t 1 (audit_log db)) (window t 1 (audit_log db')).
Proof.
  intros Hv Ht Hv' Ht' Hh Hno. pose proof (verify_genesis_walk _ _ _ Hv Ht) as Hw.
  pose proof (verify_genesis_walk _ _ _ Hv' Ht') as Hw'. rewrite <-Hh in Hw'.
  by apply (walk_same _ _ _ _ _ _ (eq_refl : String.length GENESIS_PREV_HASH = 32) Hno Hw Hw').
Qed.

(** ** Retries *)

(** Every event of the batch is in the log. *)
Definition accounted (t : string) (evs : list audit_event) (log : list audit_row) : Prop :=
  ∀ c, c ∈ incoming_ids evs →
    ∃ r, r ∈ log ∧ row_tenant_id r = t ∧ row_client_event_id r = Some c.

Definition keyed (evs : list audit_event) : Prop :=
  Forall (λ ev, is_Some (ev_client_event_id ev)) evs.

Lemma elem_chained_ids t ids log c :
  c ∈ chained_ids t ids log ↔
  c ∈ ids ∧ ∃ r, r ∈ log ∧ row_tenant_id r = t ∧ row_client_event_id r = Some c.
Proof.
  unfold chained_ids. rewrite elem_of_list_to_set, list_elem_of_filter, list_elem_of_omap.
  split.
  - intros (Hc & r & Hr%list_elem_of_filter & Hrc). naive_solver.
  - intros (Hc & r & Hr & Ht & Hrc). split; [done|]. exists r. by rewrite list_elem_of_filter.
Qed.

Lemma one_tenant_accounts t evs db rows seq' prev' :
  chained t (chained_ids t (incoming_ids evs) (audit_log db)) ∅
    (head_link t db).1 (head_link t db).2 evs rows seq' prev' →
  accounted t evs (audit_log db ++ rows).
Proof.
  intros [_ Hr _ _ Ha] c Hc. destruct (Ha c Hc) as [Hin|[Hin|Hin]].
  - apply elem_chained_ids in Hin as (_ & r & Hr1 & ?). exists r. by rewrite elem_of_app; auto.
  - by apply elem_of_empty in Hin.
  - apply list_elem_of_omap in Hin as (r & Hin & Hrc). exists r. rewrite elem_of_app.
    rewrite Forall_forall in Hr. apply Hr in Hin as Hx. naive_solver.
Qed.

Lemma chain_events_dup now new_id t already seen seq prev evs :
  keyed evs → (∀ c, c ∈ incoming_ids evs → c ∈ already) →
  chain_events now new_id t already seen seq prev evs = Ok ([], seq, prev).
Proof.
  intros Hk. induction Hk as [|ev evs [c Hc] _ IH]; intros Ha; [done|].
  unfold incoming_ids in *. simpl in *. rewrite Hc in *.
  rewrite bool_decide_true by (apply Ha; left). simpl. apply IH. intros c' Hc'. apply Ha. by right.
Qed.

(** A batch of one tenant that is already in the log appends nothing. *)
Lemma one_tenant_retry now new_id t evs db :
  unique_ok (audit_log db) = true → keyed evs → accounted t evs (audit_log db) →
  ∃ hs, audit_chain_one_tenant now new_id t evs db = Ok (AuditDb (audit_log db) hs) ∧
    ∀ t', head_link t' (AuditDb (audit_log db) hs) = head_link t' db.
Proof.
  intros Hu Hk Ha. unfold audit_chain_one_tenant. rewrite chain_events_dup; [|done|].
  2: { intros c Hc. apply elem_chained_ids. auto. }
  simpl. rewrite app_nil_r, Hu. simpl. eexists. split; [done|]. intros t'.
  unfold head_link. simpl. destruct (decide (t' = t)) as [->|Ht].
  - rewrite lookup_insert_eq. unfold head_of. by destruct (heads db !! t).
  - by rewrite lookup_insert_ne.
Qed.

Lemma groups_account now new_id groups db e :
  chain_inv db → Forall (λ g, Forall (λ ev, detail_ok (ev_detail ev)) g.2) groups →
  (∃ l, audit_log (chain_groups now new_id groups db e).1 = audit_log db ++ l) ∧
  Forall (λ g, accounted g.1 g.2 (audit_log (chain_groups now new_id groups db e).1)) groups.
Proof.
  intros Hinv Hg. revert db Hinv. induction Hg as [|[t evs] groups Hev _ IH]; intros db Hinv.
  { split; [|constructor]. exists []. by rewrite app_nil_r. }
  simpl in *. destruct (one_tenant_ok (now t) (new_id t) t evs db Hinv Hev)
    as (rows & seq' & prev' & -> & Hc & Hinv').
  destruct (IH _ Hinv') as [[l Hl] Hacc]. simpl in Hl. split.
  - exists (rows ++ l). by rewrite Hl, app_assoc.
  - constructor; [|done]. simpl. rewrite Hl. intros c Hcin.
    destruct (one_tenant_accounts _ _ _ _ _ _ Hc c Hcin) as (r & Hr & ?).
    exists r. rewrite elem_of_app. auto.
Qed.

Lemma groups_retry now new_id groups db e :
  unique_ok (audit_log db) = true →
  Forall (λ g, keyed g.2 ∧ accounted g.1 g.2 (audit_log db)) groups →
  ∃ hs, chain_groups now new_id groups db e = (AuditDb (audit_log db) hs, e) ∧
    ∀ t', head_link t' (AuditDb (audit_log db) hs) = head_link t' db.
Proof.
  intros Hu Hg. revert db Hu Hg. induction groups as [|[t evs] groups IH]; intros [log hs] Hu Hg.
  { by exists hs. }
  apply Forall_cons in Hg as [[Hk Ha] Hg]. simpl in Hu, Ha, Hk.
  destruct (one_tenant_retry (now t) (new_id t) t evs (AuditDb log hs) Hu Hk Ha) as (hs1 & He & Hh1).
  cbn [chain_groups]. rewrite He. simpl in Hg |- *.
  destruct (IH (AuditDb log hs1) Hu Hg) as (hs2 & He2 & Hh2).
  exists hs2. split; [exact He2|]. intros t'. rewrite Hh2. apply Hh1.
Qed.

(** A retried batch is a no-op. When every event carries a client event id,
    sending the same batch again (with another clock and other random keys, as the
    flusher does after a lost acknowledgement) succeeds, appends no row and moves
    no tenant's chain head. *)
Theorem retried_batch_is_noop (db : audit_db) now new_id now' new_id' (events : list audit_event) :
  audit_reachable db → Forall (λ ev, detail_ok (ev_detail ev)) events → keyed events →
  let db1 := (audit_add_batch now new_id events db).1 in
  let r2 := audit_add_batch now' new_id' events db1 in
  r2.2 = Ok tt ∧ audit_log r2.1 = audit_log db1 ∧ ∀ t, head_link t r2.1 = head_link t db1.
Proof.
  intros Hr Hev Hk db1 r2. pose proof (reachable_inv _ Hr) as Hinv.
  destruct (batch_ok now new_id events db Hinv Hev) as (Hinv1 & _ & Hdb1). fold db1 in Hinv1, Hdb1.
  destruct (batch_ok now' new_id' events db1 Hinv1 Hev) as (_ & Hok & Hr2). fold r2 in Hok, Hr2.
  pose proof (by_tenant_forall _ _ Hev) as Hg.
  destruct (groups_account now new_id (by_tenant events) db None Hinv Hg) as [_ Hacc].
  rewrite <-Hdb1 in Hacc.
  destruct (groups_retry now' new_id' (by_tenant events) db1 None (proj1 Hinv1)) as (hs & He & Hh).
  { pose proof (by_tenant_forall _ _ Hk) as Hk'. rewrite Forall_forall in *. unfold keyed. auto. }
  rewrite Hr2, He. done.
Qed.
End Verify.

(** ** Witnesses *)

Module Sample.
#[local] Existing Instance exact_float_repr.
#[local] Open Scope string_scope.

Definition noon : datetime := Datetime 2026 3 1 12 0 0 250000.
Definition ev (t : string) (action : string) (detail : pyval) (cid : string) : audit_event :=
  AuditEvent t (Some "agent-1") action "memory"
    (Some (RUuid 0x00112233445566778899aabbccddeeff)) detail None (Some cid).
Definition events : list audit_event :=
  [ev "acme" "create" (PDict [("title", PStr "card 4111 1111 1111 1111"); ("score", PFloat (SpecFloat.S754_finite false 3 0))]) "c1";
   ev "umbrella" "create" PNone "c1";
   ev "acme" "delete" (PDict [("n", PInt 7)]) "c2";
   ev "acme" "delete" (PDict [("n", PInt 7)]) "c2";
   ev "acme" "update" PNone "c3"].

Definition db0 : audit_db := AuditDb [] ∅.
Definition now (_ : string) : datetime := noon.
Definition ids (t : string) (n : Z) : string := t.
Definition db1 : audit_db := (audit_add_batch now ids events db0).1.

Lemma events_ok : Forall (λ e, detail_ok (ev_detail e)) events.
Proof.
  repeat apply Forall_cons_2; try apply Forall_nil_2; (split; [by apply wf_valb_spec|]); simpl;
    first [by left|right; eexists; reflexivity].
Qed.

Lemma db0_reachable : audit_reachable db0.
Proof. apply reach_init. repeat split; constructor. Qed.

Lemma db1_reachable : audit_reachable db1.
Proof. eapply reach_step; [exact db0_reachable|]. apply step_batch, events_ok. Qed.

Lemma stored_refl l : Forall2 row_stored l l.
Proof.
  induction l as [|r l IH]; constructor; [|done]. split; [by destruct r|by left|constructor].
Qed.

Lemma no_collision_b a b :
  forallb (λ r, forallb (λ r', implb (bool_decide (sha256 (hash_input r) = sha256 (hash_input r')))
    (bool_decide (hash_input r = hash_input r'))) b) a = true → no_collision a b.
Proof.
  rewrite forallb_forall. intros H r r' Hr Hr' He. specialize (H r).
  rewrite list_elem_of_In in Hr. specialize (H Hr). rewrite forallb_forall in H.
  rewrite list_elem_of_In in Hr'. specialize (H r' Hr'). rewrite bool_decide_true in H by done.
  by apply bool_decide_eq_true in H.
Qed.
End Sample.

Lemma written_chain_verifies_witness :
  @audit_verify_chain exact_float_repr "acme" 2 2 Sample.db1
    = Verdict true 2 None (Some 3%Z) (Some true) (Some 4%Z)
  ∧ valid (@audit_verify_chain exact_float_repr "acme" 2 2
      (AuditDb (audit_log Sample.db1) (heads Sample.db1))) = true.
Proof.
  split; [vm_compute; reflexivity|].
  rewrite (@written_chain_verifies exact_float_repr Sample.db1 (audit_log Sample.db1) "acme" 2 2
    Sample.db1_reachable (Sample.stored_refl _)); [reflexivity|lia|].
  assert ((head_link "acme" Sample.db1).1 = 3%Z) as -> by (vm_compute; reflexivity). lia.
Defined.

Lemma batch_always_commits_witness :
  (@audit_add_batch exact_float_repr Sample.now Sample.ids Sample.events Sample.db1).2 = Ok tt.
Proof. exact (batch_always_commits _ _ _ _ Sample.db1_reachable Sample.events_ok). Defined.

Lemma retried_batch_is_noop_witness :
  length (audit_log Sample.db1) = 4 ∧
  audit_log (@audit_add_batch exact_float_repr Sample.now Sample.ids Sample.events Sample.db1).1
    = audit_log Sample.db1.
Proof.
  split; [vm_compute; reflexivity|].
  assert (keyed Sample.events) as Hk by (repeat constructor; eexists; reflexivity).
  exact (proj1 (proj2 (@retried_batch_is_noop exact_float_repr Sample.db0 Sample.now Sample.ids
    Sample.now Sample.ids Sample.events Sample.db0_reachable Sample.events_ok Hk))).
Defined.

Lemma paginated_walk_is_full_pass_witness :
  let cut := AuditDb (take 2 (audit_log Sample.db1)) (heads Sample.db1) in
  length (audit_log cut) = 2 ∧
  @walk_windows exact_float_repr 5 "acme" 2 1 cut = Some false ∧
  @walk_windows exact_float_repr 5 "acme" 2 1 Sample.db1
    = Some (valid (@audit_verify_chain exact_float_repr "acme" 10 1 Sample.db1)).
Proof.
  split; [vm_compute; reflexivity|]. split; [vm_compute; reflexivity|].
  apply (@paginated_walk_is_full_pass exact_float_repr "acme" 2 10 Sample.db1 5).
  - vm_compute. reflexivity.
  - lia.
  - assert (length (window "acme" 1 (audit_log Sample.db1)) = 3) as -> by (vm_compute; reflexivity).
    lia.
  - assert (length (window "acme" 1 (audit_log Sample.db1)) = 3) as -> by (vm_compute; reflexivity).
    lia.
Defined.

Lemma chain_is_tamper_evident_witness :
  let legacy := AuditRow "x" "acme" None "login" "user" None PNone Sample.noon None None None None in
  let db' := AuditDb (legacy :: audit_log Sample.db1) (heads Sample.db1) in
  Forall2 (@same_row) (window "acme" 1 (audit_log Sample.db1)) (window "acme" 1 (audit_log db')).
Proof.
  intros legacy db'.
  refine (@chain_is_tamper_evident exact_float_repr "acme" 10 20 Sample.db1 db' _ _ _ _ _ _);
    [vm_compute; reflexivity..|].
  apply Sample.no_collision_b. vm_compute. reflexivity.
Defined.
