(* ===== verification/Idempotency.v ===== *)
(** * The idempotency inbox

    [core-api/.../middleware/idempotency.py] over the storage operations of
    [PostgresService.idempotency_*] and their router. The middleware is a program
    that calls storage ([prog]); each storage operation is one transaction on the
    table. [System] runs any number of requests over one table, their calls
    interleaved in any order, storage failing at will, time passing between calls.

    Instants are microseconds of the database clock. *)

From S2P Require Import PyStr PyVal.

#[local] Open Scope string_scope.

(** ** The table *)

Record idem_row := IdemRow {
  request_hash : string;
  response_body : pyval;
  status_code : Z;
  expires_at : Z;
  is_pending : bool;
}.

#[global] Instance idem_row_eq_dec : EqDecision idem_row.
Proof. solve_decision. Defined.

(** By (tenant_id, idempotency_key), the primary key. *)
Abbreviation idem_db := (gmap (string * string) idem_row).
Implicit Types (db : idem_db) (k : string * string) (now : Z).

Definition live now (r : idem_row) : bool := (now <? expires_at r)%Z.

Definition idempotency_get k now db : option idem_row :=
  match db !! k with
  | Some r => if live now r then Some r else None
  | None => None
  end.

(** [INSERT ... ON CONFLICT DO UPDATE ... WHERE expires_at <= now()] *)
Definition idempotency_claim k (hash : string) (expires : Z) now db
    : option idem_row * idem_db :=
  let row := IdemRow hash (PDict []) 0 expires true in
  match db !! k with
  | None => (Some row, <[k := row]> db)
  | Some r => if (expires_at r <=? now)%Z then (Some row, <[k := row]> db) else (None, db)
  end.

(** [UPDATE] the pending claim of this hash, else [INSERT ON CONFLICT DO NOTHING],
    else the row that is there, refused unless it is this request's response. *)
Definition idempotency_record k (hash : string) (body : pyval) (status expires : Z) db
    : result exn idem_row * idem_db :=
  let row := IdemRow hash body status expires false in
  match db !! k with
  | None => (Ok row, <[k := row]> db)
  | Some r =>
      if bool_decide (request_hash r = hash) && is_pending r
      then (Ok row, <[k := row]> db)
      else if is_pending r
      then (Err (PyError "RuntimeError" "still pending under a different claim"), db)
      else if negb (bool_decide (request_hash r = hash))
      then (Err (PyError "RuntimeError" "holds a different request hash"), db)
      else (Ok r, db)
  end.

(** [DELETE] the pending claim of this hash. *)
Definition idempotency_release k (hash : string) db : bool * idem_db :=
  match db !! k with
  | Some r => if bool_decide (request_hash r = hash) && is_pending r
              then (true, delete k db) else (false, db)
  | None => (false, db)
  end.

(** ** The middleware *)

(** A program over storage: it ends, reads the row, claims it, or sleeps. A call
    may raise. *)
Inductive prog (A : Type) : Type :=
| Ret (a : A)
| Get (cont : result exn (option idem_row) → prog A)
| Claim (cont : result exn (option idem_row) → prog A)
| Sleep (cont : prog A).
Arguments Ret {A} a.
Arguments Get {A} cont.
Arguments Claim {A} cont.
Arguments Sleep {A} cont.

Definition MAX_IDEMPOTENCY_KEY_LEN : Z := 255.
Definition CLAIM_POLL_MAX_ATTEMPTS : nat := 20.

Record guard := Guard {
  g_cached : option idem_row;
  g_claimed : bool;
}.

Definition cached_replay (g : guard) : option (pyval * Z) :=
  (λ r, (response_body r, status_code r)) <$> g_cached g.

(** What [_poll_until_complete] returns. *)
Inductive polled :=
| PollRow (r : idem_row)
| POLL_VANISHED
| POLL_STORAGE_ERROR
| PollExhausted.

(** [attempts] is what the loop has left. *)
Fixpoint poll_until_complete {A} (attempts : nat) (ret : polled → prog A) : prog A :=
  match attempts with
  | O => ret PollExhausted
  | S attempts =>
      Get (λ reply,
        match reply with
        | Err _ => ret POLL_STORAGE_ERROR
        | Ok None => ret POLL_VANISHED
        | Ok (Some row) =>
            if negb (is_pending row) then ret (PollRow row)
            else match attempts with
                 | O => ret PollExhausted
                 | S _ => Sleep (poll_until_complete attempts ret)
                 end
        end)
  end.

Definition conflict422 : exn :=
  HTTPException 422 "Idempotency-Key reused with a different request body".
Definition in_progress409 : exn :=
  HTTPException 409 "Idempotency-Key still in progress; retry shortly".
Definition vanished409 : exn :=
  HTTPException 409 "Previous request did not complete; safe to retry".
Definition storage503 : exn :=
  HTTPException 503 "Upstream storage unavailable; retry later".

Definition outcome := result exn (option guard).

(** The end of both polling branches. *)
Definition after_poll (hash : string) (p : polled) : prog outcome :=
  Ret (match p with
       | PollExhausted => Err in_progress409
       | POLL_STORAGE_ERROR => Err storage503
       | POLL_VANISHED => Err vanished409
       | PollRow row =>
           if negb (bool_decide (request_hash row = hash)) then Err conflict422
           else Ok (Some (Guard (Some row) false))
       end).

(** [StorageClient.claim_idempotency]: the claim, and after a lost one the row
    that holds the key, read in a transaction of its own. *)
Definition claim_idempotency {A} (cont : result exn (bool * option idem_row) → prog A) : prog A :=
  Claim (λ reply,
    match reply with
    | Err e => cont (Err e)
    | Ok (Some row) => cont (Ok (true, Some row))
    | Ok None => Get (λ reply,
        match reply with
        | Err e => cont (Err e)
        | Ok existing => cont (Ok (false, existing))
        end)
    end).

Definition no_cache : outcome := Ok (Some (Guard None false)).

(** After [get_idempotency] found nothing: claim, then replay or poll. *)
Definition claim_branch (hash : string) : prog outcome :=
  claim_idempotency (λ reply,
    match reply with
    | Err _ => Ret no_cache
    | Ok (true, _) => Ret (Ok (Some (Guard None true)))
    | Ok (false, existing) =>
        match existing with
        | Some row =>
            if negb (bool_decide (request_hash row = hash)) then Ret (Err conflict422)
            else if negb (is_pending row) then Ret (Ok (Some (Guard (Some row) false)))
            else poll_until_complete CLAIM_POLL_MAX_ATTEMPTS (after_poll hash)
        | None => poll_until_complete CLAIM_POLL_MAX_ATTEMPTS (after_poll hash)
        end
    end).

Definition idempotency_for_hash (idempotency_key : option string) (hash : string) : prog outcome :=
  match idempotency_key with
  | None | Some "" => Ret (Ok None)
  | Some key =>
      if bool_decide (strip key = "") then
        Ret (Err (HTTPException 400 "Idempotency-Key must not be blank"))
      else if (MAX_IDEMPOTENCY_KEY_LEN <? str_len key)%Z then
        Ret (Err (HTTPException 400 "Idempotency-Key must be at most 255 characters"))
      else
        Get (λ reply,
          match reply with
          | Err _ => Ret no_cache
          | Ok (Some cached) =>
              if negb (bool_decide (request_hash cached = hash)) then Ret (Err conflict422)
              else if negb (is_pending cached) then Ret (Ok (Some (Guard (Some cached) false)))
              else poll_until_complete CLAIM_POLL_MAX_ATTEMPTS (after_poll hash)
          | Ok None => claim_branch hash
          end)
  end.

(** [f"{source}:{len(agent)}:{agent}:{idempotency_key}"] *)
Definition stored_key (source : string) (agent_id : option string) (idempotency_key : string) : string :=
  let agent := default "" agent_id in
  source +:+ ":" +:+ str_of_Z (str_len agent) +:+ ":" +:+ agent +:+ ":" +:+ idempotency_key.

(** [idempotency_key_from_metadata] *)
Definition IDEMPOTENCY_BODY_FIELDS : list string := ["idempotency_key"; "client_idempotency_key"].
Definition idempotency_key_from_metadata (metadata : option (list (string * pyval))) : option string :=
  match metadata with
  | None => None
  | Some m =>
      head (omap (λ field,
        match dict_get field m with
        | Some (PStr v) => if bool_decide (strip v = "") then None else Some v
        | _ => None
        end) IDEMPOTENCY_BODY_FIELDS)
  end.

(** ** Stored keys *)

(** The stored key is unambiguous: two (transport, agent, client key) triples
    share a claim only when they are the same triple (an absent agent being the
    empty one), so no client-chosen agent or key can reach another bucket. The
    transport is one of the code's prefixes, which hold no colon. *)
Theorem stored_key_injective source source' agent agent' key key' :
  source ∈ ["header"; "body"; "mcp"] → source' ∈ ["header"; "body"; "mcp"] →
  stored_key source agent key = stored_key source' agent' key' →
  source = source' ∧ default "" agent = default "" agent' ∧ key = key'.
Proof.
  intros Hs Hs' H. unfold stored_key in H. simpl in H.
  assert (∀ s, s ∈ ["header"; "body"; "mcp"] → no_colon s = true) as Hnc.
  { apply Forall_forall. by repeat constructor. }
  apply colon_split in H as [-> H]; [|by apply Hnc..].
  apply colon_split in H as [Hl H]; [|apply str_of_Z_no_colon..].
  apply str_of_Z_inj in Hl. unfold str_len in Hl.
  apply string_app_inj_length in H as [-> H]; [|lia]. by injection H.
Qed.

Lemma stored_key_injective_witness :
  stored_key "mcp" (Some "a:1") "k" ≠ stored_key "mcp" (Some "a") "1:k" ∧
  stored_key "body" None "k" = stored_key "body" (Some "") "k" ∧ "k" = "k".
Proof.
  split; [vm_compute; discriminate|]. split; [reflexivity|].
  assert ("body" ∈ ["header"; "body"; "mcp"]) as Hb by (right; left).
  exact (proj2 (proj2 (stored_key_injective "body" "body" None (Some "") "k" "k" Hb Hb eq_refl))).
Defined.

(** ** Bounded effort *)

(** At most [calls] storage calls and [sleeps] sleeps on every path. *)
Fixpoint bounded {A} (calls sleeps : nat) (p : prog A) : Prop :=
  match p with
  | Ret _ => True
  | Get cont | Claim cont =>
      match calls with O => False | S calls => ∀ reply, bounded calls sleeps (cont reply) end
  | Sleep p => match sleeps with O => False | S sleeps => bounded calls sleeps p end
  end.

Lemma bounded_le {A} (p : prog A) (c c' s s' : nat) :
  (c ≤ c')%nat → (s ≤ s')%nat → bounded c s p → bounded c' s' p.
Proof.
  revert c c' s s'. induction p as [a|cont IH|cont IH|p IH]; intros c c' s s' Hc Hs Hb; simpl in *; [done|..].
  - destruct c, c'; try done; [lia|]. intros reply. eapply IH; [| |apply Hb]; lia.
  - destruct c, c'; try done; [lia|]. intros reply. eapply IH; [| |apply Hb]; lia.
  - destruct s, s'; try done; [lia|]. eapply IH; [| |apply Hb]; lia.
Qed.

Lemma poll_bounded {A} n (ret : polled → prog A) :
  (∀ p, bounded 0 0 (ret p)) → bounded n (n - 1) (poll_until_complete n ret).
Proof.
  intros Hret. induction n as [|n IH]; [apply Hret|].
  intros [[row|]|e]; try (eapply bounded_le; [..|apply Hret]; lia).
  destruct (negb (is_pending row)); [eapply bounded_le; [..|apply Hret]; lia|].
  destruct n as [|n]; [eapply bounded_le; [..|apply Hret]; lia|].
  simpl Nat.sub in *. cbn [bounded]. rewrite Nat.sub_0_r in *. exact IH.
Qed.

(** The middleware always terminates within its budget: on every path, whatever
    storage answers, at most 23 storage calls (the lookup, the claim, the read
    after a lost claim, and 20 polls) and 19 sleeps between polls. *)
Theorem idempotency_for_hash_bounded key hash :
  bounded 23 19 (idempotency_for_hash key hash).
Proof.
  assert (∀ c, (20 ≤ c)%nat → bounded c 19 (poll_until_complete CLAIM_POLL_MAX_ATTEMPTS (after_poll hash)))
    as Hp.
  { intros c Hc. eapply bounded_le; [exact Hc| |apply poll_bounded; done]. done. }
  unfold idempotency_for_hash. destruct key as [[|c key]|]; [done| |done].
  case_match; [done|]. case_match; [done|].
  intros [[row|]|e]; [| |done].
  - case_match; [done|]. case_match; [done|]. apply Hp. lia.
  - intros [[row|]|e]; [done| |done]. intros [[row|]|e]; [| |done].
    + case_match; [done|]. case_match; [done|]. apply Hp. lia.
    + apply Hp. lia.
Qed.

(** ** Requests over one table *)

Module System.
Section System.
(** [settings.idempotency_ttl_seconds] *)
Context (ttl : Z).

Inductive phase :=
| Asking (p : prog outcome) (seen : list idem_row)   (* in the middleware; rows it read *)
| Working (g : guard)                                (* the handler runs *)
| Replayed (body : pyval) (status : Z)
| Refused (e : exn)
| Finished.

Record req := Req {
  rq_key : string * string;
  rq_hash : string;
  rq_pttl : Z;              (* pending TTL of the route *)
  rq_claim : option Z;      (* expiry of the claim it holds *)
  rq_phase : phase;
}.

Record state := State {
  st_db : idem_db;
  st_now : Z;
  st_reqs : gmap nat req;
  st_log : list ((string * string) * idem_row);   (* responses stored by handlers *)
}.

Definition set_phase (r : req) (claim : option Z) (p : phase) : req :=
  Req (rq_key r) (rq_hash r) (rq_pttl r) claim p.

Definition put (s : state) (i : nat) (r : req) (db' : idem_db) : state :=
  State db' (st_now s) (<[i := r]> (st_reqs s)) (st_log s).

(** What the handler does with the middleware's answer. *)
Definition enter (o : outcome) : phase :=
  match o with
  | Err e => Refused e
  | Ok None => Working (Guard None false)
  | Ok (Some g) => match cached_replay g with
                   | Some (body, status) => Replayed body status
                   | None => Working g
                   end
  end.

Inductive step : state → state → Prop :=
(* Time passes, but no handler outlives the claim it holds: a route whose work may
   run longer passes a longer pending TTL. *)
| step_tick s now' :
    (st_now s <= now')%Z →
    (∀ i r d, st_reqs s !! i = Some r → rq_claim r = Some d → (now' < d)%Z) →
    step s (State (st_db s) now' (st_reqs s) (st_log s))
| step_arrive s i k ikey hash pttl :
    st_reqs s !! i = None → (0 < pttl <= ttl)%Z →
    step s (put s i (Req k hash pttl None (Asking (idempotency_for_hash ikey hash) [])) (st_db s))
| step_get s i r cont seen :
    st_reqs s !! i = Some r → rq_phase r = Asking (Get cont) seen →
    let row := idempotency_get (rq_key r) (st_now s) (st_db s) in
    step s (put s i (set_phase r None (Asking (cont (Ok row)) (seen ++ option_list row)%list)) (st_db s))
| step_claim s i r cont seen :
    st_reqs s !! i = Some r → rq_phase r = Asking (Claim cont) seen →
    let expires := (st_now s + rq_pttl r)%Z in
    let reply := idempotency_claim (rq_key r) (rq_hash r) expires (st_now s) (st_db s) in
    step s (put s i (set_phase r (match reply.1 with Some _ => Some expires | None => None end)
                       (Asking (cont (Ok reply.1)) seen)) reply.2)
(* the claim commits but its answer is lost *)
| step_claim_lost s i r cont seen e :
    st_reqs s !! i = Some r → rq_phase r = Asking (Claim cont) seen →
    let reply :=
      idempotency_claim (rq_key r) (rq_hash r) (st_now s + rq_pttl r) (st_now s) (st_db s) in
    step s (put s i (set_phase r None (Asking (cont (Err e)) seen)) reply.2)
| step_call_fails s i r cont seen e :
    st_reqs s !! i = Some r →
    (rq_phase r = Asking (Get cont) seen ∨ rq_phase r = Asking (Claim cont) seen) →
    step s (put s i (set_phase r None (Asking (cont (Err e)) seen)) (st_db s))
| step_wake s i r p seen :
    st_reqs s !! i = Some r → rq_phase r = Asking (Sleep p) seen →
    step s (put s i (set_phase r None (Asking p seen)) (st_db s))
| step_return s i r o seen :
    st_reqs s !! i = Some r → rq_phase r = Asking (Ret o) seen →
    step s (put s i (set_phase r (rq_claim r) (enter o)) (st_db s))
(* [guard.record] after the work, for every guard *)
| step_record s i r g body status :
    st_reqs s !! i = Some r → rq_phase r = Working g →
    let row := IdemRow (rq_hash r) body status (st_now s + ttl) false in
    let db' := (idempotency_record (rq_key r) (rq_hash r) body status (st_now s + ttl) (st_db s)).2 in
    step s (State db' (st_now s) (<[i := set_phase r None Finished]> (st_reqs s))
              (if bool_decide (db' !! rq_key r = Some row)
               then (rq_key r, row) :: st_log s else st_log s))
(* [release_claim_on_error]: only a guard that claimed calls storage *)
| step_release s i r g :
    st_reqs s !! i = Some r → rq_phase r = Working g →
    let db' := if g_claimed g then (idempotency_release (rq_key r) (rq_hash r) (st_db s)).2
               else st_db s in
    step s (put s i (set_phase r None Finished) db')
(* the client is gone, or storage is, and the claim is left to expire *)
| step_abandon s i r g :
    st_reqs s !! i = Some r → rq_phase r = Working g →
    step s (put s i (set_phase r None Finished) (st_db s))
| step_purge s :
    step s (State (filter (λ kr, (st_now s < expires_at kr.2)%Z) (st_db s)) (st_now s)
              (st_reqs s) (st_log s)).

Definition init (s : state) : Prop := st_db s = ∅ ∧ st_reqs s = ∅ ∧ st_log s = [].

(** ** What the middleware can return *)

(** Whatever the answers, a claimed guard is returned exactly after a won claim,
    and a cached row is one of those read, completed and of this request's hash. *)
Fixpoint well (hash : string) (seen : list idem_row) (p : prog outcome) : Prop :=
  match p with
  | Ret (Ok (Some g)) =>
      g_claimed g = false ∧
      ∀ c, g_cached g = Some c → c ∈ seen ∧ request_hash c = hash ∧ is_pending c = false
  | Ret _ => True
  | Get cont => ∀ reply,
      well hash (seen ++ match reply with Ok row => option_list row | Err _ => [] end)%list (cont reply)
  | Claim cont =>
      (∀ row, cont (Ok (Some row)) = Ret (Ok (Some (Guard None true)))) ∧
      well hash seen (cont (Ok None)) ∧ ∀ e, well hash seen (cont (Err e))
  | Sleep p => well hash seen p
  end.

Lemma well_poll hash seen n :
  well hash seen (poll_until_complete n (after_poll hash)).
Proof.
  revert seen. induction n as [|n IH]; intros seen; [done|].
  intros [[row|]|e]; try done. destruct (is_pending row) eqn:Hp; simpl.
  - destruct n as [|n]; [done|]. apply IH.
  - unfold after_poll. destruct (bool_decide _) eqn:Hh; [|exact I]. simpl. split; [done|].
    intros c [= <-]. bool_to_prop. split_and!; [|done..]. apply elem_of_app. right. by left.
Qed.

Lemma well_reply hash seen row :
  request_hash row = hash → is_pending row = false →
  well hash (seen ++ [row])%list (Ret (Ok (Some (Guard (Some row) false)))).
Proof.
  intros Hh Hp. split; [done|]. intros c [= <-]. split_and!; [|done..].
  apply elem_of_app. right. by left.
Qed.

Lemma well_start key hash : well hash [] (idempotency_for_hash key hash).
Proof.
  assert (∀ e, well hash [] (Ret (A:=outcome) (Err e))) as He by done.
  unfold idempotency_for_hash. destruct key as [[|c key]|]; [done| |done].
  case_match; [done|]. case_match; [done|].
  intros [[row|]|e]; [| |by split].
  - destruct (bool_decide (request_hash row = hash)) eqn:Hh; [|exact I]. cbn [negb]. bool_to_prop.
    destruct (is_pending row) eqn:Hp; cbn [negb]; [apply well_poll|by apply well_reply].
  - split; [done|]. split; [|by split].
    intros [[row|]|e]; [| |by split]; [|apply well_poll].
    destruct (bool_decide (request_hash row = hash)) eqn:Hh; [|exact I]. cbn [negb]. bool_to_prop.
    destruct (is_pending row) eqn:Hp; cbn [negb]; [apply well_poll|by apply well_reply].
Qed.

(** ** The invariant *)

Definition recorded (s : state) (k : string * string) (c : idem_row) : Prop := (k, c) ∈ st_log s.

Definition req_ok (s : state) (r : req) : Prop :=
  (0 < rq_pttl r <= ttl)%Z ∧
  match rq_phase r with
  | Asking p seen =>
      (∀ c, c ∈ seen → is_pending c = false → recorded s (rq_key r) c) ∧
      match rq_claim r with
      | None => well (rq_hash r) seen p
      | Some _ => p = Ret (Ok (Some (Guard None true)))
      end
  | Working g => g_cached g = None ∧ (g_claimed g = true ↔ is_Some (rq_claim r))
  | Replayed body status => rq_claim r = None ∧
      ∃ c, recorded s (rq_key r) c ∧ request_hash c = rq_hash r ∧ is_pending c = false ∧
        response_body c = body ∧ status_code c = status
  | Refused _ | Finished => rq_claim r = None
  end.

Definition holds (s : state) (r : req) (d : Z) : Prop :=
  (st_now s < d <= st_now s + ttl)%Z ∧
  ∃ row, st_db s !! rq_key r = Some row ∧ request_hash row = rq_hash r ∧ (d <= expires_at row)%Z.

Definition inv (s : state) : Prop :=
  (∀ i r, st_reqs s !! i = Some r → req_ok s r) ∧
  (∀ i r d, st_reqs s !! i = Some r → rq_claim r = Some d → holds s r d) ∧
  (∀ i j r r' d d', st_reqs s !! i = Some r → st_reqs s !! j = Some r' →
    rq_claim r = Some d → rq_claim r' = Some d' → rq_key r = rq_key r' → i = j) ∧
  (∀ k c, st_db s !! k = Some c → is_pending c = false → recorded s k c).

(** What a step of one request may do to the row of another. *)
Definition keeps (now : Z) (db db' : idem_db) : Prop :=
  ∀ k row, db !! k = Some row → (now < expires_at row)%Z →
    ∃ row', db' !! k = Some row' ∧ request_hash row' = request_hash row ∧
      (expires_at row <= expires_at row' ∨ now + ttl <= expires_at row')%Z.

Lemma keeps_refl now db : keeps now db db.
Proof. intros k row Hk _. exists row. auto with lia. Qed.

Lemma claim_keeps k hash e now db : keeps now db (idempotency_claim k hash e now db).2.
Proof.
  intros k' row Hk' Hl. unfold idempotency_claim.
  destruct (db !! k) as [r|] eqn:Hk; simpl; [destruct (Z.leb_spec (expires_at r) now); simpl|].
  - exists row. rewrite lookup_insert_ne by (intros ->; simplify_eq; lia). auto with lia.
  - exists row. auto with lia.
  - exists row. rewrite lookup_insert_ne by (intros ->; simplify_eq). auto with lia.
Qed.

Lemma record_keeps k hash body status now db :
  keeps now db (idempotency_record k hash body status (now + ttl) db).2.
Proof.
  intros k' row Hk' Hl. unfold idempotency_record.
  destruct (db !! k) as [r|] eqn:Hk; simpl.
  - destruct (bool_decide (request_hash r = hash) && is_pending r) eqn:Hb; simpl.
    + bool_to_prop. destruct (decide (k' = k)) as [->|Hne].
      * simplify_eq. eexists. rewrite lookup_insert_eq. split; [done|]. simpl. auto with lia.
      * exists row. rewrite lookup_insert_ne by done. auto with lia.
    + exists row. repeat case_match; simpl; auto with lia.
  - exists row. rewrite lookup_insert_ne by (intros ->; simplify_eq). auto with lia.
Qed.

Lemma holds_keeps s r d db' log' reqs' :
  holds s r d → keeps (st_now s) (st_db s) db' → holds (State db' (st_now s) reqs' log') r d.
Proof.
  intros [Hd (row & Hrow & Hh & He)] Hk. split; [done|]. simpl.
  destruct (Hk _ _ Hrow) as (row' & Hrow' & Hh' & He'); [lia|]. exists row'. split_and!; [done|congruence|].
  simpl in *. lia.
Qed.

Lemma recorded_mono s s' k c :
  (∀ x, x ∈ st_log s → x ∈ st_log s') → recorded s k c → recorded s' k c.
Proof. unfold recorded. auto. Qed.

Lemma req_ok_mono s s' r : (∀ x, x ∈ st_log s → x ∈ st_log s') → req_ok s r → req_ok s' r.
Proof.
  intros Hlog [Hp Hr]. split; [done|]. destruct (rq_phase r) as [p seen|g|body status|e|]; try done.
  - destruct Hr as [Hs Hc]. split; [|done]. intros c Hc1 Hc2. eapply recorded_mono; eauto.
  - destruct Hr as [Hc (c & Hr & ?)]. split; [done|]. exists c. split; [|done]. by eapply recorded_mono.
Qed.

(** One request moves: what is left to show. *)
Lemma inv_put s i r r' db' log' :
  inv s → st_reqs s !! i = Some r → rq_key r' = rq_key r →
  let s' := State db' (st_now s) (<[i := r']> (st_reqs s)) log' in
  (∀ x, x ∈ st_log s → x ∈ log') →
  req_ok s' r' →
  (∀ j r2 d, j ≠ i → st_reqs s !! j = Some r2 → rq_claim r2 = Some d → holds s' r2 d) →
  (∀ d, rq_claim r' = Some d → holds s' r' d ∧
    ∀ j r2 d2, j ≠ i → st_reqs s !! j = Some r2 → rq_claim r2 = Some d2 → rq_key r2 ≠ rq_key r') →
  (∀ k c, db' !! k = Some c → is_pending c = false → (k, c) ∈ log') →
  inv s'.
Proof.
  intros (Hok & Hh & Hu & _) Hi Hk s' Hlog Hr' Hothers Hnew Hdb. split_and!; [| | |done].
  - intros j r2. unfold s'. simpl. destruct (decide (j = i)) as [->|Hne].
    + rewrite lookup_insert_eq. by intros [= <-].
    + rewrite lookup_insert_ne by done. intros Hj. eapply req_ok_mono; [|by eapply Hok]. done.
  - intros j r2 d. unfold s'. simpl. destruct (decide (j = i)) as [->|Hne].
    + rewrite lookup_insert_eq. intros [= <-] Hd. by apply Hnew.
    + rewrite lookup_insert_ne by done. eauto.
  - intros j1 j2 r1 r2 d1 d2. unfold s'. simpl.
    destruct (decide (j1 = i)) as [->|H1], (decide (j2 = i)) as [->|H2];
      rewrite ?lookup_insert_eq, ?lookup_insert_ne by done; try done.
    + intros [= <-] Hj Hd1 Hd2 Hkk. destruct (Hnew d1 Hd1) as [_ Hno].
      by destruct (Hno j2 r2 d2 H2 Hj Hd2).
    + intros Hj [= <-] Hd1 Hd2 Hkk. destruct (Hnew d2 Hd2) as [_ Hno].
      by destruct (Hno j1 r1 d1 H1 Hj Hd1).
    + eauto.
Qed.

(** The same, for a request that ends up holding nothing and a table that keeps
    the live rows. *)
Lemma inv_put_none s i r ph db' log' :
  inv s → st_reqs s !! i = Some r →
  let s' := State db' (st_now s) (<[i := set_phase r None ph]> (st_reqs s)) log' in
  (∀ x, x ∈ st_log s → x ∈ log') → keeps (st_now s) (st_db s) db' →
  req_ok s' (set_phase r None ph) →
  (∀ k c, db' !! k = Some c → is_pending c = false → (k, c) ∈ log') →
  inv s'.
Proof.
  intros Hinv Hi s' Hlog Hkeep Hok Hdb. eapply inv_put; try done.
  intros j r2 d _ Hj Hd. apply holds_keeps; [|done]. destruct Hinv as (_ & Hh & _). by eapply Hh.
Qed.

(** A live row that nobody else may take: a claim that wins meets no holder. *)
Lemma claim_wins s k hash e row :
  inv s → (idempotency_claim k hash e (st_now s) (st_db s)).1 = Some row →
  (∀ i r d, st_reqs s !! i = Some r → rq_claim r = Some d → rq_key r ≠ k) ∧
  (idempotency_claim k hash e (st_now s) (st_db s)).2 !! k = Some (IdemRow hash (PDict []) 0 e true).
Proof.
  intros (_ & Hh & _). unfold idempotency_claim.
  destruct (st_db s !! k) as [r0|] eqn:Hk; [destruct (Z.leb_spec (expires_at r0) (st_now s))|];
    simpl; try done; intros _; (split; [|by rewrite lookup_insert_eq]);
    intros i r d Hi Hd <-; destruct (Hh _ _ _ Hi Hd) as [Hd1 (row' & Hrow & _ & He)];
    simplify_eq; lia.
Qed.

Lemma claim_completed k hash e now db k' c :
  (idempotency_claim k hash e now db).2 !! k' = Some c → is_pending c = false → db !! k' = Some c.
Proof.
  unfold idempotency_claim. destruct (db !! k) as [r0|] eqn:Hk; [destruct (_ <=? _)%Z|]; simpl; try done;
    (destruct (decide (k' = k)) as [->|Hne];
      [rewrite lookup_insert_eq; by intros [= <-]|by rewrite lookup_insert_ne]).
Qed.

Lemma get_recorded s k row :
  inv s → idempotency_get k (st_now s) (st_db s) = Some row → is_pending row = false →
  recorded s k row.
Proof.
  intros (_ & _ & _ & Hdb). unfold idempotency_get. destruct (st_db s !! k) as [r|] eqn:Hk; [|done].
  destruct (live _ _); [|done]. intros [= <-]. by apply Hdb.
Qed.

(** A request that is asking storage holds nothing. *)
Lemma asking_well s i r p seen :
  inv s → st_reqs s !! i = Some r → rq_phase r = Asking p seen →
  (∀ o, p ≠ Ret o) →
  rq_claim r = None ∧ well (rq_hash r) seen p ∧
  (∀ c, c ∈ seen → is_pending c = false → recorded s (rq_key r) c) ∧ (0 < rq_pttl r <= ttl)%Z.
Proof.
  intros (Hok & _) Hi Hp Hne. destruct (Hok _ _ Hi) as [Ht H]. rewrite Hp in H.
  destruct H as [Hs H]. destruct (rq_claim r); [|done]. by destruct (Hne _ H).
Qed.

Lemma asking_put s i r p' seen' db' :
  inv s → st_reqs s !! i = Some r → (0 < rq_pttl r <= ttl)%Z →
  keeps (st_now s) (st_db s) db' →
  (∀ k c, db' !! k = Some c → is_pending c = false → st_db s !! k = Some c) →
  well (rq_hash r) seen' p' →
  (∀ c, c ∈ seen' → is_pending c = false → recorded s (rq_key r) c) →
  inv (put s i (set_phase r None (Asking p' seen')) db').
Proof.
  intros Hinv Hi Ht Hk Hdb Hw Hs. unfold put. eapply inv_put_none; try done.
  intros k c Hc Hp. destruct Hinv as (_ & _ & _ & Hd). apply (Hd k c); [|done]. by apply Hdb.
Qed.

Lemma inv_claim_step s i r cont seen :
  inv s → st_reqs s !! i = Some r → rq_phase r = Asking (Claim cont) seen →
  let expires := (st_now s + rq_pttl r)%Z in
  let reply := idempotency_claim (rq_key r) (rq_hash r) expires (st_now s) (st_db s) in
  inv (put s i (set_phase r (match reply.1 with Some _ => Some expires | None => None end)
                 (Asking (cont (Ok reply.1)) seen)) reply.2).
Proof.
  intros Hinv Hi Hp expires reply.
  destruct (asking_well _ _ _ _ _ Hinv Hi Hp) as (Hc & (Hw1 & Hw2 & _) & Hs & Ht); [done|].
  destruct (reply.1) as [row|] eqn:Hr.
  - destruct (claim_wins s _ _ _ _ Hinv Hr) as [Hno Hrow]. unfold put. eapply inv_put; try done.
    + split; [done|]. simpl. split; [done|]. apply Hw1.
    + intros j r2 d _ Hj Hd. apply holds_keeps; [|apply claim_keeps].
      destruct Hinv as (_ & Hh & _). by eapply Hh.
    + simpl. intros d [= <-]. split.
      * split; simpl; [unfold expires; lia|]. eexists. split; [exact Hrow|]. simpl. split; [done|lia].
      * intros j r2 d2 _ Hj Hd2. by eapply Hno.
    + intros k c Hk Hpend. destruct Hinv as (_ & _ & _ & Hd). apply Hd; [|done].
      by eapply claim_completed.
  - eapply asking_put; try done; [apply claim_keeps|]. intros k c Hk Hpend. by eapply claim_completed.
Qed.

Lemma inv_return_step s i r o seen :
  inv s → st_reqs s !! i = Some r → rq_phase r = Asking (Ret o) seen →
  inv (put s i (set_phase r (rq_claim r) (enter o)) (st_db s)).
Proof.
  intros Hinv Hi Hp. destruct (proj1 Hinv _ _ Hi) as [Ht H]. rewrite Hp in H. destruct H as [Hs H].
  unfold put. eapply inv_put; try done.
  - split; [done|]. simpl. destruct (rq_claim r) as [d|] eqn:Hc.
    + injection H as ->. simpl. split; [done|]. split; [by eexists|done].
    + assert (∀ g : guard, g_claimed g = false → g_claimed g = true ↔ is_Some (None : option Z)) as Hn.
      { intros g ->. split; [done|]. by intros [? ?]. }
      destruct o as [[g|]|e]; [|by split; [|apply Hn]|done].
      destruct H as [Hg Hca]. simpl. unfold cached_replay.
      destruct (g_cached g) as [c|] eqn:Hgc; simpl; [|auto].
      destruct (Hca c eq_refl) as (Hin & Hh & Hpd). split; [done|]. exists c.
      split_and!; try done. by apply Hs.
  - intros j r2 d _ Hj Hd. apply holds_keeps; [|apply keeps_refl].
    destruct Hinv as (_ & Hh & _). by eapply Hh.
  - simpl. intros d Hd. destruct Hinv as (_ & Hh & Hu & _). split.
    + apply (holds_keeps s r d); [by eapply Hh|apply keeps_refl].
    + intros j r2 d2 Hne Hj Hd2 Hk. apply Hne. by eapply Hu.
  - by apply Hinv.
Qed.

Lemma record_completed k hash body status e db k' c :
  (idempotency_record k hash body status e db).2 !! k' = Some c →
  db !! k' = Some c ∨ (k' = k ∧ c = IdemRow hash body status e false).
Proof.
  unfold idempotency_record. destruct (db !! k) as [r|] eqn:Hk; simpl.
  - destruct (_ && _); simpl; [|repeat case_match; simpl; auto].
    destruct (decide (k' = k)) as [->|Hne]; [rewrite lookup_insert_eq; intros [= <-]; auto|].
    rewrite lookup_insert_ne by done. auto.
  - destruct (decide (k' = k)) as [->|Hne]; [rewrite lookup_insert_eq; intros [= <-]; auto|].
    rewrite lookup_insert_ne by done. auto.
Qed.

Lemma inv_record_step s i r g body status :
  inv s → st_reqs s !! i = Some r → rq_phase r = Working g →
  let row := IdemRow (rq_hash r) body status (st_now s + ttl) false in
  let db' := (idempotency_record (rq_key r) (rq_hash r) body status (st_now s + ttl) (st_db s)).2 in
  inv (State db' (st_now s) (<[i := set_phase r None Finished]> (st_reqs s))
         (if bool_decide (db' !! rq_key r = Some row)
          then (rq_key r, row) :: st_log s else st_log s)).
Proof.
  intros Hinv Hi Hp row db'. eapply inv_put_none; try done.
  - intros x Hx. case_bool_decide; [by right|done].
  - apply record_keeps.
  - destruct (proj1 Hinv _ _ Hi) as [Ht _]. by split.
  - intros k c Hk Hpd. destruct (record_completed _ _ _ _ _ _ _ _ Hk) as [Hold|[-> ->]].
    + destruct Hinv as (_ & _ & _ & Hd). specialize (Hd _ _ Hold Hpd).
      case_bool_decide; [by right|done].
    + rewrite bool_decide_true by done. by left.
Qed.

Lemma inv_release_step s i r g :
  inv s → st_reqs s !! i = Some r → rq_phase r = Working g →
  let db' := if g_claimed g then (idempotency_release (rq_key r) (rq_hash r) (st_db s)).2
             else st_db s in
  inv (put s i (set_phase r None Finished) db').
Proof.
  intros Hinv Hi Hp db'. destruct (proj1 Hinv _ _ Hi) as [Ht H]. rewrite Hp in H.
  destruct H as [_ Hg]. unfold put. eapply inv_put; try done.
  - intros j r2 d Hne Hj Hd. destruct Hinv as (_ & Hh & Hu & _).
    pose proof (Hh _ _ _ Hj Hd) as Hhold. destruct Hhold as [Hd1 (row & Hrow & Hrest)].
    split; [done|]. exists row. split; [|done]. simpl. unfold db'.
    destruct (g_claimed g) eqn:Hgc; [|done]. destruct (proj1 Hg eq_refl) as [d' Hd'].
    unfold idempotency_release. destruct (st_db s !! rq_key r) as [r0|] eqn:Hk; [|done].
    destruct (_ && _); simpl; [|done]. rewrite lookup_delete_ne; [done|].
    intros He. apply Hne. by eapply Hu.
  - intros k c Hk Hpd. destruct Hinv as (_ & _ & _ & Hd). apply Hd; [|done].
    unfold db' in Hk. destruct (g_claimed g); [|done]. unfold idempotency_release in Hk.
    destruct (st_db s !! rq_key r); [|done]. destruct (_ && _); simpl in Hk; [|done].
    by apply lookup_delete_Some in Hk as [_ Hk].
Qed.

Lemma inv_arrive s i k ikey hash pttl :
  inv s → st_reqs s !! i = None → (0 < pttl <= ttl)%Z →
  inv (put s i (Req k hash pttl None (Asking (idempotency_for_hash ikey hash) [])) (st_db s)).
Proof.
  intros (Hok & Hh & Hu & Hd) Hi Ht. unfold put. split_and!; simpl; try done.
  - intros j r2. destruct (decide (j = i)) as [->|Hne].
    + rewrite lookup_insert_eq. intros [= <-]. split; [done|]. split; [|apply well_start].
      intros c Hc. by apply elem_of_nil in Hc.
    + rewrite lookup_insert_ne by done. apply Hok.
  - intros j r2 d. destruct (decide (j = i)) as [->|Hne].
    + rewrite lookup_insert_eq. by intros [= <-].
    + rewrite lookup_insert_ne by done. apply Hh.
  - intros j1 j2 r1 r2 d1 d2.
    destruct (decide (j1 = i)) as [->|H1], (decide (j2 = i)) as [->|H2];
      rewrite ?lookup_insert_eq, ?lookup_insert_ne by done; try done;
      try (by intros [= <-]); try (by intros ? [= <-]). apply Hu.
Qed.

Lemma inv_tick s now' :
  inv s → (st_now s <= now')%Z →
  (∀ i r d, st_reqs s !! i = Some r → rq_claim r = Some d → (now' < d)%Z) →
  inv (State (st_db s) now' (st_reqs s) (st_log s)).
Proof.
  intros (Hok & Hh & Hu & Hd) Hle Hg. split_and!; try done.
  intros i r d Hi Hdl. destruct (Hh _ _ _ Hi Hdl) as [? Hrow]. split; [|done]. simpl.
  specialize (Hg _ _ _ Hi Hdl). lia.
Qed.

Lemma inv_purge s :
  inv s →
  inv (State (filter (λ kr, (st_now s < expires_at kr.2)%Z) (st_db s)) (st_now s)
         (st_reqs s) (st_log s)).
Proof.
  intros (Hok & Hh & Hu & Hd). split_and!; try done.
  - intros i r d Hi Hdl. destruct (Hh _ _ _ Hi Hdl) as [? (row & Hrow & ? & ?)].
    split; [done|]. exists row. simpl. split; [|done]. apply map_lookup_filter_Some. split; [done|].
    simpl. lia.
  - simpl. intros k c [Hk _]%map_lookup_filter_Some. by apply Hd.
Qed.

Lemma inv_step s s' : inv s → step s s' → inv s'.
Proof.
  intros Hinv Hstep.
  destruct Hstep as [s now' Hle Hg|s i k ikey hash pttl Hi Ht|s i r cont seen Hi Hp row
    |s i r cont seen Hi Hp expires reply|s i r cont seen e Hi Hp reply|s i r cont seen e Hi Hp
    |s i r p seen Hi Hp|s i r o seen Hi Hp|s i r g body status Hi Hp row db'|s i r g Hi Hp db'
    |s i r g Hi Hp|s].
  - by apply inv_tick.
  - by apply inv_arrive.
  - destruct (asking_well _ _ _ _ _ Hinv Hi Hp) as (Hc & Hw & Hs & Ht); [done|].
    eapply asking_put; try done; [apply keeps_refl|exact (Hw (Ok row))|].
    intros c [Hin|Hin]%elem_of_app Hpd; [by apply Hs|]. unfold row in Hin.
    destruct (idempotency_get _ _ _) as [x|] eqn:Hx; simpl in Hin; [|by apply elem_of_nil in Hin].
    apply list_elem_of_singleton in Hin as ->. by eapply get_recorded.
  - by apply inv_claim_step.
  - destruct (asking_well _ _ _ _ _ Hinv Hi Hp) as (Hc & (_ & _ & Hw) & Hs & Ht); [done|].
    eapply asking_put; try done; [apply claim_keeps|].
    intros k c Hk Hpd. by eapply claim_completed.
  - destruct Hp as [Hp|Hp];
      (destruct (asking_well _ _ _ _ _ Hinv Hi Hp) as (Hc & Hw & Hs & Ht); [done|]).
    + specialize (Hw (Err e)). simpl in Hw. rewrite app_nil_r in Hw.
      eapply asking_put; try done. apply keeps_refl.
    + destruct Hw as (_ & _ & Hw). eapply asking_put; try done. apply keeps_refl.
  - destruct (asking_well _ _ _ _ _ Hinv Hi Hp) as (Hc & Hw & Hs & Ht); [done|].
    eapply asking_put; try done. apply keeps_refl.
  - by eapply inv_return_step.
  - by eapply inv_record_step.
  - by eapply inv_release_step.
  - eapply inv_put_none; try done; [apply keeps_refl| |apply Hinv].
    destruct (proj1 Hinv _ _ Hi) as [Ht _]. by split.
  - by apply inv_purge.
Qed.

Lemma inv_reachable s : reachable step init s → inv s.
Proof.
  apply reachable_invariant.
  - intros s0 (Hdb & Hr & Hl). split_and!; rewrite ?Hr, ?Hdb; intros *; by rewrite lookup_empty.
  - intros s1 s2 _. apply inv_step.
Qed.


(** Nobody is served another request's response. A response replayed to a
    request was stored by a handler that ran for the same stored key and for the
    same request hash. *)
Theorem replay_was_recorded s i r body status :
  reachable step init s →
  st_reqs s !! i = Some r → rq_phase r = Replayed body status →
  ∃ expires, (rq_key r, IdemRow (rq_hash r) body status expires false) ∈ st_log s.
Proof.
  intros (Hok & _)%inv_reachable Hi Hp. destruct (Hok _ _ Hi) as [_ H]. rewrite Hp in H.
  destruct H as [_ ([h b st e pd] & Hr & Hh & Hpd & Hb & Hs)]. simpl in *. subst. by exists e.
Qed.

(** A completed row does not move while it is live. *)
Lemma completed_step s s' k c :
  step s s' → st_db s !! k = Some c → is_pending c = false → (st_now s' < expires_at c)%Z →
  (st_now s <= st_now s')%Z ∧ st_db s' !! k = Some c.
Proof.
  intros Hstep Hk Hpd Hl.
  assert (∀ k' hash e now, (now < expires_at c)%Z →
    (idempotency_claim k' hash e now (st_db s)).2 !! k = Some c) as Hclaim.
  { intros k' hash e now Hn. unfold idempotency_claim.
    destruct (decide (k' = k)) as [->|Hne]; [rewrite Hk|destruct (st_db s !! k') as [r'|]; simpl].
    - destruct (Z.leb_spec (expires_at c) now); [lia|done].
    - case_match; simpl; [by rewrite lookup_insert_ne|done].
    - by rewrite lookup_insert_ne. }
  destruct Hstep as [s now' Hle Hg|s i k' ikey hash pttl Hi Ht|s i r cont seen Hi Hp row
    |s i r cont seen Hi Hp expires reply|s i r cont seen e Hi Hp reply|s i r cont seen e Hi Hp
    |s i r p seen Hi Hp|s i r o seen Hi Hp|s i r g body status Hi Hp row db'|s i r g Hi Hp db'
    |s i r g Hi Hp|s]; simpl in *; (split; [lia|]); try done; try by apply Hclaim.
  - unfold db', idempotency_record. destruct (decide (rq_key r = k)) as [->|Hne].
    + rewrite Hk, Hpd, andb_false_r. by case_match.
    + destruct (st_db s !! rq_key r); [|simpl; by rewrite lookup_insert_ne].
      repeat case_match; simpl; try done. by rewrite lookup_insert_ne.
  - unfold db', idempotency_release. destruct (g_claimed g); [|done].
    destruct (decide (rq_key r = k)) as [->|Hne].
    + rewrite Hk, Hpd, andb_false_r. done.
    + destruct (st_db s !! rq_key r); [|done]. case_match; simpl; [by rewrite lookup_delete_ne|done].
  - apply map_lookup_filter_Some. by split.
Qed.

Lemma now_mono s s' : step s s' → (st_now s <= st_now s')%Z.
Proof. destruct 1; simpl; lia. Qed.

(** A recorded response is final until it expires. Once a completed response
    stands under a key, then through any steps of any requests (claims, records,
    releases, failures, purges), as long as its expiry has not passed, the same row
    stands: a lookup returns it, and a new claim of the key does not succeed, so no
    second handler starts. *)
Theorem recorded_response_is_final s s' k c hash expires :
  steps step s s' →
  st_db s !! k = Some c → is_pending c = false → (st_now s' < expires_at c)%Z →
  idempotency_get k (st_now s') (st_db s') = Some c ∧
  idempotency_claim k hash expires (st_now s') (st_db s') = (None, st_db s').
Proof.
  intros Hs Hk Hpd Hl.
  assert ((st_now s <= st_now s')%Z ∧ st_db s' !! k = Some c) as [_ Hk'].
  { induction Hs as [s|s s1 s2 Hstep Hs IH]; [by split; [lia|]|].
    assert (st_now s1 <= st_now s2)%Z as Hle.
    { clear -Hs. induction Hs as [|a b d Hab _ IH]; [lia|]. apply now_mono in Hab. lia. }
    destruct (completed_step _ _ _ _ Hstep Hk Hpd) as [Hle1 Hk1]; [lia|].
    destruct (IH Hk1 Hl) as [_ ?]. split; [lia|done]. }
  unfold idempotency_get, idempotency_claim, live. rewrite Hk'.
  destruct (Z.ltb_spec (st_now s') (expires_at c)); [|lia].
  destruct (Z.leb_spec (expires_at c) (st_now s')); [lia|done].
Qed.

(** An executable scheduler for the steps where storage answers. *)
Inductive action :=
| ATick (now' : Z)
| AArrive (i : nat) (k : string * string) (ikey : option string) (hash : string) (pttl : Z)
| ARun (i : nat)
| ARecord (i : nat) (body : pyval) (status : Z).

Definition act (a : action) (s : state) : option state :=
  match a with
  | ATick now' =>
      if (st_now s <=? now')%Z && forallb (λ ir : nat * req,
           match rq_claim ir.2 with Some d => (now' <? d)%Z | None => true end)
           (map_to_list (st_reqs s))
      then Some (State (st_db s) now' (st_reqs s) (st_log s)) else None
  | AArrive i k ikey hash pttl =>
      match st_reqs s !! i with
      | None => if (0 <? pttl)%Z && (pttl <=? ttl)%Z
                then Some (put s i (Req k hash pttl None (Asking (idempotency_for_hash ikey hash) []))
                             (st_db s))
                else None
      | Some _ => None
      end
  | ARun i =>
      r ← st_reqs s !! i;
      match rq_phase r with
      | Asking (Get cont) seen =>
          let row := idempotency_get (rq_key r) (st_now s) (st_db s) in
          Some (put s i (set_phase r None (Asking (cont (Ok row)) (seen ++ option_list row)%list)) (st_db s))
      | Asking (Claim cont) seen =>
          let expires := (st_now s + rq_pttl r)%Z in
          let reply := idempotency_claim (rq_key r) (rq_hash r) expires (st_now s) (st_db s) in
          Some (put s i (set_phase r (match reply.1 with Some _ => Some expires | None => None end)
                           (Asking (cont (Ok reply.1)) seen)) reply.2)
      | Asking (Sleep p) seen => Some (put s i (set_phase r None (Asking p seen)) (st_db s))
      | Asking (Ret o) seen => Some (put s i (set_phase r (rq_claim r) (enter o)) (st_db s))
      | _ => None
      end
  | ARecord i body status =>
      r ← st_reqs s !! i;
      match rq_phase r with
      | Working g =>
          let row := IdemRow (rq_hash r) body status (st_now s + ttl) false in
          let db' := (idempotency_record (rq_key r) (rq_hash r) body status (st_now s + ttl) (st_db s)).2 in
          Some (State db' (st_now s) (<[i := set_phase r None Finished]> (st_reqs s))
                  (if bool_decide (db' !! rq_key r = Some row)
                   then (rq_key r, row) :: st_log s else st_log s))
      | _ => None
      end
  end.

Lemma act_step a s s' : act a s = Some s' → step s s'.
Proof.
  destruct a as [now'|i k ikey hash pttl|i|i body status]; simpl.
  - destruct (Z.leb_spec (st_now s) now'); [|done]. simpl.
    destruct (forallb _ _) eqn:Hf; [|done]. intros [= <-]. apply step_tick; [done|].
    intros i r d Hi Hd. rewrite forallb_forall in Hf. specialize (Hf (i, r)).
    rewrite <-list_elem_of_In, elem_of_map_to_list in Hf. specialize (Hf Hi). simpl in Hf.
    rewrite Hd in Hf. by apply Z.ltb_lt.
  - destruct (st_reqs s !! i) eqn:Hi; [done|].
    destruct (Z.ltb_spec 0 pttl), (Z.leb_spec pttl ttl); simpl; try done. intros [= <-].
    by apply step_arrive.
  - destruct (st_reqs s !! i) as [r|] eqn:Hi; [|done]. simpl.
    destruct (rq_phase r) as [[o|cont|cont|p] seen| | | |] eqn:Hp; try done; intros [= <-].
    + by eapply step_return.
    + by eapply step_get.
    + by eapply step_claim.
    + by eapply step_wake.
  - destruct (st_reqs s !! i) as [r|] eqn:Hi; [|done]. simpl.
    destruct (rq_phase r) as [|g| | |] eqn:Hp; try done. intros [= <-]. by eapply step_record.
Qed.

Fixpoint run (l : list action) (s : state) : option state :=
  match l with [] => Some s | a :: l => s' ← act a s; run l s' end.

Lemma run_steps l s s' : run l s = Some s' → steps step s s'.
Proof.
  revert s. induction l as [|a l IH]; intros s; simpl; [intros [= <-]; constructor|].
  destruct (act a s) as [s1|] eqn:Ha; [|done]. simpl. intros H. apply (steps_cons step s s1); [by apply (act_step a)|by apply IH].
Qed.

Lemma steps_reachable s s' : reachable step init s → steps step s s' → reachable step init s'.
Proof. intros Hr Hs. induction Hs; eauto using reach_step. Qed.

Lemma run_reachable l s s' : init s → run l s = Some s' → reachable step init s'.
Proof. intros Hi Hr. eapply steps_reachable; [by apply reach_init|by eapply run_steps]. Qed.
End System.

(** ** Witnesses *)

Definition key0 : string * string := ("acme", stored_key "header" (Some "agent-1") "k1").
Definition s0 : state := State ∅ 0 ∅ [].
Definition body0 : pyval := PDict [("id", PInt 7)].
Definition req0 (claim : option Z) (p : phase) : req := Req key0 "h" 90 claim p.
Definition done0 : idem_row := IdemRow "h" body0 201 86405 false.

(** Request 0 claims the key and works; request 1, the same call, polls. *)
Definition start : list action :=
  [AArrive 0 key0 (Some "k1") "h" 90; ARun 0; ARun 0; ATick 5; ARun 0;
   AArrive 1 key0 (Some "k1") "h" 90].
(** Request 0 records; request 1 replays. *)
Definition finish : list action := [ARecord 0 body0 201; ATick 100; ARun 1; ARun 1].

Lemma s0_init : init s0.
Proof. by repeat split. Qed.

(** The state after a list of actions. *)
Definition after (l : list action) : state := default s0 (run 86400 l s0).

Lemma after_reachable l : run 86400 l s0 = Some (after l) → reachable (step 86400) init (after l).
Proof. apply run_reachable, s0_init. Qed.
End System.


Lemma replay_was_recorded_witness :
  let s := System.after (System.start ++ System.finish) in
  System.st_reqs s !! 1%nat = Some (System.req0 None (System.Replayed System.body0 201)) ∧
  ∃ expires, (System.key0, IdemRow "h" System.body0 201 expires false) ∈ System.st_log s.
Proof.
  intros s.
  assert (System.run 86400 (System.start ++ System.finish) System.s0 = Some s) as Hs by reflexivity.
  assert (System.st_reqs s !! 1%nat = Some (System.req0 None (System.Replayed System.body0 201))) as H1
    by reflexivity.
  split; [exact H1|].
  exact (System.replay_was_recorded 86400 s 1 _ _ _ (System.after_reachable _ Hs) H1 eq_refl).
Defined.

Lemma recorded_response_is_final_witness :
  let s := System.after (System.start ++ take 1 System.finish) in
  let s' := System.after (System.start ++ System.finish) in
  System.st_db s !! System.key0 = Some System.done0 ∧
  idempotency_get System.key0 (System.st_now s') (System.st_db s') = Some System.done0 ∧
  idempotency_claim System.key0 "other" 190 (System.st_now s') (System.st_db s')
    = (None, System.st_db s').
Proof.
  intros s s'.
  assert (System.st_db s !! System.key0 = Some System.done0) as Hk by reflexivity.
  split; [exact Hk|].
  assert (System.run 86400 (drop 1 System.finish) s = Some s') as Hrun by reflexivity.
  exact (System.recorded_response_is_final 86400 s s' System.key0 System.done0 "other" 190
    (System.run_steps _ _ _ _ Hrun) Hk eq_refl eq_refl).
Defined.

(** ** A divergence

    [idempotency_record] is documented to match no row when the claim expired and
    a fresh request reclaimed the slot. A retry carries the same request hash, and
    then it does match: the late record completes the fresh claim. *)
Example late_record_completes_reclaim k hash body expires pending db :
  let fresh := IdemRow hash (PDict []) 0 pending true in
  db !! k = Some fresh →
  (idempotency_record k hash body 201 expires db).2 !! k = Some (IdemRow hash body 201 expires false).
Proof.
  intros fresh Hk. unfold idempotency_record. rewrite Hk. simpl.
  rewrite bool_decide_true by done. simpl. by rewrite lookup_insert_eq.
Qed.
