(* ===== verification/Usage.v ===== *)
(** * Usage metering: totals that are counted once

    [common/usage/aggregator.py] (the in-memory per-minute totals and their flush),
    [flush_usage] of the storage clients (one post per tenant) and
    [PostgresService.usage_flush] (the batch id claimed once, additive upserts).

    Iteration order of a dict only orders the rows of a batch, so the totals are
    finite maps. *)

From S2P Require Import PyStr PyVal.

#[local] Open Scope string_scope.
#[local] Open Scope Z_scope.

Definition MAX_PENDING_BATCHES : nat := 20.
Definition UNATTRIBUTED : string := "_unattributed".

(** ** Keys, counts and rows *)

(** (minute, agent, fleet, operation, kind, provider, model) of one tenant, and
    (minute, agent, fleet, operation, metric). *)
Abbreviation llm_dims := (string * string * string * string * string * string * string)%type.
Abbreviation value_dims := (string * string * string * string * string)%type.
Definition llm_key : Type := string * llm_dims.      (* tenant first *)
Definition value_key : Type := string * value_dims.

#[global] Instance llm_key_eq : EqDecision llm_key := _.
#[global] Instance llm_key_countable : Countable llm_key := _.
#[global] Instance value_key_eq : EqDecision value_key := _.
#[global] Instance value_key_countable : Countable value_key := _.

Record counts := Counts {
  calls : Z; failures : Z; tokens_in : Z; tokens_out : Z; tokens_reasoning : Z;
}.

Definition no_counts : counts := Counts 0 0 0 0 0.
Definition add_counts (a b : counts) : counts :=
  Counts (calls a + calls b) (failures a + failures b) (tokens_in a + tokens_in b)
         (tokens_out a + tokens_out b) (tokens_reasoning a + tokens_reasoning b).

(** One call of a provider, and one saving, as the sink receives them. *)
Record model_call := ModelCall {
  mc_tenant : option string; mc_agent : option string; mc_fleet : option string;
  mc_operation : string; mc_kind : string; mc_provider : string; mc_model : string;
  mc_tokens_in : Z; mc_tokens_out : Z; mc_tokens_reasoning : Z; mc_ok : bool;
}.
Record value_record := ValueRecord {
  vr_tenant : option string; vr_agent : option string; vr_fleet : option string;
  vr_operation : option string; vr_metric : string; vr_quantity : Z;
}.

Record batch := Batch {
  b_id : string;
  b_llm : list (llm_key * counts);
  b_value : list (value_key * Z);
}.
Definition batch_len (b : batch) : Z := Z.of_nat (length (b_llm b) + length (b_value b)).

(** One tenant's part of a batch; its rows have lost their tenant. *)
Record part := Part {
  p_id : string;
  p_llm : list (llm_dims * counts);
  p_value : list (value_dims * Z);
}.

(** ** The aggregator *)

Record aggregator := Aggregator {
  ag_llm : gmap llm_key counts;
  ag_value : gmap value_key Z;
  ag_pending : list batch;
  ag_dropped_rows : Z;
}.

(** [s.tenant_id or default] *)
Definition str_or (o : option string) (d : string) : string :=
  match o with Some "" | None => d | Some s => s end.

Definition llm_key_of (minute : string) (c : model_call) : llm_key :=
  (str_or (mc_tenant c) UNATTRIBUTED,
   (minute, str_or (mc_agent c) "", str_or (mc_fleet c) "", mc_operation c, mc_kind c,
    mc_provider c, mc_model c)).

Definition call_counts (c : model_call) : counts :=
  if mc_ok c then Counts 1 0 (mc_tokens_in c) (mc_tokens_out c) (mc_tokens_reasoning c)
  else Counts 0 1 0 0 0.

Definition add_model_call (minute : string) (c : model_call) (ag : aggregator) : aggregator :=
  let key := llm_key_of minute c in
  Aggregator (<[key := add_counts (default no_counts (ag_llm ag !! key)) (call_counts c)]> (ag_llm ag))
    (ag_value ag) (ag_pending ag) (ag_dropped_rows ag).

Definition value_key_of (minute : string) (r : value_record) (tenant : string) : value_key :=
  (tenant, (minute, str_or (vr_agent r) "", str_or (vr_fleet r) "", str_or (vr_operation r) "",
            vr_metric r)).

Definition add_value (minute : string) (r : value_record) (ag : aggregator) : aggregator :=
  match str_or (vr_tenant r) "" with
  | "" => ag
  | tenant =>
      let key := value_key_of minute r tenant in
      Aggregator (ag_llm ag) (<[key := default 0 (ag_value ag !! key) + vr_quantity r]> (ag_value ag))
        (ag_pending ag) (ag_dropped_rows ag)
  end.

(** [_drain]: the totals leave under one lock. *)
Definition drain (batch_id : string) (ag : aggregator) : option batch * aggregator :=
  let ag' := Aggregator ∅ ∅ (ag_pending ag) (ag_dropped_rows ag) in
  if bool_decide (ag_llm ag = ∅) && bool_decide (ag_value ag = ∅) then (None, ag')
  else (Some (Batch batch_id (map_to_list (ag_llm ag)) (map_to_list (ag_value ag))), ag').

(** [_filter]: [allowed] is what [allow_tenants] answered, [None] when there is no
    such callback or it raised. *)
Definition filter_batch (allowed : option (gset string)) (b : batch) : batch :=
  match allowed with
  | None => b
  | Some a =>
      let a := a ∪ {[UNATTRIBUTED]} in
      Batch (b_id b) (filter (λ r, r.1.1 ∈ a) (b_llm b)) (filter (λ r, r.1.1 ∈ a) (b_value b))
  end.

(** Make room: the oldest batches go, their rows counted as dropped. *)
Fixpoint trim (pending : list batch) (dropped : Z) : list batch * Z :=
  match pending with
  | b :: rest =>
      if (MAX_PENDING_BATCHES <? length pending)%nat then trim rest (dropped + batch_len b)
      else (pending, dropped)
  | [] => ([], dropped)
  end.

(** The first half of [flush], before anything is sent. *)
Definition enqueue (batch_id : string) (allowed : option (gset string)) (ag : aggregator) : aggregator :=
  let '(drained, ag) := drain batch_id ag in
  let pending :=
    match drained with
    | Some b => let b := filter_batch allowed b in
                if (batch_len b =? 0) then ag_pending ag else (ag_pending ag ++ [b])%list
    | None => ag_pending ag
    end in
  let '(pending, dropped) := trim pending (ag_dropped_rows ag) in
  Aggregator (ag_llm ag) (ag_value ag) pending dropped.

(** ** One post per tenant *)

(** [uuid.uuid5(root, name)] is a hash of both; ids of different (root, name)
    pairs are taken to differ. *)
Class Uuid5 := {
  uuid5 : string → string → string;
  uuid5_inj : ∀ a b t u, uuid5 a t = uuid5 b u → a = b ∧ t = u;
}.

(** ** The storage tables *)

Record store := Store {
  s_claimed : gset string;             (* usage_flush_batches *)
  s_llm : gmap llm_key counts;         (* llm_usage_minutes *)
  s_value : gmap value_key Z;          (* value_usage_minutes *)
}.

Definition upsert_llm (tenant : string) (m : gmap llm_key counts) (r : llm_dims * counts) :=
  let k : llm_key := (tenant, r.1) in
  <[k := add_counts (default no_counts (m !! k)) r.2]> m.
Definition upsert_value (tenant : string) (m : gmap value_key Z) (r : value_dims * Z) :=
  let k : value_key := (tenant, r.1) in
  <[k := default 0 (m !! k) + r.2]> m.

(** [usage_flush]: the id is claimed first; [off] is the tenant's
    [usage_metering_enabled: false]. *)
Definition usage_flush (off : bool) (tenant : string) (p : part) (st : store) : bool * store :=
  let '(llm, value) := if off then ([], []) else (p_llm p, p_value p) in
  if bool_decide (p_id p ∈ s_claimed st) then (false, st)
  else (true, Store ({[p_id p]} ∪ s_claimed st)
                (foldl (upsert_llm tenant) (s_llm st) llm)
                (foldl (upsert_value tenant) (s_value st) value)).

Section Posting.
Context {U : Uuid5}.

(** [per_tenant]: one part per tenant in the batch, by tenant name. *)
Definition part_of (b : batch) (t : string) : part :=
  Part (uuid5 (b_id b) t)
    ((λ r, (r.1.2, r.2)) <$> filter (λ r : llm_key * counts, r.1.1 = t) (b_llm b))
    ((λ r, (r.1.2, r.2)) <$> filter (λ r : value_key * Z, r.1.1 = t) (b_value b)).
Definition tenants_of (b : batch) : list string :=
  remove_dups (((λ r, r.1.1) <$> b_llm b) ++ ((λ r, r.1.1) <$> b_value b)).
Definition per_tenant (b : batch) : list (string * part) :=
  (λ t, (t, part_of b t)) <$> py_sorted str_leb (tenants_of b).

(** What the network does to the post of a part: how many times storage handles
    it (retries resend it as it is), and whether an answer reaches the client. *)
Record fate := Fate { landed : nat; acked : bool }.

(** [flush_usage]: the parts in order, up to the first post that raises. *)
Fixpoint post_parts (off : string → bool) (net : string → fate) (parts : list (string * part))
    (st : store) : bool * store :=
  match parts with
  | [] => (true, st)
  | (t, p) :: parts =>
      let st := Nat.iter (landed (net t)) (λ st, (usage_flush (off t) t p st).2) st in
      if acked (net t) then post_parts off net parts st else (false, st)
  end.

(** One turn of the sending loop of [flush]: the head of the queue leaves only
    once its post returned. *)
Definition send_head (off : string → bool) (net : string → fate) (ag : aggregator) (st : store)
    : option (aggregator * store) :=
  match ag_pending ag with
  | [] => None
  | b :: rest =>
      let '(ok, st) := post_parts off net (per_tenant b) st in
      Some (Aggregator (ag_llm ag) (ag_value ag) (if ok then rest else ag_pending ag)
              (ag_dropped_rows ag), st)
  end.
End Posting.

(** ** Cells: one counter of one minute of one tenant *)

Inductive field := FCalls | FFailures | FTokensIn | FTokensOut | FTokensReasoning.
Definition field_of (f : field) (c : counts) : Z :=
  match f with
  | FCalls => calls c | FFailures => failures c | FTokensIn => tokens_in c
  | FTokensOut => tokens_out c | FTokensReasoning => tokens_reasoning c
  end.

Inductive cell :=
| LlmCell (k : llm_key) (f : field)
| ValueCell (k : value_key).

Definition cell_tenant (c : cell) : string :=
  match c with LlmCell k _ => k.1 | ValueCell k => k.1 end.

(** The sum of what the rows of a list say about a key. *)
Definition msum {K V} `{EqDecision K} (k : K) (g : V → Z) (l : list (K * V)) : Z :=
  foldr (λ r acc, (if bool_decide (r.1 = k) then g r.2 else 0) + acc) 0 l.

Lemma msum_cons {K V} `{EqDecision K} (k : K) (g : V → Z) r l :
  msum k g (r :: l) = (if bool_decide (r.1 = k) then g r.2 else 0) + msum k g l.
Proof. reflexivity. Qed.

Definition get_or {K} `{Countable K} {V} (k : K) (g : V → Z) (m : gmap K V) : Z :=
  match m !! k with Some v => g v | None => 0 end.

Definition mem_cell (c : cell) (ag : aggregator) : Z :=
  match c with
  | LlmCell k f => get_or k (field_of f) (ag_llm ag)
  | ValueCell k => get_or k id (ag_value ag)
  end.
Definition store_cell (c : cell) (st : store) : Z :=
  match c with
  | LlmCell k f => get_or k (field_of f) (s_llm st)
  | ValueCell k => get_or k id (s_value st)
  end.
Definition batch_cell (c : cell) (b : batch) : Z :=
  match c with
  | LlmCell k f => msum k (field_of f) (b_llm b)
  | ValueCell k => msum k id (b_value b)
  end.
Definition part_cell (c : cell) (p : part) : Z :=
  match c with
  | LlmCell k f => msum k.2 (field_of f) (p_llm p)
  | ValueCell k => msum k.2 id (p_value p)
  end.
(** What one call, one saving, adds. *)
Definition call_cell (c : cell) (minute : string) (call : model_call) : Z :=
  match c with
  | LlmCell k f => if bool_decide (llm_key_of minute call = k) then field_of f (call_counts call) else 0
  | ValueCell _ => 0
  end.
Definition value_cell (c : cell) (minute : string) (r : value_record) : Z :=
  match c, str_or (vr_tenant r) "" with
  | LlmCell _ _, _ | _, "" => 0
  | ValueCell k, t => if bool_decide (value_key_of minute r t = k) then vr_quantity r else 0
  end.

Section Sums.
Context {K V : Type} `{Countable K} (g : V → Z).
Implicit Types (l : list (K * V)) (m : gmap K V).

Lemma msum_app k l1 l2 : msum k g (l1 ++ l2)%list = msum k g l1 + msum k g l2.
Proof. induction l1 as [|r l1 IH]; simpl; [done|]. rewrite IH. lia. Qed.

Lemma msum_absent k l : k ∉ l.*1 → msum k g l = 0.
Proof.
  induction l as [|r l IH]; simpl; [done|]. rewrite not_elem_of_cons. intros [Hr Hl].
  rewrite bool_decide_false by congruence. rewrite IH by done. done.
Qed.

Lemma msum_map m k : msum k g (map_to_list m) = get_or k g m.
Proof.
  unfold get_or. destruct (m !! k) as [v|] eqn:Hk.
  - apply elem_of_map_to_list in Hk. pose proof (NoDup_fst_map_to_list m) as Hnd.
    revert Hk Hnd. generalize (map_to_list m). induction l as [|r l IH]; simpl.
    { by intros ?%elem_of_nil. }
    intros [<-|Hin]%elem_of_cons [Hno Hnd]%NoDup_cons; simpl.
    + rewrite bool_decide_true by done. rewrite msum_absent by done. lia.
    + rewrite bool_decide_false; [by rewrite IH|]. intros Hr. apply Hno. subst.
      apply list_elem_of_fmap. eexists. by split; [|exact Hin].
  - apply msum_absent. intros (r & -> & Hr)%list_elem_of_fmap. destruct r as [k v].
    apply elem_of_map_to_list in Hr. simpl in Hk. congruence.
Qed.

Lemma msum_filter (P : K * V → Prop) `{∀ r, Decision (P r)} k l :
  (∀ r, r.1 = k → P r) → msum k g (filter P l) = msum k g l.
Proof.
  intros HP. induction l as [|r l IH]; [done|]. rewrite filter_cons. case_decide as Hr; simpl.
  - by rewrite IH.
  - rewrite IH, bool_decide_false; [done|]. auto.
Qed.
End Sums.

(** The rows of a tenant, without their tenant. *)
Lemma msum_part {D V} `{EqDecision D} (g : V → Z) t (d : D) (l : list (string * D * V)) :
  msum d g ((λ r, (r.1.2, r.2)) <$> filter (λ r : string * D * V, r.1.1 = t) l) = msum (t, d) g l.
Proof.
  induction l as [|[[t' d'] v] l IH]; [done|]. rewrite filter_cons, (msum_cons (t, d)).
  case_decide as Ht; cbn [fst snd] in *.
  - rewrite fmap_cons, msum_cons, IH. cbn [fst snd]. subst. destruct (decide (d' = d)) as [->|Hd].
    + by rewrite !bool_decide_true.
    + rewrite !bool_decide_false; congruence.
  - rewrite IH, bool_decide_false; [done|]. congruence.
Qed.

Lemma field_add f a b : field_of f (add_counts a b) = field_of f a + field_of f b.
Proof. by destruct f. Qed.

Lemma get_or_insert {K V} `{Countable K} (k k' : K) (g : V → Z) v (m : gmap K V) :
  get_or k g (<[k' := v]> m) = if bool_decide (k' = k) then g v else get_or k g m.
Proof.
  unfold get_or. case_bool_decide as Hk; [subst; by rewrite lookup_insert_eq|].
  by rewrite lookup_insert_ne.
Qed.

Lemma get_or_default {K} `{Countable K} (k : K) f (m : gmap K counts) :
  field_of f (default no_counts (m !! k)) = get_or k (field_of f) m.
Proof. unfold get_or. destruct (m !! k); [done|]. by destruct f. Qed.

Lemma get_or_default_Z {K} `{Countable K} (k : K) (m : gmap K Z) : default 0 (m !! k) = get_or k id m.
Proof. unfold get_or. by destruct (m !! k). Qed.

(** ** Effects on a cell *)

Lemma add_model_call_cell c minute call ag :
  mem_cell c (add_model_call minute call ag) = mem_cell c ag + call_cell c minute call.
Proof.
  destruct c as [k f|k]; simpl; [|lia]. rewrite get_or_insert. case_bool_decide; [|lia].
  subst. rewrite field_add, get_or_default. lia.
Qed.

Lemma add_value_cell c minute r ag :
  mem_cell c (add_value minute r ag) = mem_cell c ag + value_cell c minute r.
Proof.
  unfold add_value, value_cell. destruct (str_or (vr_tenant r) "") as [|x t] eqn:Ht.
  { destruct c; lia. }
  destruct c as [k f|k]; simpl; [lia|]. rewrite get_or_insert. case_bool_decide; [|lia].
  subst. rewrite get_or_default_Z. unfold id. lia.
Qed.

Lemma foldl_llm_cell tenant k f rows m :
  get_or k (field_of f) (foldl (upsert_llm tenant) m rows) =
    get_or k (field_of f) m + (if bool_decide (k.1 = tenant) then msum k.2 (field_of f) rows else 0).
Proof.
  revert m. induction rows as [|[d v] rows IH]; intros m; simpl; [case_bool_decide; lia|].
  rewrite IH. unfold upsert_llm. rewrite get_or_insert. simpl.
  destruct k as [t d0]; simpl. repeat case_bool_decide; simplify_eq; try lia; try congruence.
  rewrite field_add, get_or_default. lia.
Qed.

Lemma foldl_value_cell tenant k rows m :
  get_or k id (foldl (upsert_value tenant) m rows) =
    get_or k id m + (if bool_decide (k.1 = tenant) then msum k.2 id rows else 0).
Proof.
  revert m. induction rows as [|[d v] rows IH]; intros m; simpl; [case_bool_decide; lia|].
  rewrite IH. unfold upsert_value. rewrite get_or_insert. simpl.
  destruct k as [t d0]; simpl. repeat case_bool_decide; simplify_eq; try lia; try congruence.
  rewrite get_or_default_Z. unfold id. lia.
Qed.

(** A flush writes only under its tenant, and only when its id is new. *)
Lemma usage_flush_cell c off tenant p st :
  store_cell c (usage_flush off tenant p st).2 =
    store_cell c st +
    (if bool_decide (p_id p ∈ s_claimed st) || off || negb (bool_decide (cell_tenant c = tenant))
     then 0 else part_cell c p).
Proof.
  unfold usage_flush. destruct off; destruct (bool_decide (p_id p ∈ s_claimed st)); simpl;
    destruct c as [k f|k]; simpl; rewrite ?foldl_llm_cell, ?foldl_value_cell; simpl;
    try lia; case_bool_decide; simpl; lia.
Qed.

Lemma usage_flush_claimed off tenant p st :
  s_claimed (usage_flush off tenant p st).2 = {[p_id p]} ∪ s_claimed st.
Proof.
  unfold usage_flush. destruct off; case_bool_decide; simpl; set_solver.
Qed.

Lemma usage_flush_twice off tenant p st :
  (usage_flush off tenant p (usage_flush off tenant p st).2).2 = (usage_flush off tenant p st).2.
Proof.
  set (st' := (usage_flush off tenant p st).2).
  assert (p_id p ∈ s_claimed st') as Hc by (unfold st'; rewrite usage_flush_claimed; set_solver).
  unfold usage_flush. destruct off; by rewrite bool_decide_true.
Qed.

Lemma usage_flush_iter n off tenant p st :
  Nat.iter n (λ st, (usage_flush off tenant p st).2) st =
    match n with O => st | S _ => (usage_flush off tenant p st).2 end.
Proof.
  induction n as [|n IH]; [done|]. simpl. rewrite IH. destruct n; [done|]. apply usage_flush_twice.
Qed.

(** ** Posting a batch *)

Section Post.
Context {U : Uuid5}.

Lemma part_of_cell c b : part_cell c (part_of b (cell_tenant c)) = batch_cell c b.
Proof.
  destruct c as [[t d] f|[t d]]; simpl; [exact (msum_part (field_of f) t d (b_llm b))|].
  exact (msum_part id t d (b_value b)).
Qed.

Lemma elem_tenants_of b t :
  t ∈ tenants_of b ↔ t ∈ (λ r, r.1.1) <$> b_llm b ∨ t ∈ (λ r, r.1.1) <$> b_value b.
Proof. unfold tenants_of. by rewrite elem_of_remove_dups, elem_of_app. Qed.

Lemma msum_no_tenant {D V} `{EqDecision D} (g : V → Z) (k : string * D) (l : list (string * D * V)) :
  k.1 ∉ (λ r : string * D * V, r.1.1) <$> l → msum k g l = 0.
Proof.
  intros Hk. apply msum_absent. intros (r & -> & Hr)%list_elem_of_fmap. apply Hk.
  apply list_elem_of_fmap. by exists r.
Qed.

Lemma batch_cell_absent c b : cell_tenant c ∉ tenants_of b → batch_cell c b = 0.
Proof.
  rewrite elem_tenants_of. intros Hno.
  destruct c as [k f|k]; simpl in *; apply msum_no_tenant; tauto.
Qed.

Lemma per_tenant_NoDup b : NoDup ((per_tenant b).*1).
Proof.
  unfold per_tenant. rewrite <-list_fmap_compose.
  assert ((fst ∘ λ t, (t, part_of b t)) <$> py_sorted str_leb (tenants_of b)
    = py_sorted str_leb (tenants_of b)) as ->.
  { rewrite <-(list_fmap_id (py_sorted str_leb (tenants_of b))) at 2. done. }
  rewrite py_sorted_perm. apply NoDup_remove_dups.
Qed.

(** What posting the parts of a batch does, whatever the network does: either this
    tenant's id was claimed before and its cell stays, or the cell gets the part
    exactly when the id gets claimed. *)
Lemma post_parts_cell off net c b ts st :
  off (cell_tenant c) = false → NoDup ts →
  let id0 := uuid5 (b_id b) (cell_tenant c) in
  let r := post_parts off net ((λ t, (t, part_of b t)) <$> ts) st in
  store_cell c r.2 = store_cell c st +
    (if bool_decide (id0 ∈ s_claimed st) then 0
     else if bool_decide (id0 ∈ s_claimed r.2) then batch_cell c b else 0) ∧
  (∀ x, x ∈ s_claimed st → x ∈ s_claimed r.2) ∧
  (∀ x, x ∈ s_claimed r.2 → x ∈ s_claimed st ∨ ∃ t, t ∈ ts ∧ x = uuid5 (b_id b) t) ∧
  ((∀ t, acked (net t) = true → landed (net t) ≠ 0%nat) →
   r.1 = true → cell_tenant c ∈ ts → id0 ∈ s_claimed r.2).
Proof.
  intros Hoff Hnd id0. revert st. induction Hnd as [|t ts Ht Hnd IH]; intros st r.
  { unfold r. simpl. split_and!; [|done|by left|].
    - repeat case_bool_decide; try done; lia.
    - intros _ _ Hin. by apply elem_of_nil in Hin. }
  unfold r. rewrite fmap_cons. cbn [post_parts]. rewrite usage_flush_iter.
  set (st1 := match landed (net t) with O => st | S _ => _ end).
  assert (store_cell c st1 = store_cell c st + (if bool_decide (id0 ∈ s_claimed st) then 0
     else if bool_decide (id0 ∈ s_claimed st1) then batch_cell c b else 0) ∧
    (∀ x, x ∈ s_claimed st → x ∈ s_claimed st1) ∧
    (∀ x, x ∈ s_claimed st1 → x ∈ s_claimed st ∨ x = uuid5 (b_id b) t) ∧
    (landed (net t) ≠ 0%nat → uuid5 (b_id b) t ∈ s_claimed st1)) as (Hc1 & Hm1 & Hn1 & Hl1).
  { unfold st1. destruct (landed (net t)) as [|n].
    { split_and!; [|done|by left|done]. repeat case_bool_decide; try done; lia. }
    rewrite usage_flush_cell, usage_flush_claimed. simpl. split_and!; [|set_solver..].
    destruct (decide (cell_tenant c = t)) as [<-|Hne].
    - rewrite Hoff, (bool_decide_true (cell_tenant c = cell_tenant c)), part_of_cell by done.
      fold id0. rewrite (bool_decide_true (id0 ∈ {[id0]} ∪ _)) by set_solver.
      by case_bool_decide.
    - rewrite (bool_decide_false (cell_tenant c = t)) by done. rewrite orb_true_r.
      assert (id0 ≠ uuid5 (b_id b) t) as Hid by (intros [_ ?]%uuid5_inj; congruence).
      case_bool_decide; [lia|]. rewrite bool_decide_false by set_solver. lia. }
  clearbody st1. destruct (acked (net t)) eqn:Hack.
  - destruct (IH st1) as (Hc & Hm & Hn & Hl). split_and!.
    + rewrite Hc, Hc1. destruct (decide (id0 ∈ s_claimed st)) as [Hin|Hin].
      * rewrite !(bool_decide_true (id0 ∈ s_claimed st)), (bool_decide_true (id0 ∈ s_claimed st1))
          by auto. lia.
      * rewrite (bool_decide_false (id0 ∈ s_claimed st)) by done.
        destruct (decide (id0 ∈ s_claimed st1)) as [Hin1|Hin1].
        -- rewrite (bool_decide_true (id0 ∈ s_claimed st1)) by done.
           rewrite bool_decide_true by auto. lia.
        -- rewrite (bool_decide_false (id0 ∈ s_claimed st1)) by done. lia.
    + auto.
    + intros x [Hx|(t' & Ht' & ->)]%Hn; [apply Hn1 in Hx as [?| ->]; [by left|]|];
        right; eexists; (split; [|reflexivity]); [by left|by right].
    + intros Hfair Hok [Heq|Hin]%elem_of_cons; [|by apply Hl].
      subst t. apply Hm, Hl1. by apply Hfair.
  - simpl. split_and!; [done|done| |done]. intros x [?| ->]%Hn1; [by left|].
    right. exists t. split; [by left|done].
Qed.
End Post.

(** ** The ledger *)

Section Ledger.
Context {U : Uuid5}.
(** Tenants with metering off, and one cell of a tenant with metering on. *)
Context (off : string → bool) (c : cell) (Hon : off (cell_tenant c) = false).

(** The process, storage, the batch ids drawn so far, and two totals kept on the
    side: what was ever recorded in the cell, and what left the queue unsent. *)
Record world := World {
  w_ag : aggregator;
  w_st : store;
  w_used : gset string;
  w_recorded : Z;
  w_lost : Z;
}.

Definition unsent (st : store) (b : batch) : Z :=
  if bool_decide (uuid5 (b_id b) (cell_tenant c) ∈ s_claimed st) then 0 else batch_cell c b.
Definition waiting (st : store) (bs : list batch) : Z := foldr (λ b acc, unsent st b + acc) 0 bs.

(** The queue a flush finds, and the batches [trim] drops from it. *)
Definition queued (id : string) (allowed : option (gset string)) (ag : aggregator) : list batch :=
  match (drain id ag).1 with
  | Some b => let b := filter_batch allowed b in
              if batch_len b =? 0 then ag_pending ag else (ag_pending ag ++ [b])%list
  | None => ag_pending ag
  end.
Definition overflow (bs : list batch) : list batch := take (length bs - MAX_PENDING_BATCHES) bs.

Inductive step : world → world → Prop :=
| step_call minute call w :
    step w (World (add_model_call minute call (w_ag w)) (w_st w) (w_used w)
              (w_recorded w + call_cell c minute call) (w_lost w))
| step_value minute r w :
    step w (World (add_value minute r (w_ag w)) (w_st w) (w_used w)
              (w_recorded w + value_cell c minute r) (w_lost w))
(* a flush drains under a fresh id; [allow_tenants] lets this cell's tenant meter *)
| step_enqueue id allowed w :
    id ∉ w_used w → (∀ t, uuid5 id t ∉ s_claimed (w_st w)) →
    (∀ a, allowed = Some a → cell_tenant c ∈ a ∪ {[UNATTRIBUTED]}) →
    step w (World (enqueue id allowed (w_ag w)) (w_st w) ({[id]} ∪ w_used w) (w_recorded w)
              (w_lost w + waiting (w_st w) (overflow (queued id allowed (w_ag w)))))
(* one turn of the sending loop; a cancelled post is one that was not acked *)
| step_send net w ag st :
    (∀ t, acked (net t) = true → landed (net t) ≠ 0%nat) →
    send_head off net (w_ag w) (w_st w) = Some (ag, st) →
    step w (World ag st (w_used w) (w_recorded w) (w_lost w))
(* another instance's flush, under an id of its own *)
| step_other tenant p w :
    (∀ i t, i ∈ w_used w → p_id p ≠ uuid5 i t) →
    let st := (usage_flush (off tenant) tenant p (w_st w)).2 in
    step w (World (w_ag w) st (w_used w)
              (w_recorded w + (store_cell c st - store_cell c (w_st w))) (w_lost w)).

Definition init (w : world) : Prop :=
  w_ag w = Aggregator ∅ ∅ [] 0 ∧ w_used w = ∅ ∧
  w_recorded w = store_cell c (w_st w) ∧ w_lost w = 0.

Definition inv (w : world) : Prop :=
  store_cell c (w_st w) + waiting (w_st w) (ag_pending (w_ag w)) + mem_cell c (w_ag w) + w_lost w
    = w_recorded w ∧
  NoDup (b_id <$> ag_pending (w_ag w)) ∧
  (∀ b, b ∈ ag_pending (w_ag w) → b_id b ∈ w_used w) ∧
  (length (ag_pending (w_ag w)) ≤ MAX_PENDING_BATCHES)%nat.

Lemma waiting_app st a b : waiting st (a ++ b)%list = waiting st a + waiting st b.
Proof. induction a as [|x a IH]; simpl; [done|]. rewrite IH. lia. Qed.

Lemma trim_spec bs d :
  (trim bs d).1 = drop (length bs - MAX_PENDING_BATCHES) bs.
Proof.
  revert d. induction bs as [|b bs IH]; intros d; [done|]. cbn [trim].
  assert (length (b :: bs) = S (length bs)) as Hlen by done. rewrite Hlen in *.
  destruct (Nat.ltb_spec MAX_PENDING_BATCHES (S (length bs))) as [Hl|Hl].
  - rewrite IH.
    replace (S (length bs) - MAX_PENDING_BATCHES)%nat
      with (S (length bs - MAX_PENDING_BATCHES)) by lia. done.
  - replace (S (length bs) - MAX_PENDING_BATCHES)%nat with O by lia. done.
Qed.

Lemma enqueue_pending id allowed ag :
  ag_pending (enqueue id allowed ag) =
    drop (length (queued id allowed ag) - MAX_PENDING_BATCHES) (queued id allowed ag) ∧
  mem_cell c (enqueue id allowed ag) = 0.
Proof.
  unfold enqueue, queued.
  assert (ag_pending (drain id ag).2 = ag_pending ag ∧ ag_llm (drain id ag).2 = ∅
    ∧ ag_value (drain id ag).2 = ∅) as (Hp & Hl & Hv) by (unfold drain; by case_match).
  destruct (drain id ag) as [drained ag1]. simpl in *. rewrite Hp.
  set (q := match drained with Some _ => _ | None => _ end).
  pose proof (trim_spec q (ag_dropped_rows ag1)) as Ht.
  destruct (trim q (ag_dropped_rows ag1)) as [pending dropped]. simpl in *. split; [done|].
  rewrite Hl, Hv. by destruct c.
Qed.

(** A drained batch carries the totals of the cell. *)
Lemma drain_cell bid allowed ag :
  (∀ a, allowed = Some a → cell_tenant c ∈ a ∪ {[UNATTRIBUTED]}) →
  match (drain bid ag).1 with
  | Some b => b_id b = bid ∧ batch_cell c (filter_batch allowed b) = mem_cell c ag
  | None => mem_cell c ag = 0
  end.
Proof.
  intros Hall. unfold drain.
  destruct (bool_decide (ag_llm ag = ∅) && bool_decide (ag_value ag = ∅)) eqn:He.
  - bool_to_prop. destruct c as [k f|k]; simpl;
      match goal with H : ag_llm ag = ∅, H' : ag_value ag = ∅ |- _ => by rewrite ?H, ?H' end.
  - simpl. split; [done|]. unfold filter_batch. destruct allowed as [a|].
    + specialize (Hall a eq_refl). destruct c as [k f|k]; simpl in *.
      * rewrite <-msum_map. apply msum_filter. intros r Hr. by subst k.
      * rewrite <-msum_map. apply msum_filter. intros r Hr. by subst k.
    + destruct c as [k f|k]; simpl; apply msum_map.
Qed.

Lemma batch_len_zero b : batch_len b = 0 → batch_cell c b = 0.
Proof.
  unfold batch_len. destruct b as [i l v]. simpl. intros H.
  destruct l; [|simpl in H; lia]. destruct v; [|simpl in H; lia]. by destruct c.
Qed.

Lemma waiting_same st st' bs :
  (∀ b, b ∈ bs → unsent st' b = unsent st b) → waiting st' bs = waiting st bs.
Proof.
  induction bs as [|b bs IH]; intros H; simpl; [done|].
  rewrite (H b) by left. rewrite IH; [done|]. intros b' Hb'. apply H. by right.
Qed.

Lemma unsent_ext st st' b :
  (uuid5 (b_id b) (cell_tenant c) ∈ s_claimed st' ↔ uuid5 (b_id b) (cell_tenant c) ∈ s_claimed st) →
  unsent st' b = unsent st b.
Proof. intros H. unfold unsent. by rewrite (bool_decide_ext _ _ H). Qed.

Lemma queued_waiting id allowed ag st :
  (∀ t, uuid5 id t ∉ s_claimed st) →
  (∀ a, allowed = Some a → cell_tenant c ∈ a ∪ {[UNATTRIBUTED]}) →
  waiting st (queued id allowed ag) = waiting st (ag_pending ag) + mem_cell c ag ∧
  (∃ new, queued id allowed ag = (ag_pending ag ++ new)%list ∧ (length new ≤ 1)%nat ∧
     ∀ b, b ∈ new → b_id b = id).
Proof.
  intros Hid Hall. pose proof (drain_cell id allowed ag Hall) as Hd. unfold queued.
  destruct ((drain id ag).1) as [b|]; [destruct Hd as [Hb Hd]|].
  - assert (b_id (filter_batch allowed b) = id) as Hb' by (unfold filter_batch; by destruct allowed).
    destruct (Z.eqb_spec (batch_len (filter_batch allowed b)) 0) as [Hz|Hz].
    + apply batch_len_zero in Hz. split; [lia|]. exists []. rewrite app_nil_r.
      split_and!; [done|simpl; lia|]. by intros ? ?%elem_of_nil.
    + rewrite waiting_app. unfold waiting at 2, unsent. simpl. rewrite Hb', bool_decide_false by done.
      split; [lia|]. eexists. split; [done|]. split; [simpl; lia|].
      by intros ? ->%list_elem_of_singleton.
  - split; [lia|]. exists []. rewrite app_nil_r.
    split_and!; [done|simpl; lia|]. by intros ? ?%elem_of_nil.
Qed.

Lemma inv_enqueue id allowed w :
  inv w → id ∉ w_used w → (∀ t, uuid5 id t ∉ s_claimed (w_st w)) →
  (∀ a, allowed = Some a → cell_tenant c ∈ a ∪ {[UNATTRIBUTED]}) →
  inv (World (enqueue id allowed (w_ag w)) (w_st w) ({[id]} ∪ w_used w) (w_recorded w)
         (w_lost w + waiting (w_st w) (overflow (queued id allowed (w_ag w))))).
Proof.
  intros (Hsum & Hnd & Hused & Hlen) Hfresh Hid Hall.
  destruct (enqueue_pending id allowed (w_ag w)) as [Hp Hm].
  destruct (queued_waiting id allowed (w_ag w) (w_st w) Hid Hall) as [Hw (new & Hq & Hnew & Hnid)].
  unfold inv. simpl. rewrite Hp, Hm. set (q := queued id allowed (w_ag w)) in *.
  set (n := (length q - MAX_PENDING_BATCHES)%nat).
  assert (waiting (w_st w) q = waiting (w_st w) (overflow q) + waiting (w_st w) (drop n q)) as Hcut.
  { unfold overflow. fold n. by rewrite <-waiting_app, take_drop. }
  assert (NoDup (b_id <$> q)) as Hndq.
  { rewrite Hq, fmap_app. apply NoDup_app. split_and!; [done| |].
    - intros x (b & -> & Hb)%list_elem_of_fmap (b' & Hbb & Hb')%list_elem_of_fmap.
      apply Hfresh. rewrite <-(Hnid _ Hb'), <-Hbb. by apply Hused.
    - destruct new as [|x [|y new]]; [constructor|apply NoDup_singleton|simpl in Hnew; lia]. }
  split_and!.
  - lia.
  - rewrite <-(take_drop n q), fmap_app in Hndq. by apply NoDup_app in Hndq as (_ & _ & ?).
  - intros b Hb. assert (b ∈ q) as Hbq by (rewrite <-(take_drop n q); apply elem_of_app; by right).
    rewrite Hq in Hbq. apply elem_of_app in Hbq as [Hb'|Hb'].
    + apply elem_of_union_r. by apply Hused.
    + rewrite (Hnid _ Hb'). set_solver.
  - rewrite length_drop. unfold n. rewrite Hq, length_app. lia.
Qed.

Lemma inv_send net w ag st :
  inv w → (∀ t, acked (net t) = true → landed (net t) ≠ 0%nat) →
  send_head off net (w_ag w) (w_st w) = Some (ag, st) →
  inv (World ag st (w_used w) (w_recorded w) (w_lost w)).
Proof.
  intros (Hsum & Hnd & Hused & Hlen) Hfair Hs. unfold send_head in Hs.
  destruct (ag_pending (w_ag w)) as [|b rest] eqn:Hp; [done|].
  destruct (post_parts_cell off net c b (py_sorted str_leb (tenants_of b)) (w_st w) Hon)
    as (Hc & Hm & Hn & Hok).
  { rewrite py_sorted_perm. apply NoDup_remove_dups. }
  change ((λ t, (t, part_of b t)) <$> py_sorted str_leb (tenants_of b)) with (per_tenant b) in *.
  destruct (post_parts off net (per_tenant b) (w_st w)) as [ok st'] eqn:Hpost.
  injection Hs as <- <-. simpl in Hc, Hm, Hn, Hok.
  rewrite fmap_cons in Hnd. apply NoDup_cons in Hnd as [Hb Hnd].
  assert (waiting st' rest = waiting (w_st w) rest) as Hrest.
  { apply waiting_same. intros b' Hb'. apply unsent_ext. split; [|by apply Hm]. intros [Hx|(t & _ & [Hbb _]%uuid5_inj)]%Hn; [done|].
    destruct Hb. rewrite <-Hbb. apply list_elem_of_fmap. by exists b'. }
  assert (store_cell c st' + unsent st' b = store_cell c (w_st w) + unsent (w_st w) b) as Hbal.
  { rewrite Hc. unfold unsent.
    destruct (decide (uuid5 (b_id b) (cell_tenant c) ∈ s_claimed (w_st w))) as [Hin|Hin].
    - rewrite !bool_decide_true by auto. lia.
    - rewrite (bool_decide_false (_ ∈ s_claimed (w_st w))) by done.
      destruct (bool_decide (_ ∈ s_claimed st')); lia. }
  assert (mem_cell c (Aggregator (ag_llm (w_ag w)) (ag_value (w_ag w)) (if ok then rest else b :: rest)
    (ag_dropped_rows (w_ag w))) = mem_cell c (w_ag w)) as Hmem by (by destruct c).
  unfold inv. simpl in *. rewrite Hmem. split_and!.
  - destruct ok; simpl; [|lia].
    assert (unsent st' b = 0) as Hz; [|lia]. unfold unsent.
    destruct (decide (cell_tenant c ∈ tenants_of b)) as [Hin|Hin].
    + rewrite bool_decide_true; [done|].
      apply (Hok Hfair eq_refl). by rewrite py_sorted_elem.
    + rewrite (batch_cell_absent c b Hin). by destruct (bool_decide (_ ∈ s_claimed st')).
  - destruct ok; [done|]. rewrite fmap_cons. by constructor.
  - intros b' Hb'. apply Hused. destruct ok; [by right|done].
  - destruct ok; simpl in *; lia.
Qed.

Lemma usage_inv_step w w' : inv w → step w w' → inv w'.
Proof.
  intros Hinv Hstep. destruct Hstep as [minute call w|minute r w|id allowed w Hf Hid Hall
    |net w ag st Hfair Hs|tenant p w Hid st].
  - destruct Hinv as (Hsum & Hrest). split; [|done].
    cbn [w_ag w_st w_recorded w_lost]. rewrite add_model_call_cell. simpl. lia.
  - destruct Hinv as (Hsum & Hrest). pose proof (add_value_cell c minute r (w_ag w)) as Ha.
    assert (ag_pending (add_value minute r (w_ag w)) = ag_pending (w_ag w)) as Hp
      by (unfold add_value; by case_match).
    unfold inv. cbn [w_ag w_st w_recorded w_lost w_used]. rewrite Ha, Hp. split; [lia|done].
  - by apply inv_enqueue.
  - by eapply inv_send.
  - destruct Hinv as (Hsum & Hnd & Hused & Hlen). unfold inv. simpl. split_and!; try done.
    rewrite (waiting_same (w_st w) st); [lia|]. intros b Hb. apply unsent_ext. unfold st. rewrite usage_flush_claimed, elem_of_union, elem_of_singleton.
    split; [|by right]. intros [Hx|Hx]; [|done]. symmetry in Hx. by apply Hid in Hx; [|apply Hused].
Qed.

End Ledger.

(** Storage counts a flush once and only under its tenant: sending the same part
    again (with any content under that id, metering on or off) answers that it was
    not applied and changes nothing; and whatever a part says, no counter of
    another tenant moves. *)
Theorem usage_flush_once_and_own_tenant off off' tenant p p' st :
  p_id p' = p_id p →
  let st1 := (usage_flush off tenant p st).2 in
  usage_flush off' tenant p' st1 = (false, st1) ∧
  ∀ c, cell_tenant c ≠ tenant → store_cell c st1 = store_cell c st.
Proof.
  intros Hid st1. split.
  - assert (p_id p' ∈ s_claimed st1) as Hc
      by (unfold st1; rewrite usage_flush_claimed, Hid; set_solver).
    unfold usage_flush. destruct off'; by rewrite bool_decide_true.
  - intros c Hc. unfold st1. rewrite usage_flush_cell, (bool_decide_false (cell_tenant c = tenant)) by done.
    rewrite orb_true_r. lia.
Qed.

Lemma usage_flush_once_and_own_tenant_witness :
  let p := Part "id1" [(("m", "a", "f", "op", "llm", "openai", "gpt"), Counts 1 0 5 7 0)] [] in
  usage_flush true "acme" p (usage_flush false "acme" p (Store ∅ ∅ ∅)).2
    = (false, (usage_flush false "acme" p (Store ∅ ∅ ∅)).2).
Proof.
  intros p. exact (proj1 (usage_flush_once_and_own_tenant false true "acme" p p (Store ∅ ∅ ∅) eq_refl)).
Defined.

(** ** A concrete history *)

Module UsageSample.
Definition text_uuid5 (root name : string) : string :=
  (str_of_Z (str_len root) +:+ String ":" (root +:+ name))%string.

Lemma text_uuid5_inj a b t u : text_uuid5 a t = text_uuid5 b u → a = b ∧ t = u.
Proof.
  intros H. apply colon_split in H as [Hl H]; [|apply str_of_Z_no_colon..].
  apply str_of_Z_inj in Hl. unfold str_len in Hl. apply string_app_inj_length in H; [done|lia].
Qed.

#[local] Instance text_uuid : Uuid5 := {| uuid5 := text_uuid5; uuid5_inj := text_uuid5_inj |}.

Definition call : model_call :=
  ModelCall (Some "acme") None None "enrich" "llm" "openai" "gpt" 100 20 3 true.
Definition key : llm_key := llm_key_of "12:00" call.
Definition c : cell := LlmCell key FTokensIn.
Definition off (t : string) : bool := false.

(** Two calls; the first is flushed, lands twice and its reply is lost. *)
Definition w0 : world := World (Aggregator ∅ ∅ [] 0) (Store ∅ ∅ ∅) ∅ 0 0.
Definition w1 : world :=
  World (add_model_call "12:00" call (w_ag w0)) (w_st w0) (w_used w0)
    (w_recorded w0 + call_cell c "12:00" call) (w_lost w0).
Definition w2 : world :=
  World (enqueue "b1" None (w_ag w1)) (w_st w1) ({["b1"]} ∪ w_used w1) (w_recorded w1)
    (w_lost w1 + waiting c (w_st w1) (overflow (queued "b1" None (w_ag w1)))).
Definition lost_reply (t : string) : fate := Fate 2 false.
Definition w3 : world :=
  match send_head off lost_reply (w_ag w2) (w_st w2) with
  | Some (ag, st) => World ag st (w_used w2) (w_recorded w2) (w_lost w2)
  | None => w2
  end.

Lemma w2_reachable : reachable (step off c) (init c) w2.
Proof.
  apply (reach_step _ _ w1).
  { apply (reach_step _ _ w0); [apply reach_init; by repeat split|].
    apply (step_call off c "12:00" call w0). }
  apply (step_enqueue off c "b1" None w1); [by apply not_elem_of_empty|
    intros t; by apply not_elem_of_empty|done].
Qed.

Lemma w3_reachable : reachable (step off c) (init c) w3.
Proof.
  apply (reach_step _ _ w2); [exact w2_reachable|]. unfold w3.
  assert (match send_head off lost_reply (w_ag w2) (w_st w2) with Some _ => true | None => false end
    = true) as Hs by (vm_compute; reflexivity).
  destruct (send_head off lost_reply (w_ag w2) (w_st w2)) as [[ag st]|] eqn:E; [|discriminate Hs].
  by apply (step_send off c lost_reply w2).
Qed.
End UsageSample.

