(* ===== verification/ShortTermMemory.v ===== *)
(** * Short-term memory: notes and bulletin boards in process

    [core-api/.../providers/inmemory_stm.py], the whole backend: two dicts of
    timestamped entries, pruned on the key touched, capped on writes and swept now
    and then. Each operation reads the monotonic clock up to three times (the
    sweep, the stamp of the entry, the prune); a reading is an argument. *)

From S2P Require Import PyStr PyVal.

#[local] Open Scope Z_scope.

Definition SWEEP_INTERVAL_SECONDS : Z := 300.

Abbreviation entry := (pyval * Z)%type.
Abbreviation board := (gmap (string * string) (list entry)).

(** [now - ts < ttl] *)
Definition fresh (ttl now : Z) (e : entry) : Prop := now - e.2 < ttl.
#[global] Instance fresh_dec ttl now e : Decision (fresh ttl now e).
Proof. unfold fresh. apply _. Defined.

Definition prune (ttl now : Z) (store : list entry) : list entry := filter (fresh ttl now) store.

Record stm := Stm {
  notes : board;
  bulletins : board;
  notes_max : Z; bulletin_max : Z;
  notes_ttl : Z; bulletin_ttl : Z;
  last_sweep : Z;
}.

(** Which of the two boards an operation is about. *)
Inductive side := Notes | Bulletin.

Definition board_of (s : side) (m : stm) : board := match s with Notes => notes m | Bulletin => bulletins m end.
Definition max_of (s : side) (m : stm) : Z := match s with Notes => notes_max m | Bulletin => bulletin_max m end.
Definition ttl_of (s : side) (m : stm) : Z := match s with Notes => notes_ttl m | Bulletin => bulletin_ttl m end.
Definition set_board (s : side) (b : board) (m : stm) : stm :=
  match s with
  | Notes => Stm b (bulletins m) (notes_max m) (bulletin_max m) (notes_ttl m) (bulletin_ttl m) (last_sweep m)
  | Bulletin => Stm (notes m) b (notes_max m) (bulletin_max m) (notes_ttl m) (bulletin_ttl m) (last_sweep m)
  end.

(** [_key] *)
Definition stm_key (tenant_id scope_id : string) : string * string := (tenant_id, scope_id).

(** The sweep's test: the newest entry of the key has expired, or there is none. *)
Definition expired_key (ttl now : Z) (v : list entry) : bool :=
  match v with
  | [] => true
  | e :: _ => ttl <=? now - e.2
  end.

Definition sweep_board (ttl now : Z) (b : board) : board :=
  filter (λ kv, expired_key ttl now kv.2 = false) b.

Definition sweep (now : Z) (m : stm) : stm :=
  if now - last_sweep m <? SWEEP_INTERVAL_SECONDS then m
  else Stm (sweep_board (notes_ttl m) now (notes m)) (sweep_board (bulletin_ttl m) now (bulletins m))
         (notes_max m) (bulletin_max m) (notes_ttl m) (bulletin_ttl m) now.

(** [get_notes] and [get_bulletin] *)
Definition stm_get (s : side) (tenant_id scope_id : string) (limit : Z) (t_sweep t_prune : Z) (m : stm)
    : list pyval * stm :=
  let m := sweep t_sweep m in
  let key := stm_key tenant_id scope_id in
  let entries := prune (ttl_of s m) t_prune (default [] (board_of s m !! key)) in
  let b := match entries with
           | [] => delete key (board_of s m)
           | _ => <[key := entries]> (board_of s m)
           end in
  (fst <$> py_take limit entries, set_board s b m).

(** [post_note] and [post_bulletin] *)
Definition stm_post (s : side) (tenant_id scope_id : string) (e : pyval) (t_sweep t_put t_prune : Z)
    (m : stm) : stm :=
  let m := sweep t_sweep m in
  let key := stm_key tenant_id scope_id in
  let store := (e, t_put) :: default [] (board_of s m !! key) in
  let store := prune (ttl_of s m) t_prune store in
  set_board s (<[key := py_take (max_of s m) store]> (board_of s m)) m.

(** [clear_notes] and [clear_bulletin] *)
Definition stm_clear (s : side) (tenant_id scope_id : string) (m : stm) : stm :=
  set_board s (delete (stm_key tenant_id scope_id) (board_of s m)) m.

Definition clear_tenant_board (tenant_id : string) (b : board) : board :=
  filter (λ kv : (string * string) * list entry, kv.1.1 ≠ tenant_id) b.
Definition clear_tenant (tenant_id : string) (m : stm) : stm :=
  Stm (clear_tenant_board tenant_id (notes m)) (clear_tenant_board tenant_id (bulletins m))
    (notes_max m) (bulletin_max m) (notes_ttl m) (bulletin_ttl m) (last_sweep m).

(** ** The specification

    A board keeps every post since the last clear, newest first; a read at a time
    shows the fresh ones, at most [max] of them. No pruning, no sweep. *)

Record spec := Spec { log : side → (string * string) → list entry }.

Definition spec_init : spec := Spec (λ _ _, []).
Definition side_eqb (a b : side) : bool :=
  match a, b with Notes, Notes | Bulletin, Bulletin => true | _, _ => false end.
Definition update (sp : spec) (s : side) (k : string * string) (l : list entry) : spec :=
  Spec (λ s' k', if side_eqb s s' && bool_decide (k = k') then l else log sp s' k').

Definition spec_read (ttl max limit now : Z) (l : list entry) : list pyval :=
  fst <$> py_take limit (take (Z.to_nat max) (filter (fresh ttl now) l)).

Inductive op :=
| OGet (s : side) (tenant scope : string) (limit : Z) (t_sweep t_prune : Z)
| OPost (s : side) (tenant scope : string) (e : pyval) (t_sweep t_put t_prune : Z)
| OClear (s : side) (tenant scope : string)
| OClearTenant (tenant : string).

Definition run_op (o : op) (m : stm) : list pyval * stm :=
  match o with
  | OGet s t k limit ts tp => stm_get s t k limit ts tp m
  | OPost s t k e ts tput tp => ([], stm_post s t k e ts tput tp m)
  | OClear s t k => ([], stm_clear s t k m)
  | OClearTenant t => ([], clear_tenant t m)
  end.

Definition spec_op (m : stm) (o : op) (sp : spec) : list pyval * spec :=
  match o with
  | OGet s t k limit _ tp => (spec_read (ttl_of s m) (max_of s m) limit tp (log sp s (t, k)), sp)
  | OPost s t k e _ tput _ => ([], update sp s (t, k) ((e, tput) :: log sp s (t, k)))
  | OClear s t k => ([], update sp s (t, k) [])
  | OClearTenant t => ([], Spec (λ s k, if bool_decide (k.1 = t) then [] else log sp s k))
  end.

(** The clock readings of an operation, in the order they are made. *)
Definition op_times (o : op) : list Z :=
  match o with
  | OGet _ _ _ _ ts tp => [ts; tp]
  | OPost _ _ _ _ ts tput tp => [ts; tput; tp]
  | _ => []
  end.

(** Clock readings that never go back. *)
Fixpoint clocked (t : Z) (readings : list Z) : Prop :=
  match readings with
  | [] => True
  | x :: r => t <= x /\ clocked x r
  end.

(** A run of operations: what each of them returned, and the store it left. *)
Fixpoint run (ops : list op) (m : stm) : list (list pyval) * stm :=
  match ops with
  | [] => ([], m)
  | o :: r => let '(out, m1) := run_op o m in
              let '(outs, m2) := run r m1 in (out :: outs, m2)
  end.

Fixpoint spec_run (m : stm) (ops : list op) (sp : spec) : list (list pyval) :=
  match ops with
  | [] => []
  | o :: r => let '(out, sp1) := spec_op m o sp in out :: spec_run m r sp1
  end.

(** [InMemorySTM.__init__] at a reading of the clock. *)
Definition stm_init (notes_max bulletin_max notes_ttl bulletin_ttl t : Z) : stm :=
  Stm ∅ ∅ notes_max bulletin_max notes_ttl bulletin_ttl t.

Definition op_tenant (o : op) : string :=
  match o with
  | OGet _ t _ _ _ _ | OPost _ t _ _ _ _ _ | OClear _ t _ | OClearTenant t => t
  end.

(** ** Fresh entries are a prefix *)

Definition newest_first (l : list entry) : Prop := StronglySorted (λ a b : entry, b.2 <= a.2) l.

Lemma fresh_none ttl now e l :
  newest_first (e :: l) → ¬ fresh ttl now e → filter (fresh ttl now) (e :: l) = [].
Proof.
  intros Hs He. inversion Hs as [|? ? _ Hl]; subst. rewrite filter_cons_False by done.
  clear Hs. induction Hl as [|x l Hx _ IH]; [done|].
  rewrite filter_cons_False; [done|]. unfold fresh in *. lia.
Qed.

Lemma fresh_mono ttl t now e : t <= now → fresh ttl now e → fresh ttl t e.
Proof. unfold fresh. lia. Qed.

Lemma filter_sublist_nil (P : entry → Prop) `{∀ x, Decision (P x)} l l' :
  (∀ x, x ∈ l' → x ∈ l) → filter P l = [] → filter P l' = [].
Proof.
  intros Hin Hl. destruct (filter P l') as [|x r] eqn:He; [done|].
  assert (x ∈ filter P l') as Hx by (rewrite He; left).
  apply list_elem_of_filter in Hx as [HP Hx].
  assert (x ∈ filter P l) as Hx' by (apply list_elem_of_filter; auto).
  rewrite Hl in Hx'. by apply elem_of_nil in Hx'.
Qed.

Lemma elem_of_take_in {A} (x : A) n l : x ∈ take n l → x ∈ l.
Proof. intros Hx. rewrite <-(take_drop n l). apply elem_of_app. by left. Qed.

(** Capping and pruning early shows no later. *)
Lemma filter_take_filter ttl t now n l :
  newest_first l → t <= now →
  filter (fresh ttl now) (take n (filter (fresh ttl t) l)) = take n (filter (fresh ttl now) l).
Proof.
  intros Hs Ht. revert n. induction l as [|e l IH]; intros n; [by destruct n|].
  destruct (decide (fresh ttl now e)) as [He|He].
  - rewrite (filter_cons_True (fresh ttl t)) by (by eapply fresh_mono).
    rewrite (filter_cons_True (fresh ttl now) e l) by done. destruct n as [|n]; [done|].
    cbn [take]. rewrite filter_cons_True by done. f_equal. apply IH. by inversion Hs.
  - rewrite (fresh_none _ _ _ _ Hs He), take_nil.
    eapply filter_sublist_nil; [|by apply (fresh_none ttl now e l)].
    intros x Hx%elem_of_take_in. by apply list_elem_of_filter in Hx as [_ ?].
Qed.

Lemma expired_none ttl now now' v :
  newest_first v → expired_key ttl now v = true → now <= now' → filter (fresh ttl now') v = [].
Proof.
  destruct v as [|e v]; [done|]. simpl. intros Hs He%Z.leb_le Hn. apply fresh_none; [done|].
  unfold fresh. lia.
Qed.

Lemma newest_first_filter (P : entry → Prop) `{∀ x, Decision (P x)} l :
  newest_first l → newest_first (filter P l).
Proof. apply StronglySorted_filter. Qed.

Lemma newest_first_take n l : newest_first l → newest_first (take n l).
Proof.
  intros Hs. revert n. induction Hs as [|e l Hs IH He]; intros n; [rewrite take_nil; constructor|].
  destruct n as [|n]; [constructor|]. cbn [take]. constructor; [apply IH|].
  rewrite Forall_forall in *. intros x Hx%elem_of_take_in. auto.
Qed.


(** ** The store of one key against the log of that key, as of time [t] *)

Record rel (max ttl t : Z) (store lg : list entry) : Prop := Rel {
  rel_store : newest_first store;
  rel_log : newest_first lg;
  rel_store_le : Forall (λ e : entry, e.2 <= t) store;
  rel_log_le : Forall (λ e : entry, e.2 <= t) lg;
  rel_cap : (length store <= Z.to_nat max)%nat;
  rel_shows : ∀ now, t <= now →
    filter (fresh ttl now) store = take (Z.to_nat max) (filter (fresh ttl now) lg);
}.

Lemma Forall_filter_sub (P Q : entry → Prop) `{∀ x, Decision (Q x)} l : Forall P l → Forall P (filter Q l).
Proof. rewrite !Forall_forall. intros HP x [_ Hx]%list_elem_of_filter. auto. Qed.

Lemma rel_nil max ttl t : rel max ttl t [] [].
Proof. split; try constructor; try (simpl; lia). intros. by destruct (Z.to_nat max). Qed.

Lemma rel_later max ttl t t' store lg : t <= t' → rel max ttl t store lg → rel max ttl t' store lg.
Proof.
  intros Ht [H1 H2 H3 H4 H5 H6]. split; try done.
  - eapply Forall_impl; [done|]. simpl. lia.
  - eapply Forall_impl; [done|]. simpl. lia.
  - intros. apply H6. lia.
Qed.

Lemma rel_sweep max ttl t now store lg :
  t <= now → rel max ttl t store lg → expired_key ttl now store = true → rel max ttl now [] lg.
Proof.
  intros Ht Hr He. apply (rel_later _ _ _ now) in Hr as [H1 H2 H3 H4 H5 H6]; [|done].
  split; try done; try (by constructor); [simpl; lia|].
  intros now' Hn. rewrite <-H6 by done. symmetry. by eapply expired_none.
Qed.

Lemma rel_prune max ttl t now store lg :
  t <= now → rel max ttl t store lg → rel max ttl now (prune ttl now store) lg.
Proof.
  intros Ht Hr. apply (rel_later _ _ _ now) in Hr as [H1 H2 H3 H4 H5 H6]; [|done]. unfold prune.
  split; try done.
  - by apply newest_first_filter.
  - by apply Forall_filter_sub.
  - etrans; [apply length_filter|done].
  - intros now' Hn. rewrite <-H6 by done. rewrite list_filter_filter_l; [done|].
    intros x. by apply fresh_mono.
Qed.

Lemma newest_first_cons e t l :
  Forall (λ x : entry, x.2 <= t) l → newest_first l → newest_first ((e, t) :: l).
Proof. intros. by constructor. Qed.

Lemma rel_post max ttl t tput tp e store lg :
  t <= tput → tput <= tp → 0 <= max → rel max ttl t store lg →
  rel max ttl tp (py_take max (prune ttl tp ((e, tput) :: store))) ((e, tput) :: lg).
Proof.
  intros Ht Htp Hmax Hr. apply (rel_later _ _ _ tput) in Hr as [H1 H2 H3 H4 H5 H6]; [|done].
  pose proof (newest_first_cons e _ _ H3 H1) as Hs. pose proof (newest_first_cons e _ _ H4 H2) as Hl.
  assert (∀ l, Forall (λ x : entry, x.2 <= tput) l → Forall (λ x : entry, x.2 <= tp) ((e, tput) :: l))
    as Hle by (intros l Hle; constructor; [done|]; eapply Forall_impl; [exact Hle|]; simpl; lia).
  unfold py_take, prune. rewrite (proj2 (Z.ltb_ge _ _)) by done. split; auto.
  - by apply newest_first_take, newest_first_filter.
  - apply Forall_take, Forall_filter_sub. auto.
  - rewrite length_take. lia.
  - intros now Hn. rewrite filter_take_filter by done.
    destruct (decide (fresh ttl now (e, tput))) as [He|He].
    + rewrite !(filter_cons_True _ (e, tput)) by done. rewrite H6 by lia.
      destruct (Z.to_nat max); [done|]. simpl. f_equal. rewrite take_take. f_equal. lia.
    + by rewrite !fresh_none.
Qed.

Lemma rel_reads max ttl t now store lg :
  t <= now → rel max ttl t store lg →
  prune ttl now store = take (Z.to_nat max) (filter (fresh ttl now) lg).
Proof. intros Ht Hr. by apply (rel_shows _ _ _ _ _ Hr). Qed.


(** ** The whole store against the log of posts *)

Definition shown (m : stm) (s : side) (k : string * string) : list entry := default [] (board_of s m !! k).

Record sim (t : Z) (m : stm) (sp : spec) : Prop := Sim {
  sim_rel : ∀ s k, rel (max_of s m) (ttl_of s m) t (shown m s k) (log sp s k);
  sim_cap : ∀ s, 0 <= max_of s m;
}.

(** What no operation touches. *)
Record same_limits (m m' : stm) : Prop := SameLimits {
  same_max : ∀ s, max_of s m' = max_of s m;
  same_ttl : ∀ s, ttl_of s m' = ttl_of s m;
}.

Lemma same_limits_refl m : same_limits m m.
Proof. done. Qed.
Lemma same_limits_trans a b c : same_limits a b → same_limits b c → same_limits a c.
Proof. intros [H1 H2] [H3 H4]. split; intros s; congruence. Qed.
Lemma set_board_limits s b m : same_limits m (set_board s b m).
Proof. destruct s; split; intros []; done. Qed.
Lemma sweep_limits now m : same_limits m (sweep now m).
Proof. unfold sweep. case_match; split; intros []; done. Qed.

Lemma shown_set_board s b m s' k :
  shown (set_board s b m) s' k = if side_eqb s s' then default [] (b !! k) else shown m s' k.
Proof. by destruct s, s'. Qed.

Lemma board_filter_lookup (P : (string * string) * list entry → Prop) `{∀ x, Decision (P x)} (b : board) (k : string * string) :
  default [] (filter P b !! k) = default [] (b !! k)
  ∨ (default [] (filter P b !! k) = [] ∧ ∃ v, b !! k = Some v ∧ ¬ P (k, v)).
Proof.
  rewrite map_lookup_filter. destruct (b !! k) as [v|] eqn:Hb; [|by left]. simpl.
  destruct (decide (P (k, v))) as [HP|HP].
  - left. rewrite option_guard_True by done. done.
  - right. rewrite option_guard_False by done. eauto.
Qed.

Lemma sweep_board_lookup (ttl now : Z) (b : board) (k : string * string) :
  default [] (sweep_board ttl now b !! k) = default [] (b !! k)
  ∨ default [] (sweep_board ttl now b !! k) = [] ∧ expired_key ttl now (default [] (b !! k)) = true.
Proof.
  unfold sweep_board. destruct (board_filter_lookup (λ kv, expired_key ttl now kv.2 = false) b k)
    as [|[H1 (v & Hv & HP)]]; [by left|right]. split; [done|]. rewrite Hv. simpl in *.
  by destruct (expired_key ttl now v).
Qed.

Lemma sweep_sim t now m sp : t <= now → sim t m sp → sim now (sweep now m) sp.
Proof.
  intros Ht [Hr Hc]. split; [|intros s; by rewrite (same_max _ _ (sweep_limits now m))].
  intros s k. rewrite (same_max _ _ (sweep_limits now m)), (same_ttl _ _ (sweep_limits now m)).
  specialize (Hr s k). unfold sweep. case_match; [by eapply rel_later|].
  destruct s; unfold shown in *; simpl in *.
  - destruct (sweep_board_lookup (notes_ttl m) now (notes m) k) as [->|[-> He]];
      [by eapply rel_later|by eapply rel_sweep].
  - destruct (sweep_board_lookup (bulletin_ttl m) now (bulletins m) k) as [->|[-> He]];
      [by eapply rel_later|by eapply rel_sweep].
Qed.

(** Replacing the store of one key. *)
Lemma set_board_sim t t' m sp s b k l :
  t <= t' → sim t m sp →
  (∀ k', k' ≠ k → b !! k' = board_of s m !! k') →
  rel (max_of s m) (ttl_of s m) t' (default [] (b !! k)) l →
  sim t' (set_board s b m) (update sp s k l).
Proof.
  intros Ht [Hr Hc] Hb Hk. split; [|intros s'; by rewrite (same_max _ _ (set_board_limits s b m))].
  intros s' k'. rewrite (same_max _ _ (set_board_limits s b m)), (same_ttl _ _ (set_board_limits s b m)).
  rewrite shown_set_board. simpl. specialize (Hr s' k').
  destruct (side_eqb s s') eqn:Hs; simpl; [|by eapply rel_later].
  assert (s = s') as <- by (by destruct s, s').
  case_bool_decide; [by subst|]. rewrite Hb by done. by eapply rel_later.
Qed.

Lemma update_same_sim t m sp s k : sim t m (update sp s k (log sp s k)) → sim t m sp.
Proof.
  intros [Hr Hc]. split; [|done]. intros s' k'. specialize (Hr s' k'). simpl in Hr.
  destruct (side_eqb s s') eqn:Hs; simpl in Hr; [|done].
  assert (s = s') as <- by (by destruct s, s'). case_bool_decide; by subst.
Qed.


(** The clock after an operation. *)
Definition op_end (t : Z) (o : op) : Z :=
  match o with
  | OGet _ _ _ _ _ tp | OPost _ _ _ _ _ _ tp => tp
  | _ => t
  end.

Lemma clocked_op t o r :
  clocked t (op_times o ++ r) → clocked t (op_times o) ∧ t <= op_end t o ∧ clocked (op_end t o) r.
Proof. destruct o; simpl; intuition lia. Qed.

Lemma shown_clear_tenant tenant m s k :
  shown (clear_tenant tenant m) s k = if bool_decide (k.1 = tenant) then [] else shown m s k.
Proof.
  assert (∀ b : board, default [] (clear_tenant_board tenant b !! k)
                       = if bool_decide (k.1 = tenant) then [] else default [] (b !! k)) as Hb.
  { intros b. unfold clear_tenant_board. case_bool_decide as Hk.
    - rewrite map_lookup_filter_None_2; [done|]. right. by intros x _ ?.
    - rewrite map_lookup_filter. destruct (b !! k); [|done]. simpl. by rewrite option_guard_True. }
  destruct s; apply Hb.
Qed.

Lemma get_sim t m sp s tenant scope limit ts tp :
  t <= ts → ts <= tp → sim t m sp →
  sim tp (stm_get s tenant scope limit ts tp m).2 sp
  ∧ (stm_get s tenant scope limit ts tp m).1
    = spec_read (ttl_of s m) (max_of s m) limit tp (log sp s (tenant, scope)).
Proof.
  intros Hs Hp Hsim. pose proof (sweep_limits ts m) as [Hm Ht].
  apply (sweep_sim _ ts) in Hsim; [|done]. unfold stm_get, spec_read, stm_key. simpl.
  rewrite <-Hm, <-Ht. set (m1 := sweep ts m) in *. clearbody m1.
  pose proof (sim_rel _ _ _ Hsim s (tenant, scope)) as Hr. split.
  - eapply update_same_sim with (s := s) (k := (tenant, scope)), set_board_sim; [done|done| |].
    + intros k' Hk. by case_match; rewrite ?lookup_delete_ne, ?lookup_insert_ne by done.
    + apply (rel_prune _ _ _ tp) in Hr; [|done]. unfold shown in Hr.
      by case_match; rewrite ?lookup_delete_eq, ?lookup_insert_eq.
  - by rewrite <-(rel_reads _ _ _ _ _ _ Hp Hr).
Qed.

Lemma post_sim t m sp s tenant scope e ts tput tp :
  t <= ts → ts <= tput → tput <= tp → sim t m sp →
  sim tp (stm_post s tenant scope e ts tput tp m)
    (update sp s (tenant, scope) ((e, tput) :: log sp s (tenant, scope))).
Proof.
  intros Hs Hput Hp Hsim. apply (sweep_sim _ ts) in Hsim; [|done]. unfold stm_post, stm_key.
  apply (set_board_sim ts); [lia|done| |].
  - intros k' Hk. by rewrite lookup_insert_ne.
  - rewrite lookup_insert_eq. simpl. destruct Hsim as [Hr Hc].
    by apply (rel_post _ _ ts), (Hr s (tenant, scope)).
Qed.

Lemma clear_sim t m sp s tenant scope :
  sim t m sp → sim t (stm_clear s tenant scope m) (update sp s (tenant, scope) []).
Proof.
  intros Hsim. apply (set_board_sim t); [lia|done| |].
  - intros k' Hk. unfold stm_key. by rewrite lookup_delete_ne.
  - unfold stm_key. rewrite lookup_delete_eq. apply rel_nil.
Qed.

Lemma clear_tenant_sim t m sp tenant :
  sim t m sp →
  sim t (clear_tenant tenant m) (Spec (λ s k, if bool_decide (k.1 = tenant) then [] else log sp s k)).
Proof.
  intros [Hr Hc]. split; [|intros []; [apply (Hc Notes)|apply (Hc Bulletin)]].
  intros s k. rewrite shown_clear_tenant. simpl.
  assert (max_of s (clear_tenant tenant m) = max_of s m) as -> by (by destruct s).
  assert (ttl_of s (clear_tenant tenant m) = ttl_of s m) as -> by (by destruct s).
  case_bool_decide; [apply rel_nil|apply Hr].
Qed.

Lemma run_op_sim t o m sp :
  clocked t (op_times o) → sim t m sp →
  (run_op o m).1 = (spec_op m o sp).1 ∧ sim (op_end t o) (run_op o m).2 (spec_op m o sp).2.
Proof.
  intros Hc Hsim. destruct o; simpl in *.
  - destruct (get_sim t m sp s tenant scope limit t_sweep t_prune); tauto.
  - split; [done|]. apply (post_sim t); tauto.
  - split; [done|]. by apply clear_sim.
  - split; [done|]. by apply clear_tenant_sim.
Qed.

Lemma run_op_limits o m : same_limits m (run_op o m).2.
Proof.
  destruct o; cbn [run_op snd].
  - unfold stm_get. cbn [snd]. eapply same_limits_trans; [apply sweep_limits|apply set_board_limits].
  - eapply same_limits_trans; [apply sweep_limits|apply set_board_limits].
  - apply set_board_limits.
  - split; intros []; done.
Qed.

Lemma spec_op_limits m m' o sp : same_limits m m' → spec_op m' o sp = spec_op m o sp.
Proof. intros [H1 H2]. destruct o; simpl; by rewrite ?H1, ?H2. Qed.

Lemma spec_run_limits m m' ops sp : same_limits m m' → spec_run m' ops sp = spec_run m ops sp.
Proof.
  intros Hl. revert sp. induction ops as [|o ops IH]; intros sp; [done|]. simpl.
  rewrite (spec_op_limits m m' o sp Hl). destruct (spec_op m o sp). by rewrite IH.
Qed.

Lemma run_sim t ops m sp :
  clocked t (concat (op_times <$> ops)) → sim t m sp →
  (run ops m).1 = spec_run m ops sp
  ∧ ∃ t' sp', t <= t' ∧ sim t' (run ops m).2 sp'.
Proof.
  revert t m sp. induction ops as [|o ops IH]; intros t m sp Hc Hsim.
  { split; [done|]. exists t, sp. simpl. split; [lia|done]. }
  cbn [fmap list_fmap concat] in Hc. apply clocked_op in Hc as (Hc & He & Hr).
  destruct (run_op_sim t o m sp Hc Hsim) as [Hout Hsim'].
  pose proof (run_op_limits o m) as Hl. cbn [run spec_run].
  destruct (run_op o m) as [out m1], (spec_op m o sp) as [out' sp1]; cbn [fst snd] in *. subst out'.
  destruct (IH _ _ _ Hr Hsim') as (Ho & t' & sp' & Ht' & Hs').
  destruct (run ops m1) as [outs m2]; cbn [fst snd] in *.
  rewrite Ho, (spec_run_limits m m1) by done. split; [done|]. exists t', sp'. split; [lia|done].
Qed.

Lemma sim_init nm bm nt bt t : 0 <= nm → 0 <= bm → sim t (stm_init nm bm nt bt t) spec_init.
Proof.
  intros. split; [|intros []; simpl; lia]. intros s k.
  assert (shown (stm_init nm bm nt bt t) s k = []) as -> by (destruct s; done). apply rel_nil.
Qed.


(** ** What the backend promises *)

(** C37: whatever notes and bulletins are posted, read and cleared, every read returns exactly what a log
    of all posts would show: the fresh ones of its own scope, newest first, at most the cap; the
    pruning, the cap on writes and the sweep lose nothing a read could have shown, and no scope ever
    holds more entries than its cap. *)
Theorem reads_show_the_log nm bm nt bt t ops :
  0 <= nm → 0 <= bm → clocked t (concat (op_times <$> ops)) →
  (run ops (stm_init nm bm nt bt t)).1 = spec_run (stm_init nm bm nt bt t) ops spec_init
  ∧ ∀ s k, (length (shown (run ops (stm_init nm bm nt bt t)).2 s k)
            <= Z.to_nat (max_of s (run ops (stm_init nm bm nt bt t)).2))%nat.
Proof.
  intros Hnm Hbm Hc.
  destruct (run_sim t ops _ _ Hc (sim_init nm bm nt bt t Hnm Hbm)) as (Ho & t' & sp' & _ & [Hr _]).
  split; [done|]. intros s k. apply (rel_cap _ _ _ _ _ (Hr s k)).
Qed.

(** The operations of one tenant, and what they returned. *)
Definition outs_of (tenant : string) (ops : list op) (outs : list (list pyval)) : list (list pyval) :=
  snd <$> filter (λ p : op * list pyval, op_tenant p.1 = tenant) (zip ops outs).
Definition ops_of (tenant : string) (ops : list op) : list op :=
  filter (λ o, op_tenant o = tenant) ops.

(** Two logs a tenant cannot tell apart. *)
Definition same_for (tenant : string) (sp sp' : spec) : Prop :=
  ∀ s k, k.1 = tenant → log sp s k = log sp' s k.

Lemma spec_op_same m o sp sp' :
  same_for (op_tenant o) sp sp' →
  (spec_op m o sp).1 = (spec_op m o sp').1
  ∧ same_for (op_tenant o) (spec_op m o sp).2 (spec_op m o sp').2.
Proof.
  intros Hsame. destruct o as [s' t' k' ? ? ?|s' t' k' ? ? ? ?|s' t' k'|t']; simpl in *; (split; [try done|]).
  - by rewrite (Hsame s' (t', k')).
  - done.
  - intros s k Hk. simpl. rewrite (Hsame s' (t', k')) by done. case_match; [done|]. by apply Hsame.
  - intros s k Hk. simpl. case_match; [done|]. by apply Hsame.
  - intros s k Hk. simpl. case_match; [done|]. by apply Hsame.
Qed.

Lemma spec_op_other tenant m o sp : op_tenant o ≠ tenant → same_for tenant (spec_op m o sp).2 sp.
Proof.
  intros Ho s k Hk. destruct o as [s' t' k' ? ? ?|s' t' k' ? ? ? ?|s' t' k'|t']; simpl in *; [done| | |].
  - destruct (side_eqb s' s); [|done]. simpl. case_bool_decide; [by subst|done].
  - destruct (side_eqb s' s); [|done]. simpl. case_bool_decide; [by subst|done].
  - case_bool_decide; [by subst|done].
Qed.

Lemma spec_run_same tenant m ops sp sp' :
  same_for tenant sp sp' →
  outs_of tenant ops (spec_run m ops sp) = spec_run m (ops_of tenant ops) sp'.
Proof.
  revert sp sp'. induction ops as [|o ops IH]; intros sp sp' Hsame; [done|].
  unfold outs_of, ops_of in *. cbn [spec_run].
  destruct (spec_op m o sp) as [out sp1] eqn:Ho. cbn [zip_with].
  destruct (decide (op_tenant o = tenant)) as [Ht|Ht].
  - rewrite !filter_cons_True by done. cbn [fmap list_fmap spec_run snd].
    rewrite <-Ht in Hsame. destruct (spec_op_same m _ _ _ Hsame) as [H1 H2]. rewrite Ho in H1, H2.
    destruct (spec_op m o sp') as [out' sp1']. cbn [fst snd] in *. rewrite H1, <-(IH sp1 sp1'); [done|].
    by rewrite <-Ht.
  - rewrite !filter_cons_False by done. apply IH. intros s k Hk.
    rewrite <-(Hsame s k Hk). pose proof (spec_op_other tenant m o sp Ht s k Hk) as H. by rewrite Ho in H.
Qed.

Lemma clocked_weaken t t' r : t' <= t → clocked t r → clocked t' r.
Proof. destruct r; simpl; [done|]. intros ? []. split; [lia|done]. Qed.

Lemma clocked_op_app t o r :
  clocked t (op_times o) → clocked (op_end t o) r → clocked t (op_times o ++ r).
Proof. destruct o; simpl; tauto. Qed.

Lemma clocked_ops_of tenant t ops :
  clocked t (concat (op_times <$> ops)) → clocked t (concat (op_times <$> ops_of tenant ops)).
Proof.
  unfold ops_of. revert t. induction ops as [|o ops IH]; intros t Hc; [done|].
  cbn [fmap list_fmap concat] in Hc. apply clocked_op in Hc as (Hc & He & Hr).
  destruct (decide (op_tenant o = tenant)).
  - rewrite filter_cons_True by done. apply clocked_op_app; [done|]. by apply IH.
  - rewrite filter_cons_False by done. eapply clocked_weaken, IH; done.
Qed.

(** No tenant's notes or bulletins depend on another tenant: what its operations return in any
    interleaving with the others is what they return when the others make none. *)
Theorem tenants_do_not_interact tenant nm bm nt bt t ops :
  0 <= nm → 0 <= bm → clocked t (concat (op_times <$> ops)) →
  outs_of tenant ops (run ops (stm_init nm bm nt bt t)).1
  = (run (ops_of tenant ops) (stm_init nm bm nt bt t)).1.
Proof.
  intros Hnm Hbm Hc.
  pose proof (sim_init nm bm nt bt t Hnm Hbm) as Hsim.
  destruct (run_sim t ops _ _ Hc Hsim) as [-> _].
  destruct (run_sim t (ops_of tenant ops) _ _ (clocked_ops_of tenant t ops Hc) Hsim) as [-> _].
  by apply spec_run_same.
Qed.

Lemma sweep_board_alive (ttl now : Z) (b : board) (k : string * string) (v : list entry) :
  sweep_board ttl now b !! k = Some v → ∃ e r, v = e :: r ∧ fresh ttl now e.
Proof.
  unfold sweep_board. intros [_ Hv]%map_lookup_filter_Some. simpl in Hv.
  destruct v as [|e r]; [done|]. simpl in Hv. exists e, r. split; [done|].
  apply Z.leb_gt in Hv. unfold fresh. lia.
Qed.

(** Memory is reclaimed without anyone coming back to a scope: after a read at least
    [SWEEP_INTERVAL_SECONDS] since the last sweep, every scope still held, of either board and any
    tenant, has a live newest entry. *)
Theorem read_reclaims_expired_scopes s tenant scope limit ts tp m s' k v :
  SWEEP_INTERVAL_SECONDS <= ts - last_sweep m → ts <= tp →
  board_of s' (stm_get s tenant scope limit ts tp m).2 !! k = Some v →
  ∃ e r, v = e :: r ∧ fresh (ttl_of s' m) ts e.
Proof.
  intros Hs Hp. unfold stm_get, sweep. rewrite (proj2 (Z.ltb_ge _ _)) by done.
  set (m1 := Stm _ _ _ _ _ _ _). cbn [snd]. intros Hv.
  assert (∀ k v, board_of s' m1 !! k = Some v → ∃ e r, v = e :: r ∧ fresh (ttl_of s' m) ts e) as Halive.
  { intros k0 v0. destruct s'; apply sweep_board_alive. }
  assert (ttl_of s m1 = ttl_of s m) as Hm1 by (by destruct s).
  destruct (side_eqb s s') eqn:Hside; [|destruct s, s'; try done; by apply (Halive k)].
  assert (s = s') as <- by (by destruct s, s').
  assert (∀ b, board_of s (set_board s b m1) = b) as Hb by (by destruct s). rewrite Hb in Hv.
  rewrite Hm1 in Hv. destruct (prune _ tp _) as [|e r] eqn:He.
  { apply lookup_delete_Some in Hv as [_ Hv]. by apply (Halive k). }
  apply lookup_insert_Some in Hv as [[_ <-]|[_ Hv]]; [|by apply (Halive k)].
  exists e, r. split; [done|]. assert (e ∈ prune (ttl_of s m) tp (default [] (board_of s m1 !! stm_key tenant scope))) as Hin
    by (rewrite He; left).
  apply list_elem_of_filter in Hin as [Hin _]. by eapply fresh_mono.
Qed.

(** ** A run *)

Definition sample_ops : list op :=
  [ OPost Notes "acme" "a1" (PStr "first") 0 0 0;
    OPost Notes "acme" "a1" (PStr "second") 10 10 10;
    OPost Notes "globex" "a1" (PStr "other") 11 11 11;
    OPost Notes "acme" "a1" (PStr "third") 12 12 12;
    OGet Notes "acme" "a1" 50 20 20;
    OGet Notes "globex" "a1" 50 20 20;
    OGet Notes "acme" "a1" 1 400 405;
    OClearTenant "globex";
    OGet Notes "acme" "a1" (-1) 406 406 ].

Example sample_outs :
  (run sample_ops (stm_init 2 2 395 395 0)).1
  = [[]; []; []; []; [PStr "third"; PStr "second"]; [PStr "other"]; [PStr "third"]; []; []].
Proof. vm_compute. reflexivity. Qed.

Lemma reads_show_the_log_witness :
  (run sample_ops (stm_init 2 2 395 395 0)).1
  = spec_run (stm_init 2 2 395 395 0) sample_ops spec_init.
Proof.
  refine (proj1 (reads_show_the_log 2 2 395 395 0 sample_ops _ _ _)); [lia|lia|].
  cbv -[Z.le]. repeat split; lia.
Defined.

Lemma tenants_do_not_interact_witness :
  outs_of "acme" sample_ops (run sample_ops (stm_init 2 2 395 395 0)).1
  = (run (ops_of "acme" sample_ops) (stm_init 2 2 395 395 0)).1.
Proof.
  apply (tenants_do_not_interact "acme" 2 2 395 395 0 sample_ops); [lia|lia|].
  cbv -[Z.le]. repeat split; lia.
Defined.

Definition sample_m : stm := (run sample_ops (stm_init 2 2 2000 2000 0)).2.

Lemma read_reclaims_expired_scopes_witness :
  ∃ v e r, board_of Notes (stm_get Notes "initech" "a9" 50 706 706 sample_m).2 !! ("acme", "a1") = Some v
           ∧ v = e :: r ∧ fresh 2000 706 e.
Proof.
  destruct (board_of Notes (stm_get Notes "initech" "a9" 50 706 706 sample_m).2 !! ("acme", "a1"))
    as [v|] eqn:Hv; [|vm_compute in Hv; discriminate Hv].
  destruct (read_reclaims_expired_scopes Notes "initech" "a9" 50 706 706 sample_m Notes ("acme", "a1") v)
    as (e & r & H1 & H2); [vm_compute; discriminate|lia|exact Hv|].
  exists v, e, r. split; [reflexivity|]. split; [exact H1|exact H2].
Defined.
