(* ===== verification/TenantSlots.v ===== *)
(** * Per-tenant concurrency slots

    [core-api/.../middleware/per_tenant_concurrency.py] and
    [core-worker/.../per_tenant_concurrency.py]: one [asyncio.Semaphore] per key,
    made on first use from a configured cap. The semaphore is the one of Python's
    [asyncio.locks] ([requires-python >= 3.12]): a counter and a FIFO of futures; a
    waiter that is woken or cancelled leaves the queue only when its coroutine runs
    again, so both moments are events here. Between two awaits a coroutine runs
    alone, so an event is everything one does from one await to the next. *)

From S2P Require Import Prelude.

#[local] Open Scope nat_scope.

(** ** [asyncio.Semaphore] *)

Inductive fut := Pending | Granted | Cancelled.
#[global] Instance fut_eq_dec : EqDecision fut.
Proof. solve_decision. Defined.

(** A coroutine suspended in [acquire]: its future, and whether its task was
    cancelled by the deadline of [asyncio.timeout] or from outside. *)
Record waiter := Waiter { w_req : nat; w_fut : fut; w_timeout : bool; w_outer : bool }.

(** [value] and [waiters] are the object's fields; [cap] is what it was made with
    and [held] the coroutines between [acquire] and [release]. *)
Record sem := Sem { cap : nat; value : nat; waiters : list waiter; held : list nat }.

(** The constructor raises on a negative value. *)
Definition Semaphore (c : Z) : option sem :=
  if (c <? 0)%Z then None else Some (Sem (Z.to_nat c) (Z.to_nat c) [] []).

Definition is_fut (f : fut) (w : waiter) : bool := bool_decide (w_fut w = f).
Definition locked (s : sem) : bool :=
  (value s =? 0) || existsb (λ w, negb (is_fut Cancelled w)) (waiters s).

(** [_wake_up_next]: the first future that is not done is resolved. *)
Fixpoint wake_first (ws : list waiter) : option (list waiter) :=
  match ws with
  | [] => None
  | w :: r =>
      match w_fut w with
      | Pending => Some (Waiter (w_req w) Granted (w_timeout w) (w_outer w) :: r)
      | _ => cons w <$> wake_first r
      end
  end.

Definition wake_up_next (s : sem) : option sem :=
  match wake_first (waiters s) with
  | Some ws => Some (Sem (cap s) (value s - 1) ws (held s))
  | None => None
  end.

(** [while self._value > 0: if not self._wake_up_next(): break] *)
Fixpoint wake_loop (fuel : nat) (s : sem) : sem :=
  match fuel with
  | O => s
  | S fuel =>
      if 0 <? value s then
        match wake_up_next s with
        | Some s' => wake_loop fuel s'
        | None => s
        end
      else s
  end.

(** The start of [acquire]: the slot at once, or a place in the queue. *)
Definition acquire (r : nat) (s : sem) : sem :=
  if locked s then Sem (cap s) (value s) (waiters s ++ [Waiter r Pending false false]) (held s)
  else Sem (cap s) (value s - 1) (waiters s) (r :: held s).

(** [task.cancel()] while the task waits: a pending future is cancelled, a resolved
    one is left and the cancellation is delivered when the coroutine runs. *)
Inductive cause := Timeout | Outer.

Definition cancel_waiter (c : cause) (w : waiter) : waiter :=
  let f := match w_fut w with Pending => Cancelled | f => f end in
  match c with
  | Timeout => Waiter (w_req w) f true (w_outer w)
  | Outer => Waiter (w_req w) f (w_timeout w) true
  end.

Definition cancel (c : cause) (r : nat) (s : sem) : sem :=
  Sem (cap s) (value s) ((λ w, if w_req w =? r then cancel_waiter c w else w) <$> waiters s) (held s).

(** The waiter of a request whose future is done, and the queue without it. *)
Fixpoint pop_done (r : nat) (ws : list waiter) : option (waiter * list waiter) :=
  match ws with
  | [] => None
  | w :: ws =>
      if (w_req w =? r) && negb (is_fut Pending w) then Some (w, ws)
      else (λ p : waiter * list waiter, (p.1, w :: p.2)) <$> pop_done r ws
  end.

Definition cancelled (w : waiter) : bool := w_timeout w || w_outer w.

(** The rest of [acquire]: leave the queue; a grant that meets a cancellation is
    given back; either way wake as many as there are permits for. *)
Definition resume (r : nat) (s : sem) : option (waiter * sem) :=
  match pop_done r (waiters s) with
  | None => None
  | Some (w, ws) =>
      let s1 :=
        if is_fut Granted w then
          if cancelled w then Sem (cap s) (value s + 1) ws (held s)
          else Sem (cap s) (value s) ws (r :: held s)
        else Sem (cap s) (value s) ws (held s) in
      Some (w, wake_loop (value s1) s1)
  end.

Fixpoint remove_first (r : nat) (l : list nat) : list nat :=
  match l with
  | [] => []
  | x :: l => if x =? r then l else x :: remove_first r l
  end.

Definition release (r : nat) (s : sem) : sem :=
  let s := Sem (cap s) (value s + 1) (waiters s) (remove_first r (held s)) in
  default s (wake_up_next s).

(** ** The semaphore's invariant *)

Definition granted (ws : list waiter) : nat := length (filter (λ w, w_fut w = Granted) ws).

(** No later arrival is granted while an earlier one is pending. *)
Fixpoint fifo (ws : list waiter) : Prop :=
  match ws with
  | [] => True
  | w :: r => (w_fut w = Pending → Forall (λ x, w_fut x ≠ Granted) r) ∧ fifo r
  end.

Record sem_inv (s : sem) : Prop := SemInv {
  inv_permits : value s + length (held s) + granted (waiters s) = cap s;
  inv_fifo : fifo (waiters s);
  inv_due : 0 < value s → Exists (λ w, w_fut w = Pending) (waiters s) →
            Exists (λ w, w_fut w ≠ Pending) (waiters s);
}.

Lemma wake_first_none ws : wake_first ws = None → Forall (λ w, w_fut w ≠ Pending) ws.
Proof.
  induction ws as [|w ws IH]; [done|]. simpl. destruct (w_fut w) eqn:Hw; [done| |];
    destruct (wake_first ws); [done| |done|]; intros _; constructor; auto; congruence.
Qed.

Lemma granted_cons w ws : granted (w :: ws) = (if bool_decide (w_fut w = Granted) then 1 else 0) + granted ws.
Proof. unfold granted. rewrite filter_cons. case_decide; by case_bool_decide. Qed.

Lemma fifo_pending_granted ws : Forall (λ x, w_fut x ≠ Granted) ws → granted ws = 0.
Proof.
  unfold granted. induction 1 as [|w ws Hw _ IH]; [done|]. by rewrite filter_cons_False.
Qed.

Lemma wake_first_some ws ws' :
  wake_first ws = Some ws' →
  granted ws' = S (granted ws) ∧ Exists (λ w, w_fut w = Granted) ws'
  ∧ w_req <$> ws' = w_req <$> ws.
Proof.
  revert ws'. induction ws as [|w ws IH]; intros ws'; [done|]. simpl.
  destruct (w_fut w) eqn:Hw.
  - intros [= <-]. rewrite !granted_cons, Hw. simpl. split; [done|]. split; [by left|done].
  - destruct (wake_first ws) as [ws1|]; [|done]. intros [= <-]. destruct (IH _ eq_refl) as (H1 & H2 & H3).
    rewrite !granted_cons, H1, Hw. split; [done|]. split; [by right|]. cbn. by rewrite H3.
  - destruct (wake_first ws) as [ws1|]; [|done]. intros [= <-]. destruct (IH _ eq_refl) as (H1 & H2 & H3).
    rewrite !granted_cons, H1, Hw. split; [done|]. split; [by right|]. cbn. by rewrite H3.
Qed.

Lemma wake_first_fifo ws ws' : fifo ws → wake_first ws = Some ws' → fifo ws'.
Proof.
  revert ws'. induction ws as [|w ws IH]; intros ws'; [done|]. simpl. intros [Hw Hf].
  destruct (w_fut w) eqn:Hfut.
  - intros [= <-]. simpl. split; [done|done].
  - destruct (wake_first ws) as [ws1|]; [|done]. intros [= <-]. simpl. rewrite Hfut. split; [done|]. auto.
  - destruct (wake_first ws) as [ws1|]; [|done]. intros [= <-]. simpl. rewrite Hfut. split; [done|]. auto.
Qed.

Lemma wake_up_next_inv s s' :
  0 < value s → wake_up_next s = Some s' →
  value s + length (held s) + granted (waiters s) = cap s → fifo (waiters s) →
  value s' + length (held s') + granted (waiters s') = cap s'
  ∧ fifo (waiters s') ∧ Exists (λ w, w_fut w ≠ Pending) (waiters s')
  ∧ held s' = held s ∧ cap s' = cap s ∧ value s' = value s - 1
  ∧ w_req <$> waiters s' = w_req <$> waiters s.
Proof.
  unfold wake_up_next. destruct (wake_first (waiters s)) as [ws|] eqn:Hws; [|done].
  intros Hv [= <-] Hp Hf. simpl. destruct (wake_first_some _ _ Hws) as (H1 & H2 & H3).
  split; [lia|]. split; [by eapply wake_first_fifo|].
  split; [eapply Exists_impl; [exact H2|]; intros w ->; done|]. done.
Qed.

Lemma wake_up_next_none s : wake_up_next s = None → Forall (λ w, w_fut w ≠ Pending) (waiters s).
Proof.
  unfold wake_up_next. destruct (wake_first (waiters s)) eqn:Hws; [done|].
  intros _. by apply wake_first_none.
Qed.

(** What the wake-ups leave, whatever was in the queue. *)
Record woken (s s' : sem) : Prop := Woken {
  woken_inv : sem_inv s';
  woken_idle : 0 < value s' → Forall (λ w, w_fut w ≠ Pending) (waiters s');
  woken_held : held s' = held s;
  woken_cap : cap s' = cap s;
  woken_reqs : w_req <$> waiters s' = w_req <$> waiters s;
}.

Lemma not_pending_due (ws : list waiter) :
  Forall (λ w, w_fut w ≠ Pending) ws → Exists (λ w, w_fut w = Pending) ws →
  Exists (λ w, w_fut w ≠ Pending) ws.
Proof.
  rewrite Forall_forall, !Exists_exists. intros H (w & Hw & Hp). by destruct (H w Hw).
Qed.

Lemma wake_loop_woken fuel s :
  value s <= fuel →
  value s + length (held s) + granted (waiters s) = cap s → fifo (waiters s) →
  woken s (wake_loop fuel s).
Proof.
  revert s. induction fuel as [|fuel IH]; intros s Hfuel Hp Hf.
  { simpl. split; [split| | | |]; try done; lia. }
  simpl. destruct (0 <? value s) eqn:Hv; cycle 1.
  { apply Nat.ltb_ge in Hv. split; [split| | | |]; try done; lia. }
  apply Nat.ltb_lt in Hv. destruct (wake_up_next s) as [s1|] eqn:Hs1.
  - destruct (wake_up_next_inv s s1 Hv Hs1 Hp Hf) as (H1 & H2 & _ & H4 & H5 & H6 & H7).
    destruct (IH s1) as [I1 I2 I3 I4 I5]; [lia|done|done|]. split; [done|done| | |]; congruence.
  - apply wake_up_next_none in Hs1. split; [split| | | |]; try done. intros _. by apply not_pending_due.
Qed.

(** ** Each operation keeps it *)

Definition members (s : sem) : list nat := held s ++ (w_req <$> waiters s).

Lemma fifo_snoc ws w : fifo ws → w_fut w ≠ Granted → fifo (ws ++ [w]).
Proof.
  intros Hf Hw. induction ws as [|x ws IH]; simpl in *; [done|]. destruct Hf as [Hx Hf].
  split; [|auto]. intros Hp. apply Forall_app. auto.
Qed.

Lemma granted_app ws1 ws2 : granted (ws1 ++ ws2) = granted ws1 + granted ws2.
Proof. unfold granted. by rewrite filter_app, length_app. Qed.

Lemma Semaphore_inv c s : Semaphore c = Some s → sem_inv s ∧ cap s = Z.to_nat c ∧ members s = [].
Proof.
  unfold Semaphore. destruct (c <? 0)%Z; [done|]. intros [= <-]. split; [|done].
  split; simpl; [change (granted []) with 0; lia|done|]. intros _ H. by apply Exists_nil in H.
Qed.

Lemma locked_due s :
  sem_inv s → locked s = true → 0 < value s → Exists (λ w, w_fut w ≠ Pending) (waiters s).
Proof.
  intros Hinv Hl Hv. unfold locked in Hl. apply orb_true_iff in Hl as [Hl|Hl].
  { apply Nat.eqb_eq in Hl. lia. }
  apply existsb_exists in Hl as (w & Hw & Hc). apply base.list_elem_of_In in Hw.
  destruct (w_fut w) eqn:Hf.
  - apply (inv_due s Hinv Hv), Exists_exists. eauto.
  - apply Exists_exists. exists w. by rewrite Hf.
  - unfold is_fut in Hc. rewrite Hf in Hc. done.
Qed.

Lemma unlocked s : locked s = false → 0 < value s ∧ Forall (λ w, w_fut w = Cancelled) (waiters s).
Proof.
  unfold locked. intros [Hv Hw]%orb_false_iff. apply Nat.eqb_neq in Hv. split; [lia|].
  apply Forall_forall. intros w Hin.
  destruct (decide (w_fut w = Cancelled)) as [|Hn]; [done|].
  enough (existsb (λ w, negb (is_fut Cancelled w)) (waiters s) = true) by congruence.
  apply existsb_exists. exists w. split; [by apply base.list_elem_of_In|].
  unfold is_fut. by rewrite bool_decide_eq_false_2.
Qed.

Lemma acquire_inv r s : sem_inv s → sem_inv (acquire r s).
Proof.
  intros Hinv. unfold acquire. destruct (locked s) eqn:Hl.
  - split; simpl.
    + rewrite granted_app. pose proof (inv_permits s Hinv). change (granted [_]) with 0. lia.
    + apply fifo_snoc; [apply Hinv|done].
    + intros Hv _. apply Exists_app. left. by apply locked_due.
  - apply unlocked in Hl as [Hv Hc]. split; simpl.
    + pose proof (inv_permits s Hinv). lia.
    + apply Hinv.
    + intros _. apply not_pending_due. eapply Forall_impl; [exact Hc|]. by intros w ->.
Qed.

Lemma cancel_waiter_fut c w :
  w_fut (cancel_waiter c w) = match w_fut w with Pending => Cancelled | f => f end.
Proof. by destruct c. Qed.
Lemma cancel_waiter_req c w : w_req (cancel_waiter c w) = w_req w.
Proof. by destruct c. Qed.

(** A cancellation resolves nothing and grants nothing. *)
Definition calmer (w w' : waiter) : Prop :=
  w_fut w' = w_fut w ∨ (w_fut w = Pending ∧ w_fut w' = Cancelled).

Lemma cancel_calmer c r w : calmer w (if w_req w =? r then cancel_waiter c w else w).
Proof.
  unfold calmer. destruct (w_req w =? r); [|by left]. rewrite cancel_waiter_fut.
  destruct (w_fut w); auto.
Qed.

Lemma calmer_fifo (f : waiter → waiter) ws : (∀ w, calmer w (f w)) → fifo ws → fifo (f <$> ws).
Proof.
  intros Hc. induction ws as [|w ws IH]; [done|]. simpl. intros [Hw Hf]. split; [|auto].
  intros Hp. apply Forall_fmap. eapply Forall_impl; [apply Hw|].
  - destruct (Hc w) as [|[]]; congruence.
  - intros x Hx. simpl. destruct (Hc x) as [|[]]; congruence.
Qed.

Lemma calmer_granted (f : waiter → waiter) ws : (∀ w, calmer w (f w)) → granted (f <$> ws) = granted ws.
Proof.
  intros Hc. induction ws as [|w ws IH]; [done|]. rewrite fmap_cons, !granted_cons, IH. f_equal.
  destruct (Hc w) as [->|[H1 H2]]; [done|]. by rewrite H1, H2.
Qed.

Lemma cancel_inv c r s : sem_inv s → sem_inv (cancel c r s).
Proof.
  intros [H1 H2 H3]. pose proof (cancel_calmer c r) as Hc. split; simpl.
  - by rewrite calmer_granted.
  - by apply calmer_fifo.
  - intros Hv. rewrite !Exists_fmap. intros Hp.
    assert (Exists (λ w, w_fut w = Pending) (waiters s)) as Hp'.
    { eapply Exists_impl; [exact Hp|]. simpl. intros w Hw. destruct (Hc w) as [|[]]; congruence. }
    eapply Exists_impl; [apply (H3 Hv Hp')|]. simpl. intros w Hw. destruct (Hc w) as [|[]]; congruence.
Qed.

Lemma cancel_waiters_req c r s : w_req <$> waiters (cancel c r s) = w_req <$> waiters s.
Proof.
  unfold cancel. cbn [waiters]. rewrite <-list_fmap_compose. apply list_fmap_ext. intros i w _. simpl.
  destruct (w_req w =? r); [|done]. apply cancel_waiter_req.
Qed.

Lemma cancel_members c r s : members (cancel c r s) = members s.
Proof. unfold members. by rewrite cancel_waiters_req. Qed.

Lemma sublist_fmap_req ws ws' : ws' `sublist_of` ws → (w_req <$> ws') `sublist_of` (w_req <$> ws).
Proof. induction 1; simpl; by constructor. Qed.

Lemma StronglySorted_sublist {A} (Q : A → A → Prop) l l' :
  l' `sublist_of` l → StronglySorted Q l → StronglySorted Q l'.
Proof.
  induction 1 as [|x l1 l2 Hl IH|x l1 l2 Hl IH]; intros Hs; inversion Hs; subst; auto; constructor; auto.
  rewrite Forall_forall in *. eauto using elem_of_sublist.
Qed.

Lemma pop_done_spec r ws w ws' :
  pop_done r ws = Some (w, ws') →
  w_req w = r ∧ w_fut w ≠ Pending
  ∧ granted ws = (if bool_decide (w_fut w = Granted) then 1 else 0) + granted ws'
  ∧ (fifo ws → fifo ws')
  ∧ w_req <$> ws ≡ₚ r :: (w_req <$> ws')
  ∧ ws' `sublist_of` ws.
Proof.
  revert ws'. induction ws as [|x ws IH]; intros ws'; [done|]. simpl.
  destruct ((w_req x =? r) && negb (is_fut Pending x)) eqn:Hx.
  - intros [= -> ->]. apply andb_true_iff in Hx as [Hr Hp]. apply Nat.eqb_eq in Hr.
    unfold is_fut in Hp. apply negb_true_iff, bool_decide_eq_false in Hp.
    split_and!; [done|done|apply granted_cons|by intros []|by rewrite Hr|].
    by apply sublist_cons.
  - destruct (pop_done r ws) as [[w' ws1]|]; [|done]. intros [= -> <-].
    destruct (IH _ eq_refl) as (H1 & H2 & H3 & H4 & H5 & H6). simpl.
    split_and!; [done|done|rewrite !granted_cons; lia| | |].
    + intros [Hf1 Hf2]. split; [|auto]. intros Hx'. specialize (Hf1 Hx'). rewrite Forall_forall in *.
      eauto using elem_of_sublist.
    + rewrite H5. apply Permutation_swap.
    + by apply sublist_skip.
Qed.

Lemma resume_inv r s w s' :
  sem_inv s → resume r s = Some (w, s') →
  sem_inv s' ∧ (0 < value s' → Forall (λ w, w_fut w ≠ Pending) (waiters s'))
  ∧ w_req w = r ∧ cap s' = cap s ∧ members s' ⊆ members s
  ∧ (w_req <$> waiters s') `sublist_of` (w_req <$> waiters s)
  ∧ held s' = (if is_fut Granted w && negb (cancelled w) then r :: held s else held s).
Proof.
  intros Hinv. unfold resume. destruct (pop_done r (waiters s)) as [[w0 ws]|] eqn:Hpop; [|done].
  intros [= -> <-]. destruct (pop_done_spec _ _ _ _ Hpop) as (H1 & H2 & H3 & H4 & H5 & H6).
  pose proof (inv_permits s Hinv) as Hp. specialize (H4 (inv_fifo s Hinv)).
  set (s1 := if is_fut Granted w then _ else _).
  assert (waiters s1 = ws ∧ cap s1 = cap s
          ∧ held s1 = (if is_fut Granted w && negb (cancelled w) then r :: held s else held s)
          ∧ value s1 + length (held s1) + granted (waiters s1) = cap s1) as (Hws & Hcap & Hheld & Hper).
  { unfold s1, is_fut in *. case_bool_decide; [destruct (cancelled w)|]; simpl in *;
      split_and!; try done; lia. }
  destruct (wake_loop_woken (value s1) s1) as [W1 W2 W3 W4 W5]; [done|done|by rewrite Hws|].
  split_and!; [done|done|done|congruence| | |congruence].
  - unfold members. rewrite W3, W5, Hheld, Hws, H5. case_match; set_solver.
  - rewrite W5, Hws. by apply sublist_fmap_req.
Qed.

Lemma remove_first_length r l : r ∈ l → S (length (remove_first r l)) = length l.
Proof.
  induction l as [|x l IH]; intros Hr; [by apply elem_of_nil in Hr|]. simpl.
  destruct (x =? r) eqn:Hx; [done|]. apply Nat.eqb_neq in Hx. simpl. rewrite IH; [done|].
  apply elem_of_cons in Hr as [->|]; done.
Qed.

Lemma remove_first_subset r l : remove_first r l ⊆ l.
Proof. induction l as [|x l IH]; simpl; [done|]. destruct (x =? r); set_solver. Qed.

Lemma release_inv r s :
  sem_inv s → r ∈ held s →
  sem_inv (release r s) ∧ cap (release r s) = cap s ∧ members (release r s) ⊆ members s
  ∧ held (release r s) = remove_first r (held s) ∧ w_req <$> waiters (release r s) = w_req <$> waiters s.
Proof.
  intros [H1 H2 H3] Hr. unfold release. set (s1 := Sem _ _ _ _).
  pose proof (remove_first_length r (held s) Hr) as Hlen.
  pose proof (remove_first_subset r (held s)) as Hsub.
  assert (value s1 + length (held s1) + granted (waiters s1) = cap s1) as Hp by (simpl; lia).
  destruct (wake_up_next s1) as [s2|] eqn:Hw; simpl.
  - destruct (wake_up_next_inv s1 s2) as (I1 & I2 & I3 & I4 & I5 & I6 & I7); [simpl; lia|done|done|done|].
    split; [split; done|]. split; [done|]. split_and!; [|done|done]. unfold members. rewrite I4, I7. set_solver.
  - apply wake_up_next_none in Hw. split; [split; [done|done|]|].
    + intros _. by apply not_pending_due.
    + split; [done|]. split_and!; [|done|done]. unfold members. set_solver.
Qed.

(** ** Slots over a registry of semaphores

    A registry gives the semaphore of a key, making it on first use. A semaphore is
    an object of the heap, which keeps it while a coroutine refers to it; beside it
    stands the key it was made for. *)

Class Registry (K R : Type) := {
  get_semaphore : K → R → list (K * sem) → option (nat * R * list (K * sem));
  no_tenants : R;
}.

(** What a registry promises: the semaphore of a key was made for that key, from
    its cap. *)
Class RegistryOk (K R : Type) `{Registry K R} := {
  cap_of : K → option Z;
  reg_ok : R → list (K * sem) → Prop;
  reg_start : reg_ok no_tenants [];
  reg_get k reg heap id reg' heap' :
    reg_ok reg heap → get_semaphore k reg heap = Some (id, reg', heap') →
    reg_ok reg' heap'
    ∧ ((heap' = heap ∧ ∃ s, heap !! id = Some (k, s))
       ∨ (id = length heap ∧ ∃ c s, cap_of k = Some c ∧ Semaphore c = Some s ∧ heap' = heap ++ [(k, s)]));
  reg_update reg heap id k s s' :
    reg_ok reg heap → heap !! id = Some (k, s) → reg_ok reg (<[id := (k, s')]> heap);
}.

(** [per_tenant_slot] gives up at its deadline; [per_tenant_storage_slot] queues. *)
Inductive slot_kind := FastFail | Queued.

Inductive outcome := Acquired | Waiting | TooMany429 | CancelledOut | Left.

Inductive event (K : Type) :=
| Enter (kind : slot_kind) (k : K)
| Cancel (c : cause) (r : nat)
| Resume (r : nat)
| Exit (r : nat).
Arguments Enter {K} kind k.
Arguments Cancel {K} c r.
Arguments Resume {K} r.
Arguments Exit {K} r.

Section Slots.
Context {K R : Type} `{!EqDecision K} {REG : Registry K R}.

Record slots := Slots { registry : R; heap : list (K * sem); reqs : list (K * nat * slot_kind) }.

Definition slots_init : slots := Slots no_tenants [] [].

Definition set_sem (id : nat) (k : K) (s : sem) (st : slots) : slots :=
  Slots (registry st) (<[id := (k, s)]> (heap st)) (reqs st).

(** [async with per_tenant_slot(scope, tenant)]: the part up to the first await.
    The request's number is its position in [reqs]. *)
Definition enter (kind : slot_kind) (k : K) (st : slots) : option (outcome * slots) :=
  match get_semaphore k (registry st) (heap st) with
  | None => None
  | Some (id, reg, h) =>
      match h !! id with
      | None => None
      | Some (k', s) =>
          let s' := acquire (length (reqs st)) s in
          Some (if locked s then Waiting else Acquired,
                Slots reg (<[id := (k', s')]> h) (reqs st ++ [(k, id, kind)]))
      end
  end.

(** How [acquire] ended for the caller: [asyncio.timeout] turns its own
    cancellation, and no other, into the 429. *)
Definition acquire_outcome (kind : slot_kind) (w : waiter) : outcome :=
  if is_fut Granted w && negb (cancelled w) then Acquired
  else match kind with
       | FastFail => if w_timeout w && negb (w_outer w) then TooMany429 else CancelledOut
       | Queued => CancelledOut
       end.

Definition run_event (e : event K) (st : slots) : option (outcome * slots) :=
  match e with
  | Enter kind k => enter kind k st
  | Cancel c r =>
      match reqs st !! r with
      | Some (k, id, kind) =>
          match heap st !! id, c, kind with
          | Some (k', s), Timeout, FastFail | Some (k', s), Outer, _ =>
              Some (Waiting, set_sem id k' (cancel c r s) st)
          | _, _, _ => None
          end
      | None => None
      end
  | Resume r =>
      match reqs st !! r with
      | Some (k, id, kind) =>
          match heap st !! id with
          | Some (k', s) =>
              match resume r s with
              | Some (w, s') => Some (acquire_outcome kind w, set_sem id k' s' st)
              | None => None
              end
          | None => None
          end
      | None => None
      end
  | Exit r =>
      match reqs st !! r with
      | Some (k, id, kind) =>
          match heap st !! id with
          | Some (k', s) =>
              if bool_decide (r ∈ held s) then Some (Left, set_sem id k' (release r s) st) else None
          | None => None
          end
      | None => None
      end
  end.

Definition step (st st' : slots) : Prop := ∃ e o, run_event e st = Some (o, st').
Definition reachable_slots : slots → Prop := reachable step (λ st, st = slots_init).

(** The requests of a key in the body of the [async with]. *)
Definition in_flight (k : K) (st : slots) : list nat :=
  filter (λ r, (λ q, q.1.1) <$> reqs st !! r = Some k) (concat ((λ p : K * sem, held p.2) <$> heap st)).

(** ** The invariant of the system *)

Context {REGOK : RegistryOk K R}.

Record slots_inv (st : slots) : Prop := SlotsInv {
  si_reg : reg_ok (registry st) (heap st);
  si_sem : ∀ id k s, heap st !! id = Some (k, s) →
    sem_inv s
    ∧ (∃ c, cap_of k = Some c ∧ cap s = Z.to_nat c)
    ∧ (∀ r, r ∈ members s → ∃ kind, reqs st !! r = Some (k, id, kind))
    ∧ StronglySorted lt (w_req <$> waiters s);
}.

(** One semaphore replaced by an operation on it. *)
Lemma set_sem_inv st id k s s' :
  slots_inv st → heap st !! id = Some (k, s) →
  sem_inv s' → cap s' = cap s → members s' ⊆ members s →
  (w_req <$> waiters s') `sublist_of` (w_req <$> waiters s) →
  slots_inv (set_sem id k s' st).
Proof.
  intros [Hreg Hsem] Hid Hs' Hcap Hmem Hsub. split; simpl.
  - by eapply reg_update.
  - intros id' k' s0 [(<- & [= -> ->] & _)|[Hne Hid']]%list_lookup_insert_Some; [|by apply Hsem].
    destruct (Hsem _ _ _ Hid) as (_ & Hc & Hr & Hso). rewrite Hcap. split_and!; [done|done| |].
    + intros r Hin. apply Hr, Hmem, Hin.
    + by eapply StronglySorted_sublist.
Qed.

Lemma acquire_members r s : members (acquire r s) ⊆ r :: members s.
Proof. unfold acquire, members. destruct (locked s); simpl; rewrite ?fmap_app; set_solver. Qed.

Lemma StronglySorted_snoc l r : Forall (λ x, x < r) l → StronglySorted lt l → StronglySorted lt (l ++ [r]).
Proof.
  induction 2 as [|x l Hs IH Hx]; simpl; [by repeat constructor|]. inversion_clear H. constructor; [auto|].
  apply Forall_app. split; [done|]. by repeat constructor.
Qed.

Lemma acquire_sorted r s :
  (∀ x, x ∈ members s → x < r) → StronglySorted lt (w_req <$> waiters s) →
  StronglySorted lt (w_req <$> waiters (acquire r s)).
Proof.
  intros Hm Hs. unfold acquire. destruct (locked s); simpl; [|done]. rewrite fmap_app.
  apply StronglySorted_snoc; [|done]. apply Forall_forall. intros x Hx. apply Hm. unfold members. set_solver.
Qed.

Lemma acquire_cap r s : cap (acquire r s) = cap s.
Proof. unfold acquire. by destruct (locked s). Qed.

Lemma members_old st q id k s r :
  slots_inv st → heap st !! id = Some (k, s) → r ∈ members s →
  ∃ kind, (reqs st ++ [q]) !! r = Some (k, id, kind).
Proof.
  intros Hinv Hid Hr. destruct (si_sem st Hinv id k s Hid) as (_ & _ & Hm & _).
  destruct (Hm r Hr) as [kind Hk]. exists kind. by apply lookup_app_l_Some.
Qed.

Lemma enter_inv kind k st o st' : slots_inv st → enter kind k st = Some (o, st') → slots_inv st'.
Proof.
  intros Hinv. pose proof Hinv as [Hreg Hsem]. unfold enter.
  destruct (get_semaphore k (registry st) (heap st)) as [[[id reg] h]|] eqn:Hget; [|done].
  destruct (reg_get _ _ _ _ _ _ Hreg Hget) as [Hreg' Hcase].
  destruct (h !! id) as [[k' s]|] eqn:Hid; [|done]. intros [= _ <-].
  assert (sem_inv s ∧ k' = k ∧ (∃ c, cap_of k = Some c ∧ cap s = Z.to_nat c)
          ∧ (∀ r, r ∈ members s → r < length (reqs st)
                  ∧ ∃ kd, (reqs st ++ [(k, id, kind)]) !! r = Some (k, id, kd))
          ∧ StronglySorted lt (w_req <$> waiters s)
          ∧ (∀ id' k0 s0, id' ≠ id → h !! id' = Some (k0, s0) → heap st !! id' = Some (k0, s0)))
    as (Hs & -> & Hc & Hm & Hso & Hold).
  { destruct Hcase as [(-> & s0 & Hid0)|(-> & c & s0 & Hc & Hs0 & ->)].
    - rewrite Hid0 in Hid. injection Hid as -> ->. destruct (Hsem _ _ _ Hid0) as (H1 & H2 & H3 & H4).
      split_and!; try done. intros r Hr. split; [|by eapply members_old].
      destruct (H3 r Hr) as [kd Hkd]. by apply lookup_lt_Some in Hkd.
    - rewrite list_lookup_middle in Hid by done. injection Hid as -> ->.
      destruct (Semaphore_inv _ _ Hs0) as (H1 & H2 & H3). apply app_eq_nil in H3 as H4.
      split_and!; [done|done|eauto| | |].
      + rewrite H3. by intros r ?%elem_of_nil.
      + destruct H4 as [_ ->]. constructor.
      + intros id' k0 s1 Hne Hl. apply lookup_app_Some in Hl as [|[Hlen Hl]]; [done|].
        apply list_lookup_singleton_Some in Hl as [Hl _]. lia. }
  split; cbn [registry heap reqs].
  - by eapply reg_update.
  - intros id' k0 s0 [(<- & [= <- <-] & _)|[Hne Hl]]%list_lookup_insert_Some.
    + rewrite acquire_cap. split_and!; [by apply acquire_inv|done| |].
      * intros r Hr%acquire_members. apply elem_of_cons in Hr as [->|Hr]; [|by apply Hm].
        exists kind. by rewrite list_lookup_middle.
      * apply acquire_sorted; [|done]. intros x Hx. by apply Hm.
    + apply Hold in Hl; [|done]. destruct (Hsem _ _ _ Hl) as (H1 & H2 & _ & H4). split_and!; try done.
      intros r. by apply members_old.
Qed.

Lemma run_event_inv e st o st' : slots_inv st → run_event e st = Some (o, st') → slots_inv st'.
Proof.
  intros Hinv. destruct e as [kind k|c r|r|r]; simpl; [by apply enter_inv| | |];
    destruct (reqs st !! r) as [[[k id] kind]|] eqn:Hr; try done;
    destruct (heap st !! id) as [[k' s]|] eqn:Hid; try done;
    destruct (si_sem st Hinv id k' s Hid) as (Hs & _ & _ & _).
  - intros H. assert (st' = set_sem id k' (cancel c r s) st) as -> by (destruct c, kind; congruence).
    apply (set_sem_inv st id k' s); [done|done|by apply cancel_inv|done|by rewrite cancel_members|].
    by rewrite cancel_waiters_req.
  - destruct (resume r s) as [[w s']|] eqn:Hres; [|done]. intros [= _ <-].
    destruct (resume_inv r s w s' Hs Hres) as (H1 & _ & _ & H2 & H3 & H4 & _). by eapply set_sem_inv.
  - case_bool_decide as Hin; [|done]. intros [= _ <-].
    destruct (release_inv r s Hs Hin) as (H1 & H2 & H3 & _ & H4).
    apply (set_sem_inv st id k' s); rewrite ?H4; done.
Qed.

Lemma run_event_frame e st o st' :
  run_event e st = Some (o, st') →
  (∃ kind k, e = Enter kind k) ∨ ∃ id k s s', heap st !! id = Some (k, s) ∧ st' = set_sem id k s' st.
Proof.
  destruct e as [kind k|c r|r|r]; simpl; [by eauto| | |];
    destruct (reqs st !! r) as [[[k id] kind]|] eqn:Hr; try done;
    destruct (heap st !! id) as [[k' s]|] eqn:Hid; try done.
  - intros H. right. exists id, k', s, (cancel c r s). by destruct c, kind; simplify_eq.
  - destruct (resume r s) as [[w s']|]; [|done]. intros [= _ <-]. right. by exists id, k', s, s'.
  - case_bool_decide; [|done]. intros [= _ <-]. right. by exists id, k', s, (release r s).
Qed.

Lemma reachable_slots_inv st : reachable_slots st → slots_inv st.
Proof.
  apply reachable_invariant.
  - intros s ->. split; [apply reg_start|]. by intros [].
  - intros s s' _ Hinv (e & o & He). by eapply run_event_inv.
Qed.

(** A run of events, with their outcomes. *)
Fixpoint run_events (es : list (event K)) (st : slots) : option (list outcome * slots) :=
  match es with
  | [] => Some ([], st)
  | e :: es =>
      match run_event e st with
      | None => None
      | Some (o, st1) =>
          match run_events es st1 with
          | None => None
          | Some (os, st2) => Some (o :: os, st2)
          end
      end
  end.

Lemma run_events_reachable es st os st' :
  reachable_slots st → run_events es st = Some (os, st') → reachable_slots st'.
Proof.
  revert st os. induction es as [|e es IH]; intros st os Hst; simpl; [by intros [= _ <-]|].
  destruct (run_event e st) as [[o st1]|] eqn:He; [|done].
  destruct (run_events es st1) as [[os1 st2]|] eqn:Hes; [|done]. intros [= _ <-].
  eapply IH; [|done]. eapply reach_step; [exact Hst|]. by exists e, o.
Qed.

(** ** What every registry of semaphores gives *)

Lemma held_within_cap st id k s :
  slots_inv st → heap st !! id = Some (k, s) →
  ∃ c, cap_of k = Some c ∧ length (held s) <= Z.to_nat c.
Proof.
  intros Hinv Hid. destruct (si_sem st Hinv id k s Hid) as (Hs & (c & Hc & Hcap) & _).
  exists c. split; [done|]. pose proof (inv_permits s Hs). lia.
Qed.

(** No request waits for nothing: in any reachable state, once every coroutine whose future is
    resolved has run, a key with a waiting request has its cap of requests in flight. No wake-up is
    lost, whatever the cancellations and however they interleave with the grants. *)
Theorem waits_only_when_full st id k s c :
  reachable_slots st → heap st !! id = Some (k, s) → cap_of k = Some c →
  waiters s ≠ [] → Forall (λ w, w_fut w = Pending) (waiters s) →
  length (held s) = Z.to_nat c.
Proof.
  intros Hst%reachable_slots_inv Hid Hc Hne Hp.
  destruct (si_sem st Hst id k s Hid) as (Hs & (c' & Hc' & Hcap) & _).
  assert (c' = c) as -> by congruence. pose proof (inv_permits s Hs) as Hper.
  assert (granted (waiters s) = 0) as Hg.
  { apply fifo_pending_granted. eapply Forall_impl; [exact Hp|]. by intros w ->. }
  assert (¬ 0 < value s) as Hv; [|lia]. intros Hv.
  assert (Exists (λ w, w_fut w ≠ Pending) (waiters s)) as Hdue.
  { apply (inv_due s Hs Hv). destruct (waiters s) as [|w ws]; [done|]. left. by inversion Hp. }
  apply Exists_exists in Hdue as (w & Hw & Hwp). rewrite Forall_forall in Hp. by apply Hwp, Hp.
Qed.

(** Slots are granted in the order of arrival: while a request waits undecided, none that arrived
    after it for the same semaphore has been granted the slot. *)
Theorem grants_in_arrival_order st id k s a b :
  reachable_slots st → heap st !! id = Some (k, s) →
  a ∈ waiters s → b ∈ waiters s → w_req a < w_req b → w_fut a = Pending → w_fut b ≠ Granted.
Proof.
  intros Hst%reachable_slots_inv Hid Ha Hb Hlt Hp.
  destruct (si_sem st Hst id k s Hid) as (Hs & _ & _ & Hso).
  pose proof (inv_fifo s Hs) as Hf. revert Ha Hb Hso Hf.
  generalize (waiters s) as ws. induction ws as [|w ws IH]; simpl; intros Ha Hb Hso Hf.
  { by apply elem_of_nil in Ha. }
  destruct Hf as [Hf1 Hf2].
  inversion_clear Hso as [|?? Hso' Hall]. apply elem_of_cons in Ha as [->|Ha]; apply elem_of_cons in Hb as [->|Hb].
  - lia.
  - specialize (Hf1 Hp). rewrite Forall_forall in Hf1. auto.
  - rewrite Forall_forall in Hall. specialize (Hall (w_req a)). simpl in Hall.
    assert (w_req w < w_req a); [|lia]. apply Hall. apply list_elem_of_fmap. eauto.
  - auto.
Qed.

Lemma concat_only {A} (l : list (list A)) id :
  (∀ i, i ≠ id → default [] (l !! i) = []) → concat l = default [] (l !! id).
Proof.
  revert id. induction l as [|x l IH]; intros id Hl; [by destruct id|]. simpl.
  destruct id as [|id]; simpl.
  - rewrite (IH (length l)); [|intros i _; apply (Hl (S i)); lia].
    rewrite (lookup_ge_None_2 l (length l)) by lia. apply app_nil_r.
  - pose proof (Hl 0 ltac:(lia)) as H0. simpl in H0. subst x. simpl. apply IH. intros i Hi. apply (Hl (S i)). lia.
Qed.

(** The requests of a key among those of a semaphore are all or none. *)
Lemma in_flight_at st k l :
  filter (λ r, (λ q, q.1.1) <$> reqs st !! r = Some k) (concat ((λ p : K * sem, held p.2) <$> l))
  = concat ((λ p : K * sem, filter (λ r, (λ q, q.1.1) <$> reqs st !! r = Some k) (held p.2)) <$> l).
Proof. induction l as [|p l IH]; [done|]. rewrite !fmap_cons. cbn [concat]. by rewrite filter_app, IH. Qed.

Lemma filter_all_or_none st id k k' s :
  slots_inv st → heap st !! id = Some (k', s) →
  filter (λ r, (λ q, q.1.1) <$> reqs st !! r = Some k) (held s) = if decide (k' = k) then held s else [].
Proof.
  intros Hinv Hid. destruct (si_sem st Hinv id k' s Hid) as (_ & _ & Hm & _).
  assert (∀ r, r ∈ held s → (λ q, q.1.1) <$> reqs st !! r = Some k') as Hk.
  { intros r Hr. destruct (Hm r) as [kd Hkd]; [unfold members; set_solver|]. by rewrite Hkd. }
  clear Hm. induction (held s) as [|r l IH]; [by case_decide|].
  pose proof (Hk r ltac:(left)) as Hr. specialize (IH ltac:(intros; apply Hk; by right)).
  rewrite filter_cons, IH, Hr. case_decide as H1; case_decide as H2; congruence.
Qed.

Lemma in_flight_unique st id k s :
  slots_inv st → heap st !! id = Some (k, s) →
  (∀ i s', heap st !! i = Some (k, s') → i = id) → in_flight k st = held s.
Proof.
  intros Hinv Hid Hu. unfold in_flight. rewrite in_flight_at.
  rewrite (concat_only _ id); [rewrite list_lookup_fmap, Hid; simpl|].
  - rewrite (filter_all_or_none st id k k s) by done. by rewrite decide_True.
  - intros i Hi. rewrite list_lookup_fmap. destruct (heap st !! i) as [[k' s']|] eqn:Hi'; [|done]. simpl.
    rewrite (filter_all_or_none st i k k' s') by done. rewrite decide_False; [done|]. intros ->. eauto.
Qed.

Lemma in_flight_absent st k :
  slots_inv st → (∀ i s', heap st !! i ≠ Some (k, s')) → in_flight k st = [].
Proof.
  intros Hinv Hk. unfold in_flight. rewrite in_flight_at.
  rewrite (concat_only _ (length (heap st))).
  { rewrite list_lookup_fmap, lookup_ge_None_2; done. }
  intros i Hi. rewrite list_lookup_fmap. destruct (heap st !! i) as [[k' s']|] eqn:Hi'; [|done]. simpl.
  rewrite (filter_all_or_none st i k k' s') by done. rewrite decide_False; [done|]. intros ->. by eapply Hk.
Qed.
End Slots.

(** ** core-api: one semaphore per scope and tenant, for the life of the process *)

Module Api.

Record Settings := {
  per_tenant_write_concurrency : Z;
  per_tenant_search_concurrency : Z;
  per_tenant_embed_concurrency : Z;
  per_tenant_storage_write_concurrency : Z;
  per_tenant_storage_search_concurrency : Z;
}.

(** The configuration the process runs with. *)
Class Config := settings : Settings.

(** [_cap_for]; [None] is the [ValueError] of an unknown scope. *)
Definition cap_for `{Config} (scope : string) : option Z :=
  if bool_decide (scope = "write") then Some (per_tenant_write_concurrency settings)
  else if bool_decide (scope = "search") then Some (per_tenant_search_concurrency settings)
  else if bool_decide (scope = "embed") then Some (per_tenant_embed_concurrency settings)
  else if bool_decide (scope = "storage_write") then Some (per_tenant_storage_write_concurrency settings)
  else if bool_decide (scope = "storage_search") then Some (per_tenant_storage_search_concurrency settings)
  else None.

Abbreviation key := (string * string)%type.
Abbreviation tenant_semaphores := (gmap key nat).

Definition api_get_semaphore `{Config} (k : key) (reg : tenant_semaphores) (h : list (key * sem))
    : option (nat * tenant_semaphores * list (key * sem)) :=
  match reg !! k with
  | Some id => Some (id, reg, h)
  | None =>
      c ← cap_for k.1;
      s ← Semaphore c;
      Some (length h, <[k := length h]> reg, h ++ [(k, s)])
  end.

#[export] Instance api_registry `{Config} : Registry key tenant_semaphores :=
  { get_semaphore := api_get_semaphore; no_tenants := ∅ }.

Definition api_reg_ok (reg : tenant_semaphores) (h : list (key * sem)) : Prop :=
  ∀ k id, reg !! k = Some id ↔ ∃ s, h !! id = Some (k, s).

#[export] Program Instance api_registry_ok `{Config} : RegistryOk key tenant_semaphores :=
  { cap_of k := cap_for k.1; reg_ok := api_reg_ok }.
Next Obligation. intros ? k id. simpl. split; [done|]. intros [s Hs]. by destruct id. Qed.
Next Obligation.
  intros ? k reg h id reg' h' Hok Hget. simpl in Hget. unfold api_get_semaphore in Hget.
  destruct (reg !! k) as [id0|] eqn:Hk.
  { injection Hget as -> -> ->. split; [done|]. left. split; [done|]. by apply Hok. }
  destruct (cap_for k.1) as [c|] eqn:Hc; [|done]. simpl in Hget.
  destruct (Semaphore c) as [s|] eqn:Hs; [|done]. simpl in Hget. injection Hget as <- <- <-.
  split; [|right; split; [done|]; exists c, s; done].
  intros k0 id0. destruct (decide (k0 = k)) as [->|Hne].
  - rewrite lookup_insert_eq. split.
    + intros [= <-]. exists s. by rewrite list_lookup_middle.
    + intros [s0 Hs0]. apply lookup_app_Some in Hs0 as [Hs0|[Hlen Hs0]].
      * assert (reg !! k = Some id0) by (apply Hok; eauto). congruence.
      * apply list_lookup_singleton_Some in Hs0 as [Hs0 _]. f_equal. lia.
  - rewrite lookup_insert_ne by done. rewrite (Hok k0 id0). split; intros [s0 Hs0]; exists s0.
    + by apply lookup_app_l_Some.
    + apply lookup_app_Some in Hs0 as [Hs0|[Hlen Hs0]]; [done|].
      apply list_lookup_singleton_Some in Hs0 as [_ Hs0]. congruence.
Qed.
Next Obligation.
  intros ? reg h id k s s' Hok Hid k0 id0. simpl. rewrite (Hok k0 id0).
  destruct (decide (id = id0)) as [<-|Hne].
  - rewrite list_lookup_insert_eq by (by eapply lookup_lt_Some). rewrite Hid. split; intros [s0 Hs0]; naive_solver.
  - by rewrite list_lookup_insert_ne.
Qed.

Section Properties.
Context {C : Config}.

Abbreviation state := (@slots key tenant_semaphores).

Lemma in_flight_held (st : state) id k s :
  slots_inv st → heap st !! id = Some (k, s) → in_flight k st = held s.
Proof.
  intros Hinv Hid. eapply in_flight_unique; [done|done|]. intros i s' Hi.
  pose proof (si_reg st Hinv) as Hok. assert (registry st !! k = Some i) by (apply Hok; eauto).
  assert (registry st !! k = Some id) by (apply Hok; eauto). congruence.
Qed.

Lemma in_flight_none (st : state) k :
  slots_inv st → registry st !! k = None → in_flight k st = [].
Proof.
  intros Hinv Hk. apply in_flight_absent; [done|]. intros i s' Hi.
  assert (registry st !! k = Some i) by (apply (si_reg st Hinv); eauto). congruence.
Qed.

(** C32: no tenant exceeds its slots: in any reachable state, the requests of a tenant and scope between
    acquiring their slot and leaving it number at most the configured cap of the scope. *)
Theorem in_flight_within_cap (st : state) scope tenant :
  reachable_slots st →
  (Z.of_nat (length (in_flight (scope, tenant) st)) <= Z.max 0 (default 0 (cap_for scope)))%Z.
Proof.
  intros Hst%reachable_slots_inv.
  destruct (registry st !! (scope, tenant)) as [id|] eqn:Hk.
  - pose proof Hk as Hk'. apply (si_reg st Hst) in Hk' as [s Hs]. rewrite (in_flight_held st id _ s) by done.
    destruct (held_within_cap st id _ s Hst Hs) as (c & Hc & Hle). simpl in Hc. rewrite Hc. simpl. lia.
  - rewrite in_flight_none by done. simpl. lia.
Qed.

(** The requests of a key still waiting. *)
Definition waiting (k : key) (st : state) : list waiter :=
  match registry st !! k with
  | Some id => default [] ((λ p : key * sem, waiters p.2) <$> heap st !! id)
  | None => []
  end.

(** Tenants do not contend: with none of its own requests waiting, a tenant's request gets the slot
    at once exactly when fewer than its cap are in flight, whatever every other tenant and scope is
    doing. *)
Theorem admitted_iff_room (st : state) kind scope tenant c :
  reachable_slots st → cap_for scope = Some c → (0 <= c)%Z → waiting (scope, tenant) st = [] →
  ∃ o st', run_event (Enter kind (scope, tenant)) st = Some (o, st')
           ∧ o = if (Z.of_nat (length (in_flight (scope, tenant) st)) <? c)%Z then Acquired else Waiting.
Proof.
  intros Hst%reachable_slots_inv Hc Hc0 Hw. simpl. unfold enter. simpl. unfold api_get_semaphore, waiting in *.
  destruct (registry st !! (scope, tenant)) as [id|] eqn:Hk.
  - pose proof Hk as Hk'. apply (si_reg st Hst) in Hk' as [s Hs]. rewrite Hs in *. simpl in Hw.
    rewrite (in_flight_held st id _ s) by done. eexists _, _. split; [done|].
    destruct (si_sem st Hst id _ s Hs) as (Hinv & (c' & Hc' & Hcap) & _). simpl in Hc'.
    assert (c' = c) as -> by congruence. pose proof (inv_permits s Hinv) as Hp.
    unfold locked. rewrite Hw in *. change (granted []) with 0 in Hp. rewrite orb_false_r.
    destruct (value s =? 0) eqn:Hv; [apply Nat.eqb_eq in Hv|apply Nat.eqb_neq in Hv];
      destruct (Z.ltb_spec (Z.of_nat (length (held s))) c); try done; lia.
  - simpl. rewrite Hc. simpl. unfold Semaphore. rewrite (proj2 (Z.ltb_ge _ _)) by done. simpl.
    rewrite list_lookup_middle by done. eexists _, _. split; [done|]. rewrite in_flight_none by done.
    unfold locked. simpl. rewrite orb_false_r.
    destruct (Z.to_nat c =? 0) eqn:Hv; [apply Nat.eqb_eq in Hv|apply Nat.eqb_neq in Hv];
      destruct (Z.ltb_spec (Z.of_nat 0) c); try done; lia.
Qed.
End Properties.
End Api.

(** ** core-worker: at most [_MAX_TRACKED_TENANTS] semaphores, least recently used first *)

Module Worker.

Definition MAX_TRACKED_TENANTS : Z := 4096.

Abbreviation lru := (list (string * nat)).

Class WorkerConfig := per_tenant_storage_write_concurrency : Z.

(** [OrderedDict.get] and [move_to_end] *)
Fixpoint lru_get (t : string) (reg : lru) : option nat :=
  match reg with
  | [] => None
  | (x, id) :: r => if bool_decide (x = t) then Some id else lru_get t r
  end.
Definition move_to_end (t : string) (id : nat) (reg : lru) : lru :=
  filter (λ p : string * nat, p.1 ≠ t) reg ++ [(t, id)].

Definition worker_get_semaphore `{WorkerConfig} (t : string) (reg : lru) (h : list (string * sem))
    : option (nat * lru * list (string * sem)) :=
  match lru_get t reg with
  | Some id => Some (id, move_to_end t id reg, h)
  | None =>
      s ← Semaphore per_tenant_storage_write_concurrency;
      let reg := if (MAX_TRACKED_TENANTS <=? Z.of_nat (length reg))%Z then tail reg else reg in
      Some (length h, reg ++ [(t, length h)], h ++ [(t, s)])
  end.

#[export] Instance worker_registry `{WorkerConfig} : Registry string lru :=
  { get_semaphore := worker_get_semaphore; no_tenants := [] }.

Record lru_ok (reg : lru) (h : list (string * sem)) : Prop := LruOk {
  lru_nodup : NoDup reg.*1;
  lru_bound : (Z.of_nat (length reg) <= MAX_TRACKED_TENANTS)%Z;
  lru_heap : ∀ t id, (t, id) ∈ reg → ∃ s, h !! id = Some (t, s);
}.

Lemma lru_get_some t reg id : lru_get t reg = Some id → (t, id) ∈ reg.
Proof.
  induction reg as [|[x i] reg IH]; simpl; [done|]. case_bool_decide; [intros [= ->]; subst; left|].
  intros ?. right. auto.
Qed.

Lemma lru_get_none t reg : lru_get t reg = None → t ∉ reg.*1.
Proof.
  induction reg as [|[x i] reg IH]; simpl; [set_solver|]. case_bool_decide; [done|]. set_solver.
Qed.

Lemma move_to_end_nodup t id reg : NoDup reg.*1 → NoDup (move_to_end t id reg).*1.
Proof.
  unfold move_to_end. intros Hn. rewrite fmap_app. apply NoDup_app. split_and!.
  - eapply sublist_NoDup; [exact Hn|]. clear. induction reg as [|p reg IH]; [done|].
    rewrite filter_cons. case_decide; simpl; [by apply sublist_skip|by apply sublist_cons].
  - intros x Hx Hx'. apply list_elem_of_fmap in Hx as (p & -> & Hp). apply list_elem_of_filter in Hp as [Hp _].
    set_solver.
  - apply NoDup_singleton.
Qed.

Lemma move_to_end_length t id reg :
  (t, id) ∈ reg → length (move_to_end t id reg) <= length reg.
Proof.
  unfold move_to_end. rewrite length_app. simpl. intros Hin.
  induction reg as [|p reg IH]; [by apply elem_of_nil in Hin|]. rewrite filter_cons.
  apply elem_of_cons in Hin as [<-|Hin]; simpl.
  - rewrite decide_False by (intros H; by apply H). pose proof (length_filter (λ p : string * nat, p.1 ≠ t) reg). lia.
  - specialize (IH Hin). case_decide; simpl in *; lia.
Qed.

Lemma move_to_end_elem t id reg x :
  (t, id) ∈ reg → x ∈ move_to_end t id reg → x ∈ reg.
Proof.
  unfold move_to_end. intros Hin [Hx|Hx]%elem_of_app.
  - by apply list_elem_of_filter in Hx as [_ ?].
  - apply list_elem_of_singleton in Hx as ->. done.
Qed.

#[export] Program Instance worker_registry_ok `{WorkerConfig} : RegistryOk string lru :=
  { cap_of t := Some per_tenant_storage_write_concurrency; reg_ok := lru_ok }.
Next Obligation. intros ?. split; [constructor|done|]. by intros ? ? ?%elem_of_nil. Qed.
Next Obligation.
  intros ? t reg h id reg' h' [Hn Hb Hh] Hget. simpl in Hget. unfold worker_get_semaphore in Hget.
  destruct (lru_get t reg) as [id0|] eqn:Ht.
  { injection Hget as -> <- <-. apply lru_get_some in Ht. split; [|left; split; [done|by apply Hh]]. split.
    - by apply move_to_end_nodup.
    - pose proof (move_to_end_length _ _ _ Ht). lia.
    - intros t0 i Hi. apply Hh. by eapply move_to_end_elem. }
  destruct (Semaphore _) as [s|] eqn:Hs; [|done]. simpl in Hget. injection Hget as <- <- <-.
  apply lru_get_none in Ht. split; [|right; split; [done|]; eexists _, s; done].
  set (reg1 := if (_ <=? _)%Z then _ else _).
  assert (reg1 `sublist_of` reg ∧ (Z.of_nat (length reg1) < MAX_TRACKED_TENANTS)%Z) as [Hsub Hlen].
  { unfold reg1. destruct (Z.leb_spec MAX_TRACKED_TENANTS (Z.of_nat (length reg))); [|split; [done|lia]].
    destruct reg as [|p reg]; simpl in *; [unfold MAX_TRACKED_TENANTS in *; lia|].
    split; [by apply sublist_cons|lia]. }
  assert (reg1.*1 `sublist_of` reg.*1) as Hsub1.
  { clear -Hsub. induction Hsub; simpl; by constructor. }
  split.
  - rewrite fmap_app. apply NoDup_app. split_and!; [by eapply sublist_NoDup| |apply NoDup_singleton].
    intros x Hx Hx'. apply Ht. simpl in Hx'. apply list_elem_of_singleton in Hx' as ->. by eapply elem_of_sublist.
  - rewrite length_app. simpl. lia.
  - intros t0 i [Hi|Hi]%elem_of_app.
    + destruct (Hh t0 i) as [s0 Hs0]; [by eapply elem_of_sublist|]. exists s0. by apply lookup_app_l_Some.
    + apply list_elem_of_singleton in Hi as [= -> ->]. exists s. by rewrite list_lookup_middle.
Qed.
Next Obligation.
  intros ? reg h id k s s' [Hn Hb Hh] Hid. split; [done|done|]. intros t i Hi.
  destruct (Hh t i Hi) as [s0 Hs0]. destruct (decide (id = i)) as [<-|Hne].
  - rewrite list_lookup_insert_eq by (by eapply lookup_lt_Some). rewrite Hid in Hs0. naive_solver.
  - rewrite list_lookup_insert_ne by done. eauto.
Qed.

Section Properties.
Context {C : WorkerConfig}.

Abbreviation state := (@slots string lru).

(** The distinct tenants the process has seen, and those its semaphores were made for. *)
Definition tenants (st : state) : gset string := list_to_set ((λ q, q.1.1) <$> reqs st).
Definition heap_keys (st : state) : list string := (heap st).*1.

Record tracked (st : state) : Prop := Tracked {
  tr_seen : ∀ t, t ∈ heap_keys st ↔ t ∈ tenants st;
  tr_kept : (Z.of_nat (size (tenants st)) <= MAX_TRACKED_TENANTS)%Z →
            ∀ id t, heap_keys st !! id = Some t → (t, id) ∈ registry st;
}.

Lemma set_sem_keys st id k s s' : heap st !! id = Some (k, s) → heap_keys (set_sem id k s' st) = heap_keys st.
Proof.
  intros Hid. unfold heap_keys. simpl. rewrite list_fmap_insert. simpl. apply list_insert_id.
  by rewrite list_lookup_fmap, Hid.
Qed.

Lemma move_to_end_keep t id reg x :
  NoDup reg.*1 → (t, id) ∈ reg → x ∈ reg → x ∈ move_to_end t id reg.
Proof.
  unfold move_to_end. intros Hn Ht Hx. apply elem_of_app. destruct (decide (x.1 = t)) as [Hxt|Hne].
  - right. apply list_elem_of_singleton. apply list_elem_of_lookup in Ht as [i Hi], Hx as [j Hj].
    assert (i = j) as ->; [|congruence]. apply (NoDup_lookup reg.*1 i j t Hn).
    + by rewrite list_lookup_fmap, Hi.
    + rewrite list_lookup_fmap, Hj. simpl. by rewrite Hxt.
  - left. by apply list_elem_of_filter.
Qed.

Lemma tenants_snoc st reg h t id kind :
  tenants (Slots reg h (reqs st ++ [(t, id, kind)])) = tenants st ∪ {[t]}.
Proof. unfold tenants. simpl. rewrite fmap_app, list_to_set_app_L. simpl. set_solver. Qed.

(** A tenant new to the process finds room in the registry while it tracks them all. *)
Lemma registry_room st t :
  slots_inv st → tracked st → t ∉ tenants st →
  (Z.of_nat (size (tenants st ∪ {[t]})) <= MAX_TRACKED_TENANTS)%Z →
  (Z.of_nat (length (registry st)) < MAX_TRACKED_TENANTS)%Z.
Proof.
  intros [[Hn Hb Hh] _] [Hseen _] Ht Hsize. rewrite size_union, size_singleton in Hsize by set_solver.
  assert (length (registry st) <= size (tenants st)); [|lia].
  rewrite <-(length_fmap fst), <-(size_list_to_set (C := gset string)) by done. apply subseteq_size.
  intros x Hx%elem_of_list_to_set. apply Hseen. apply list_elem_of_fmap in Hx as ((t0 & i) & -> & Hx).
  destruct (Hh t0 i Hx) as [s Hs]. apply list_elem_of_fmap. exists (t0, s). split; [done|].
  by eapply list_elem_of_lookup_2.
Qed.

Lemma enter_tracked kind t st o st' :
  slots_inv st → tracked st → enter kind t st = Some (o, st') → tracked st'.
Proof.
  intros Hinv Htr. pose proof Hinv as [[Hn Hb Hh] _]. pose proof Htr as [Hseen Hkept].
  unfold enter. simpl. unfold worker_get_semaphore.
  destruct (lru_get t (registry st)) as [id|] eqn:Ht.
  - apply lru_get_some in Ht. destruct (Hh t id Ht) as [s Hs]. rewrite Hs. intros [= _ <-].
    set (st' := Slots _ _ _).
    assert (heap_keys st' = heap_keys st) as Hkeys.
    { unfold heap_keys. simpl. rewrite list_fmap_insert. apply list_insert_id.
      by rewrite list_lookup_fmap, Hs. }
    assert (t ∈ tenants st) as Hin.
    { apply Hseen. apply list_elem_of_fmap. exists (t, s). split; [done|]. by eapply list_elem_of_lookup_2. }
    assert (tenants st' = tenants st) as Hten by (unfold st'; rewrite tenants_snoc; set_solver).
    split; rewrite Hkeys, Hten; [done|]. intros Hsize i t0 Hi. simpl. apply move_to_end_keep; auto.
  - destruct (Semaphore _) as [s|]; [|done]. simpl. rewrite list_lookup_middle by done. intros [= _ <-].
    apply lru_get_none in Ht. set (st' := Slots _ _ _).
    assert (heap_keys st' = heap_keys st ++ [t]) as Hkeys.
    { unfold heap_keys. simpl. rewrite list_fmap_insert, fmap_app. apply list_insert_id.
      apply list_lookup_middle. by rewrite length_fmap. }
    assert (tenants st' = tenants st ∪ {[t]}) as Hten by apply tenants_snoc.
    split; rewrite Hkeys, Hten.
    + intros t0. rewrite elem_of_app, Hseen. set_solver.
    + intros Hsize. assert (Z.of_nat (size (tenants st)) <= MAX_TRACKED_TENANTS)%Z as Hsize'.
      { assert (size (tenants st) <= size (tenants st ∪ {[t]})); [apply subseteq_size; set_solver|lia]. }
      specialize (Hkept Hsize').
      assert (t ∉ tenants st) as Hnew.
      { intros Hin%Hseen. apply list_elem_of_lookup in Hin as [i Hi]. apply Ht, list_elem_of_fmap.
        exists (t, i). auto. }
      pose proof (registry_room st t Hinv Htr Hnew Hsize) as Hroom. simpl.
      rewrite (proj2 (Z.leb_gt _ _) Hroom). intros i t0 Hi. apply elem_of_app.
      apply lookup_app_Some in Hi as [Hi|[Hlen Hi]]; [auto|]. right. apply list_elem_of_singleton.
      apply list_lookup_singleton_Some in Hi as [Hi <-]. f_equal.
      unfold heap_keys in *. rewrite length_fmap in *. lia.
Qed.

Lemma reachable_tracked st : reachable_slots st → slots_inv st ∧ tracked st.
Proof.
  apply (reachable_invariant step (λ s, s = slots_init) (λ st, slots_inv st ∧ tracked st)).
  - intros s ->. split; [by apply reachable_slots_inv, reach_init|]. split; simpl; [set_solver|done].
  - intros s s' _ [Hinv Htr] (e & o & He). split; [by eapply run_event_inv|].
    destruct (run_event_frame e s o s' He) as [(kind & k & ->)|(id & k & sm & sm' & Hid & ->)].
    + by eapply enter_tracked.
    + destruct Htr as [H1 H2]. split; rewrite (set_sem_keys _ _ _ sm) by done; done.
Qed.

(** While a worker has seen no more tenants than it tracks, none of them exceeds its storage slots:
    the registry then never evicts, so a tenant has one semaphore for the life of the process. *)
Theorem worker_in_flight_within_cap (st : state) t :
  reachable_slots st → (Z.of_nat (size (tenants st)) <= MAX_TRACKED_TENANTS)%Z →
  (Z.of_nat (length (in_flight t st)) <= Z.max 0 per_tenant_storage_write_concurrency)%Z.
Proof.
  intros [Hinv [Hseen Hkept]]%reachable_tracked Hsize. specialize (Hkept Hsize).
  destruct (decide (t ∈ heap_keys st)) as [Ht|Ht].
  - apply list_elem_of_lookup in Ht as [id Hid]. pose proof Hid as Hid'.
    unfold heap_keys in Hid'. rewrite list_lookup_fmap in Hid'.
    destruct (heap st !! id) as [[t' s]|] eqn:Hs; [|done]. simpl in Hid'. injection Hid' as ->.
    rewrite (in_flight_unique st id t s Hinv Hs).
    + destruct (held_within_cap st id t s Hinv Hs) as (c & Hc & Hle). simpl in Hc. injection Hc as ->. lia.
    + intros i s' Hi. assert ((t, i) ∈ registry st) as H1.
      { apply Hkept. unfold heap_keys. by rewrite list_lookup_fmap, Hi. }
      pose proof (Hkept _ _ Hid) as H2. destruct (si_reg st Hinv) as [Hn _ _].
      apply list_elem_of_lookup in H1 as [a Ha], H2 as [b Hb].
      assert (a = b) as ->; [|congruence]. apply (NoDup_lookup (registry st).*1 a b t Hn).
      * by rewrite list_lookup_fmap, Ha.
      * by rewrite list_lookup_fmap, Hb.
  - rewrite in_flight_absent; [simpl; lia|done|]. intros i s' Hi. apply Ht.
    apply list_elem_of_fmap. exists (t, s'). split; [done|]. by eapply list_elem_of_lookup_2.
Qed.
End Properties.
End Worker.

(** ** A run *)

Module Sample.
Import Api.

#[local] Instance config : Config := Build_Settings 1 2 1 1 1.

Definition w : key := ("write", "acme").
Definition crowded : list (event key) :=
  [Enter FastFail w; Enter FastFail w; Enter FastFail w; Enter FastFail ("write", "globex")].

Definition state_of (es : list (event key)) : @slots key tenant_semaphores :=
  match run_events es slots_init with Some (_, st) => st | None => slots_init end.

Lemma state_of_reachable es : reachable_slots (state_of es).
Proof.
  unfold state_of. destruct (run_events es slots_init) as [[os st]|] eqn:H; [|by apply reach_init].
  eapply run_events_reachable; [by apply reach_init|exact H].
Qed.

(** A grant that meets the deadline before its coroutine runs is a 429, and the slot
    goes to the next in line. *)
Example deadline_hands_slot_on :
  fst <$> run_events (crowded ++ [Exit 0; Cancel Timeout 1; Resume 1; Resume 2]) slots_init
  = Some [Acquired; Waiting; Waiting; Acquired; Left; Waiting; TooMany429; Acquired].
Proof. vm_compute. reflexivity. Qed.
Lemma waits_only_when_full_witness :
  length (held (Sem 1 0 [Waiter 1 Pending false false; Waiter 2 Pending false false] [0])) = 1.
Proof.
  refine (waits_only_when_full (REGOK := api_registry_ok) (state_of crowded) 0 w _ 1
            (state_of_reachable crowded) _ _ _ _).
  - vm_compute. reflexivity.
  - reflexivity.
  - discriminate.
  - repeat constructor.
Defined.

Lemma grants_in_arrival_order_witness :
  w_fut (Waiter 2 Pending false false) ≠ Granted.
Proof.
  refine (grants_in_arrival_order (REGOK := api_registry_ok) (state_of crowded) 0 w
            (Sem 1 0 [Waiter 1 Pending false false; Waiter 2 Pending false false] [0])
            (Waiter 1 Pending false false) (Waiter 2 Pending false false)
            (state_of_reachable crowded) _ _ _ _ _).
  - vm_compute. reflexivity.
  - left.
  - right. left.
  - simpl. lia.
  - reflexivity.
Defined.

Lemma in_flight_within_cap_witness :
  (Z.of_nat (length (in_flight w (state_of crowded))) <= 1)%Z.
Proof. exact (in_flight_within_cap _ "write" "acme" (state_of_reachable crowded)). Defined.

Lemma admitted_iff_room_witness :
  ∃ o st', run_event (Enter FastFail ("write", "initech")) (state_of crowded) = Some (o, st')
           ∧ o = Acquired.
Proof.
  destruct (admitted_iff_room (state_of crowded) FastFail "write" "initech" 1
              (state_of_reachable _)) as (o & st' & H1 & H2).
  - reflexivity.
  - lia.
  - vm_compute. reflexivity.
  - exists o, st'. split; [exact H1|]. rewrite H2. vm_compute. reflexivity.
Defined.

#[local] Instance worker_config : Worker.WorkerConfig := 2%Z.
Import Worker.

Lemma worker_in_flight_within_cap_witness :
  ∃ os st, run_events [Enter Queued "acme"; Enter Queued "acme"; Enter Queued "acme"] slots_init = Some (os, st)
           ∧ (Z.of_nat (length (in_flight "acme" st)) <= 2)%Z.
Proof.
  destruct (run_events [Enter Queued "acme"; Enter Queued "acme"; Enter Queued "acme"] slots_init)
    as [[os st]|] eqn:Hrun; [|vm_compute in Hrun; discriminate Hrun].
  exists os, st. split; [reflexivity|].
  refine (Worker.worker_in_flight_within_cap st "acme" _ _).
  - eapply run_events_reachable; [by apply reach_init|exact Hrun].
  - vm_compute in Hrun. injection Hrun as _ <-. vm_compute. discriminate.
Defined.
End Sample.
