(* ===== verification/SkillWrite.v ===== *)
(** * Skill writes: the gate every write to the [skills] collection passes

    [validate_and_normalize_skill_write] of
    [core-api/.../services/skill_lifecycle.py], adjustment by adjustment in the
    order the function makes them, over the request's JSON object, the caller's
    context and the stored document the write would replace. An error carries the
    status of the [HTTPException] and a short name for which check raised it, or
    the built-in exception an ill-typed body provokes. The scanner's findings are
    an argument (the class [Sentinel]); how the gate treats them is modelled. *)

From S2P Require Import PyStr PyVal Sha256.

#[local] Open Scope Z_scope.

Abbreviation pydict := (list (string * pyval)).

Definition ALLOWED_SOURCES : list string := ["forge"; "agent"; "manual"; "imported"].
Definition ALLOWED_KINDS : list string := ["create"; "update"].
Definition ALLOWED_STATUSES : list string :=
  ["candidate"; "staged"; "active"; "rejected"; "quarantined"; "stale"; "deprecated"].
Definition ADMIN_ONLY_SOURCES : list string := ["manual"].
Definition INTERNAL_ONLY_SOURCES : list string := ["forge"].
Definition ADMIN_ONLY_STATUSES : list string := ["active"].
Definition INTERNAL_ONLY_STATUSES : list string := ["candidate"].
Definition SYSTEM_ONLY_STATUSES : list string := ["quarantined"; "rejected"; "stale"; "deprecated"].
Definition PROTECTED_LIVE_STATUSES : list string :=
  ADMIN_ONLY_STATUSES ++ INTERNAL_ONLY_STATUSES ++ SYSTEM_ONLY_STATUSES.
Definition UNATTRIBUTED_AGENT_ID : string := "unknown".
Definition REQUIRED_TOP_LEVEL_KEYS : list string :=
  ["name"; "slug"; "description"; "domain"; "kind"; "source"].

(** [SkillWriteContext] *)
Record skill_ctx := SkillCtx {
  caller_agent_id : option string;
  is_admin : bool;
  is_internal_forge : bool;
  description_max_bytes : Z;
  body_max_bytes : Z;
  is_inbox_edit : bool;
}.

(** ** The scanner's verdict *)

Record scan_finding := ScanFinding {
  f_code : string; f_severity : string; f_message : string; f_fatal : bool; f_locator : option string;
}.
Record scan_result := ScanResult {
  sc_state : string; sc_scanned_at : string; sc_critical : Z; sc_warn : Z; sc_info : Z;
  sc_findings : list scan_finding;
}.

Definition any_fatal (r : scan_result) : bool := existsb f_fatal (sc_findings r).

Definition finding_field (f : scan_finding) : pyval :=
  PDict ([("code", PStr (f_code f)); ("severity", PStr (f_severity f)); ("message", PStr (f_message f));
          ("fatal", PBool (f_fatal f))]
         ++ match f_locator f with
            | Some l => if bool_decide (l = "") then [] else [("locator", PStr l)]
            | None => []
            end).
Definition as_doc_field (r : scan_result) : pyval :=
  PDict [("state", PStr (sc_state r)); ("scanned_at", PStr (sc_scanned_at r));
         ("critical", PInt (sc_critical r)); ("warn", PInt (sc_warn r)); ("info", PInt (sc_info r));
         ("findings", PList (finding_field <$> sc_findings r))].

(** [scan_skill_doc] on a document under the two caps. *)
Class Sentinel := scan_skill_doc : pydict → Z → Z → scan_result.

(** The built-in [dict] on a list of pairs. *)
Class DictOfPairs := dict_of_pairs : list pyval → result exn pydict.

(** ** Python's reading of the JSON values *)

Definition get (k : string) (d : pydict) : pyval := default PNone (dict_get k d).

(** [v in frozenset({...})]: a list or a dict has no hash. *)
Definition in_set (v : pyval) (s : list string) : result exn bool :=
  match v with
  | PList _ | PDict _ => Err (PyError "TypeError" "unhashable type")
  | PStr x => Ok (bool_decide (x ∈ s))
  | _ => Ok false
  end.

(** [(v or {})] used as a dict: what is true and no dict has no [get]. *)
Definition or_empty (v : pyval) : result exn pydict :=
  if negb (truthy v) then Ok []
  else match v with
       | PDict d => Ok d
       | _ => Err (PyError "AttributeError" "get")
       end.

(** [dict(v or {})] *)
Definition dict_or_empty `{DictOfPairs} (v : pyval) : result exn pydict :=
  if negb (truthy v) then Ok []
  else match v with
       | PDict d => Ok d
       | PList l => dict_of_pairs l
       | PStr _ => Err (PyError "ValueError" "dictionary update sequence element #0 has length 1; 2 is required")
       | _ => Err (PyError "TypeError" "object is not iterable")
       end.

Definition bytes_len (s : string) : Z := str_len (utf8 s).
Definition is_str (v : pyval) : bool := match v with PStr _ => true | _ => false end.
Definition str_or_empty (v : pyval) : string := match v with PStr s => s | _ => "" end.

Definition http (status : Z) (which : string) : exn := HTTPException status which.

(** [_SLUG_RE.fullmatch]: [^[a-z0-9][a-z0-9._-]{0,99}$] *)
Definition slug_head (c : ascii) : bool := is_az c || is_digit c.
Definition slug_char (c : ascii) : bool :=
  slug_head c || bool_decide (c ∈ ["."; "_"; "-"]%char).
Definition slug_ok (s : string) : bool :=
  match s with
  | EmptyString => false
  | String c r => slug_head c && str_all slug_char r && (str_len r <=? 99)
  end.

(** ** The adjustments *)

(** Adjustment 1: the shape of the body. *)
Definition tags_ok (out : pydict) : bool :=
  match dict_get "tags" out with
  | None => true
  | Some (PList l) => forallb is_str l
  | Some _ => false
  end.

Definition check_shape (out : pydict) : result exn unit :=
  _ ← raise_if (negb (forallb (λ k, dict_mem k out) REQUIRED_TOP_LEVEL_KEYS)) (http 422 "missing");
  _ ← raise_if (negb (forallb (λ k, is_str (get k out)) ["name"; "slug"; "description"; "domain"]))
        (http 422 "not a string");
  _ ← raise_if (negb (slug_ok (str_or_empty (get "slug" out)))) (http 422 "slug");
  known_kind ← in_set (get "kind" out) ALLOWED_KINDS;
  _ ← raise_if (negb known_kind) (http 422 "kind");
  known_source ← in_set (get "source" out) ALLOWED_SOURCES;
  _ ← raise_if (negb known_source) (http 422 "source");
  raise_if (negb (tags_ok out)) (http 422 "tags").

(** Adjustment 4: who may mint which source. *)
Definition check_source (ctx : skill_ctx) (src : string) : result exn unit :=
  if is_inbox_edit ctx then Ok tt
  else
    _ ← raise_if (bool_decide (src ∈ INTERNAL_ONLY_SOURCES) && negb (is_internal_forge ctx))
          (http 403 "source reserved");
    raise_if (bool_decide (src ∈ ADMIN_ONLY_SOURCES) && negb (is_admin ctx)) (http 403 "source admin").

(** Adjustment 5: the default status, and who may write which. *)
Definition default_status (ctx : skill_ctx) (out : pydict) : pydict :=
  if dict_mem "status" out then out
  else dict_set "status" (PStr (if is_internal_forge ctx then "candidate" else "staged")) out.

Definition check_status (ctx : skill_ctx) (status : pyval) : result exn unit :=
  known ← in_set status ALLOWED_STATUSES;
  _ ← raise_if (negb known) (http 422 "status");
  internal ← in_set status INTERNAL_ONLY_STATUSES;
  _ ← raise_if (internal && negb (is_internal_forge ctx)) (http 403 "status reserved");
  admin ← in_set status ADMIN_ONLY_STATUSES;
  _ ← raise_if (admin && negb (is_admin ctx)) (http 403 "status admin");
  system ← in_set status SYSTEM_ONLY_STATUSES;
  raise_if system (http 403 "status system").

(** [live_skill_doc.get("data") if isinstance(live_skill_doc, dict) else None] *)
Definition live_data_of (live : pyval) : pyval :=
  match live with PDict d => get "data" d | _ => PNone end.

Definition caller_val (ctx : skill_ctx) : pyval :=
  match caller_agent_id ctx with Some a => PStr a | None => PNone end.

(** The stored row's owner, unless it is unattributed. *)
Definition live_owner_of (live_data : pydict) : result exn pyval :=
  match get "origin" live_data with
  | PDict o =>
      let owner := get "agent_id" o in
      Ok (if py_eqb owner (PStr UNATTRIBUTED_AGENT_ID) then PNone else owner)
  | _ => Ok PNone
  end.

(** Adjustment 5b: the row the write would replace. *)
Definition check_live (ctx : skill_ctx) (live : pyval) : result exn unit :=
  if bool_decide (live = PNone) || (is_admin ctx || is_internal_forge ctx) then Ok tt
  else
    live_data ← or_empty (live_data_of live);
    protected ← in_set (get "status" live_data) PROTECTED_LIVE_STATUSES;
    _ ← raise_if protected (http 403 "live status");
    owner ← live_owner_of live_data;
    raise_if (negb (bool_decide (owner = PNone)) && negb (py_eqb owner (caller_val ctx)))
      (http 403 "live owner").

(** Adjustments 2 and 3: the caps, and the body a skill must carry. *)
Definition check_caps (ctx : skill_ctx) (src : string) (out : pydict) : result exn unit :=
  _ ← raise_if (description_max_bytes ctx <? bytes_len (str_or_empty (get "description" out)))
        (http 422 "description");
  match get "content" out with
  | PNone => raise_if (negb (bool_decide (src = "imported"))) (http 422 "content required")
  | PStr c => raise_if (body_max_bytes ctx <? bytes_len c) (http 422 "content size")
  | _ => Err (http 422 "content type")
  end.

(** [_sha256] *)
Definition sha256_tag (s : string) : string := "sha256:" +:+ hexdigest (sha256 (utf8 s)).

(** Adjustment 6: what the server fills in, whatever the body says. *)
Definition fill_in `{DictOfPairs} (ctx : skill_ctx) (now : string) (out : pydict) : result exn pydict :=
  let out := if dict_mem "created_at" out then out else dict_set "created_at" (PStr now) out in
  let out := dict_set "updated_at" (PStr now) out in
  let out := match get "content" out with
             | PStr c => dict_set "content_hash" (PStr (sha256_tag c)) out
             | _ => out
             end in
  origin ← dict_or_empty (get "origin" out);
  let agent := match caller_agent_id ctx with
               | Some a => if bool_decide (a = "") then UNATTRIBUTED_AGENT_ID else a
               | None => UNATTRIBUTED_AGENT_ID
               end in
  Ok (dict_set "origin" (PDict (dict_set "agent_id" (PStr agent) origin)) out).

(** Adjustment 7a: an update names the content it was made from. *)
Definition check_binding (live : pyval) (out : pydict) : result exn unit :=
  if negb (py_eqb (get "kind" out) (PStr "update")) then Ok tt
  else
    match get "target" out with
    | PDict target =>
        _ ← raise_if (negb (dict_mem "target_content_hash" target)) (http 422 "target");
        _ ← raise_if (bool_decide (live = PNone)) (http 404 "no live skill");
        live_data ← or_empty (live_data_of live);
        let live_hash := get "content_hash" live_data in
        _ ← raise_if (bool_decide (live_hash = PNone)) (http 409 "cannot bind");
        raise_if (negb (py_eqb (get "target_content_hash" target) live_hash)) (http 409 "hash mismatch")
    | _ => Err (http 422 "target")
    end.

(** Adjustment 7b: the scan. *)
Definition apply_scan `{Sentinel} (ctx : skill_ctx) (now : string) (out : pydict)
    : result exn (pydict * scan_result) :=
  let r := scan_skill_doc out (body_max_bytes ctx) (description_max_bytes ctx) in
  _ ← raise_if (any_fatal r) (http 422 "fatal finding");
  let out := if bool_decide (sc_state r = "quarantined")
             then dict_set "quarantined_at" (PStr now) (dict_set "status" (PStr "quarantined") out)
             else out in
  Ok (dict_set "scan" (as_doc_field r) out, r).

Definition validate_and_normalize_skill_write `{Sentinel, DictOfPairs} (now : string) (ctx : skill_ctx)
    (data live : pyval) : result exn (pydict * scan_result) :=
  match data with
  | PDict out =>
      _ ← check_shape out;
      let src := str_or_empty (get "source" out) in
      _ ← check_source ctx src;
      let out := default_status ctx out in
      _ ← check_status ctx (get "status" out);
      _ ← check_live ctx live;
      _ ← check_caps ctx src out;
      out ← fill_in ctx now out;
      _ ← check_binding live out;
      apply_scan ctx now out
  | _ => Err (http 422 "not an object")
  end.

(** ** What an accepted write went through *)

Lemma in_set_ok v s b : in_set v s = Ok b → b = true ↔ ∃ x, v = PStr x ∧ x ∈ s.
Proof.
  destruct v; simpl; intros H; simplify_eq; try (split; [done|intros (? & ? & ?); done]).
  rewrite bool_decide_eq_true. split; [eauto|]. by intros (y & [= ->] & ?).
Qed.

Lemma get_set_eq k v d : get k (dict_set k v d) = v.
Proof. unfold get. by rewrite dict_get_set_eq. Qed.
Lemma get_set_ne k k' v d : k' ≠ k → get k' (dict_set k v d) = get k' d.
Proof. intros. unfold get. by rewrite dict_get_set_ne. Qed.

Section Accepted.
Context {SC : Sentinel} {DP : DictOfPairs}.

Record accepted (now : string) (ctx : skill_ctx) (data live : pyval) (res : pydict) (r : scan_result)
    (out0 out : pydict) : Prop := Accepted {
  acc_data : data = PDict out0;
  acc_shape : check_shape out0 = Ok tt;
  acc_source : check_source ctx (str_or_empty (get "source" out0)) = Ok tt;
  acc_status : check_status ctx (get "status" (default_status ctx out0)) = Ok tt;
  acc_live : check_live ctx live = Ok tt;
  acc_caps : check_caps ctx (str_or_empty (get "source" out0)) (default_status ctx out0) = Ok tt;
  acc_fill : fill_in ctx now (default_status ctx out0) = Ok out;
  acc_binding : check_binding live out = Ok tt;
  acc_scan : apply_scan ctx now out = Ok (res, r);
}.

Lemma validate_ok now ctx data live res r :
  validate_and_normalize_skill_write now ctx data live = Ok (res, r) →
  ∃ out0 out, accepted now ctx data live res r out0 out.
Proof.
  destruct data as [| | | | | |out0]; simpl; try discriminate. intros H.
  apply bind_ok in H as ([] & H1 & H). apply bind_ok in H as ([] & H2 & H).
  apply bind_ok in H as ([] & H3 & H). apply bind_ok in H as ([] & H4 & H).
  apply bind_ok in H as ([] & H5 & H). apply bind_ok in H as (out & H6 & H).
  apply bind_ok in H as ([] & H7 & H). by exists out0, out.
Qed.

Lemma default_status_get ctx out k : k ≠ "status" → get k (default_status ctx out) = get k out.
Proof. intros. unfold default_status. case_match; [done|]. by rewrite get_set_ne. Qed.

(** The keys the server fills in; the rest is the caller's. *)
Lemma fill_in_get now ctx out0 out k :
  fill_in ctx now out0 = Ok out → k ∉ ["created_at"; "updated_at"; "content_hash"; "origin"] →
  get k out = get k out0.
Proof.
  unfold fill_in. intros H Hk. apply bind_ok in H as (o & _ & H). injection H as <-.
  rewrite get_set_ne by set_solver. set (out1 := dict_set "updated_at" _ _).
  transitivity (get k out1).
  - destruct (get "content" out1); try done. rewrite get_set_ne by set_solver. done.
  - unfold out1. rewrite get_set_ne by set_solver. case_match; [done|]. by rewrite get_set_ne by set_solver.
Qed.

Lemma fill_in_origin now ctx out0 out :
  fill_in ctx now out0 = Ok out →
  ∃ o, get "origin" out = PDict o
       ∧ get "agent_id" o = PStr (match caller_agent_id ctx with
                                  | Some a => if bool_decide (a = "") then UNATTRIBUTED_AGENT_ID else a
                                  | None => UNATTRIBUTED_AGENT_ID
                                  end).
Proof.
  unfold fill_in. intros H. apply bind_ok in H as (o & _ & H). injection H as <-.
  eexists. rewrite get_set_eq. split; [done|]. by rewrite get_set_eq.
Qed.

Lemma fill_in_hash now ctx out0 out c :
  fill_in ctx now out0 = Ok out → get "content" out0 = PStr c →
  get "content_hash" out = PStr (sha256_tag c).
Proof.
  unfold fill_in. intros H Hc. apply bind_ok in H as (o & _ & H). injection H as <-.
  rewrite get_set_ne by done. set (out1 := dict_set "updated_at" _ _).
  assert (get "content" out1 = PStr c) as ->.
  { unfold out1. rewrite get_set_ne by done. case_match; [done|]. by rewrite get_set_ne. }
  by rewrite get_set_eq.
Qed.

Lemma apply_scan_ok now ctx out res r :
  apply_scan ctx now out = Ok (res, r) →
  r = scan_skill_doc out (body_max_bytes ctx) (description_max_bytes ctx)
  ∧ any_fatal r = false
  ∧ (∀ k, k ∉ ["status"; "quarantined_at"; "scan"] → get k res = get k out)
  ∧ get "status" res = (if bool_decide (sc_state r = "quarantined") then PStr "quarantined" else get "status" out)
  ∧ get "scan" res = as_doc_field r.
Proof.
  unfold apply_scan. intros H. apply bind_ok in H as (u & Hf & H). apply raise_if_ok in Hf.
  injection H as <- <-. split; [done|]. split; [done|]. rewrite get_set_eq.
  split; [|split; [|done]].
  - intros k Hk. rewrite get_set_ne by set_solver. case_bool_decide; [|done].
    rewrite !get_set_ne by set_solver. done.
  - rewrite get_set_ne by done. case_bool_decide; [|done]. rewrite get_set_ne by done. apply get_set_eq.
Qed.

(** The status an accepted write lands in. *)
Lemma check_status_ok ctx status :
  check_status ctx status = Ok tt →
  ∃ s, status = PStr s ∧ s ∈ ["candidate"; "staged"; "active"]
       ∧ (s = "candidate" → is_internal_forge ctx = true) ∧ (s = "active" → is_admin ctx = true).
Proof.
  unfold check_status. intros H.
  apply bind_ok in H as (known & Hknown%in_set_ok & H).
  apply bind_ok in H as (_ & Hr1%raise_if_ok%negb_false_iff & H).
  apply bind_ok in H as (internal & Hint%in_set_ok & H). apply bind_ok in H as (_ & Hr2%raise_if_ok & H).
  apply bind_ok in H as (admin & Hadm%in_set_ok & H). apply bind_ok in H as (_ & Hr3%raise_if_ok & H).
  apply bind_ok in H as (system & Hsys%in_set_ok & Hr4%raise_if_ok).
  destruct (proj1 Hknown Hr1) as (s & -> & Hs). exists s.
  assert (s ∉ SYSTEM_ONLY_STATUSES) as Hnot.
  { intros Hin. assert (system = true); [|congruence]. apply Hsys. eauto. }
  split; [done|]. split; [|split; intros ->].
  - unfold ALLOWED_STATUSES, SYSTEM_ONLY_STATUSES in *. set_solver.
  - assert (internal = true) as -> by (apply Hint; eexists; split; [done|by left]).
    by apply negb_false_iff.
  - assert (admin = true) as -> by (apply Hadm; eexists; split; [done|by left]).
    by apply negb_false_iff.
Qed.

Lemma check_source_ok ctx src :
  check_source ctx src = Ok tt → is_inbox_edit ctx = false →
  (src = "forge" → is_internal_forge ctx = true) ∧ (src = "manual" → is_admin ctx = true).
Proof.
  unfold check_source. intros H Hedit. rewrite Hedit in H.
  apply bind_ok in H as (_ & H1%raise_if_ok & H2%raise_if_ok).
  split; intros ->; [clear H2|clear H1]; bool_to_prop.
  - by destruct (is_internal_forge ctx).
  - by destruct (is_admin ctx).
Qed.

Lemma check_shape_ok out :
  check_shape out = Ok tt →
  (∃ k, get "kind" out = PStr k ∧ k ∈ ALLOWED_KINDS)
  ∧ (∃ s, get "source" out = PStr s ∧ s ∈ ALLOWED_SOURCES)
  ∧ (∃ d, get "description" out = PStr d)
  ∧ ∃ slug, get "slug" out = PStr slug ∧ slug_ok slug = true.
Proof.
  unfold check_shape. intros H.
  apply bind_ok in H as (_ & _ & H). apply bind_ok in H as (_ & Hstr%raise_if_ok%negb_false_iff & H).
  apply bind_ok in H as (_ & Hslug%raise_if_ok%negb_false_iff & H).
  apply bind_ok in H as (kk & Hkind%in_set_ok & H). apply bind_ok in H as (_ & H1%raise_if_ok%negb_false_iff & H).
  apply bind_ok in H as (ks & Hsrc%in_set_ok & H). apply bind_ok in H as (_ & H2%raise_if_ok%negb_false_iff & _).
  split; [by apply Hkind|]. split; [by apply Hsrc|]. cbn [forallb] in Hstr.
  apply andb_true_iff in Hstr as [_ Hstr]. apply andb_true_iff in Hstr as [Hs Hstr].
  apply andb_true_iff in Hstr as [Hd _].
  split; [by destruct (get "description" out); eauto|].
  destruct (get "slug" out) as [| | | |slug| |]; try done. by exists slug.
Qed.

(** ** What the gate promises *)

(** A write by an agent, neither admin nor Forge, lands in review and under its own name: its status
    is [staged], or [quarantined] exactly when the scan says so; its source is [agent] or [imported];
    its origin is the caller, never what the body claims; and it carries the scan that was made. *)
Theorem agent_write_lands_in_review now ctx data live res r :
  is_admin ctx = false → is_internal_forge ctx = false → is_inbox_edit ctx = false →
  validate_and_normalize_skill_write now ctx data live = Ok (res, r) →
  get "status" res = PStr (if bool_decide (sc_state r = "quarantined") then "quarantined" else "staged")
  ∧ (get "source" res = PStr "agent" ∨ get "source" res = PStr "imported")
  ∧ (∃ o, get "origin" res = PDict o
          ∧ get "agent_id" o = PStr (match caller_agent_id ctx with
                                     | Some a => if bool_decide (a = "") then UNATTRIBUTED_AGENT_ID else a
                                     | None => UNATTRIBUTED_AGENT_ID
                                     end))
  ∧ get "scan" res = as_doc_field r.
Proof.
  intros Hadm Hforge Hedit (out0 & out & A)%validate_ok. destruct A.
  destruct (apply_scan_ok _ _ _ _ _ acc_scan0) as (_ & _ & Hget & Hst & Hsc).
  destruct (check_status_ok _ _ acc_status0) as (s & Hs & Hin & Hcand & Hact).
  destruct (check_source_ok _ _ acc_source0 Hedit) as [Hf Hm].
  destruct (check_shape_ok _ acc_shape0) as (_ & (src & Hsrc & Hsin) & _).
  split; [|split; [|split]].
  - rewrite Hst, (fill_in_get _ _ _ _ _ acc_fill0) by set_solver. case_bool_decide; [done|]. rewrite Hs.
    f_equal. set_unfold. destruct Hin as [->|[->|[->|[]]]]; [|done|]; [rewrite Hcand in Hforge|rewrite Hact in Hadm]; done.
  - rewrite Hget, (fill_in_get _ _ _ _ _ acc_fill0), default_status_get, Hsrc by set_solver.
    rewrite Hsrc in Hf, Hm. simpl in *. set_unfold. destruct Hsin as [->|[->|[->|[->|[]]]]]; auto.
    + rewrite Hf in Hforge; done.
    + rewrite Hm in Hadm; done.
  - rewrite Hget by set_solver. by eapply fill_in_origin.
  - done.
Qed.

(** No accepted write skips review: whoever makes it, an [active] result needs an admin and a scan
    that neither quarantined it nor found anything fatal, a [candidate] needs Forge, and
    [rejected], [stale] and [deprecated] are written by nobody. *)
Theorem status_needs_its_authority now ctx data live res r :
  validate_and_normalize_skill_write now ctx data live = Ok (res, r) →
  ∃ s, get "status" res = PStr s
       ∧ s ∈ ["candidate"; "staged"; "active"; "quarantined"]
       ∧ (s = "quarantined" ↔ sc_state r = "quarantined")
       ∧ (s = "active" → is_admin ctx = true) ∧ (s = "candidate" → is_internal_forge ctx = true)
       ∧ any_fatal r = false.
Proof.
  intros (out0 & out & A)%validate_ok. destruct A.
  destruct (apply_scan_ok _ _ _ _ _ acc_scan0) as (_ & Hfatal & _ & Hst & _).
  destruct (check_status_ok _ _ acc_status0) as (s & Hs & Hin & Hcand & Hact).
  rewrite (fill_in_get _ _ _ _ _ acc_fill0) in Hst by set_solver. rewrite Hs in Hst.
  case_bool_decide as Hq.
  - exists "quarantined". split_and!; try done. set_solver.
  - exists s. assert (s ≠ "quarantined") by (intros ->; set_solver). split_and!; try done. set_solver.
Qed.

(** A caller who is neither admin nor Forge overwrites nothing it may not: the stored row it replaces
    is in no protected status and names no other agent as its author. *)
Theorem agent_overwrites_only_its_drafts now ctx data d row res r :
  is_admin ctx = false → is_internal_forge ctx = false → get "data" d = PDict row →
  validate_and_normalize_skill_write now ctx data (PDict d) = Ok (res, r) →
  (∀ s, s ∈ PROTECTED_LIVE_STATUSES → get "status" row ≠ PStr s)
  ∧ ∀ o a, get "origin" row = PDict o → get "agent_id" o = PStr a →
      a = UNATTRIBUTED_AGENT_ID ∨ caller_agent_id ctx = Some a.
Proof.
  intros Hadm Hforge Hrow (out0 & out & A)%validate_ok. destruct A as [_ _ _ _ Hlive _ _ _ _].
  unfold check_live in Hlive. rewrite Hadm, Hforge in Hlive. rewrite bool_decide_eq_false_2 in Hlive by done.
  cbn [orb] in Hlive. apply bind_ok in Hlive as (ld & Hld & H). simpl in Hld. rewrite Hrow in Hld.
  assert (ld = row) as ->.
  { unfold or_empty in Hld. simpl in Hld. destruct row; simpl in Hld; congruence. }
  apply bind_ok in H as (p & Hp%in_set_ok & H). apply bind_ok in H as (_ & Hr%raise_if_ok & H).
  apply bind_ok in H as (owner & Howner & Hne%raise_if_ok). split.
  - intros s Hs Heq. assert (p = true); [|congruence]. apply Hp. eauto.
  - intros o a Ho Ha. unfold live_owner_of in Howner. rewrite Ho, Ha in Howner. injection Howner as <-.
    simpl in Hne. destruct (bool_decide (a = UNATTRIBUTED_AGENT_ID)) eqn:Hu; [left; by bool_to_prop|right].
    rewrite bool_decide_eq_false_2 in Hne by done. simpl in Hne. apply negb_false_iff in Hne.
    unfold caller_val in Hne. destruct (caller_agent_id ctx) as [c|]; [|done]. simpl in Hne.
    apply bool_decide_eq_true in Hne. by subst.
Qed.

Lemma py_eqb_str v s : py_eqb v (PStr s) = true → v = PStr s.
Proof.
  destruct v as [|[]|z|[]|t|l|d]; simpl; try discriminate. by intros ->%bool_decide_eq_true.
Qed.

(** An accepted update was made from the live content: there is a live skill, its content hash is
    the one the proposal names, and a result with a body carries the hash of that body. *)
Theorem update_binds_to_live now ctx data live res r h :
  validate_and_normalize_skill_write now ctx data live = Ok (res, r) →
  get "kind" res = PStr "update" →
  (∃ target, get "target" res = PDict target ∧ get "target_content_hash" target = PStr h) →
  ∃ d row, live = PDict d ∧ get "data" d = PDict row ∧ get "content_hash" row = PStr h.
Proof.
  intros (out0 & out & A)%validate_ok Hkind (target & Ht & Hh). destruct A.
  destruct (apply_scan_ok _ _ _ _ _ acc_scan0) as (_ & _ & Hget & _).
  rewrite Hget in Hkind by set_solver. rewrite Hget in Ht by set_solver.
  unfold check_binding in acc_binding0. rewrite Hkind in acc_binding0. cbn in acc_binding0.
  rewrite Ht in acc_binding0. apply bind_ok in acc_binding0 as (_ & _ & H).
  apply bind_ok in H as (_ & Hlive%raise_if_ok & H). apply bind_ok in H as (ld & Hld & H).
  apply bind_ok in H as (_ & Hn%raise_if_ok & Hm%raise_if_ok%negb_false_iff).
  rewrite Hh in Hm. unfold or_empty in Hld.
  destruct live as [| | | | | |d]; simpl in Hld; try (injection Hld as <-; done).
  destruct (negb (truthy (get "data" d))); [injection Hld as <-; done|].
  destruct (get "data" d) as [| | | | | |row] eqn:Hd; try done. injection Hld as <-. exists d, row.
  split_and!; [done|done|]. destruct (get "content_hash" row); try done. simpl in Hm.
  by apply bool_decide_eq_true in Hm as ->.
Qed.

(** Every accepted skill is well formed and within the tenant's caps: a valid slug, a description and
    a body of at most the configured UTF-8 bytes, the body's hash computed by the server, and no body
    only for an imported skill. *)
Theorem accepted_skill_within_caps now ctx data live res r :
  validate_and_normalize_skill_write now ctx data live = Ok (res, r) →
  (∃ slug, get "slug" res = PStr slug ∧ slug_ok slug = true)
  ∧ (∃ d, get "description" res = PStr d ∧ bytes_len d <= description_max_bytes ctx)
  ∧ ((∃ c, get "content" res = PStr c ∧ bytes_len c <= body_max_bytes ctx
           ∧ get "content_hash" res = PStr (sha256_tag c))
     ∨ (get "content" res = PNone ∧ get "source" res = PStr "imported")).
Proof.
  intros (out0 & out & A)%validate_ok. destruct A.
  destruct (apply_scan_ok _ _ _ _ _ acc_scan0) as (_ & _ & Hget & _).
  destruct (check_shape_ok _ acc_shape0) as (_ & (src & Hsrc & _) & (d & Hd) & (slug & Hslug & Hok)).
  assert (∀ k, k ∉ ["status"; "quarantined_at"; "scan"; "created_at"; "updated_at"; "content_hash"; "origin"] →
            get k res = get k out0) as Hkeep.
  { intros k Hk. rewrite Hget, (fill_in_get _ _ _ _ _ acc_fill0), default_status_get by set_solver. done. }
  unfold check_caps in acc_caps0. apply bind_ok in acc_caps0 as (_ & Hdesc%raise_if_ok & H).
  rewrite default_status_get, Hd in Hdesc by done. rewrite default_status_get in H by done.
  split; [|split].
  - exists slug. by rewrite Hkeep by set_solver.
  - exists d. rewrite Hkeep by set_solver. split; [done|]. simpl in Hdesc. by apply Z.ltb_ge.
  - rewrite (Hkeep "content") by set_solver. destruct (get "content" out0) as [| | | |c| |] eqn:Hc; try done.
    + right. rewrite Hkeep by set_solver. apply raise_if_ok in H. bool_to_prop. rewrite Hsrc in *. simpl in H.
      by subst.
    + left. exists c. apply raise_if_ok in H. rewrite Hget by set_solver.
      split_and!; [done|by apply Z.ltb_ge|]. eapply fill_in_hash; [done|].
      by rewrite default_status_get.
Qed.

(** ** What a refusal looks like *)

Definition http_refusal (e : exn) : Prop :=
  match e with HTTPException s _ => s ∈ [403; 404; 409; 422] | PyError _ _ => False end.

(** A computation that fails only as an HTTP refusal. *)
Definition only_http {A} (m : result exn A) : Prop := ∀ e, m = Err e → http_refusal e.

Lemma only_http_ok {A} (x : A) : only_http (Ok x).
Proof. done. Qed.
Lemma only_http_err {A} s w : s ∈ [403; 404; 409; 422] → only_http (A := A) (Err (http s w)).
Proof. by intros Hs e [= <-]. Qed.
Lemma only_http_bind {A B} (m : result exn A) (k : A → result exn B) :
  only_http m → (∀ x, only_http (k x)) → only_http (x ← m; k x).
Proof. intros Hm Hk. destruct m as [x|e]; [apply Hk|]. intros e' [= <-]. by apply Hm. Qed.
Lemma only_http_raise_if c s w : s ∈ [403; 404; 409; 422] → only_http (raise_if c (http s w)).
Proof. intros Hs. destruct c; [by apply only_http_err|apply only_http_ok]. Qed.
Lemma only_http_if {A} (c : bool) (a b : result exn A) :
  only_http a → only_http b → only_http (if c then a else b).
Proof. by destruct c. Qed.

Definition hashable (v : pyval) : bool := match v with PList _ | PDict _ => false | _ => true end.
Definition falsy_or_dict (v : pyval) : bool := negb (truthy v) || match v with PDict _ => true | _ => false end.

Lemma only_http_in_set v l : hashable v = true → only_http (in_set v l).
Proof. by destruct v. Qed.
Lemma only_http_or_empty v : falsy_or_dict v = true → only_http (or_empty v).
Proof. unfold falsy_or_dict, or_empty. destruct (truthy v); simpl; [|done]. by destruct v. Qed.
Lemma only_http_dict_or_empty v : falsy_or_dict v = true → only_http (dict_or_empty v).
Proof. unfold falsy_or_dict, dict_or_empty. destruct (truthy v); simpl; [|done]. by destruct v. Qed.
End Accepted.

Create HintDb only_http.
#[export] Hint Resolve only_http_ok only_http_err only_http_bind only_http_raise_if only_http_if
  only_http_in_set only_http_or_empty only_http_dict_or_empty : only_http.
#[export] Hint Extern 1 (_ ∈ [403; 404; 409; 422]) => set_solver : only_http.

Section Refusals.
Context {SC : Sentinel} {DP : DictOfPairs}.

(** The stored row has a status the code can look up. *)
Definition live_readable (live : pyval) : bool :=
  falsy_or_dict (live_data_of live)
  && match live_data_of live with PDict row => hashable (get "status" row) | _ => true end.

(** A body whose [kind], [source] and [status] are scalars and whose [origin] is an object, over a
    stored row of the same shape, is either accepted or refused with one of 403, 404, 409 and 422;
    no other body that is an object, and no scan, makes the gate fail in any other way. *)
Theorem refusals_are_http now ctx out live e :
  hashable (get "kind" out) = true → hashable (get "source" out) = true →
  hashable (get "status" out) = true → falsy_or_dict (get "origin" out) = true →
  live_readable live = true →
  validate_and_normalize_skill_write now ctx (PDict out) live = Err e → http_refusal e.
Proof.
  intros Hkind Hsrc Hst Horig Hlive. revert e.
  change (only_http (validate_and_normalize_skill_write now ctx (PDict out) live)). simpl.
  apply andb_true_iff in Hlive as [Hld Hrow].
  assert (only_http (or_empty (live_data_of live))) by auto with only_http.
  assert (hashable (get "status" (default_status ctx out)) = true) as Hst'.
  { unfold default_status. destruct (dict_mem "status" out); [exact Hst|]. by rewrite get_set_eq. }
  apply only_http_bind; [unfold check_shape; auto 20 with only_http|intros _].
  apply only_http_bind; [unfold check_source; auto 20 with only_http|intros _].
  apply only_http_bind; [unfold check_status; auto 20 with only_http|intros _].
  apply only_http_bind; [|intros _; apply only_http_bind; [|intros _]].
  - unfold check_live. apply only_http_if; [apply only_http_ok|].
    unfold or_empty. destruct (truthy (live_data_of live)) eqn:Ht; simpl.
    + destruct (live_data_of live) as [| | | | | |row]; try done; try (unfold falsy_or_dict in Hld; simpl in *; by rewrite Ht in Hld).
      simpl. apply only_http_bind; [by apply only_http_in_set|intros p].
      apply only_http_bind; [auto with only_http|intros _].
      apply only_http_bind; [|intros; auto with only_http]. unfold live_owner_of.
      destruct (get "origin" row); apply only_http_ok.
    + auto 20 with only_http.
  - unfold check_caps. apply only_http_bind; [auto with only_http|intros _].
    destruct (get "content" (default_status ctx out)); auto with only_http.
  - apply only_http_bind.
    + unfold fill_in. apply only_http_bind; [|intros; apply only_http_ok]. apply only_http_dict_or_empty.
      set (out1 := dict_set "updated_at" _ _). replace (get "origin" _) with (get "origin" out); [done|].
      transitivity (get "origin" out1).
      * unfold out1. rewrite get_set_ne by done. unfold default_status.
        repeat case_match; rewrite ?get_set_ne by done; done.
      * destruct (get "content" out1); try done. by rewrite get_set_ne.
    + intros out1. apply only_http_bind.
      * unfold check_binding. apply only_http_if; [apply only_http_ok|].
        destruct (get "target" out1); auto 20 with only_http.
      * intros _. unfold apply_scan. auto with only_http.
Qed.
End Refusals.

(** A [kind] that is a JSON array escapes the 422 the schema check means to give:
    looking it up in the set of kinds raises [TypeError]. *)
Example array_kind_is_a_type_error `{Sentinel, DictOfPairs} now ctx live :
  validate_and_normalize_skill_write now ctx
    (PDict [("name", PStr "n"); ("slug", PStr "s"); ("description", PStr "d"); ("domain", PStr "x");
            ("kind", PList []); ("source", PStr "agent")]) live
  = Err (PyError "TypeError" "unhashable type").
Proof. reflexivity. Qed.

(** ** Sample writes *)

Module Sample.
#[local] Instance sentinel : Sentinel := λ out _ _,
  ScanResult (if bool_decide (get "domain" out = PStr "shell") then "quarantined" else "clean")
    "2026-01-01T00:00:00+00:00" 0 0 0 [].
#[local] Instance no_pairs : DictOfPairs := λ _, Err (PyError "TypeError" "").

Definition agent_ctx : skill_ctx := SkillCtx (Some "scribe") false false 160 40000 false.
Definition body (kind domain : string) : pydict :=
  [("name", PStr "Deploy"); ("slug", PStr "deploy"); ("description", PStr "How to deploy");
   ("domain", PStr domain); ("kind", PStr kind); ("source", PStr "agent"); ("content", PStr "Run make.");
   ("origin", PDict [("agent_id", PStr "root"); ("run_id", PStr "r1")]);
   ("target", PDict [("target_content_hash", PStr "sha256:aa")])].
Definition live_draft : pydict :=
  [("data", PDict [("status", PStr "staged"); ("origin", PDict [("agent_id", PStr "scribe")]);
                   ("content_hash", PStr "sha256:aa")])].

Definition written (kind domain : string) (live : pyval) : pydict * scan_result :=
  match validate_and_normalize_skill_write "now" agent_ctx (PDict (body kind domain)) live with
  | Ok r => r
  | Err _ => ([], ScanResult "" "" 0 0 0 [])
  end.

Lemma written_ok kind domain live :
  is_ok (validate_and_normalize_skill_write "now" agent_ctx (PDict (body kind domain)) live) = true →
  validate_and_normalize_skill_write "now" agent_ctx (PDict (body kind domain)) live
  = Ok ((written kind domain live).1, (written kind domain live).2).
Proof.
  unfold written. destruct (validate_and_normalize_skill_write _ _ _ _) as [[a b]|]; [done|discriminate].
Qed.

Lemma agent_write_lands_in_review_witness :
  get "status" (written "create" "shell" PNone).1 = PStr "quarantined".
Proof.
  exact (proj1 (agent_write_lands_in_review "now" agent_ctx _ PNone _ _ eq_refl eq_refl eq_refl
                  (written_ok "create" "shell" PNone eq_refl))).
Defined.

Lemma status_needs_its_authority_witness :
  ∃ s, get "status" (written "create" "ops" PNone).1 = PStr s ∧ (s = "active" → is_admin agent_ctx = true).
Proof.
  destruct (status_needs_its_authority "now" agent_ctx _ PNone _ _ (written_ok "create" "ops" PNone eq_refl))
    as (s & H1 & _ & _ & H2 & _). exists s. split; [exact H1|exact H2].
Defined.

Lemma agent_overwrites_only_its_drafts_witness :
  "scribe" = UNATTRIBUTED_AGENT_ID ∨ caller_agent_id agent_ctx = Some "scribe".
Proof.
  refine (proj2 (agent_overwrites_only_its_drafts "now" agent_ctx _ live_draft _ _ _ eq_refl eq_refl eq_refl
                   (written_ok "create" "ops" (PDict live_draft) eq_refl)) _ "scribe" eq_refl eq_refl).
Defined.

Lemma update_binds_to_live_witness :
  ∃ d row, PDict live_draft = PDict d ∧ get "data" d = PDict row ∧ get "content_hash" row = PStr "sha256:aa".
Proof.
  refine (update_binds_to_live "now" agent_ctx _ (PDict live_draft) _ _ "sha256:aa"
            (written_ok "update" "ops" (PDict live_draft) eq_refl) _ _).
  - vm_compute. reflexivity.
  - eexists. split; [vm_compute; reflexivity|reflexivity].
Defined.

Lemma accepted_skill_within_caps_witness :
  ∃ slug, get "slug" (written "create" "ops" PNone).1 = PStr slug ∧ slug_ok slug = true.
Proof.
  exact (proj1 (accepted_skill_within_caps "now" agent_ctx _ PNone _ _
                  (written_ok "create" "ops" PNone eq_refl))).
Defined.

Lemma refusals_are_http_witness :
  http_refusal (http 404 "no live skill").
Proof.
  refine (refusals_are_http "now" agent_ctx (body "update" "ops") PNone _ _ _ _ _ _ _); reflexivity.
Defined.
End Sample.
