(* ===== verification/HttpRetry.v ===== *)
(** * Retrying calls to storage

    [common/http_retry.py] and the policies [clients/storage_client.py] picks from
    it: which failures of an HTTP call are tried again, how often, and what the
    caller gets. The calls themselves are [httpx]'s: a run is given what each
    attempt answers. The sleeps between attempts are their number, not their
    length. *)

From S2P Require Import Prelude.

#[local] Open Scope Z_scope.

(** What one attempt ends in. [OtherError] stands for the exceptions of [httpx] and
    of the event loop outside the four the policies name. *)
Inductive http_error := ConnectTimeout | ReadTimeout | PoolTimeout | ConnectError | OtherError (name : string).
#[global] Instance http_error_eq_dec : EqDecision http_error.
Proof. solve_decision. Defined.

Inductive answer := Raised (e : http_error) | Response (status_code : Z).

Definition RETRY_MAX_ATTEMPTS : Z := 3.
Definition CONNECT_PHASE_MAX_ATTEMPTS : Z := 5.
Definition RETRYABLE_EXCEPTIONS : list http_error := [ConnectTimeout; ReadTimeout; PoolTimeout; ConnectError].
Definition CONNECT_PHASE_EXCEPTIONS : list http_error := [ConnectTimeout; ConnectError; PoolTimeout].
Definition RETRYABLE_STATUS_CODES : list Z := [502; 503; 504].
Definition NO_RETRYABLE_STATUSES : list Z := [].

(** The keyword arguments of [with_retry]. *)
Record policy := Policy {
  retryable_exceptions : list http_error;
  retryable_statuses : list Z;
  max_attempts : Z;
  connect_phase_max_attempts : option Z;
}.

Definition default_policy : policy := Policy RETRYABLE_EXCEPTIONS RETRYABLE_STATUS_CODES RETRY_MAX_ATTEMPTS None.

Definition cp_max (p : policy) : Z := default (max_attempts p) (connect_phase_max_attempts p).
Definition effective_max (p : policy) : Z := Z.max (max_attempts p) (cp_max p).

Definition connect_phase (e : http_error) : bool := bool_decide (e ∈ CONNECT_PHASE_EXCEPTIONS).
Definition limit (p : policy) (e : http_error) : Z := if connect_phase e then cp_max p else max_attempts p.

(** How [with_retry] ends. *)
Inductive ending := Returned (status_code : Z) | Failed (e : http_error) | LoopExited.

(** The loop, over the attempts still to make: the answers it took, and its end. *)
Fixpoint retry_loop (p : policy) (do_request : Z → answer) (last_exc : option http_error) (ks : list Z)
    : list answer * ending :=
  match ks with
  | [] => ([], match last_exc with Some e => Failed e | None => LoopExited end)
  | attempt :: ks =>
      match do_request attempt with
      | Raised e =>
          if bool_decide (e ∈ retryable_exceptions p) && (attempt <? limit p e) then
            let r := retry_loop p do_request (Some e) ks in (Raised e :: r.1, r.2)
          else ([Raised e], Failed e)
      | Response s =>
          if bool_decide (s ∈ retryable_statuses p) && (attempt <? max_attempts p) then
            let r := retry_loop p do_request last_exc ks in (Response s :: r.1, r.2)
          else ([Response s], Returned s)
      end
  end.

(** [n] consecutive integers from [k]; [range(1, effective_max + 1)]. *)
Fixpoint range_from (k : Z) (n : nat) : list Z :=
  match n with
  | O => []
  | S n => k :: range_from (k + 1) n
  end.
Definition attempts_of (p : policy) : list Z := range_from 1 (Z.to_nat (effective_max p)).

Definition with_retry (p : policy) (do_request : Z → answer) : list answer * ending :=
  retry_loop p do_request None (attempts_of p).

(** Non-idempotent calls. *)
Definition connect_phase_policy : policy :=
  Policy CONNECT_PHASE_EXCEPTIONS NO_RETRYABLE_STATUSES CONNECT_PHASE_MAX_ATTEMPTS None.
Definition with_connect_phase_retry : (Z → answer) → list answer * ending := with_retry connect_phase_policy.

(** Idempotent reads: [_read_retry]. *)
Definition read_policy : policy :=
  Policy RETRYABLE_EXCEPTIONS RETRYABLE_STATUS_CODES RETRY_MAX_ATTEMPTS (Some CONNECT_PHASE_MAX_ATTEMPTS).
Definition read_retry : (Z → answer) → list answer * ending := with_retry read_policy.

(** ** The loop ends with its last attempt *)

(** Whether an attempt may have reached the server: [httpx] raises these three while
    it acquires or opens a connection, before a byte of the request is written. *)
Definition sent (a : answer) : bool :=
  match a with
  | Raised ConnectTimeout | Raised ConnectError | Raised PoolTimeout => false
  | _ => true
  end.

Lemma sent_raised e : sent (Raised e) = negb (connect_phase e).
Proof. by destruct e. Qed.

Definition transient (p : policy) (a : answer) : Prop :=
  match a with
  | Raised e => e ∈ retryable_exceptions p
  | Response s => s ∈ retryable_statuses p
  end.

Definition ending_of (a : answer) : ending :=
  match a with Raised e => Failed e | Response s => Returned s end.

Definition count_sent (l : list answer) : nat := length (filter (λ a, sent a = true) l).

Lemma count_sent_cons a l : count_sent (a :: l) = ((if sent a then 1 else 0) + count_sent l)%nat.
Proof. unfold count_sent. rewrite filter_cons. destruct (sent a); by case_decide. Qed.

(** Where the loop stands: the attempts left are [k .. k + n - 1] and the last of
    them is the policy's last. *)
Lemma retry_loop_spec p f n : ∀ k last,
  1 <= k → (0 < n)%nat → k + Z.of_nat n - 1 = effective_max p →
  let r := retry_loop p f last (range_from k n) in
  ∃ pre a, r.1 = pre ++ [a] ∧ r.2 = ending_of a ∧ (length r.1 <= n)%nat
    ∧ Forall (transient p) pre
    ∧ Z.of_nat (count_sent pre) <= Z.max 0 (max_attempts p - k)
    ∧ (∀ i, (i < length r.1)%nat → r.1 !! i = Some (f (k + Z.of_nat i))).
Proof.
  induction n as [|n IH]; intros k last Hk Hn Heff; [lia|].
  assert (∀ a last', transient p a → (if sent a then k < max_attempts p else k < cp_max p) →
    let r := retry_loop p f last' (range_from (k + 1) n) in
    f k = a →
    ∃ pre b, a :: r.1 = pre ++ [b] ∧ r.2 = ending_of b ∧ (length (a :: r.1) <= S n)%nat
      ∧ Forall (transient p) pre
      ∧ Z.of_nat (count_sent pre) <= Z.max 0 (max_attempts p - k)
      ∧ (∀ i, (i < length (a :: r.1))%nat → (a :: r.1) !! i = Some (f (k + Z.of_nat i)))) as Hcont.
  { intros a last' Htr Hlim r Hfa. assert (0 < n)%nat as Hn'.
    { unfold effective_max in Heff. destruct (sent a); lia. }
    destruct (IH (k + 1) last') as (pre & b & H1 & H2 & H3 & H4 & H5 & H6); [lia|done|lia|]. fold r in H1, H2, H3, H6.
    exists (a :: pre), b. split_and!.
    - by rewrite H1.
    - done.
    - simpl. lia.
    - by constructor.
    - rewrite count_sent_cons. destruct (sent a); lia.
    - intros [|i] Hi; simpl; [by rewrite Z.add_0_r, Hfa|]. rewrite H6 by (simpl in Hi; lia).
      do 2 f_equal. lia. }
  assert (∀ a, f k = a →
    ∃ pre b, [a] = pre ++ [b] ∧ ending_of a = ending_of b ∧ (length [a] <= S n)%nat
      ∧ Forall (transient p) pre ∧ Z.of_nat (count_sent pre) <= Z.max 0 (max_attempts p - k)
      ∧ (∀ i, (i < length [a])%nat → [a] !! i = Some (f (k + Z.of_nat i)))) as Hstop.
  { intros a Ha. exists [], a. split_and!; [done|done|simpl; lia|constructor|unfold count_sent; simpl; lia|].
    intros [|i] Hi; [|simpl in Hi; lia]. simpl. by rewrite Z.add_0_r, Ha. }
  simpl. destruct (f k) as [e|s] eqn:Hf.
  - destruct (bool_decide (e ∈ retryable_exceptions p) && (k <? limit p e)) eqn:Hc; [|by apply (Hstop (Raised e))].
    apply andb_true_iff in Hc as [He%bool_decide_eq_true Hlt%Z.ltb_lt].
    apply (Hcont (Raised e) (Some e)); [done| |done]. unfold limit in Hlt. rewrite sent_raised. by destruct (connect_phase e).
  - destruct (bool_decide (s ∈ retryable_statuses p) && (k <? max_attempts p)) eqn:Hc;
      [|by apply (Hstop (Response s))].
    apply andb_true_iff in Hc as [Hs%bool_decide_eq_true Hlt%Z.ltb_lt].
    apply (Hcont (Response s) last); done.
Qed.

Lemma with_retry_spec p f :
  1 <= effective_max p →
  ∃ pre a, (with_retry p f).1 = pre ++ [a] ∧ (with_retry p f).2 = ending_of a
    ∧ Z.of_nat (length (with_retry p f).1) <= effective_max p
    ∧ Forall (transient p) pre
    ∧ Z.of_nat (count_sent pre) <= Z.max 0 (max_attempts p - 1)
    ∧ (∀ i, (i < length (with_retry p f).1)%nat → (with_retry p f).1 !! i = Some (f (1 + Z.of_nat i))).
Proof.
  intros Hmax. unfold with_retry, attempts_of.
  destruct (retry_loop_spec p f (Z.to_nat (effective_max p)) 1 None) as (pre & a & H1 & H2 & H3 & H4 & H5 & H6);
    [lia|lia|lia|].
  exists pre, a. split_and!; try done. lia.
Qed.

(** A call always ends with its last attempt's own answer, returned or raised, within its budget:
    with a budget of at least one attempt the loop never falls off its end, only transient failures
    are tried again, at most [max_attempts] attempts (at least one) reach the server, and attempt
    [k] is the [k]-th request made. *)
Theorem retry_gives_its_last_answer p f :
  1 <= effective_max p →
  ∃ pre a, with_retry p f = (pre ++ [a], ending_of a)
    ∧ Z.of_nat (length (pre ++ [a])) <= effective_max p
    ∧ Forall (transient p) pre
    ∧ Z.of_nat (count_sent (pre ++ [a])) <= Z.max 1 (max_attempts p)
    ∧ (∀ i, (i < length (pre ++ [a]))%nat → (pre ++ [a]) !! i = Some (f (1 + Z.of_nat i))).
Proof.
  intros Hmax. destruct (with_retry_spec p f Hmax) as (pre & a & H1 & H2 & H3 & H4 & H5 & H6).
  exists pre, a. rewrite <-H1, <-H2. split_and!; [by destruct (with_retry p f)|done|done| |done].
  rewrite H1. unfold count_sent in *. rewrite filter_app, length_app.
  pose proof (length_filter (λ x, sent x = true) [a]) as Hle. simpl in Hle. lia.
Qed.

(** A POST reaches storage at most once: every attempt but the last failed before the request was
    sent, there are at most five, and what the last one answered is what the caller gets; a read
    timeout or a 5xx is never tried again. *)
Theorem post_sent_at_most_once f :
  ∃ pre a, with_connect_phase_retry f = (pre ++ [a], ending_of a)
    ∧ Forall (λ x, sent x = false) pre
    ∧ Z.of_nat (length (pre ++ [a])) <= CONNECT_PHASE_MAX_ATTEMPTS.
Proof.
  unfold with_connect_phase_retry.
  destruct (with_retry_spec connect_phase_policy f) as (pre & a & H1 & H2 & H3 & H4 & _); [done|].
  exists pre, a. rewrite <-H1, <-H2. split_and!; [by destruct (with_retry connect_phase_policy f)| |done].
  eapply Forall_impl; [exact H4|]. intros [e|s]; [|by intros ?%elem_of_nil].
  intros He. rewrite sent_raised. unfold connect_phase. by rewrite bool_decide_eq_true_2.
Qed.

(** Four failed connects, then a 200; and a 5xx at the fourth attempt is not retried. *)
Example cold_start_read :
  read_retry (λ k, if k <? 5 then Raised ConnectTimeout else Response 200)
  = ([Raised ConnectTimeout; Raised ConnectTimeout; Raised ConnectTimeout; Raised ConnectTimeout;
      Response 200], Returned 200).
Proof. reflexivity. Qed.
Example late_5xx_read :
  read_retry (λ k, if k <? 4 then Raised ConnectError else Response 503)
  = ([Raised ConnectError; Raised ConnectError; Raised ConnectError; Response 503], Returned 503).
Proof. reflexivity. Qed.

Lemma retry_gives_its_last_answer_witness :
  ∃ pre a, with_retry read_policy (λ _, Response 503) = (pre ++ [a], ending_of a)
           ∧ Z.of_nat (count_sent (pre ++ [a])) <= 3.
Proof.
  destruct (retry_gives_its_last_answer read_policy (λ _, Response 503)) as (pre & a & H1 & _ & _ & H2 & _).
  - vm_compute. discriminate.
  - exists pre, a. split; [exact H1|exact H2].
Defined.
