(* ===== verification/SearchTrim.v ===== *)
(** * The relevance floor and the final trim of a search

    [core-api/.../search_trim.py] and the pipeline step that applies it,
    [pipeline/steps/search/post_filter_results.py], with the diagnostic trace it
    writes, and the same selection on the legacy path of
    [services/memory_service.py]. A row is the storage result object: its identity
    ([id(row)]) and the fields the selection reads. Scores are IEEE doubles. *)

From Stdlib Require Import SpecFloat.
From S2P Require Import PyStr PyVal.

#[local] Open Scope Z_scope.

Definition FTS_RESERVED_RESULTS : Z := 1.
Definition INCLUDE_DERIVED_DEFAULT : bool := true.

Record row := Row {
  r_id : nat;
  has_embedding : option bool;
  vec_sim : option spec_float;
  fts_match : bool;
  metadata_ : pyval;
}.

#[global] Instance row_eq_dec : EqDecision row.
Proof. solve_decision. Defined.

(** ** [search_trim.py] *)

(** [float(vec_sim) >= min_similarity] *)
Definition float_ge (a b : spec_float) : bool := SFleb b a.

Definition passes_relevance_filter (emb : option bool) (vec : option spec_float) (min_similarity : spec_float)
    (fts allow_fts_global_floor_bypass : bool) : bool :=
  bool_decide (emb = Some false)
  || match vec with
     | None => true
     | Some v => float_ge v min_similarity
     end
  || (allow_fts_global_floor_bypass && fts).

Definition trim_reserving_fts_matches (rows : list row) (top_k : Z) (is_fts_match : row → bool) : list row :=
  let head := py_take top_k rows in
  if (FTS_RESERVED_RESULTS <=? 0) || (top_k <=? 0) then head
  else if existsb is_fts_match head then head
  else
    let budget := Z.min FTS_RESERVED_RESULTS (top_k - 1) in
    if budget <=? 0 then head
    else
      let promoted := take (Z.to_nat budget) (filter (λ r, is_fts_match r = true) (drop (Z.to_nat top_k) rows)) in
      match promoted with
      | [] => head
      | _ => py_take (top_k - Z.of_nat (length promoted)) head ++ promoted
      end.

Definition get (k : string) (d : list (string * pyval)) : pyval := default PNone (dict_get k d).

Definition is_derived_fanout_row (metadata : pyval) : bool :=
  match metadata with
  | PDict m =>
      let nested := match get "_system" m with PDict n => n | _ => [] end in
      let has_parent := negb (bool_decide (get "parent_memory_id" m = PNone))
                        || negb (bool_decide (get "parent_memory_id" nested = PNone)) in
      let source := default (get "source" m) (dict_get "source" nested) in
      has_parent && py_eqb source (PStr "atomic_fact_fanout")
  | _ => false
  end.

(** [resolve_include_derived]; the tenant's value is [None] when its configuration
    has none. *)
Definition resolve_include_derived (request_value : option bool) (search_include_derived : option bool) : bool :=
  match request_value with
  | Some b => b
  | None => default INCLUDE_DERIVED_DEFAULT search_include_derived
  end.

(** ** [post_filter_results.py] *)

Record search_data := SearchData {
  entity_lookup : bool;
  min_similarity : spec_float;
  fts_weight : option spec_float;
  allow_fts_bypass : bool;
  include_derived : option bool;
  final_top_k : option Z;
  diagnostic : bool;
  raw_rows : list row;
}.

Definition relevance_floor_args (data : search_data) : spec_float * bool * bool :=
  let fts_enabled := SFltb (S754_zero false) (default (S754_zero false) (fts_weight data)) in
  (min_similarity data, fts_enabled, fts_enabled && allow_fts_bypass data).

Definition row_passes (r : row) (floor : spec_float) (bypass : bool) : bool :=
  passes_relevance_filter (has_embedding r) (vec_sim r) floor (fts_match r) bypass.

Definition is_derived (r : row) : bool := is_derived_fanout_row (metadata_ r).

Definition truthy_opt (b : option bool) : bool := default false b.

Definition is_reservable_fts_match (r : row) (fts_enabled : bool) : bool :=
  negb (truthy_opt (has_embedding r)) || (fts_enabled && fts_match r).

Definition used_fts_global_floor_bypass (r : row) (floor : spec_float) (bypass : bool) : bool :=
  bypass && truthy_opt (has_embedding r) && fts_match r
  && match vec_sim r with Some v => SFltb v floor | None => false end.

Inductive exclusion := BelowMinSimilarity | DerivedExcluded | TrimmedByTopK.
#[global] Instance exclusion_eq_dec : EqDecision exclusion.
Proof. solve_decision. Defined.

Record candidate := Candidate { c_row : row; c_bypass : bool; c_excluded : option exclusion }.
Record counts := Counts {
  candidates_considered : Z;
  returned : Z;
  excluded_below_min_similarity : Z;
  excluded_derived : Z;
  excluded_by_top_k_trim : Z;
}.
Record post_filtered := PostFiltered {
  filtered_rows : list row;
  diagnostics : option (list candidate * counts);
}.

Definition len {A} (l : list A) : Z := Z.of_nat (length l).

(** The label of a candidate, given the ids that were kept, that passed the floor,
    and that are derived. *)
Definition label (kept passed derived : list nat) (r : row) : option exclusion :=
  if negb (bool_decide (r_id r ∈ passed)) then Some BelowMinSimilarity
  else if negb (bool_decide (r_id r ∈ kept)) then
    if bool_decide (r_id r ∈ derived) then Some DerivedExcluded else Some TrimmedByTopK
  else None.

(** [PostFilterResults.execute]; [None] is the skipped step. *)
Definition execute (data : search_data) : option post_filtered :=
  if entity_lookup data then None
  else
    let '(floor, fts_enabled, bypass) := relevance_floor_args data in
    let passed := filter (λ r, row_passes r floor bypass = true) (raw_rows data) in
    let below_floor := len (raw_rows data) - len passed in
    let kept := if default true (include_derived data) then passed
                else filter (λ r, is_derived r = false) passed in
    let derived_excluded := len passed - len kept in
    let filtered := match final_top_k data with
                    | Some k => trim_reserving_fts_matches kept k (λ r, is_reservable_fts_match r fts_enabled)
                    | None => kept
                    end in
    let candidates :=
      (λ r, Candidate r (used_fts_global_floor_bypass r floor bypass)
              (label (r_id <$> filtered) (r_id <$> passed)
                 (r_id <$> filter (λ r, is_derived r = true) (raw_rows data)) r)) <$> raw_rows data in
    let cs := Counts (len (raw_rows data)) (len filtered) below_floor derived_excluded
                (len (raw_rows data) - below_floor - derived_excluded - len filtered) in
    Some (PostFiltered filtered (if diagnostic data then Some (candidates, cs) else None)).

(** ** The legacy path of [memory_service.py] *)
Definition legacy_select (rows : list row) (floor : spec_float) (fts_enabled bypass : bool)
    (request_value tenant_value : option bool) (top_k : Z) : list row :=
  let rows := filter (λ r, passes_relevance_filter (has_embedding r) (vec_sim r) floor (fts_match r) bypass = true) rows in
  let rows := if resolve_include_derived request_value tenant_value then rows
              else filter (λ r, is_derived_fanout_row (metadata_ r) = false) rows in
  trim_reserving_fts_matches rows top_k
    (λ r, bool_decide (has_embedding r = Some false) || (fts_enabled && fts_match r)).

(** ** The trim *)

Lemma py_take_pos {A} n (l : list A) : 0 <= n → py_take n l = take (Z.to_nat n) l.
Proof. intros. unfold py_take. by rewrite (proj2 (Z.ltb_ge _ _)). Qed.

Lemma sublist_take_drop {A} n (l l' : list A) : l' `sublist_of` drop n l → take n l ++ l' `sublist_of` l.
Proof. intros H. rewrite <-(take_drop n l) at 2. by apply sublist_app. Qed.

Lemma existsb_find {A} (f : A → bool) (l : list A) : existsb f l = true ↔ ∃ x, x ∈ l ∧ f x = true.
Proof.
  rewrite existsb_exists. split; intros (x & Hx & Hf); exists x; (split; [|done]); by apply base.list_elem_of_In.
Qed.

(** The two ways a trim goes: the plain head, or the head's last slot given to the
    first match beyond it. *)
Lemma trim_cases rows k m :
  0 < k →
  (trim_reserving_fts_matches rows k m = take (Z.to_nat k) rows
   ∧ ((∃ r, r ∈ take (Z.to_nat k) rows ∧ m r = true) ∨ k = 1
      ∨ ∀ r, r ∈ drop (Z.to_nat k) rows → m r = false))
  ∨ (2 <= k ∧ existsb m (take (Z.to_nat k) rows) = false
     ∧ ∃ r, take 1 (filter (λ r, m r = true) (drop (Z.to_nat k) rows)) = [r] ∧ m r = true
         ∧ trim_reserving_fts_matches rows k m = take (Z.to_nat (k - 1)) rows ++ [r]).
Proof.
  intros Hk. unfold trim_reserving_fts_matches, FTS_RESERVED_RESULTS. rewrite (py_take_pos k) by lia.
  rewrite (proj2 (Z.leb_gt k 0)) by done. simpl.
  destruct (existsb m (take (Z.to_nat k) rows)) eqn:He.
  { left. split; [done|]. left. by apply existsb_find. }
  destruct (Z.leb_spec (Z.min 1 (k - 1)) 0) as [Hb|Hb]; [left; split; [done|]; right; left; lia|].
  replace (Z.to_nat (Z.min 1 (k - 1))) with 1%nat by lia.
  destruct (filter (λ r, m r = true) (drop (Z.to_nat k) rows)) as [|r l] eqn:Hf; simpl.
  - left. split; [done|]. right. right. intros r Hr. destruct (m r) eqn:Hm; [|done].
    assert (r ∈ filter (λ r, m r = true) (drop (Z.to_nat k) rows)) as Hin by (apply list_elem_of_filter; auto).
    rewrite Hf in Hin. by apply elem_of_nil in Hin.
  - right. split; [lia|]. split; [done|]. exists r. split; [done|]. split.
    + assert (r ∈ filter (λ r, m r = true) (drop (Z.to_nat k) rows)) as Hin by (rewrite Hf; left).
      by apply list_elem_of_filter in Hin as [? _].
    + rewrite py_take_pos by lia. rewrite take_take. do 2 f_equal; lia.
Qed.

Lemma trim_sublist rows k m : trim_reserving_fts_matches rows k m `sublist_of` rows.
Proof.
  destruct (Z.leb_spec k 0) as [Hk|Hk].
  - unfold trim_reserving_fts_matches. rewrite (proj2 (Z.leb_le k 0)) by done. rewrite orb_true_r.
    unfold py_take. destruct (k <? 0); apply sublist_take.
  - destruct (trim_cases rows k m Hk) as [[-> _]|(Hk2 & _ & r & Hr & _ & ->)]; [apply sublist_take|].
    apply sublist_take_drop. rewrite <-Hr. etrans; [apply sublist_take|].
    etrans; [apply sublist_filter|].
    replace (Z.to_nat k) with (1 + Z.to_nat (k - 1))%nat by lia. rewrite Nat.add_comm, <-drop_drop.
    apply sublist_drop.
Qed.

(** The final trim gives a caller its best results and hides no lexical match: the result is the
    rows in their order, none repeated or invented, exactly [min top_k] of them; the best row comes
    first; and from two slots up, if any row is a full-text match then one is returned, at the cost
    of at most the last slot. *)
Theorem trim_reserves_a_match rows k m :
  0 < k →
  let res := trim_reserving_fts_matches rows k m in
  res `sublist_of` rows
  ∧ len res = Z.min k (len rows)
  ∧ head res = head rows
  ∧ (2 <= k → (∃ r, r ∈ rows ∧ m r = true) → ∃ r, r ∈ res ∧ m r = true)
  ∧ take (Z.to_nat (k - 1)) res = take (Z.to_nat (k - 1)) rows.
Proof.
  intros Hk. simpl. split; [apply trim_sublist|]. unfold len.
  destruct (trim_cases rows k m Hk) as [[-> Hcase]|(Hk2 & _ & r & Hr & Hm & ->)].
  - split; [rewrite length_take; lia|]. split; [|split].
    + destruct rows; [by rewrite take_nil|]. by replace (Z.to_nat k) with (S (Z.to_nat (k - 1))) by lia.
    + intros Hk2 (r & Hin & Hm). destruct Hcase as [|[|Hno]]; [done|lia|].
      rewrite <-(take_drop (Z.to_nat k) rows) in Hin. apply elem_of_app in Hin as [Hin|Hin]; [by exists r|].
      apply Hno in Hin. congruence.
    + rewrite take_take. f_equal. lia.
  - assert (Z.to_nat k < length rows)%nat as Hlen.
    { destruct (decide (Z.to_nat k < length rows)%nat) as [|Hge]; [done|].
      rewrite drop_ge in Hr by lia. done. }
    assert (length (take (Z.to_nat (k - 1)) rows) = Z.to_nat (k - 1)) as Hl by (rewrite length_take; lia).
    split; [rewrite length_app, Hl; simpl; lia|]. split; [|split].
    + destruct rows; [simpl in Hlen; lia|]. by replace (Z.to_nat (k - 1)) with (S (Z.to_nat (k - 2))) by lia.
    + intros _ _. exists r. split; [|done]. apply elem_of_app. right. by left.
    + rewrite take_app_length' by lia. done.
Qed.

(** ** The diagnostic trace *)

Lemma filter_ext_in (P Q : row → Prop) `{∀ x, Decision (P x), ∀ x, Decision (Q x)} (l : list row) :
  (∀ x, x ∈ l → P x ↔ Q x) → filter P l = filter Q l.
Proof.
  induction l as [|x l IH]; intros Hpq; [done|]. rewrite !filter_cons.
  rewrite IH by (intros; apply Hpq; by right). pose proof (Hpq x ltac:(left)).
  case_decide; case_decide; tauto.
Qed.

Lemma filter_sublist_ids (l l' : list row) :
  NoDup (r_id <$> l) → l' `sublist_of` l → filter (λ r, r_id r ∈ r_id <$> l') l = l'.
Proof.
  intros Hn Hsub. revert Hn. induction Hsub as [|r l' l Hsub IH|r l' l Hsub IH]; intros Hn; [done| |].
  - inversion Hn as [|?? Hr Hn']; subst. rewrite filter_cons_True by (simpl; left). f_equal.
    etrans; [|exact (IH Hn')]. apply filter_ext_in. intros x Hx. simpl.
    rewrite elem_of_cons. split; [intros [Heq|]; [|done]|auto].
    destruct Hr. simpl. rewrite <-Heq. by apply list_elem_of_fmap_2.
  - inversion Hn as [|?? Hr Hn']; subst. rewrite filter_cons_False; [auto|].
    intros Hin. apply Hr. apply list_elem_of_fmap in Hin as (x & Heq & Hx). simpl. rewrite Heq.
    apply list_elem_of_fmap_2. by eapply elem_of_sublist.
Qed.

Lemma same_id (l : list row) r r' : NoDup (r_id <$> l) → r ∈ l → r' ∈ l → r_id r = r_id r' → r = r'.
Proof.
  intros Hn Hr Hr' Heq. apply list_elem_of_lookup in Hr as [i Hi]. apply list_elem_of_lookup in Hr' as [j Hj].
  assert (i = j) as ->; [|congruence]. apply (NoDup_lookup (r_id <$> l) i j (r_id r) Hn).
  - by rewrite list_lookup_fmap, Hi.
  - by rewrite list_lookup_fmap, Hj, Heq.
Qed.

(** Identities stand for the rows themselves. *)
Lemma id_in_sub (l l' : list row) r :
  NoDup (r_id <$> l) → l' `sublist_of` l → r ∈ l → r_id r ∈ r_id <$> l' ↔ r ∈ l'.
Proof.
  intros Hn Hsub Hr. split; [|apply list_elem_of_fmap_2]. intros (r' & Heq & Hr')%list_elem_of_fmap.
  rewrite (same_id l r r'); try done. by eapply elem_of_sublist.
Qed.

Lemma filter_split (P : row → Prop) `{∀ x, Decision (P x)} (l : list row) :
  len l = len (filter P l) + len (filter (λ x, ¬ P x) l).
Proof.
  unfold len. induction l as [|x l IH]; [done|]. rewrite !filter_cons.
  destruct (decide (P x)); [rewrite decide_False by tauto|rewrite decide_True by done]; simpl length; lia.
Qed.

(** How many candidates carry a label. *)
Definition labelled (x : option exclusion) (cs : list candidate) : Z :=
  len (filter (λ c, c_excluded c = x) cs).

Lemma labelled_map (g : row → candidate) x rows :
  labelled x (g <$> rows) = len (filter (λ r, c_excluded (g r) = x) rows).
Proof.
  unfold labelled, len. f_equal. induction rows as [|r rows IH]; [done|]. rewrite fmap_cons, !filter_cons.
  case_decide; simpl; by rewrite IH.
Qed.

Lemma labels_partition cs :
  len cs = labelled None cs + labelled (Some BelowMinSimilarity) cs + labelled (Some DerivedExcluded) cs
           + labelled (Some TrimmedByTopK) cs.
Proof.
  unfold labelled, len. induction cs as [|c cs IH]; [done|]. rewrite !filter_cons.
  destruct (c_excluded c) as [[]|] eqn:Hc; repeat case_decide; simplify_eq; simpl length; lia.
Qed.

(** The labels over a selection whose rows all pass the floor and are not derived. *)
Section Labels.
Context (rows filtered : list row) (P D : row → bool).
Hypothesis rows_ids : NoDup (r_id <$> rows).
Hypothesis filtered_rows_sub : filtered `sublist_of` rows.
Hypothesis filtered_kept : ∀ r, r ∈ filtered → P r = true ∧ D r = false.

Definition label_of : row → option exclusion :=
  label (r_id <$> filtered) (r_id <$> filter (λ r, P r = true) rows) (r_id <$> filter (λ r, D r = true) rows).

Lemma id_in_filter (f : row → bool) r :
  r ∈ rows → bool_decide (r_id r ∈ r_id <$> filter (λ r, f r = true) rows) = f r.
Proof.
  intros Hr. rewrite (bool_decide_ext _ (f r = true)).
  - destruct (f r); [by rewrite bool_decide_eq_true_2|by rewrite bool_decide_eq_false_2].
  - rewrite (id_in_sub rows) by (done || apply sublist_filter). rewrite list_elem_of_filter. tauto.
Qed.

Lemma label_of_spec r : r ∈ rows → label_of r =
  if P r then if bool_decide (r ∈ filtered) then None else if D r then Some DerivedExcluded else Some TrimmedByTopK
  else Some BelowMinSimilarity.
Proof.
  intros Hr. unfold label_of, label. rewrite !id_in_filter by done.
  rewrite (bool_decide_ext (r_id r ∈ r_id <$> filtered) (r ∈ filtered)) by (by apply (id_in_sub rows)).
  destruct (P r), (D r), (bool_decide (r ∈ filtered)); done.
Qed.

Lemma label_none r : r ∈ rows → label_of r = None ↔ r ∈ filtered.
Proof.
  intros Hr. rewrite label_of_spec by done. split.
  - destruct (P r); [|done]. case_bool_decide; [done|]. by destruct (D r).
  - intros Hf. destruct (filtered_kept r Hf) as [-> _]. by rewrite bool_decide_eq_true_2.
Qed.

Lemma count_none : filter (λ r, label_of r = None) rows = filtered.
Proof.
  etrans; [|exact (filter_sublist_ids rows filtered rows_ids filtered_rows_sub)].
  apply filter_ext_in. intros r Hr. rewrite (label_none r Hr). symmetry. by apply (id_in_sub rows).
Qed.

Lemma count_below :
  len (filter (λ r, label_of r = Some BelowMinSimilarity) rows) = len rows - len (filter (λ r, P r = true) rows).
Proof.
  rewrite (filter_split (λ r, P r = true) rows).
  rewrite (filter_ext_in (λ r, label_of r = Some BelowMinSimilarity) (λ r, ¬ P r = true)); [lia|].
  intros r Hr. rewrite label_of_spec by done. destruct (P r); [|split; done].
  split; [|done]. case_bool_decide; [done|]. by destruct (D r).
Qed.

Lemma count_derived :
  let passed := filter (λ r, P r = true) rows in
  len (filter (λ r, label_of r = Some DerivedExcluded) rows)
  = len passed - len (filter (λ r, D r = false) passed).
Proof.
  intros passed. rewrite (filter_split (λ r, D r = false) passed). unfold passed at 2. rewrite list_filter_filter.
  rewrite (filter_ext_in (λ r, label_of r = Some DerivedExcluded) (λ r, ¬ D r = false ∧ P r = true)); [lia|].
  intros r Hr. rewrite label_of_spec by done. destruct (P r); [|split; [done|by intros [_ ?]]].
  case_bool_decide as Hf; [destruct (filtered_kept r Hf) as [_ ->]|destruct (D r)]; split; naive_solver.
Qed.
End Labels.

(** When derived rows are excluded, the diagnostic trace accounts for every candidate: each storage
    row has one entry, in order; an entry has no exclusion reason exactly when its row is returned; and
    each counter is the number of entries with its reason, so the counters add up to the candidates. *)
Theorem diagnostic_accounts_for_every_candidate data res cands cs :
  execute data = Some res → diagnostics res = Some (cands, cs) →
  NoDup (r_id <$> raw_rows data) → include_derived data = Some false →
  c_row <$> cands = raw_rows data
  ∧ (∀ c, c ∈ cands → c_excluded c = None ↔ c_row c ∈ filtered_rows res)
  ∧ candidates_considered cs = len cands
  ∧ returned cs = labelled None cands
  ∧ excluded_below_min_similarity cs = labelled (Some BelowMinSimilarity) cands
  ∧ excluded_derived cs = labelled (Some DerivedExcluded) cands
  ∧ excluded_by_top_k_trim cs = labelled (Some TrimmedByTopK) cands.
Proof.
  unfold execute. destruct (entity_lookup data); [done|].
  destruct (relevance_floor_args data) as [[floor fts] bypass]. intros Hres Hdiag Hn Hderived.
  injection Hres as <-. cbn [diagnostics filtered_rows] in *. destruct (diagnostic data); [|done].
  rewrite Hderived in *. cbn [default] in *. injection Hdiag as <- <-.
  set (rows := raw_rows data) in *. set (P := λ r, row_passes r floor bypass).
  set (kept := filter (λ r, is_derived r = false) (filter (λ r, P r = true) rows)) in *.
  set (filtered := match final_top_k data with Some _ => _ | None => _ end) in *.
  assert (filtered `sublist_of` kept) as Hfk by (unfold filtered; destruct (final_top_k data); [apply trim_sublist|done]).
  assert (filtered `sublist_of` rows) as Hfr by (etrans; [exact Hfk|]; etrans; apply sublist_filter).
  assert (∀ r, r ∈ filtered → P r = true ∧ is_derived r = false) as Hfil.
  { intros r Hr. apply (elem_of_sublist _ kept) in Hr; [|done]. apply list_elem_of_filter in Hr as [Hd Hp].
    by apply list_elem_of_filter in Hp as [Hp _]. }
  cbn [candidates_considered returned excluded_below_min_similarity excluded_derived excluded_by_top_k_trim].
  set (cands := (λ r, Candidate r _ _) <$> rows).
  assert (∀ x, labelled x cands = len (filter (λ r, label_of rows filtered P is_derived r = x) rows)) as Hcount
    by (intros x; apply labelled_map).
  assert (len cands = len rows) as Hlen by (unfold len, cands; by rewrite length_fmap).
  assert (labelled None cands = len filtered) as H1.
  { rewrite Hcount. f_equal. etrans; [|by apply (count_none rows filtered P is_derived)]. by apply filter_ext_in. }
  pose proof (Hcount (Some BelowMinSimilarity)) as H2. rewrite (count_below rows filtered P is_derived) in H2 by done.
  pose proof (Hcount (Some DerivedExcluded)) as H3. rewrite (count_derived rows filtered P is_derived) in H3 by done.
  split; [unfold cands; rewrite <-list_fmap_compose; apply list_fmap_id|]. split.
  - intros c Hc. apply list_elem_of_fmap in Hc as (r & -> & Hr). by apply (label_none rows filtered P is_derived).
  - pose proof (labels_partition cands). unfold kept, P in *. split_and!; lia.
Qed.

(** ** The two search paths *)

Lemma existsb_ext_in (f g : row → bool) l : (∀ r, r ∈ l → f r = g r) → existsb f l = existsb g l.
Proof.
  induction l as [|x l IH]; intros H; [done|]. simpl. rewrite (H x) by left. f_equal. apply IH. intros. apply H. by right.
Qed.

Lemma trim_ext rows k (f g : row → bool) :
  (∀ r, r ∈ rows → f r = g r) → trim_reserving_fts_matches rows k f = trim_reserving_fts_matches rows k g.
Proof.
  intros Hfg. unfold trim_reserving_fts_matches.
  rewrite (existsb_ext_in f g (py_take k rows)).
  - rewrite (filter_ext_in (λ r, f r = true) (λ r, g r = true)); [done|]. intros r Hr. rewrite Hfg; [done|].
    eapply elem_of_sublist; [exact Hr|apply sublist_drop].
  - intros r Hr. apply Hfg. eapply elem_of_sublist; [exact Hr|]. unfold py_take. case_match; apply sublist_take.
Qed.

(** The pipeline and the legacy search select the same rows in the same order, for every floor, weight,
    limit and derived-row setting, over rows whose [has_embedding] storage reports as a boolean. *)
Theorem pipeline_selects_as_legacy data res k request_value tenant_value :
  execute data = Some res → final_top_k data = Some k →
  include_derived data = Some (resolve_include_derived request_value tenant_value) →
  Forall (λ r, has_embedding r ≠ None) (raw_rows data) →
  filtered_rows res = legacy_select (raw_rows data) (relevance_floor_args data).1.1 (relevance_floor_args data).1.2
                        (relevance_floor_args data).2 request_value tenant_value k.
Proof.
  unfold execute. destruct (entity_lookup data); [done|].
  destruct (relevance_floor_args data) as [[floor fts] bypass]. intros [= <-] Hk Hd Hemb. cbn [filtered_rows fst snd].
  rewrite Hk, Hd. cbn [default]. unfold legacy_select. set (kept := if resolve_include_derived _ _ then _ else _).
  apply (trim_ext kept). intros r Hr. unfold is_reservable_fts_match, truthy_opt.
  assert (r ∈ raw_rows data) as Hin.
  { unfold kept in Hr. destruct (resolve_include_derived _ _); repeat (apply list_elem_of_filter in Hr as [_ Hr]); done. }
  rewrite Forall_forall in Hemb. specialize (Hemb r Hin). by destruct (has_embedding r) as [[]|].
Qed.

(** ** Samples *)

Definition half : spec_float := S754_finite false 1 (-1).
Definition fanout : pyval := PDict [("parent_memory_id", PStr "m1"); ("source", PStr "atomic_fact_fanout")].
Definition sample_row (id : nat) (metadata : pyval) : row := Row id (Some true) (Some half) false metadata.
Definition sample_data (derived : bool) (rows : list row) : search_data :=
  SearchData false (S754_zero false) None false (Some derived) (Some 2) true rows.

Definition diag_of (data : search_data) : option (list (option exclusion) * counts) :=
  match execute data with
  | Some (PostFiltered _ (Some (cands, cs))) => Some (map c_excluded cands, cs)
  | _ => None
  end.

(** With derived rows included, which is the default, a derived row cut by the limit is
    labelled [derived_excluded] while the counters blame the limit. *)
Example derived_label_without_exclusion :
  diag_of (sample_data true [sample_row 1 PNone; sample_row 2 PNone; sample_row 3 fanout])
  = Some ([None; None; Some DerivedExcluded], Counts 3 2 0 0 1).
Proof. vm_compute. reflexivity. Qed.

Definition sample_rows : list row :=
  [sample_row 1 PNone; sample_row 2 fanout; sample_row 3 PNone; Row 4 (Some false) None true PNone].

Lemma trim_reserves_a_match_witness :
  ∃ r, r ∈ trim_reserving_fts_matches sample_rows 2 fts_match ∧ fts_match r = true.
Proof.
  refine (proj1 (proj2 (proj2 (proj2 (trim_reserves_a_match sample_rows 2 fts_match _)))) _ _); [lia|lia|].
  exists (Row 4 (Some false) None true PNone). split; [by do 3 right; left|reflexivity].
Defined.

Lemma diagnostic_accounts_for_every_candidate_witness :
  ∃ res cands cs, execute (sample_data false sample_rows) = Some res
    ∧ diagnostics res = Some (cands, cs) ∧ returned cs = labelled None cands.
Proof.
  destruct (execute (sample_data false sample_rows)) as [res|] eqn:He; [|discriminate He].
  destruct (diagnostics res) as [[cands cs]|] eqn:Hd; [|vm_compute in He; injection He as <-; discriminate Hd].
  exists res, cands, cs. split; [reflexivity|]. split; [exact Hd|].
  refine (proj1 (proj2 (proj2 (proj2 (diagnostic_accounts_for_every_candidate
            (sample_data false sample_rows) res cands cs He Hd _ eq_refl))))).
  apply (bool_decide_unpack _). vm_compute. exact I.
Defined.

Lemma pipeline_selects_as_legacy_witness :
  ∃ res, execute (sample_data false sample_rows) = Some res
         ∧ filtered_rows res = legacy_select sample_rows (S754_zero false) false false (Some false) None 2.
Proof.
  destruct (execute (sample_data false sample_rows)) as [res|] eqn:He; [|discriminate He].
  exists res. split; [reflexivity|].
  refine (pipeline_selects_as_legacy (sample_data false sample_rows) res 2 (Some false) None He eq_refl eq_refl _).
  repeat constructor; discriminate.
Defined.
