(* ===== verification/AuditQueue.v ===== *)
(** * The audit queue of core-api and its flusher

    [core-api/.../services/audit_queue.py] with the flush callable [app.py] gives it:
    request handlers enqueue without waiting, one background task drains the queue in
    chunks, a chunk is posted tenant by tenant, and four counters say what became of
    every event. The storage calls' outcomes, and cancellation of the task at its
    await, are arguments; between two awaits the flusher runs alone. *)

From S2P Require Import PyStr PyVal.

#[local] Open Scope nat_scope.

(** An audit event: the tenant it names, if any, and what else it carries. *)
Record event := Event { ev_tenant : option string; ev_body : pyval }.
#[global] Instance event_eq_dec : EqDecision event.
Proof. solve_decision. Defined.

(** ** [_flush_audit_batch] of [app.py] *)

(** How the call for one tenant's slice ended. *)
Inductive task_result := Done | RaisedException | RaisedCancelled | RaisedOtherBase.
#[global] Instance task_result_eq_dec : EqDecision task_result.
Proof. solve_decision. Defined.

(** How the flush callable ended: it returned, raised an [Exception], or raised a
    [BaseException] that is none; a raise may carry [failed_event_count]. *)
Inductive flush_end := Returned | RaisesException (failed_event_count : option nat)
                     | RaisesBase (failed_event_count : option nat).

(** [ev.get("tenant_id") or _UNKNOWN_TENANT_SENTINEL]: [None] is the sentinel. *)
Definition tenant_key (ev : event) : option string :=
  match ev_tenant ev with
  | Some t => if bool_decide (t = ""%string) then None else Some t
  | None => None
  end.

(** [by_tenant], in order of first appearance. *)
Fixpoint group_add (k : option string) (ev : event) (g : list (option string * list event))
    : list (option string * list event) :=
  match g with
  | [] => [(k, [ev])]
  | (k', evs) :: g => if bool_decide (k = k') then (k', evs ++ [ev]) :: g else (k', evs) :: group_add k ev g
  end.
Definition group_by_tenant (events : list event) : list (option string * list event) :=
  foldl (λ g ev, group_add (tenant_key ev) ev g) [] events.

Definition sentinel_evs (g : list (option string * list event)) : list event :=
  concat (snd <$> filter (λ p : option string * list event, p.1 = None) g).
Fixpoint tenant_tasks (g : list (option string * list event)) : list (string * list event) :=
  match g with
  | [] => []
  | (Some t, evs) :: g => (t, evs) :: tenant_tasks g
  | (None, _) :: g => tenant_tasks g
  end.

(** The slices posted, each with its outcome. *)
Definition gathered (results : string → task_result) (events : list event)
    : list (string * list event * task_result) :=
  (λ p : string * list event, (p.1, p.2, results p.1)) <$> tenant_tasks (group_by_tenant events).

Definition total_len (l : list (string * list event * task_result)) : nat :=
  sum_list_with (λ p, length p.1.2) l.

Definition total_failed_events (rs : list (string * list event * task_result)) : nat :=
  total_len (filter (λ p, p.2 ≠ Done) rs).

Definition has_result (r : task_result) (rs : list (string * list event * task_result)) : bool :=
  existsb (λ p, bool_decide (p.2 = r)) rs.

(** The callable: its end, and the sentinel count it leaves on itself. [cancelled] is
    a cancellation delivered while it waits for the slices. *)
Definition flush_audit_batch (results : string → task_result) (cancelled : bool) (events : list event)
    : flush_end * nat :=
  let sentinels := length (sentinel_evs (group_by_tenant events)) in
  if cancelled then (RaisesBase None, sentinels)
  else
    let rs := gathered results events in
    let failed := Some (total_failed_events rs) in
    if has_result RaisedCancelled rs || has_result RaisedOtherBase rs then (RaisesBase failed, sentinels)
    else if has_result RaisedException rs then (RaisesException failed, sentinels)
    else (Returned, sentinels).

(** ** [AuditEventQueue] *)

Record config := Config { max_queue_size : Z; flush_threshold : nat; chunk_size : nat }.

(** The object's fields; [draining] is the flusher's local list of drained events not
    yet given to the callable, [running] whether its task lives. The last two fields
    are counted here only: events left in [draining] when the task dies, and events
    with no tenant. *)
Record queue := Queue {
  pending : list event;
  draining : option (list event);
  running : bool;
  wake : bool;
  dropped_count : Z;
  flushed_count : Z;
  failed_count : Z;
  interrupted_count : Z;
  abandoned : Z;
  unattributed : Z;
}.

Definition queue_init : queue := Queue [] None false false 0 0 0 0 0 0.

Definition full (c : config) (q : queue) : bool :=
  (0 <? max_queue_size c)%Z && (max_queue_size c <=? Z.of_nat (length (pending q)))%Z.

Definition enqueue (c : config) (ev : event) (silent : bool) (q : queue) : bool * queue :=
  if full c q then
    (false, Queue (pending q) (draining q) (running q) (wake q)
              (if silent then dropped_count q else (dropped_count q + 1)%Z)
              (flushed_count q) (failed_count q) (interrupted_count q) (abandoned q) (unattributed q))
  else
    let evs := pending q ++ [ev] in
    (true, Queue evs (draining q) (running q) (wake q || (flush_threshold c <=? length evs))
             (dropped_count q) (flushed_count q) (failed_count q) (interrupted_count q)
             (abandoned q) (unattributed q)).

(** [start]: a task that lives is kept. *)
Definition start (q : queue) : queue :=
  Queue (pending q) (draining q) true (wake q) (dropped_count q) (flushed_count q) (failed_count q)
    (interrupted_count q) (abandoned q) (unattributed q).

(** The flusher wakes, clears the event and takes everything out of the queue. *)
Definition begin_drain (q : queue) : option queue :=
  if running q then
    match draining q with
    | Some _ => None
    | None =>
        Some (Queue [] (match pending q with [] => None | evs => Some evs end) true false
                (dropped_count q) (flushed_count q) (failed_count q) (interrupted_count q)
                (abandoned q) (unattributed q))
    end
  else None.

(** The accounting of one chunk: what is added to flushed, failed and interrupted. *)
Definition account (n : nat) (e : flush_end) (sentinels : nat) : Z * Z * Z :=
  match e with
  | Returned => (Z.of_nat n - Z.of_nat sentinels, 0, 0)%Z
  | RaisesException f =>
      let failed := default n f in
      (Z.of_nat n - Z.of_nat failed - Z.of_nat sentinels, Z.of_nat failed, 0)%Z
  | RaisesBase None => (0, 0, Z.of_nat n)%Z
  | RaisesBase (Some failed) =>
      (Z.of_nat n - Z.of_nat failed - Z.of_nat sentinels, Z.of_nat failed, 0)%Z
  end.

(** One turn of the chunk loop: a [BaseException] ends the loop and the task. *)
Definition flush_chunk (c : config) (results : string → task_result) (cancelled : bool) (q : queue)
    : option (list event * queue) :=
  match draining q with
  | Some ((_ :: _) as events) =>
      let chunk := take (chunk_size c) events in
      let rest := drop (chunk_size c) events in
      let '(e, sentinels) := flush_audit_batch results cancelled chunk in
      let '(dflushed, dfailed, dinterrupted) := account (length chunk) e sentinels in
      let dead := match e with RaisesBase _ => true | _ => false end in
      let unattr := match e with RaisesBase None => 0 | _ => sentinels end in
      Some (chunk,
            Queue (pending q)
              (if dead then None else match rest with [] => None | _ => Some rest end)
              (if dead then false else running q) (wake q)
              (dropped_count q) (flushed_count q + dflushed)%Z (failed_count q + dfailed)%Z
              (interrupted_count q + dinterrupted)%Z
              (if dead then abandoned q + Z.of_nat (length rest) else abandoned q)%Z
              (unattributed q + Z.of_nat unattr)%Z)
  | _ => None
  end.

(** [stop] on an idle flusher, or a cancellation while it waits: its task ends. *)
Definition end_idle (q : queue) : option queue :=
  match draining q with
  | None => Some (Queue (pending q) None false (wake q) (dropped_count q) (flushed_count q) (failed_count q)
                    (interrupted_count q) (abandoned q) (unattributed q))
  | Some _ => None
  end.

(** ** Grouping *)

Definition group_total (g : list (option string * list event)) : nat := sum_list_with (λ p, length p.2) g.

Lemma group_add_total k ev g : group_total (group_add k ev g) = S (group_total g).
Proof.
  unfold group_total. induction g as [|[k' evs] g IH]; [done|]. simpl. case_bool_decide; simpl.
  - rewrite length_app. simpl. lia.
  - lia.
Qed.

Lemma group_add_keys k ev g : (group_add k ev g).*1 = if bool_decide (k ∈ g.*1) then g.*1 else g.*1 ++ [k].
Proof.
  induction g as [|[k' evs] g IH]; [done|]. cbn [group_add].
  destruct (decide (k = k')) as [->|Hne].
  - rewrite bool_decide_eq_true_2 by done. rewrite !fmap_cons. cbn [fst].
    rewrite bool_decide_eq_true_2; [done|by left].
  - rewrite bool_decide_eq_false_2 by done. rewrite !fmap_cons, IH. cbn [fst].
    rewrite (bool_decide_ext (k ∈ k' :: g.*1) (k ∈ g.*1)) by set_solver. by case_bool_decide.
Qed.

Lemma group_add_NoDup k ev g : NoDup g.*1 → NoDup (group_add k ev g).*1.
Proof.
  intros Hn. rewrite group_add_keys. case_bool_decide; [done|]. apply NoDup_app. split_and!; [done| |apply NoDup_singleton].
  set_solver.
Qed.

(** What a group holds: the events of its key, in their order. *)
Definition group_ok (events : list event) (g : list (option string * list event)) : Prop :=
  NoDup g.*1 ∧ (∀ k evs, (k, evs) ∈ g → evs = filter (λ ev, tenant_key ev = k) events)
  ∧ (∀ ev, ev ∈ events → tenant_key ev ∈ g.*1).

Lemma group_add_elem k ev g k' evs' :
  NoDup g.*1 → (k', evs') ∈ group_add k ev g →
  (k' ≠ k ∧ (k', evs') ∈ g)
  ∨ (k' = k ∧ ∃ evs, evs' = evs ++ [ev] ∧ ((k, evs) ∈ g ∨ (evs = [] ∧ k ∉ g.*1))).
Proof.
  induction g as [|[k0 evs0] g IH]; simpl; intros Hn Hin.
  - apply list_elem_of_singleton in Hin as [= -> ->]. right. split; [done|]. exists []. split; [done|]. right.
    split; [done|]. by apply not_elem_of_nil.
  - inversion_clear Hn as [|?? Hk0 Hn']. case_bool_decide as Hk.
    + subst k0. apply elem_of_cons in Hin as [[= -> ->]|Hin].
      * right. split; [done|]. exists evs0. split; [done|]. left. by left.
      * left. split; [|by right]. intros ->. apply Hk0. by apply (list_elem_of_fmap_2 fst) in Hin.
    + apply elem_of_cons in Hin as [[= -> ->]|Hin]; [left; split; [done|by left]|].
      destruct (IH Hn' Hin) as [[? ?]|(-> & evs & -> & Hevs)]; [left; split; [done|by right]|right].
      split; [done|]. exists evs. split; [done|]. destruct Hevs as [|[-> Hnot]]; [left; by right|right].
      split; [done|]. rewrite not_elem_of_cons. done.
Qed.

Lemma group_add_ok events g ev : group_ok events g → group_ok (events ++ [ev]) (group_add (tenant_key ev) ev g).
Proof.
  intros (Hn & Hg & Hall). split; [by apply group_add_NoDup|]. split.
  - intros k evs Hin. rewrite filter_app.
    destruct (group_add_elem _ _ _ _ _ Hn Hin) as [[Hne Hin']|(-> & evs0 & -> & Hevs)].
    + rewrite (Hg _ _ Hin'), (filter_cons_False _ ev) by done. by rewrite app_nil_r.
    + rewrite (filter_cons_True _ ev) by done. f_equal. destruct Hevs as [Hin'|[-> Hnot]]; [by apply Hg|].
      symmetry. destruct (filter _ events) as [|x l] eqn:Hf; [done|]. destruct Hnot.
      assert (x ∈ filter (λ e, tenant_key e = tenant_key ev) events) as Hx by (rewrite Hf; left).
      apply list_elem_of_filter in Hx as [<- Hx]. by apply Hall.
  - intros e He. rewrite group_add_keys. apply elem_of_app in He as [He|He].
    + specialize (Hall e He). case_bool_decide; [done|]. apply elem_of_app. by left.
    + apply list_elem_of_singleton in He as ->. case_bool_decide; [done|]. apply elem_of_app. right. by left.
Qed.

Lemma group_by_tenant_ok events : group_ok events (group_by_tenant events).
Proof.
  unfold group_by_tenant. induction events as [|ev events IH] using rev_ind.
  - split; [constructor|]. split; [intros ? ? H; by apply elem_of_nil in H|intros ? H; by apply elem_of_nil in H].
  - rewrite foldl_app. simpl. by apply group_add_ok.
Qed.

Lemma group_by_tenant_total events : group_total (group_by_tenant events) = length events.
Proof.
  unfold group_by_tenant. induction events as [|ev events IH] using rev_ind; [done|].
  rewrite foldl_app, length_app. simpl. rewrite group_add_total, IH. lia.
Qed.

Lemma tenant_tasks_elem t evs g : (t, evs) ∈ tenant_tasks g ↔ (Some t, evs) ∈ g.
Proof.
  induction g as [|[[k|] es] g IH]; simpl; [by rewrite !elem_of_nil| |].
  - rewrite !elem_of_cons, IH. naive_solver.
  - rewrite elem_of_cons, IH. naive_solver.
Qed.

Lemma sentinel_cons k evs g :
  sentinel_evs ((k, evs) :: g) = match k with None => evs ++ sentinel_evs g | Some _ => sentinel_evs g end.
Proof.
  unfold sentinel_evs. destruct k; [by rewrite filter_cons_False|]. by rewrite filter_cons_True.
Qed.

Lemma total_len_cons p rs : total_len (p :: rs) = length p.1.2 + total_len rs.
Proof. done. Qed.

Lemma total_len_split rs : total_len rs = total_len (filter (λ p, p.2 = Done) rs) + total_failed_events rs.
Proof.
  unfold total_failed_events. induction rs as [|p rs IH]; [done|]. rewrite total_len_cons, !filter_cons, IH.
  destruct (decide (p.2 = Done)); [rewrite decide_False by tauto|rewrite decide_True by done];
    rewrite total_len_cons; lia.
Qed.

(** A chunk is its unattributed events, its written slices and its failed ones. *)
Lemma chunk_split results events :
  length events = length (sentinel_evs (group_by_tenant events))
                  + total_len (filter (λ p, p.2 = Done) (gathered results events))
                  + total_failed_events (gathered results events).
Proof.
  rewrite <-Nat.add_assoc, <-total_len_split. rewrite <-(group_by_tenant_total events) at 1. unfold gathered.
  generalize (group_by_tenant events) as g. induction g as [|[[t|] evs] g IH]; [done| |];
    unfold group_total in *; cbn [sum_list_with snd tenant_tasks]; rewrite sentinel_cons.
  - rewrite fmap_cons, total_len_cons. cbn [fst snd]. lia.
  - rewrite length_app. lia.
Qed.

(** ** What became of every event *)

(** The flusher and its clients, with what has really happened: how many events were
    accepted and refused, and how many were in slices whose storage call returned, or
    raised, in chunks not cut short. *)
Record world := World {
  w_q : queue; w_accepted : Z; w_refused : Z; w_written : Z; w_lost : Z;
}.

Definition draining_len (q : queue) : Z := Z.of_nat (length (default [] (draining q))).

Inductive step (c : config) : world → world → Prop :=
| step_enqueue ev silent (w : world) :
    let r := enqueue c ev silent (w_q w) in
    step c w (World r.2 (if r.1 then w_accepted w + 1 else w_accepted w)%Z
                (if negb r.1 && negb silent then w_refused w + 1 else w_refused w)%Z (w_written w) (w_lost w))
| step_start (w : world) : step c w (World (start (w_q w)) (w_accepted w) (w_refused w) (w_written w) (w_lost w))
| step_drain (w : world) q : begin_drain (w_q w) = Some q →
    step c w (World q (w_accepted w) (w_refused w) (w_written w) (w_lost w))
| step_end (w : world) q : end_idle (w_q w) = Some q →
    step c w (World q (w_accepted w) (w_refused w) (w_written w) (w_lost w))
| step_chunk results (cancelled : bool) (w : world) chunk q :
    flush_chunk c results cancelled (w_q w) = Some (chunk, q) →
    let rs := if cancelled then [] else gathered results chunk in
    step c w (World q (w_accepted w) (w_refused w)
                (w_written w + Z.of_nat (total_len (filter (λ p, p.2 = Done) rs)))%Z
                (w_lost w + Z.of_nat (total_failed_events rs))%Z).

Definition init_world (w : world) : Prop := w = World queue_init 0 0 0 0.

Record accounted (w : world) : Prop := Accounted {
  acc_sum : w_accepted w = (Z.of_nat (length (pending (w_q w))) + draining_len (w_q w) + flushed_count (w_q w)
              + failed_count (w_q w) + interrupted_count (w_q w) + abandoned (w_q w) + unattributed (w_q w))%Z;
  acc_written : flushed_count (w_q w) = w_written w;
  acc_lost : failed_count (w_q w) = w_lost w;
  acc_refused : dropped_count (w_q w) = w_refused w;
  acc_draining : draining (w_q w) ≠ Some [];
}.

Lemma flush_end_cases (results : string → task_result) (cancelled : bool) (chunk : list event) :
  let rs := if cancelled then [] else gathered results chunk in
  let s := length (sentinel_evs (group_by_tenant chunk)) in
  flush_audit_batch results cancelled chunk = (RaisesBase None, s) ∧ cancelled = true
  ∨ cancelled = false ∧ flush_audit_batch results cancelled chunk = (RaisesBase (Some (total_failed_events rs)), s)
  ∨ cancelled = false ∧ flush_audit_batch results cancelled chunk = (RaisesException (Some (total_failed_events rs)), s)
  ∨ cancelled = false ∧ flush_audit_batch results cancelled chunk = (Returned, s) ∧ total_failed_events rs = 0.
Proof.
  unfold flush_audit_batch. destruct cancelled; [by left|right]. simpl.
  destruct (has_result RaisedCancelled (gathered results chunk) || has_result RaisedOtherBase (gathered results chunk))
    eqn:Hb; [by left|right]. destruct (has_result RaisedException (gathered results chunk)) eqn:He; [by left|right].
  split; [done|]. split; [done|]. apply orb_false_iff in Hb as [Hc Ho]. unfold total_failed_events, total_len.
  unfold has_result in *. induction (gathered results chunk) as [|[[t evs] r] rs IH]; [done|].
  cbn [existsb] in *. apply orb_false_iff in Hc as [Hc1 Hc]. apply orb_false_iff in Ho as [Ho1 Ho].
  apply orb_false_iff in He as [He1 He]. rewrite filter_cons_False; [auto|].
  simpl in *. destruct r; [by intros []|by rewrite bool_decide_eq_true_2 in He1
    |by rewrite bool_decide_eq_true_2 in Hc1|by rewrite bool_decide_eq_true_2 in Ho1].
Qed.

Lemma accounted_step c w w' : accounted w → step c w w' → accounted w'.
Proof.
  intros [H1 H2 H3 H4 H5]. inversion 1 as [ev silent w0 r|w0|w0 q Hq|w0 q Hq|results cancelled w0 chunk q Hq rs]; subst.
  - unfold r, enqueue. destruct (full c (w_q w)), silent; split; simpl; try done; try lia;
      rewrite ?length_app; simpl; unfold draining_len in *; simpl in *; lia.
  - by split.
  - unfold begin_drain in Hq. destruct (running (w_q w)); [|done].
    destruct (draining (w_q w)) eqn:Hd; [done|]. injection Hq as <-.
    split; simpl; try done; unfold draining_len in *; rewrite Hd in *; destruct (pending (w_q w)); simpl in *; try done; lia.
  - unfold end_idle in Hq. destruct (draining (w_q w)) eqn:Hd; [done|]. injection Hq as <-.
    split; simpl; try done; unfold draining_len in *; rewrite Hd in *; simpl in *; lia.
  - unfold flush_chunk in Hq. destruct (draining (w_q w)) as [[|e0 es]|] eqn:Hd; [done| |done].
    set (events := e0 :: es) in *.
    assert (length events = length (take (chunk_size c) events) + length (drop (chunk_size c) events)) as Hlen
      by (rewrite <-length_app, take_drop; done).
    pose proof (chunk_split results (take (chunk_size c) events)) as Hsplit.
    assert (draining_len (w_q w) = Z.of_nat (length events)) as Hdl by (unfold draining_len; by rewrite Hd).
    destruct (flush_end_cases results cancelled (take (chunk_size c) events))
      as [[He ->]|[[-> He]|[[-> He]|(-> & He & Hz)]]]; rewrite He in Hq; cbn [account default] in Hq;
      injection Hq as <- <-; unfold rs in *; clear rs; cbn in *;
      (split; cbn; [|lia|lia|done|]); try (destruct (drop (chunk_size c) events); done);
      unfold draining_len in *; cbn in *; try (destruct (drop (chunk_size c) events); cbn in *); lia.
Qed.


(** ** A drain that nothing cuts short *)

(** The chunk loop over the answers of successive chunks. *)
Fixpoint drain_loop (c : config) (fuel : nat) (env : nat → string → task_result) (i : nat) (q : queue)
    : list (list event) * queue :=
  match fuel with
  | O => ([], q)
  | S fuel =>
      match flush_chunk c (env i) false q with
      | None => ([], q)
      | Some (chunk, q') => let r := drain_loop c fuel env (S i) q' in (chunk :: r.1, r.2)
      end
  end.

Definition no_base (results : string → task_result) : Prop :=
  ∀ t, results t ≠ RaisedCancelled ∧ results t ≠ RaisedOtherBase.

Lemma has_no_result r results events : (∀ t, results t ≠ r) → has_result r (gathered results events) = false.
Proof.
  intros Hr. unfold has_result, gathered. generalize (tenant_tasks (group_by_tenant events)) as l.
  induction l as [|p l IH]; [done|]. cbn. rewrite IH, orb_false_r. by apply bool_decide_eq_false_2.
Qed.

Lemma flush_chunk_isolated c results q e es :
  draining q = Some (e :: es) → no_base results →
  ∃ q', flush_chunk c results false q = Some (take (chunk_size c) (e :: es), q')
    ∧ running q' = running q ∧ pending q' = pending q ∧ abandoned q' = abandoned q
    ∧ interrupted_count q' = interrupted_count q
    ∧ draining q' = match drop (chunk_size c) (e :: es) with [] => None | rest => Some rest end.
Proof.
  intros Hd Hb. unfold flush_chunk. rewrite Hd. unfold flush_audit_batch.
  rewrite !(has_no_result _ _ _) by (intros t; apply (Hb t)). cbn [orb].
  destruct (has_result RaisedException _); (eexists; split; [reflexivity|]); cbn; rewrite ?Z.add_0_r;
    split_and!; try done; by destruct (drop (chunk_size c) (e :: es)).
Qed.

(** A drain posts everything it took, in order, in chunks storage accepts, however many slices fail:
    with no cancellation the loop ends with the drained events exactly the chunks it posted, each of
    them non-empty and of at most [chunk_size] events, and the flusher alive; a failed chunk stops none
    after it. *)
Theorem drain_posts_everything c env i fuel q e es :
  draining q = Some (e :: es) → 0 < chunk_size c → (∀ i, no_base (env i)) → length (e :: es) <= fuel →
  let r := drain_loop c fuel env i q in
  concat r.1 = e :: es
  ∧ Forall (λ chunk, 0 < length chunk <= chunk_size c) r.1
  ∧ draining r.2 = None ∧ running r.2 = running q ∧ abandoned r.2 = abandoned q
  ∧ interrupted_count r.2 = interrupted_count q.
Proof.
  intros Hd Hc Hb. revert i q e es Hd. induction fuel as [|fuel IH]; intros i q e es Hd Hf; [simpl in Hf; lia|].
  cbn [drain_loop]. destruct (flush_chunk_isolated c (env i) q e es Hd (Hb i)) as (q' & -> & Hr & _ & Ha & Hi & Hd').
  cbn [fst snd]. assert (0 < length (take (chunk_size c) (e :: es)) <= chunk_size c) as Hlen
    by (rewrite length_take; simpl; lia).
  pose proof (take_drop (chunk_size c) (e :: es)) as Htd.
  destruct (drop (chunk_size c) (e :: es)) as [|e' es'] eqn:Hrest.
  - assert (drain_loop c fuel env (S i) q' = ([], q')) as ->.
    { destruct fuel; [done|]. cbn [drain_loop]. unfold flush_chunk. by rewrite Hd'. }
    cbn [concat fst snd]. rewrite app_nil_r in *. split_and!; try done. constructor; [exact Hlen|constructor].
  - assert (length (e' :: es') <= fuel) as Hf'.
    { rewrite <-Hrest, length_drop. simpl in *. lia. }
    destruct (IH (S i) q' e' es' Hd' Hf') as (I1 & I2 & I3 & I4 & I5 & I6). cbn zeta in *.
    cbn [concat]. rewrite I1. split_and!; [done|by constructor|done|congruence..].
Qed.

(** Each tenant's slice of a chunk is its events of the chunk, in their order, and every event that
    names a tenant is in exactly one slice; no event reaches storage under another tenant. *)
Theorem slices_are_the_tenants_events results chunk :
  (∀ t evs r, (t, evs, r) ∈ gathered results chunk → evs = filter (λ ev, tenant_key ev = Some t) chunk ∧ r = results t)
  ∧ NoDup ((λ p, p.1.1) <$> gathered results chunk)
  ∧ ∀ ev t, ev ∈ chunk → tenant_key ev = Some t → ∃ evs r, (t, evs, r) ∈ gathered results chunk ∧ ev ∈ evs.
Proof.
  destruct (group_by_tenant_ok chunk) as (Hn & Hg & Hall). unfold gathered. split_and!.
  - intros t evs r Hin. apply list_elem_of_fmap in Hin as ([t' evs'] & [= -> -> ->] & Hin).
    apply tenant_tasks_elem in Hin. split; [by apply Hg|done].
  - rewrite <-list_fmap_compose. change (NoDup (fst <$> tenant_tasks (group_by_tenant chunk))). clear -Hn.
    induction (group_by_tenant chunk) as [|[[t|] evs] g IH]; [constructor| |];
      inversion_clear Hn as [|?? Hk Hn']; cbn [tenant_tasks]; [|auto].
    rewrite fmap_cons. constructor; [|auto]. intros (p & Heq & Hp)%list_elem_of_fmap. destruct p as [t' evs'].
    simpl in Heq. subst t'. apply tenant_tasks_elem in Hp. apply Hk. by apply (list_elem_of_fmap_2 fst) in Hp.
  - intros ev t Hev Ht. specialize (Hall ev Hev). rewrite Ht in Hall.
    apply list_elem_of_fmap in Hall as ([k evs] & Heq & Hin). simpl in Heq. subst k.
    exists evs, (results t). split.
    + apply list_elem_of_fmap. exists (t, evs). split; [done|]. by apply tenant_tasks_elem.
    + rewrite (Hg _ _ Hin). by apply list_elem_of_filter.
Qed.

(** ** Samples *)

Definition sample_config : config := Config 10000 50 2.
Definition ev_of (t : string) (n : Z) : event := Event (Some t) (PInt n).
Definition three : list event := [ev_of "acme" 1; ev_of "globex" 2; ev_of "acme" 3].
Definition drained_three : queue := Queue [] (Some three) true false 0 0 0 0 0 0.

(** A cancellation at the first of two chunks: its events are counted interrupted; the
    rest of the drain, no longer in the queue, is in no counter, and the flusher is
    gone. *)
Example cancelled_drain_abandons_the_rest :
  flush_chunk sample_config (λ _, Done) true drained_three
  = Some ([ev_of "acme" 1; ev_of "globex" 2], Queue [] None false false 0 0 0 2 1 0).
Proof. reflexivity. Qed.

(** A tenant whose storage fails costs the chunk its own events only. *)
Example failed_slice_is_isolated :
  (drain_loop sample_config 3 (λ _ t, if bool_decide (t = "globex"%string) then RaisedException else Done) 0
     drained_three).2
  = Queue [] None true false 0 2 1 0 0 0.
Proof. reflexivity. Qed.

Definition w_sample : world :=
  World (Queue [] None false false 0 0 0 1 0 0) 1 0 0 0.

Lemma w_sample_reachable : reachable (step sample_config) init_world w_sample.
Proof.
  eapply reach_step; [|exact (step_chunk sample_config (λ _, Done) true
    (World (Queue [] (Some [ev_of "acme" 1]) true false 0 0 0 0 0 0) 1 0 0 0) _ _ eq_refl)].
  eapply reach_step; [|exact (step_drain sample_config
    (World (Queue [ev_of "acme" 1] None true false 0 0 0 0 0 0) 1 0 0 0) _ eq_refl)].
  eapply reach_step; [|exact (step_enqueue sample_config (ev_of "acme" 1) false
    (World (Queue [] None true false 0 0 0 0 0 0) 0 0 0 0))].
  eapply reach_step; [|exact (step_start sample_config (World queue_init 0 0 0 0))].
  by apply reach_init.
Qed.


Lemma drain_posts_everything_witness :
  concat (drain_loop sample_config 3 (λ _ _, RaisedException) 0 drained_three).1 = three.
Proof.
  refine (proj1 (drain_posts_everything sample_config (λ _ _, RaisedException) 0 3 drained_three
                   (ev_of "acme" 1) _ eq_refl _ _ _)); [simpl; lia| |simpl; lia].
  intros i t. split; discriminate.
Defined.
