(* ===== verification/LifecycleAudit.v ===== *)
(** * The lifecycle audit table

    [core_storage_api/services/postgres_service.py], the [lifecycle_audit_*]
    operations, and the routes of [routers/lifecycle_audit.py] around them. A row is
    written [pending] by the fan-out, moved to [in_progress] by the consumer that
    claims it, and finalised. Every operation is one transaction; [lifecycle_audit_finalize]
    is a guarded [UPDATE] followed, when no row matched, by a read that says why.

    Time is in microseconds, as PostgreSQL keeps it. An id is handed out by the
    table's sequence ([next_id]) and never handed out again. *)

From S2P Require Import Prelude PyStr PyVal.

Local Open Scope Z_scope.

(** ** Rows *)

Inductive lc_status : Type := LPending | LInProgress | LSuccess | LFailure.

#[export] Instance lc_status_eq_dec : EqDecision lc_status.
Proof. solve_decision. Defined.

Definition lc_status_text (s : lc_status) : string :=
  match s with
  | LPending => "pending" | LInProgress => "in_progress"
  | LSuccess => "success" | LFailure => "failure"
  end.

Record lc_row : Type := LcRow {
  lc_org : string;
  lc_action : string;
  lc_triggered_by : string;
  lc_started_at : Z;
  lc_finished_at : option Z;
  lc_state : lc_status;
  lc_claimed_at : option Z;
  lc_claim_token : option string;
  lc_stats : option pyval;
  lc_error : option string
}.

Abbreviation lc_rows := (gmap Z lc_row).

(** The table and its sequence. *)
Record lc_table : Type := LcTable { lc_data : lc_rows; lc_next_id : Z }.

Definition minutes (n : Z) : Z := n * 60 * 1000000.
Definition hours (n : Z) : Z := n * 3600 * 1000000.

Definition LIFECYCLE_CLAIM_LEASE_MINUTES : Z := 60.
Definition claim_lease : Z := minutes LIFECYCLE_CLAIM_LEASE_MINUTES.

(** ** Writing *)

Definition lifecycle_audit_create (now : Z) (org action triggered_by : string)
    (t : lc_table) : Z * lc_table :=
  let id := lc_next_id t in
  (id, LcTable (<[id := LcRow org action triggered_by now None LPending None None None None]>
                  (lc_data t)) (id + 1)).

Inductive fin_result : Type :=
| Updated | NoopSuccess | ClaimConflict | ClaimLost | Missing.

#[export] Instance fin_result_eq_dec : EqDecision fin_result.
Proof. solve_decision. Defined.

(** What a caller asks of one row: the body of the PATCH. *)
Record lc_write : Type := LcWrite {
  w_id : Z;
  w_org : string;
  w_status : lc_status;
  w_stats : option pyval;
  w_error : option string;
  w_token : option string
}.

#[export] Instance lc_write_eq_dec : EqDecision lc_write.
Proof. solve_decision. Defined.

(** [values]: the columns the UPDATE sets. *)
Definition finalize_values (now : Z) (w : lc_write) (r : lc_row) : lc_row :=
  let claims := bool_decide (w_status w = LInProgress) in
  LcRow (lc_org r) (lc_action r) (lc_triggered_by r) (lc_started_at r)
    (match w_status w with
     | LSuccess | LFailure => Some now
     | LInProgress => None
     | LPending => lc_finished_at r
     end)
    (w_status w)
    (if claims then Some now else lc_claimed_at r)
    (if claims then w_token w else lc_claim_token r)
    (match w_stats w with Some s => Some s | None => lc_stats r end)
    (if bool_decide (w_status w = LSuccess) then None
     else match w_error w with Some e => Some e | None => lc_error r end).

(** [LifecycleAudit.claim_token == claim_token] in SQL: never true of a NULL. *)
Definition token_matches (tok held : option string) : bool :=
  match tok, held with Some a, Some b => bool_decide (a = b) | _, _ => false end.

(** The compare-and-swap arms of a claim. *)
Definition claim_open (now : Z) (tok : option string) (r : lc_row) : bool :=
  negb (bool_decide (lc_state r = LInProgress))
  || match lc_claimed_at r with None => true | Some c => c <? now - claim_lease end
  || token_matches tok (lc_claim_token r).

(** The guard of a terminal write that names a claim. *)
Definition finalize_open (tok : option string) (r : lc_row) : bool :=
  match tok with
  | None => true
  | Some _ => match lc_claim_token r with None => true | Some _ => token_matches tok (lc_claim_token r) end
  end.

Definition finalize_guard (now : Z) (w : lc_write) (r : lc_row) : bool :=
  bool_decide (lc_org r = w_org w)
  && negb (bool_decide (lc_state r = LSuccess))
  && match w_status w with
     | LInProgress => claim_open now (w_token w) r
     | LSuccess | LFailure => finalize_open (w_token w) r
     | LPending => true
     end.

(** Why the UPDATE matched no row. *)
Definition finalize_reason (w : lc_write) (found : option lc_row) : fin_result :=
  match found with
  | None => Missing
  | Some r =>
      if negb (bool_decide (lc_org r = w_org w)) then Missing
      else if bool_decide (w_status w = LSuccess ∨ w_status w = LFailure)
              && match w_token w, lc_claim_token r with
                 | Some a, Some b => negb (bool_decide (b = a))
                 | _, _ => false
                 end
      then ClaimLost
      else if bool_decide (lc_state r = LSuccess) then NoopSuccess
      else ClaimConflict
  end.

Definition lifecycle_audit_finalize (now : Z) (w : lc_write) (t : lc_table)
    : fin_result * lc_table :=
  match lc_data t !! w_id w with
  | Some r =>
      if finalize_guard now w r
      then (Updated, LcTable (<[w_id w := finalize_values now w r]> (lc_data t)) (lc_next_id t))
      else (finalize_reason w (Some r), t)
  | None => (finalize_reason w None, t)
  end.

(** ** Reading *)

Definition lifecycle_audit_get (id : Z) (org : string) (t : lc_table) : option lc_row :=
  match lc_data t !! id with
  | Some r => if bool_decide (lc_org r = org) then Some r else None
  | None => None
  end.

(** [coalesce(stats ->> 'skipped', 'false') != 'true']: JSON [true] and the string
    ["true"] are the values whose text is [true]. *)
Definition stats_skipped (stats : option pyval) : bool :=
  match stats with
  | Some (PDict d) =>
      match dict_get "skipped" d with
      | Some (PBool b) => b
      | Some (PStr s) => bool_decide (s = "true")
      | _ => false
      end
  | _ => false
  end.

Definition is_recent_success (now : Z) (org action : string) (window : Z) (r : lc_row) : bool :=
  bool_decide (lc_org r = org)
  && bool_decide (lc_action r = action)
  && bool_decide (lc_state r = LSuccess)
  && negb (stats_skipped (lc_stats r))
  && match lc_finished_at r with Some f => now - window <? f | None => false end
  && (now - window <? lc_started_at r).

Definition lifecycle_audit_has_recent_success (now : Z) (org action : string) (window : Z)
    (t : lc_table) : bool :=
  existsb (λ p, is_recent_success now org action window p.2) (map_to_list (lc_data t)).

(** The route refuses a window that is not in (0, 168] hours. *)
Definition has_recent_success_route (now : Z) (org action : string) (window : Z) (t : lc_table)
    : result exn bool :=
  if (window <=? 0) || (hours 168 <? window)
  then Err (HTTPException 422 "'since_hours' must be in (0, 168] (hours)")
  else Ok (lifecycle_audit_has_recent_success now org action window t).

Definition is_stranded (now : Z) (org : option string) (triggered_by : string) (older : Z)
    (r : lc_row) : bool :=
  bool_decide (lc_state r = LPending)
  && bool_decide (lc_triggered_by r = triggered_by)
  && (lc_started_at r <? now - minutes older)
  && match org with None => true | Some o => bool_decide (lc_org r = o) end.

Definition started_leb (a b : Z * lc_row) : bool := lc_started_at a.2 <=? lc_started_at b.2.

(** Oldest first, at most [limit]; [org = None] is the admin-wide sweep. Rows of one
    instant come in no particular order from SQL, in some order here. *)
Definition lifecycle_audit_list_stranded (now : Z) (org : option string) (triggered_by : string)
    (older : Z) (limit : nat) (t : lc_table) : list (Z * lc_row) :=
  take limit (py_sorted started_leb
    (filter (λ p, is_stranded now org triggered_by older p.2 = true) (map_to_list (lc_data t)))).

(** ** The PATCH route *)

Definition valid_status (s : string) : option lc_status :=
  if bool_decide (s = "in_progress") then Some LInProgress
  else if bool_decide (s = "success") then Some LSuccess
  else if bool_decide (s = "failure") then Some LFailure
  else None.

(** [status not in _VALID_STATUSES]: a set lookup, which raises on a value that
    cannot be hashed. *)
Definition body_status (v : pyval) : result exn lc_status :=
  match v with
  | PList _ | PDict _ => Err (PyError "TypeError" "unhashable type")
  | _ =>
      match as_str v with
      | Some s =>
          match valid_status s with
          | Some st => Ok st
          | None => Err (HTTPException 422 "status must be one of ['failure', 'in_progress', 'success']")
          end
      | None => Err (HTTPException 422 "status must be one of ['failure', 'in_progress', 'success']")
      end
  end.

(** The flags of the response; a client turns a 404 into the empty object, whose
    flags read as false. *)
Record lc_response : Type := LcResponse {
  r_noop : bool; r_claim_conflict : bool; r_claim_lost : bool
}.

Definition no_flags : lc_response := LcResponse false false false.

Definition finalize_response (f : fin_result) : lc_response :=
  LcResponse (bool_decide (f = NoopSuccess)) (bool_decide (f = ClaimConflict))
    (bool_decide (f = ClaimLost)).

Definition opt_str (v : option pyval) : option (option string) :=
  match v with
  | None | Some PNone => Some None
  | Some (PStr s) => Some (Some s)
  | Some _ => None
  end.

Definition opt_val (v : option pyval) : option pyval :=
  match v with Some PNone => None | o => o end.

(** [update_lifecycle_audit]: the body is checked, then the row is finalised.
    [error_message] is not checked by the code; a value that is not a string would
    be refused by the column, which is the [None] of [opt_str]. *)
Definition update_lifecycle_audit (now : Z) (id : Z) (body : pyval) (t : lc_table)
    : result exn lc_response * lc_table :=
  match as_dict body with
  | None => (Err (HTTPException 422 "request body must be a JSON object"), t)
  | Some d =>
      match dict_get "org_id" d with
      | Some (PStr (String _ _ as org)) =>
          match body_status (default PNone (dict_get "status" d)) with
          | Err e => (Err e, t)
          | Ok st =>
              match opt_str (dict_get "claim_token" d) with
              | None => (Err (HTTPException 422 "'claim_token' must be a string when provided"), t)
              | Some tok =>
                  match opt_str (dict_get "error_message" d) with
                  | None => (Err (PyError "DataError" "error_message"), t)
                  | Some err =>
                      let '(f, t') := lifecycle_audit_finalize now
                        (LcWrite id org st (opt_val (dict_get "stats" d)) err tok) t in
                      if bool_decide (f = Missing)
                      then (Err (HTTPException 404 "lifecycle_audit not found"), t')
                      else (Ok (finalize_response f), t')
                  end
              end
          end
      | _ => (Err (HTTPException 422 "'org_id' must be a non-empty string"), t)
      end
  end.

(** The body a client sends for a write ([update_lifecycle_audit_row] of both
    storage clients). *)
Definition write_body (w : lc_write) : pyval :=
  PDict (("org_id", PStr (w_org w)) :: ("status", PStr (lc_status_text (w_status w)))
    :: match w_stats w with Some s => [("stats", s)] | None => [] end
    ++ match w_error w with Some e => [("error_message", PStr e)] | None => [] end
    ++ match w_token w with Some k => [("claim_token", PStr k)] | None => [] end).

(** What the client hands its caller: the flags, and none of them for a 404. *)
Definition update_lifecycle_audit_row (now : Z) (w : lc_write) (t : lc_table)
    : lc_response * lc_table :=
  let '(f, t') := lifecycle_audit_finalize now w t in (finalize_response f, t').

(** ** Lemmas *)

Lemma finalize_cases now w t :
  (∃ r, lc_data t !! w_id w = Some r ∧ finalize_guard now w r = true
        ∧ lifecycle_audit_finalize now w t
          = (Updated, LcTable (<[w_id w := finalize_values now w r]> (lc_data t)) (lc_next_id t)))
  ∨ (lifecycle_audit_finalize now w t).2 = t
    ∧ (lifecycle_audit_finalize now w t).1 = finalize_reason w (lc_data t !! w_id w)
    ∧ (∀ r, lc_data t !! w_id w = Some r → finalize_guard now w r = false).
Proof.
  unfold lifecycle_audit_finalize. destruct (lc_data t !! w_id w) as [r|] eqn:E.
  - destruct (finalize_guard now w r) eqn:G; [left; eauto|right].
    split_and!; [done..|]. intros r' [= <-]. done.
  - right. split_and!; [done..|]. done.
Qed.

Lemma finalize_reason_not_updated w o : finalize_reason w o ≠ Updated.
Proof. unfold finalize_reason. destruct o; repeat case_match; done. Qed.

(** The body a client sends is read back by the route as the same write: the route
    is [update_lifecycle_audit_row], with a 404 for the missing row. *)
Lemma opt_val_id v : v ≠ Some PNone → opt_val v = v.
Proof. destruct v as [[]|]; done. Qed.

(** What a storage client sends for a write is accepted by the route and applied
    as that very write: the caller reads the flags of [lifecycle_audit_finalize], and
    a row that is gone, a 404, as no flag at all. *)
Theorem audit_patch_roundtrip now w t :
  w_org w ≠ "" → w_status w ≠ LPending → w_stats w ≠ Some PNone →
  let '(resp, t') := update_lifecycle_audit now (w_id w) (write_body w) t in
  t' = (update_lifecycle_audit_row now w t).2
  ∧ match resp with
    | Ok flags => flags = (update_lifecycle_audit_row now w t).1
    | Err e => exn_status e = Some 404 ∧ (update_lifecycle_audit_row now w t).1 = no_flags
               ∧ (lifecycle_audit_finalize now w t).1 = Missing
    end.
Proof.
  intros Ho Hs Hn. destruct w as [id org st stats err tok]; cbn [w_org w_status w_stats] in *.
  assert (Hd : update_lifecycle_audit now id (write_body (LcWrite id org st stats err tok)) t
    = let '(f, t') := lifecycle_audit_finalize now (LcWrite id org st stats err tok) t in
      if bool_decide (f = Missing) then (Err (HTTPException 404 "lifecycle_audit not found"), t')
      else (Ok (finalize_response f), t')).
  { destruct org as [|c org]; [done|].
    destruct st; [done|..]; destruct stats as [s|], err as [e|], tok as [k|];
      unfold update_lifecycle_audit, write_body; cbn;
      try (destruct s; try done; reflexivity); reflexivity. }
  cbn [w_id]. rewrite Hd. unfold update_lifecycle_audit_row.
  destruct (lifecycle_audit_finalize now _ t) as [f t'].
  case_bool_decide as Hf; cbn; [|done]. subst f. done.
Qed.

Lemma audit_patch_roundtrip_witness :
  let w := LcWrite 1 "org" LSuccess (Some (PDict [("archived", PInt 3)])) None (Some "tok") in
  let t := LcTable {[1 := LcRow "org" "archive-stale" "core-operations" 0 None LInProgress
                          (Some 5) (Some "tok") None None]} 2 in
  let '(resp, t') := update_lifecycle_audit 10 (w_id w) (write_body w) t in
  t' = (update_lifecycle_audit_row 10 w t).2
  ∧ match resp with
    | Ok flags => flags = (update_lifecycle_audit_row 10 w t).1
    | Err e => exn_status e = Some 404 ∧ (update_lifecycle_audit_row 10 w t).1 = no_flags
               ∧ (lifecycle_audit_finalize 10 w t).1 = Missing
    end.
Proof. intros w t. refine (audit_patch_roundtrip 10 w t _ _ _); discriminate. Defined.
