(* ===== verification/LifecycleRun.v ===== *)
(** * Lifecycle consumers

    [common/events/lifecycle_handlers.py]: [claim_audit_row], [release_cancelled_claim],
    [write_success] and [_run_action], the body every lifecycle delivery runs, over the
    audit table of [LifecycleAudit].

    A delivery is a sequence of awaits: it is in a [phase], one per [await] of the
    code, and what the await ends with (an answer, an exception, a cancellation) takes
    it to the next ([react]). Module [World] runs any number of deliveries against one
    table: a request that was sent may be applied late, more than once or never, and
    the answer of an application may be lost; the dedup read may answer anything, since
    it reads a replica. *)

From S2P Require Import Prelude PyStr PyVal LifecycleAudit.

Local Open Scope Z_scope.

(** ** One delivery *)

(** What [run_op] ends with: a count, a [PermanentOpError], another exception. *)
Inductive op_result : Type :=
| OpDone (count : Z)
| OpPermanent (msg : string)
| OpFailed (msg : string).

(** The registration (action, [stats_key], the dedup window in microseconds) and the
    fields of the payload the handler reads. *)
Record job : Type := Job {
  j_id : Z;
  j_org : string;
  j_action : string;
  j_stats_key : string;
  j_dedup : option Z;
  j_dedup_request : option Z
}.

(** [getattr(request, "dedup_window_hours", None) or dedup_window_hours] *)
Definition dedup_window (j : job) : option Z :=
  match j_dedup j with
  | None => None
  | Some w => Some (match j_dedup_request j with Some r => if r =? 0 then w else r | None => w end)
  end.

Inductive verdict : Type := Acked | Nacked | Cancelled.

Inductive phase : Type :=
| PhDedup                                       (** [has_recent_lifecycle_success] *)
| PhSkip                                        (** the skip row *)
| PhClaim                                       (** the claim *)
| PhRun                                         (** [run_op] *)
| PhFail (permanent : bool) (msg : string)      (** the failure row *)
| PhSuccess (stats : pyval) (delays : list Z)   (** the success row; delays left *)
| PhSleep (stats : pyval) (delays : list Z)     (** between two attempts at it *)
| PhRelease (finished : option pyval)           (** the write of a cancelled run *)
| PhEnd (v : verdict).

(** How an await ends. A call that raised answers [None]. *)
Inductive event : Type :=
| EvDedup (answer : option bool)
| EvWrite (answer : option lc_response)
| EvOp (r : op_result)
| EvSlept
| EvCancel.

(** [_SUCCESS_WRITE_RETRY_DELAYS_SECONDS] *)
Definition success_write_retry_delays : list Z := [1; 5; 15].

Definition skip_stats : pyval :=
  PDict [("skipped", PBool true); ("reason", PStr "recent_success")].

Definition run_stats (j : job) (count : Z) : pyval := PDict [(j_stats_key j, PInt count)].

(** The claim's answer: run, stop, or raise. *)
Definition claim_audit_row (answer : option lc_response) : result exn bool :=
  match answer with
  | None => Err (PyError "Exception" "lifecycle audit claim write failed")
  | Some c =>
      if r_noop c then Ok false
      else if r_claim_conflict c
      then Err (PyError "RuntimeError" "lifecycle audit row is claimed by another consumer")
      else Ok true
  end.

Definition release_cancelled_claim (tok : string) (j : job) (finished : option pyval) : lc_write :=
  match finished with
  | None => LcWrite (j_id j) (j_org j) LFailure None
              (Some "interrupted: the consumer was cancelled mid-run") (Some tok)
  | Some stats => LcWrite (j_id j) (j_org j) LSuccess (Some stats) None (Some tok)
  end.

(** The storage write a phase awaits. *)
Definition request_of (tok : string) (j : job) (ph : phase) : option lc_write :=
  match ph with
  | PhSkip => Some (LcWrite (j_id j) (j_org j) LSuccess (Some skip_stats) None None)
  | PhClaim => Some (LcWrite (j_id j) (j_org j) LInProgress None None (Some tok))
  | PhFail permanent msg =>
      Some (LcWrite (j_id j) (j_org j) LFailure
              (if permanent then Some (PDict [("terminal", PBool true)]) else None)
              (Some (str_take 500 msg)) (Some tok))
  | PhSuccess stats _ => Some (LcWrite (j_id j) (j_org j) LSuccess (Some stats) None (Some tok))
  | PhRelease finished => Some (release_cancelled_claim tok j finished)
  | _ => None
  end.

(** [write_success]: a failed attempt waits for the next delay, the last one raises; a
    cancellation still records the success, once. *)
Definition write_success (stats : pyval) (delays : list Z) (answer : option lc_response) : phase :=
  match answer, delays with
  | Some _, _ => PhEnd Acked
  | None, [] => PhEnd Nacked
  | None, _ :: delays => PhSleep stats delays
  end.

(** [_run_action]. A payload that does not validate is dropped with an ack. *)
Definition run_action_start (payload : option job) : phase :=
  match payload with
  | None => PhEnd Acked
  | Some j => match dedup_window j with Some _ => PhDedup | None => PhClaim end
  end.

Definition react (j : job) (ph : phase) (ev : event) : option phase :=
  match ph, ev with
  | PhDedup, EvDedup (Some true) => Some PhSkip
  | PhDedup, EvDedup _ => Some PhClaim
  | PhSkip, EvWrite (Some _) => Some (PhEnd Acked)
  | PhSkip, EvWrite None => Some (PhEnd Nacked)
  | PhClaim, EvWrite answer =>
      Some (match claim_audit_row answer with
            | Ok true => PhRun
            | Ok false => PhEnd Acked
            | Err _ => PhEnd Nacked
            end)
  | PhRun, EvOp (OpDone n) => Some (PhSuccess (run_stats j n) success_write_retry_delays)
  | PhRun, EvOp (OpPermanent msg) => Some (PhFail true msg)
  | PhRun, EvOp (OpFailed msg) => Some (PhFail false msg)
  | PhRun, EvCancel => Some (PhRelease None)
  | PhFail permanent _, EvWrite answer =>
      Some (PhEnd (if permanent && bool_decide (is_Some answer) then Acked else Nacked))
  | PhSuccess stats delays, EvWrite answer => Some (write_success stats delays answer)
  | PhSuccess stats _, EvCancel => Some (PhRelease (Some stats))
  | PhSleep stats delays, EvSlept => Some (PhSuccess stats delays)
  | PhSleep stats _, EvCancel => Some (PhRelease (Some stats))
  | PhRelease _, EvWrite _ => Some (PhEnd Cancelled)
  | PhEnd _, _ => None
  | _, EvCancel => Some (PhEnd Cancelled)
  | _, _ => None
  end.

Fixpoint react_all (j : job) (ph : phase) (evs : list event) : option phase :=
  match evs with
  | [] => Some ph
  | ev :: evs => react j ph ev ≫= λ ph, react_all j ph evs
  end.

(** The awaits a phase can still reach. *)
Definition awaits_left (ph : phase) : nat :=
  match ph with
  | PhEnd _ => 0
  | PhRelease _ | PhSkip | PhFail _ _ => 1
  | PhSuccess _ delays => 2 * length delays + 2
  | PhSleep _ delays => 2 * length delays + 3
  | PhRun => 9
  | PhClaim => 10
  | PhDedup => 11
  end.

Lemma react_decreases j ph ev ph' :
  react j ph ev = Some ph' → (awaits_left ph' < awaits_left ph)%nat.
Proof.
  destruct ph as [| | | |perm msg|stats [|d ds]|stats ds|fin|v]; destruct ev as [[[]|]|a|r| |];
    simpl; intros [=]; subst; simpl; try lia;
    try (destruct a; simpl; lia); try (destruct r; simplify_eq/=; lia).
  all: repeat case_match; simplify_eq/=; lia.
Qed.

(** A delivery ends: whatever its awaits answer, and wherever it is cancelled, it
    goes through at most eleven of them, and one that has not ended can always be
    cancelled. Its awaits are the success write's four attempts and three waits, the
    dedup read, the claim, the operation and, of a cancelled run, one write. *)
Theorem lifecycle_handler_terminates j evs ph :
  react_all j (run_action_start (Some j)) evs = Some ph →
  (length evs ≤ 11)%nat ∧ (match ph with PhEnd _ => True | _ => is_Some (react j ph EvCancel) end).
Proof.
  intros H. split.
  - assert (∀ ph0, react_all j ph0 evs = Some ph → (length evs + awaits_left ph ≤ awaits_left ph0)%nat)
      as Hl.
    { clear H. induction evs as [|ev evs IH]; simpl; intros ph0 H; [simplify_eq; lia|].
      apply bind_Some in H as (ph1 & H1 & H2). apply IH in H2. apply react_decreases in H1. lia. }
    specialize (Hl _ H). unfold run_action_start in Hl. destruct (dedup_window j); simpl in Hl; lia.
  - destruct ph; simpl; eauto.
Qed.

Definition example_job : job := Job 1 "org" "crystallize" "links_or_clusters" (Some (hours 23)) None.

Lemma lifecycle_handler_terminates_witness :
  let evs := [EvDedup None; EvWrite (Some no_flags); EvOp (OpDone 2); EvWrite None; EvSlept; EvCancel;
              EvWrite None] in
  react_all example_job (run_action_start (Some example_job)) evs = Some (PhEnd Cancelled)
  ∧ ((length evs ≤ 11)%nat ∧ True).
Proof.
  intros evs. split; [reflexivity|].
  exact (lifecycle_handler_terminates example_job evs (PhEnd Cancelled) eq_refl).
Defined.

(** ** Deliveries against one table *)

Module World.

(** A delivery: its phase, when its claim was granted, what its operation ended
    with. Deliveries are known by their claim token. *)
Record inv : Type := Inv {
  i_job : job;
  i_phase : phase;
  i_since : option Z;
  i_result : option op_result
}.

Abbreviation inv_map := (gmap string inv).

Record world : Type := MkWorld {
  now : Z;
  table : lc_table;
  invs : inv_map;
  sent : list lc_write;
  replies : list (lc_write * lc_response * Z)
}.

Definition init (w : world) : Prop := w = MkWorld 0 (LcTable ∅ 1) ∅ [] [].

(** The delivery's await ends with [ev]: it moves on, and sends the next phase's
    request. *)
Definition advance (tok : string) (ev : event) (since : option Z) (w : world) : option world :=
  i ← invs w !! tok;
  ph ← react (i_job i) (i_phase i) ev;
  Some (MkWorld (now w) (table w)
    (<[tok := Inv (i_job i) ph
                (match i_phase i, ph with PhClaim, PhRun => since | _, _ => i_since i end)
                (match ev with EvOp r => Some r | _ => i_result i end)]> (invs w))
    (option_list (request_of tok (i_job i) ph) ++ sent w)
    (replies w)).

Definition is_answer (ev : event) : bool :=
  match ev with EvWrite (Some _) => true | _ => false end.

Inductive step (w : world) : world → Prop :=
| st_tick d : 0 ≤ d →
    step w (MkWorld (now w + d) (table w) (invs w) (sent w) (replies w))
| st_create org action by_ :
    step w (MkWorld (now w) (lifecycle_audit_create (now w) org action by_ (table w)).2
              (invs w) (sent w) (replies w))
| st_prune id :
    step w (MkWorld (now w) (LcTable (delete id (lc_data (table w))) (lc_next_id (table w)))
              (invs w) (sent w) (replies w))
| st_deliver tok j :
    invs w !! tok = None →
    j_id j < lc_next_id (table w) →
    (∀ r, lc_data (table w) !! j_id j = Some r → lc_org r = j_org j) →
    step w (MkWorld (now w) (table w)
              (<[tok := Inv j (run_action_start (Some j)) None None]> (invs w))
              (option_list (request_of tok j (run_action_start (Some j))) ++ sent w) (replies w))
| st_apply q :
    q ∈ sent w →
    step w (MkWorld (now w) (update_lifecycle_audit_row (now w) q (table w)).2 (invs w) (sent w)
              ((q, (update_lifecycle_audit_row (now w) q (table w)).1, now w) :: replies w))
| st_answer tok i q resp at_ w' :
    invs w !! tok = Some i →
    request_of tok (i_job i) (i_phase i) = Some q →
    (q, resp, at_) ∈ replies w →
    advance tok (EvWrite (Some resp)) (Some at_) w = Some w' →
    step w w'
| st_event tok ev w' :
    is_answer ev = false →
    advance tok ev None w = Some w' →
    step w w'.

Abbreviation reachable := (Prelude.reachable step init).

(** The delivery runs its operation now. *)
Definition running (w : world) (tok : string) (i : inv) : Prop :=
  invs w !! tok = Some i ∧ i_phase i = PhRun.

(** A delivery has not reached the end of its operation. *)
Definition before_end (ph : phase) : Prop :=
  match ph with PhDedup | PhSkip | PhClaim | PhRun => True | _ => False end.

(** What a granted claim is worth: it is older than the lease, or the row is gone,
    or the row still carries it. *)
Definition holds (w : world) (tok : string) (id since : Z) : Prop :=
  claim_lease < now w - since
  ∨ lc_data (table w) !! id = None
  ∨ ∃ r, lc_data (table w) !! id = Some r ∧ lc_claim_token r = Some tok
         ∧ (lc_state r = LSuccess
            ∨ lc_state r = LInProgress ∧ ∃ c, lc_claimed_at r = Some c ∧ since ≤ c).

(** A claim of [tok] on the row was granted. *)
Definition granted (w : world) (tok : string) (id : Z) : Prop :=
  ∃ q resp at_, (q, resp, at_) ∈ replies w ∧ w_id q = id ∧ w_status q = LInProgress
    ∧ w_token q = Some tok ∧ r_noop resp = false ∧ r_claim_conflict resp = false.

(** What the row records of a delivery that succeeded or skipped. *)
Definition recorded (j : job) (res : option op_result) (stats : option pyval) : Prop :=
  stats = Some skip_stats ∨ ∃ n, res = Some (OpDone n) ∧ stats = Some (run_stats j n).

(** *** The invariant *)

(** A request that was sent is one of its delivery's. *)
Definition sent_ok (w : world) (q : lc_write) : Prop :=
  ∃ tok i, invs w !! tok = Some i ∧ w_id q = j_id (i_job i) ∧ w_org q = j_org (i_job i)
    ∧ match w_status q with
      | LPending => False
      | LInProgress => w_token q = Some tok
      | LFailure => w_token q = Some tok ∧ ¬ before_end (i_phase i)
      | LSuccess =>
          recorded (i_job i) (i_result i) (w_stats q)
          ∧ (w_token q = None ∨ w_token q = Some tok ∧ ¬ before_end (i_phase i))
      end.

(** The phase says what the operation ended with. *)
Definition phase_ok (i : inv) : Prop :=
  match i_phase i with
  | PhDedup | PhSkip | PhClaim | PhRun => i_result i = None
  | PhFail permanent msg => i_result i = Some (if permanent then OpPermanent msg else OpFailed msg)
  | PhSuccess stats _ | PhSleep stats _ | PhRelease (Some stats) =>
      ∃ n, i_result i = Some (OpDone n) ∧ stats = run_stats (i_job i) n
  | _ => True
  end.

(** The row is gone or at [success]: it stays so. *)
Definition settled (w : world) (id : Z) : Prop :=
  lc_data (table w) !! id = None
  ∨ ∃ r, lc_data (table w) !! id = Some r ∧ lc_state r = LSuccess.

Definition taken_over (w : world) (tok : string) (id : Z) : Prop :=
  ∃ b, b ≠ tok ∧ granted w b id.

Definition reply_ok (w : world) (q : lc_write) (resp : lc_response) : Prop :=
  match w_status q with
  | LSuccess => settled w (w_id q) ∨ ∃ k, w_token q = Some k ∧ taken_over w k (w_id q)
  | LInProgress => r_noop resp = true → settled w (w_id q)
  | _ => True
  end.

Definition row_ok (w : world) (id : Z) (r : lc_row) : Prop :=
  id < lc_next_id (table w)
  ∧ (∀ c, lc_claimed_at r = Some c → c ≤ now w)
  ∧ (∀ tok, lc_claim_token r = Some tok → granted w tok id)
  ∧ (lc_state r = LSuccess →
     ∃ tok i, invs w !! tok = Some i ∧ j_id (i_job i) = id
              ∧ recorded (i_job i) (i_result i) (lc_stats r)).

Definition inv_ok (w : world) (tok : string) (i : inv) : Prop :=
  j_id (i_job i) < lc_next_id (table w)
  ∧ (∀ r, lc_data (table w) !! j_id (i_job i) = Some r → lc_org r = j_org (i_job i))
  ∧ phase_ok i
  ∧ (i_phase i = PhRun → ∃ t0, i_since i = Some t0 ∧ t0 ≤ now w ∧ holds w tok (j_id (i_job i)) t0)
  ∧ (i_phase i = PhEnd Acked →
     settled w (j_id (i_job i)) ∨ (∃ m, i_result i = Some (OpPermanent m))
     ∨ taken_over w tok (j_id (i_job i))).

Record winv (w : world) : Prop := WInv {
  wi_rows : ∀ id r, lc_data (table w) !! id = Some r → row_ok w id r;
  wi_invs : ∀ tok i, invs w !! tok = Some i → inv_ok w tok i;
  wi_sent : ∀ q, q ∈ sent w → sent_ok w q;
  wi_replies : ∀ q resp at_, (q, resp, at_) ∈ replies w →
    q ∈ sent w ∧ at_ ≤ now w ∧ reply_ok w q resp;
  wi_claims : ∀ q resp at_ tok i, (q, resp, at_) ∈ replies w →
    w_status q = LInProgress → w_token q = Some tok →
    r_noop resp = false → r_claim_conflict resp = false →
    invs w !! tok = Some i → before_end (i_phase i) → holds w tok (w_id q) at_
}.

(** *** What no step undoes *)

Record evolves (w w' : world) : Prop := Evolves {
  ev_now : now w ≤ now w';
  ev_next : lc_next_id (table w) ≤ lc_next_id (table w');
  ev_gone : ∀ id, id < lc_next_id (table w) →
    lc_data (table w) !! id = None → lc_data (table w') !! id = None;
  ev_success : ∀ id r, id < lc_next_id (table w) → lc_data (table w) !! id = Some r → lc_state r = LSuccess →
    lc_data (table w') !! id = None ∨ lc_data (table w') !! id = Some r;
  ev_org : ∀ id r', id < lc_next_id (table w) → lc_data (table w') !! id = Some r' →
    ∃ r, lc_data (table w) !! id = Some r ∧ lc_org r' = lc_org r;
  ev_replies : ∀ p, p ∈ replies w → p ∈ replies w'
}.

Lemma evolves_settled w w' id :
  evolves w w' → id < lc_next_id (table w) → settled w id → settled w' id.
Proof.
  intros E Hid [H|(r & H & Hs)]; [left; by apply (ev_gone _ _ E)|].
  destruct (ev_success _ _ E _ _ Hid H Hs) as [|]; [by left|]. right; eauto.
Qed.

Lemma evolves_granted w w' tok id : evolves w w' → granted w tok id → granted w' tok id.
Proof.
  intros E (q & resp & at_ & H & ?). exists q, resp, at_. split; [by apply (ev_replies _ _ E)|done].
Qed.

Lemma evolves_taken_over w w' tok id : evolves w w' → taken_over w tok id → taken_over w' tok id.
Proof. intros E (b & ? & ?). exists b. split; [done|]. by eapply evolves_granted. Qed.

Lemma evolves_reply w w' q resp :
  evolves w w' → w_id q < lc_next_id (table w) → reply_ok w q resp → reply_ok w' q resp.
Proof.
  intros E Hid. unfold reply_ok. destruct (w_status q); [done| | |done].
  - eauto using evolves_settled.
  - intros [H|(k & H & T)]; [left; by eapply evolves_settled|]. right; eauto using evolves_taken_over.
Qed.

Lemma same_table_evolves w w' :
  table w' = table w → now w' = now w → replies w' = replies w → evolves w w'.
Proof. intros Ht Hn Hr. split; rewrite ?Ht, ?Hn, ?Hr; eauto; lia. Qed.

Lemma advance_fields tok ev since w w' :
  advance tok ev since w = Some w' →
  table w' = table w ∧ now w' = now w ∧ replies w' = replies w.
Proof.
  unfold advance. intros (i & Hi & H)%bind_Some. apply bind_Some in H as (ph & Hph & [= <-]). done.
Qed.

Lemma apply_evolves w q :
  evolves w (MkWorld (now w) (update_lifecycle_audit_row (now w) q (table w)).2 (invs w) (sent w)
              ((q, (update_lifecycle_audit_row (now w) q (table w)).1, now w) :: replies w)).
Proof.
  unfold update_lifecycle_audit_row.
  destruct (lifecycle_audit_finalize (now w) q (table w)) as [f t] eqn:F.
  destruct (finalize_cases (now w) q (table w)) as [(r & Hr & G & E)|(Et & _ & _)]; rewrite F in *.
  - simplify_eq/=. split; cbn; [lia|lia| | | |by intros; right].
    + intros id _ H. rewrite lookup_insert_ne; [done|]. congruence.
    + intros id r0 _ H Hs. right. rewrite lookup_insert_ne; [done|]. intros <-. simplify_eq.
      unfold finalize_guard in G. rewrite Hs in G. by rewrite andb_false_r in G.
    + intros id r' _. destruct (decide (w_id q = id)) as [<-|Hne].
      * rewrite lookup_insert_eq. intros [= <-]. eauto.
      * rewrite lookup_insert_ne by done. eauto.
  - cbn in Et. subst t. split; cbn; [lia|lia| | | |by intros; right]; eauto.
Qed.

Lemma step_evolves w w' : step w w' → evolves w w'.
Proof.
  destruct 1 as [d Hd|org action by_|id|tok j Hn Hlt Hid|q Hq|tok i q resp at_ w' Hi Hq Hr Ha|tok ev w' Hev Ha].
  - split; cbn; eauto; lia.
  - split; cbn; eauto; try lia.
    + intros id Hid H. rewrite lookup_insert_ne; [done|lia].
    + intros id r Hid H Hs. right. rewrite lookup_insert_ne; [done|lia].
    + intros id r' Hid. rewrite lookup_insert_ne by lia. eauto.
  - split; cbn; eauto; try lia.
    + intros id' _ H. by rewrite lookup_delete_None; right.
    + intros id' r _ H Hs. destruct (decide (id = id')) as [<-|].
      * left. apply lookup_delete_eq.
      * right. by rewrite lookup_delete_ne.
    + intros id' r' _ [_ H]%lookup_delete_Some. eauto.
  - by apply same_table_evolves.
  - apply apply_evolves.
  - apply advance_fields in Ha as (? & ? & ?). by apply same_table_evolves.
  - apply advance_fields in Ha as (? & ? & ?). by apply same_table_evolves.
Qed.

(** *** Claims *)

Lemma sent_token w q tok i :
  sent_ok w q → w_status q ≠ LInProgress → w_token q = Some tok →
  invs w !! tok = Some i → before_end (i_phase i) → False.
Proof.
  intros (k & ik & Hk & _ & _ & H) Hs Ht Hi Hb. destruct (w_status q); [done|done| |].
  - destruct H as [_ [H|[H Hn]]]; [congruence|]. rewrite Ht in H. injection H as <-.
    rewrite Hi in Hk. injection Hk as <-. done.
  - destruct H as [H Hn]. rewrite Ht in H. injection H as <-.
    rewrite Hi in Hk. injection Hk as <-. done.
Qed.

Lemma token_matches_ne a b : a ≠ b → token_matches (Some a) (Some b) = false.
Proof. intros H. unfold token_matches. by rewrite bool_decide_eq_false_2. Qed.

(** Nothing that is sent takes a claim from a delivery that has not ended its
    operation, before the lease is over. *)
Lemma apply_holds w q tok i since :
  sent_ok w q → invs w !! tok = Some i → before_end (i_phase i) → since ≤ now w →
  holds w tok (j_id (i_job i)) since →
  holds (MkWorld (now w) (update_lifecycle_audit_row (now w) q (table w)).2 (invs w) (sent w)
              ((q, (update_lifecycle_audit_row (now w) q (table w)).1, now w) :: replies w))
        tok (j_id (i_job i)) since.
Proof.
  intros Hq Hi Hb Hnow Hh. unfold update_lifecycle_audit_row.
  destruct (lifecycle_audit_finalize (now w) q (table w)) as [f t] eqn:F.
  destruct (finalize_cases (now w) q (table w)) as [(r & Hr & G & E)|(Et & _ & _)];
    rewrite F in *; [|cbn in Et; subst t; done].
  simplify_eq/=. set (id := j_id (i_job i)) in *. unfold holds in *; cbn in *.
  destruct Hh as [Hh|[Hh|(r0 & Hr0 & Ht0 & Hs0)]]; [by left| |].
  { right; left. rewrite lookup_insert_ne; [done|]. congruence. }
  destruct (decide (w_id q = id)) as [Hid|Hid]; cycle 1.
  { right; right. exists r0. rewrite lookup_insert_ne by done. done. }
  rewrite Hid in *. simplify_eq. rewrite lookup_insert_eq.
  unfold finalize_guard in G. apply andb_true_iff in G as [[_ G1]%andb_true_iff G2].
  destruct Hs0 as [Hs0|(Hs0 & c & Hc & Hle)]; [by rewrite Hs0 in G1|].
  destruct (w_status q) eqn:Hst.
  - destruct Hq as (? & ? & ? & ? & ? & Hq). by rewrite Hst in Hq.
  - unfold claim_open in G2. rewrite Hs0, Hc, Ht0, bool_decide_eq_true_2, orb_false_l in G2 by done.
    apply orb_true_iff in G2 as [G2|G2]; [left; bool_to_prop; lia|].
    right; right. eexists. split; [done|]. unfold finalize_values. rewrite Hst. cbn.
    unfold token_matches in G2. destruct (w_token q) as [k|]; [|done]. bool_to_prop. subst k.
    split; [done|]. right. split; [done|]. by exists (now w).
  - right; right. eexists. split; [done|]. unfold finalize_values. rewrite Hst. cbn.
    split; [done|by left].
  - exfalso. unfold finalize_open in G2. rewrite Ht0 in G2.
    assert (w_token q = Some tok) as Hqt.
    { destruct Hq as (k & ik & Hk & _ & _ & Hq). rewrite Hst in Hq. destruct Hq as [Hq _].
      rewrite Hq in *. unfold token_matches in G2. bool_to_prop. congruence. }
    eapply sent_token; [done| |done..]. congruence.
Qed.

(** A claim that is granted is on the row, unless the row is gone. *)
Lemma apply_grants w q tok i :
  sent_ok w q → invs w !! tok = Some i → inv_ok w tok i → w_id q = j_id (i_job i) →
  w_status q = LInProgress → w_token q = Some tok →
  let resp := (update_lifecycle_audit_row (now w) q (table w)).1 in
  r_noop resp = false → r_claim_conflict resp = false →
  holds (MkWorld (now w) (update_lifecycle_audit_row (now w) q (table w)).2 (invs w) (sent w)
              ((q, resp, now w) :: replies w)) tok (j_id (i_job i)) (now w).
Proof.
  intros (k & ik & Hk & Hqid & Hqorg & Hq) Hi Hok Hid Hst Ht resp Hn Hc. subst resp.
  rewrite Hst in Hq. assert (k = tok) as -> by congruence.
  assert (ik = i) as -> by congruence. clear Hq Hk. unfold update_lifecycle_audit_row in *.
  destruct (lifecycle_audit_finalize (now w) q (table w)) as [f t] eqn:F.
  destruct (finalize_cases (now w) q (table w)) as [(r & Hr & G & E)|(Et & Ef & _)]; rewrite F in *.
  - simplify_eq/=. unfold holds; cbn. rewrite Hid, lookup_insert_eq.
    right; right. eexists. split; [done|]. unfold finalize_values. rewrite Hst, Ht. cbn.
    split; [done|]. right. split; [done|]. eauto with lia.
  - cbn in *. subst t f. unfold holds; cbn. right; left.
    destruct Hok as (_ & Horg & _). rewrite Hid in *.
    destruct (lc_data (table w) !! j_id (i_job i)) as [r|] eqn:Hr; [exfalso|done].
    unfold finalize_reason in *. rewrite Hst, (Horg r eq_refl), Hqorg in *.
    rewrite (bool_decide_eq_true_2 (j_org _ = _)) in Hn, Hc by done. cbn in Hn, Hc.
    destruct (bool_decide (lc_state r = LSuccess)); done.
Qed.

(** What the answer to an application says of the row it leaves. *)
Lemma apply_reply w q :
  winv w → q ∈ sent w →
  let resp := (update_lifecycle_audit_row (now w) q (table w)).1 in
  reply_ok (MkWorld (now w) (update_lifecycle_audit_row (now w) q (table w)).2 (invs w) (sent w)
              ((q, resp, now w) :: replies w)) q resp.
Proof.
  intros W Hq. pose proof (wi_sent _ W _ Hq) as (tok & i & Hi & Hid & Horg & Hok).
  destruct (wi_invs _ W _ _ Hi) as (_ & Ho & _). cbn zeta.
  pose proof (apply_evolves w q) as Ev. unfold update_lifecycle_audit_row in *.
  destruct (lifecycle_audit_finalize (now w) q (table w)) as [f t] eqn:F.
  destruct (finalize_cases (now w) q (table w)) as [(r & Hr & G & E)|(Et & Ef & Hg)]; rewrite F in *.
  - simplify_eq/=. unfold reply_ok, settled; cbn.
    destruct (w_status q) eqn:Hst; try done; rewrite ?lookup_insert_eq.
    left. right. eexists. split; [done|]. unfold finalize_values. by rewrite Hst.
  - cbn in *. subst t f. remember (finalize_response _) as resp eqn:Hresp in *.
    unfold reply_ok, settled; cbn.
    destruct (lc_data (table w) !! w_id q) as [r|] eqn:Hr; [|destruct (w_status q); tauto].
    specialize (Hg _ eq_refl). 
    assert (HO : bool_decide (lc_org r = w_org q) = true).
    { rewrite Hid in Hr. by rewrite (Ho r Hr), Horg, bool_decide_eq_true_2. }
    assert (Hrow := wi_rows _ W _ _ Hr). destruct Hrow as (_ & _ & Hgr & _).
    clear F. unfold finalize_reason, finalize_guard in *. rewrite HO in Hg, Hresp. cbn in Hg, Hresp.
    destruct (decide (lc_state r = LSuccess)) as [Hs|Hs].
    { destruct (w_status q); eauto; tauto. }
    rewrite (bool_decide_eq_false_2 (lc_state r = _)) in Hg, Hresp by done. cbn in Hg, Hresp.
    destruct (w_status q) eqn:Hst; [done|by subst resp| |done]. cbn in Hg.
    right. unfold finalize_open in Hg. destruct (w_token q) as [a|] eqn:Ha; [|done].
    destruct (lc_claim_token r) as [b|] eqn:Hb; [|done].
    exists a. split; [done|]. exists b. unfold token_matches in Hg. bool_to_prop.
    split; [congruence|]. eapply evolves_granted; [done|]. by apply Hgr.
Qed.

(** *** Moving a delivery on *)

Definition moved (i : inv) (ph : phase) (ev : event) (since : option Z) : inv :=
  Inv (i_job i) ph
    (match i_phase i, ph with PhClaim, PhRun => since | _, _ => i_since i end)
    (match ev with EvOp r => Some r | _ => i_result i end).

Ltac react_cases H :=
  match type of H with react _ ?ph ?ev = Some _ =>
    destruct ph as [| | | |[] ?|? [|? ?]|? ?|[?|]|?] eqn:?; destruct ev as [[[]|]|[?|]|[?|?|?]| |] eqn:?;
    simpl in H; try discriminate H; simplify_eq/=
  end.

Lemma moved_before_end i ev ph :
  react (i_job i) (i_phase i) ev = Some ph → before_end ph → before_end (i_phase i).
Proof. intros H. react_cases H; try done; by repeat case_match. Qed.

Lemma moved_phase_ok i ev ph since :
  react (i_job i) (i_phase i) ev = Some ph → phase_ok i → phase_ok (moved i ph ev since).
Proof.
  unfold phase_ok, moved. cbn. intros H Hok. react_cases H; try done; eauto.
  all: repeat case_match; simplify_eq/=; eauto.
Qed.

Lemma moved_recorded i ev ph since stats :
  react (i_job i) (i_phase i) ev = Some ph → phase_ok i →
  recorded (i_job i) (i_result i) stats →
  recorded (i_job (moved i ph ev since)) (i_result (moved i ph ev since)) stats.
Proof.
  intros H Hok [Hs|(n & Hn & Hs)]; [by left|]. unfold moved; cbn. unfold phase_ok in Hok.
  destruct ev; try (right; by exists n).
  exfalso. destruct (i_phase i); try done. congruence.
Qed.

Lemma moved_request tok i ev ph since q :
  react (i_job i) (i_phase i) ev = Some ph → phase_ok i →
  request_of tok (i_job i) ph = Some q →
  w_id q = j_id (i_job i) ∧ w_org q = j_org (i_job i)
  ∧ match w_status q with
    | LPending => False
    | LInProgress => w_token q = Some tok
    | LFailure => w_token q = Some tok ∧ ¬ before_end ph
    | LSuccess =>
        recorded (i_job i) (i_result (moved i ph ev since)) (w_stats q)
        ∧ (w_token q = None ∨ w_token q = Some tok ∧ ¬ before_end ph)
    end.
Proof.
  intros H Hok Hq. apply (moved_phase_ok _ _ _ since) in H; [|done].
  unfold phase_ok, moved in *. cbn in *. destruct ph as [| | | |? ?|? ?|? ?|[?|]|?];
    simpl in Hq; simplify_eq/=; try (split_and!; tauto).
  - split_and!; try done; [by left|by left].
  - destruct H as (n & -> & ->). split_and!; try done; [right; eauto|tauto].
  - destruct H as (n & -> & ->). split_and!; try done; [right; eauto|tauto].
Qed.

Lemma moved_acked w tok i ev since at_ :
  winv w → invs w !! tok = Some i →
  react (i_job i) (i_phase i) ev = Some (PhEnd Acked) →
  (∀ resp, ev = EvWrite (Some resp) → ∃ q,
     request_of tok (i_job i) (i_phase i) = Some q ∧ (q, resp, at_) ∈ replies w) →
  settled w (j_id (i_job i)) ∨ (∃ m, i_result (moved i (PhEnd Acked) ev since) = Some (OpPermanent m))
  ∨ taken_over w tok (j_id (i_job i)).
Proof.
  intros W Hi H Hr. destruct (wi_invs _ W _ _ Hi) as (_ & _ & Hok & _).
  assert (∃ resp, ev = EvWrite (Some resp)) as [resp ->].
  { react_cases H; eauto. }
  destruct (Hr _ eq_refl) as (q & Hq & Hin).
  destruct (wi_replies _ W _ _ _ Hin) as (_ & _ & Hrep). unfold reply_ok in Hrep. unfold phase_ok in Hok.
  destruct (i_phase i) eqn:Hph; simpl in H, Hq; simplify_eq/=.
  - destruct Hrep as [|(k & [=] & _)]. by left.
  - unfold claim_audit_row in H. destruct (r_noop resp) eqn:Hn; [left; by apply Hrep|].
    by destruct (r_claim_conflict resp).
  - destruct permanent; [|done]. right; left. eauto.
  - destruct Hrep as [|(k & [= <-] & Ht)]; [by left|]. by right; right.
Qed.

Lemma advance_winv w w' tok ev since at_ :
  winv w → advance tok ev since w = Some w' →
  (∀ resp, ev = EvWrite (Some resp) → ∃ i q, invs w !! tok = Some i ∧ since = Some at_ ∧
     request_of tok (i_job i) (i_phase i) = Some q ∧ (q, resp, at_) ∈ replies w) →
  winv w'.
Proof.
  unfold advance. intros W H Hr. apply bind_Some in H as (i & Hi & H).
  apply bind_Some in H as (ph & Hph & [= <-]).
  change (Inv _ _ _ _) with (moved i ph ev since).
  destruct (wi_invs _ W _ _ Hi) as (Hlt & Horg & Hok & Hrun & Hack).
  assert (Hmv : phase_ok (moved i ph ev since)) by by eapply moved_phase_ok.
  split; cbn.
  - intros id r Hid. destruct (wi_rows _ W _ _ Hid) as (? & ? & ? & Hs). split_and!; [done..|].
    intros Hsu. destruct (Hs Hsu) as (k & ik & Hk & Hkid & Hrec).
    destruct (decide (k = tok)) as [->|Hne].
    + simplify_eq. exists tok, (moved i ph ev since). cbn. rewrite lookup_insert_eq.
      split_and!; [done..|]. by apply (moved_recorded _ _ ph since).
    + exists k, ik. cbn. by rewrite lookup_insert_ne.
  - intros k ik Hk. destruct (decide (k = tok)) as [->|Hne]; cycle 1.
    { rewrite lookup_insert_ne in Hk by done. by apply (wi_invs _ W). }
    rewrite lookup_insert_eq in Hk. injection Hk as <-. split_and!; [done|done|done| |].
    + cbn. intros ->. assert (i_phase i = PhClaim) as Hc by (react_cases Hph; try done; by repeat case_match).
      rewrite Hc in *. destruct ev as [|[resp|]| | |]; try done. cbn in Hph.
      destruct (Hr _ eq_refl) as (i0 & q & Hi0 & -> & Hq & Hin). simplify_eq. rewrite Hc in Hq. cbn in Hq.
      exists at_. split; [done|]. split; [by destruct (wi_replies _ W _ _ _ Hin) as (_ & ? & _)|]. simplify_eq.
      eapply (wi_claims _ W _ _ _ tok i Hin); try done; [| |by rewrite Hc].
      * by destruct (r_noop resp).
      * by destruct (r_noop resp), (r_claim_conflict resp).
    + cbn. intros ->. eapply (moved_acked w tok i ev since at_); try done.
      intros resp ->. destruct (Hr _ eq_refl) as (i0 & q & Hi0 & _ & ? & ?). simplify_eq. eauto.
  - intros q [Hq|Hq]%elem_of_app.
    + destruct (request_of tok (i_job i) ph) as [q0|] eqn:E; [|by apply elem_of_nil in Hq].
      apply list_elem_of_singleton in Hq as ->. exists tok, (moved i ph ev since). cbn.
      rewrite lookup_insert_eq. split; [done|]. by apply (moved_request tok i ev ph since).
    + destruct (wi_sent _ W _ Hq) as (k & ik & Hk & Hid & Ho & Hs).
      destruct (decide (k = tok)) as [->|Hne].
      * simplify_eq. exists tok, (moved i ph ev since). cbn. rewrite lookup_insert_eq.
        split_and!; [done..|]. pose proof (moved_before_end _ _ _ Hph) as Hb.
        destruct (w_status q); try tauto.
        destruct Hs as [Hs1 Hs2]. split; [by apply (moved_recorded _ _ ph since)|tauto].
      * exists k, ik. cbn. by rewrite lookup_insert_ne.
  - intros q resp a Hin. destruct (wi_replies _ W _ _ _ Hin) as (? & ? & ?).
    split_and!; [|done..]. apply elem_of_app. by right.
  - intros q resp a k ik Hin Hs Ht Hn Hc Hk Hb. destruct (decide (k = tok)) as [->|Hne].
    + rewrite lookup_insert_eq in Hk. injection Hk as <-.
      eapply (wi_claims _ W _ _ _ tok i Hin); try done. by eapply moved_before_end.
    + rewrite lookup_insert_ne in Hk by done. by eapply (wi_claims _ W).
Qed.

(** A step that leaves deliveries and requests alone keeps the invariant when it keeps
    the claims. *)
Lemma table_step_winv w w' :
  winv w → evolves w w' → invs w' = invs w → sent w' = sent w →
  (∀ id r, lc_data (table w') !! id = Some r → row_ok w' id r) →
  (∀ q resp at_, (q, resp, at_) ∈ replies w' → (q, resp, at_) ∈ replies w
     ∨ at_ = now w' ∧ q ∈ sent w ∧ reply_ok w' q resp
       ∧ ∀ tok i, w_status q = LInProgress → w_token q = Some tok → r_noop resp = false →
           r_claim_conflict resp = false → invs w !! tok = Some i → holds w' tok (w_id q) at_) →
  (∀ tok i since, invs w !! tok = Some i → before_end (i_phase i) → since ≤ now w →
     holds w tok (j_id (i_job i)) since → holds w' tok (j_id (i_job i)) since) →
  winv w'.
Proof.
  intros W E Hi Hs Hrows Hrep Hh. pose proof (ev_now _ _ E) as Hnow.
  assert (Hid : ∀ q, q ∈ sent w → w_id q < lc_next_id (table w)).
  { intros q (k & ik & Hk & -> & _)%(wi_sent _ W). by destruct (wi_invs _ W _ _ Hk). }
  split; rewrite ?Hi, ?Hs; [done|..].
  - intros tok i Htok. destruct (wi_invs _ W _ _ Htok) as (Hlt & Horg & Hok & Hrun & Hack).
    split_and!; [by pose proof (ev_next _ _ E); lia| |done| |].
    + intros r Hr. destruct (ev_org _ _ E _ _ Hlt Hr) as (r0 & Hr0 & ->). by apply Horg.
    + intros Hp. destruct (Hrun Hp) as (t0 & Ht0 & Hle & Hh0). exists t0.
      split_and!; [done|lia|]. apply Hh; [done|by rewrite Hp|done..].
    + intros Hp. destruct (Hack Hp) as [|[|]]; [left|right; left; done|right; right].
      * by eapply evolves_settled.
      * by eapply evolves_taken_over.
  - intros q (k & ik & Hk & Hq)%(wi_sent _ W). exists k, ik. by rewrite Hi.
  - intros q resp a Hin. destruct (Hrep _ _ _ Hin) as [Hin'|(-> & Hq & Hok & _)]; [|done].
    destruct (wi_replies _ W _ _ _ Hin') as (Hq & Ha & Hok). split_and!; [done|lia|].
    eapply evolves_reply; eauto.
  - intros q resp a tok i Hin Hst Ht Hn Hc Htok Hb.
    destruct (Hrep _ _ _ Hin) as [Hin'|(-> & _ & _ & Hg)]; [|by eapply Hg].
    destruct (wi_replies _ W _ _ _ Hin') as (Hq & Ha & _).
    pose proof (wi_claims _ W _ _ _ _ _ Hin' Hst Ht Hn Hc Htok Hb) as Hh0.
    destruct (wi_sent _ W _ Hq) as (k & ik & Hk & Hqid & _ & Hok). rewrite Hst in Hok.
    simplify_eq. rewrite Hqid in *. by apply Hh.
Qed.

Lemma evolves_row w w' id r :
  evolves w w' → invs w' = invs w → row_ok w id r → row_ok w' id r.
Proof.
  intros E Hi (H1 & H2 & H3 & H4). pose proof (ev_now _ _ E). pose proof (ev_next _ _ E).
  split_and!; [lia| | |by rewrite Hi].
  - intros c Hc. specialize (H2 c Hc). lia.
  - intros tok Ht. eapply evolves_granted; eauto.
Qed.

Lemma apply_row w q r :
  winv w → q ∈ sent w → lc_data (table w) !! w_id q = Some r → finalize_guard (now w) q r = true →
  let w' := MkWorld (now w) (update_lifecycle_audit_row (now w) q (table w)).2 (invs w) (sent w)
              ((q, (update_lifecycle_audit_row (now w) q (table w)).1, now w) :: replies w) in
  row_ok w' (w_id q) (finalize_values (now w) q r).
Proof.
  intros W Hq Hr G w'. assert (row_ok w' (w_id q) r) as (H1 & H2 & H3 & H4).
  { eapply evolves_row; [apply apply_evolves|done|]. by apply (wi_rows _ W). }
  assert (Hup : (update_lifecycle_audit_row (now w) q (table w)).1 = no_flags).
  { unfold update_lifecycle_audit_row, lifecycle_audit_finalize. by rewrite Hr, G. }
  destruct (wi_sent _ W _ Hq) as (tok & i & Hi & Hid & _ & Hok).
  split_and!; [done| | |]; unfold finalize_values; cbn.
  - intros c. case_bool_decide; [intros [= <-]; lia|apply H2].
  - intros k. case_bool_decide as Hst; [|apply H3]. intros Hk.
    exists q, no_flags, (now w). subst w'; cbn. rewrite Hup. split_and!; try done. by left.
  - intros Hst. rewrite Hst in Hok. destruct Hok as [Hrec _]. exists tok, i.
    split_and!; [done..|]. destruct Hrec as [->|(n & ? & ->)]; [by left|right; eauto].
Qed.

Lemma apply_winv w q : winv w → q ∈ sent w →
  winv (MkWorld (now w) (update_lifecycle_audit_row (now w) q (table w)).2 (invs w) (sent w)
              ((q, (update_lifecycle_audit_row (now w) q (table w)).1, now w) :: replies w)).
Proof.
  intros W Hq. eapply table_step_winv; [done|apply apply_evolves|done|done| | |].
  - pose proof (apply_row w q) as Ha. pose proof (apply_evolves w q) as Ev.
    unfold update_lifecycle_audit_row in *.
    destruct (lifecycle_audit_finalize (now w) q (table w)) as [f t] eqn:F.
    destruct (finalize_cases (now w) q (table w)) as [(r & Hr & G & E)|(Et & _ & _)]; rewrite F in *.
    + simplify_eq/=. intros id r'. destruct (decide (w_id q = id)) as [<-|].
      * rewrite lookup_insert_eq. intros [= <-]. by apply Ha.
      * rewrite lookup_insert_ne by done. intros Hr'.
        eapply evolves_row; [done..|]. by apply (wi_rows _ W).
    + cbn in Et. subst t. cbn. intros id r' Hr'.
      eapply evolves_row; [done..|]. by apply (wi_rows _ W).
  - cbn. intros q' resp at_ [[= -> -> ->]|Hin]%elem_of_cons; [right|by left].
    split_and!; [done|done|by apply apply_reply|].
    intros tok i Hst Ht Hn Hc Hi. destruct (wi_sent _ W _ Hq) as (k & ik & Hk & Hid & Ho & Hok).
    assert (k = tok) as -> by (rewrite Hst in Hok; congruence). simplify_eq. rewrite Hid.
    apply (apply_grants w q tok i); try done; [by apply (wi_sent _ W)|by apply (wi_invs _ W)].
  - intros tok i since Hi Hb Hle. apply apply_holds; try done. by apply (wi_sent _ W).
Qed.

Lemma deliver_winv w tok j :
  winv w → invs w !! tok = None → j_id j < lc_next_id (table w) →
  (∀ r, lc_data (table w) !! j_id j = Some r → lc_org r = j_org j) →
  winv (MkWorld (now w) (table w)
          (<[tok := Inv j (run_action_start (Some j)) None None]> (invs w))
          (option_list (request_of tok j (run_action_start (Some j))) ++ sent w) (replies w)).
Proof.
  intros W Hn Hlt Horg.
  assert (Hm : ∀ k i, invs w !! k = Some i →
    <[tok := Inv j (run_action_start (Some j)) None None]> (invs w) !! k = Some i).
  { intros k i Hk. rewrite lookup_insert_ne; [done|congruence]. }
  split; cbn.
  - intros id r Hr. destruct (wi_rows _ W _ _ Hr) as (? & ? & ? & Hs). split_and!; [done..|].
    intros (k & ik & Hk & ?)%Hs. exists k, ik. auto.
  - intros k ik. destruct (decide (k = tok)) as [->|]; cycle 1.
    { rewrite lookup_insert_ne by done. apply (wi_invs _ W). }
    rewrite lookup_insert_eq. intros [= <-]. unfold inv_ok, phase_ok, run_action_start; cbn.
    destruct (dedup_window j); split_and!; done.
  - intros q [Hq|Hq]%elem_of_app.
    + exists tok, (Inv j (run_action_start (Some j)) None None). cbn. rewrite lookup_insert_eq.
      unfold run_action_start in *. destruct (dedup_window j); cbn in Hq; [by apply elem_of_nil in Hq|].
      by apply list_elem_of_singleton in Hq as ->.
    + destruct (wi_sent _ W _ Hq) as (k & ik & Hk & ?). exists k, ik. auto.
  - intros q resp at_ Hin. destruct (wi_replies _ W _ _ _ Hin) as (? & ? & ?).
    split_and!; [|done..]. apply elem_of_app. by right.
  - intros q resp at_ k ik Hin Hst Ht Hno Hc Hk Hb. destruct (decide (k = tok)) as [->|].
    + destruct (wi_replies _ W _ _ _ Hin) as (Hq & _).
      destruct (wi_sent _ W _ Hq) as (k' & ik' & Hk' & _ & _ & Hok). rewrite Hst in Hok. congruence.
    + rewrite lookup_insert_ne in Hk by done. by eapply (wi_claims _ W).
Qed.

Lemma step_winv w w' : winv w → step w w' → winv w'.
Proof.
  intros W Hstep. pose proof (step_evolves _ _ Hstep) as E.
  destruct Hstep as [d Hd|org action by_|id|tok j Hn Hlt Hid|q Hq|tok i q resp at_ w' Hi Hq Hr Ha|tok ev w' Hev Ha].
  - eapply table_step_winv; [done..| | |]; cbn.
    + intros id r Hr. eapply evolves_row; [done..|]. by apply (wi_rows _ W).
    + auto.
    + unfold holds; cbn. intros ? ? ? ? ? ? [|]; [left; lia|by right].
  - eapply table_step_winv; [done..| | |]; cbn; [|auto|].
    + intros id r. destruct (decide (lc_next_id (table w) = id)) as [<-|].
      * rewrite lookup_insert_eq. intros [= <-]. unfold row_ok; cbn. split_and!; try done; lia.
      * rewrite lookup_insert_ne by done. intros Hr. eapply evolves_row; [done..|].
        by apply (wi_rows _ W).
    + unfold holds; cbn. intros tok i since Hi _ _. destruct (wi_invs _ W _ _ Hi) as (? & _).
      rewrite lookup_insert_ne by lia. done.
  - eapply table_step_winv; [done..| | |]; cbn; [|auto|].
    + intros id' r [_ Hr]%lookup_delete_Some. eapply evolves_row; [done..|]. by apply (wi_rows _ W).
    + unfold holds; cbn. intros tok i since Hi _ _. destruct (decide (id = j_id (i_job i))) as [<-|].
      * rewrite lookup_delete_eq. tauto.
      * by rewrite lookup_delete_ne.
  - by apply deliver_winv.
  - by apply apply_winv.
  - eapply (advance_winv w w' tok _ _ at_); [done..|]. intros resp' [= <-]. exists i, q. auto.
  - eapply (advance_winv w w' tok _ _ 0); [done..|]. intros resp ->. done.
Qed.

Lemma reachable_winv w : reachable w → winv w.
Proof.
  apply reachable_invariant; [|eauto using step_winv].
  intros ? ->. split; cbn; try (by intros; simplify_map_eq); by intros * ?%elem_of_nil.
Qed.

(** ** What the protocol guarantees *)

(** C11: two deliveries of one audit row run its operation at the same time only if one
    of them has outlived the lease of its claim: whatever is redelivered, retried,
    answered late, cancelled or lost. (A row that is gone claims nothing: an operation
    the operator asked for is run.) *)
Theorem lifecycle_runs_are_exclusive w t1 i1 t2 i2 :
  reachable w → running w t1 i1 → running w t2 i2 → t1 ≠ t2 →
  j_id (i_job i1) = j_id (i_job i2) → is_Some (lc_data (table w) !! j_id (i_job i1)) →
  ∃ tok i since, (tok = t1 ∨ tok = t2) ∧ invs w !! tok = Some i ∧ i_since i = Some since
                 ∧ claim_lease < now w - since.
Proof.
  intros W%reachable_winv [H1 P1] [H2 P2] Hne Hid [r Hr].
  destruct (wi_invs _ W _ _ H1) as (_ & _ & _ & R1 & _).
  destruct (wi_invs _ W _ _ H2) as (_ & _ & _ & R2 & _).
  destruct (R1 P1) as (s1 & S1 & _ & [E1|[E1|(r1 & A1 & T1 & _)]]); [eauto 10|congruence|].
  destruct (R2 P2) as (s2 & S2 & _ & [E2|[E2|(r2 & A2 & T2 & _)]]); [eauto 10|congruence|].
  congruence.
Qed.

(** A row at [success] records what one of its own deliveries ended with: the count
    its operation returned, or the skip of the dedup gate. *)
Theorem lifecycle_success_was_earned w id r :
  reachable w → lc_data (table w) !! id = Some r → lc_state r = LSuccess →
  ∃ tok i, invs w !! tok = Some i ∧ j_id (i_job i) = id
    ∧ (lc_stats r = Some skip_stats
       ∨ ∃ n, i_result i = Some (OpDone n) ∧ lc_stats r = Some (run_stats (i_job i) n)).
Proof.
  intros W%reachable_winv Hr Hs. destruct (wi_rows _ W _ _ Hr) as (_ & _ & _ & H). by apply H.
Qed.

(** An acknowledged delivery leaves a record: its row is gone or at [success], or
    the operation failed for good and said so, or another delivery was granted the
    claim of the row. A message is never dropped with its row left as the fan-out
    wrote it. *)
Theorem lifecycle_ack_leaves_a_record w tok i :
  reachable w → invs w !! tok = Some i → i_phase i = PhEnd Acked →
  lc_data (table w) !! j_id (i_job i) = None
  ∨ (∃ r, lc_data (table w) !! j_id (i_job i) = Some r ∧ lc_state r = LSuccess)
  ∨ (∃ m, i_result i = Some (OpPermanent m))
  ∨ (∃ b, b ≠ tok ∧ granted w b (j_id (i_job i))).
Proof.
  intros W%reachable_winv Hi Hp. destruct (wi_invs _ W _ _ Hi) as (_ & _ & _ & _ & H).
  destruct (H Hp) as [[|]|[|]]; auto.
Qed.

Lemma update_updates now_ q t r :
  lc_data t !! w_id q = Some r → finalize_guard now_ q r = true →
  update_lifecycle_audit_row now_ q t
  = (no_flags, LcTable (<[w_id q := finalize_values now_ q r]> (lc_data t)) (lc_next_id t)).
Proof. intros Hr G. unfold update_lifecycle_audit_row, lifecycle_audit_finalize. by rewrite Hr, G. Qed.

(** A row that did not succeed and whose claim is older than the lease can be claimed by
    anyone. *)
Lemma claimable w id r d tok j :
  winv w → lc_data (table w) !! id = Some r → lc_state r ≠ LSuccess → claim_lease < d →
  j_org j = lc_org r →
  finalize_guard (now w + d) (LcWrite (j_id j) (j_org j) LInProgress None None (Some tok)) r = true.
Proof.
  intros W Hr Hs Hd Ho. destruct (wi_rows _ W _ _ Hr) as (_ & Hc & _).
  unfold finalize_guard; cbn. rewrite Ho, bool_decide_eq_true_2, (bool_decide_eq_false_2 (_ = LSuccess)) by done.
  cbn. unfold claim_open. destruct (lc_claimed_at r) as [c|]; [|by rewrite orb_true_r].
  specialize (Hc _ eq_refl). rewrite (proj2 (Z.ltb_lt c _)) by lia. by rewrite orb_true_r.
Qed.

(** No row is stuck: from any state the system can reach, whatever died holding its
    claim, one more delivery of a row that did not succeed, arriving after the lease,
    runs the operation and records its result. *)
Theorem lifecycle_row_recovers w id r j n :
  reachable w → lc_data (table w) !! id = Some r → lc_state r ≠ LSuccess →
  j_id j = id → j_org j = lc_org r → j_dedup j = None →
  ∃ w' r', steps step w w' ∧ lc_data (table w') !! id = Some r'
    ∧ lc_state r' = LSuccess ∧ lc_stats r' = Some (run_stats j n).
Proof.
  intros W%reachable_winv Hr Hs Hid Horg Hdd. pose (tok := fresh (dom (invs w))).
  assert (Hfresh : invs w !! tok = None) by (apply not_elem_of_dom, is_fresh).
  destruct (wi_rows _ W _ _ Hr) as (Hlt & _).
  pose (d := claim_lease + 1).
  pose proof (claimable w id r d tok j W Hr Hs ltac:(unfold d; lia) Horg) as G1.
  subst id. set (q := LcWrite (j_id j) (j_org j) LInProgress None None (Some tok)) in G1.
  set (r1 := finalize_values (now w + d) q r).
  set (q2 := LcWrite (j_id j) (j_org j) LSuccess (Some (run_stats j n)) None (Some tok)).
  set (t1 := LcTable (<[j_id j := r1]> (lc_data (table w))) (lc_next_id (table w))).
  assert (G2 : finalize_guard (now w + d) q2 r1 = true).
  { unfold finalize_guard, r1, q2; cbn. rewrite Horg, bool_decide_eq_true_2 by done. cbn.
    unfold token_matches. rewrite !(bool_decide_eq_true_2 (LInProgress = LInProgress)) by done. cbn.
    rewrite bool_decide_eq_false_2 by done. by apply bool_decide_eq_true_2. }
  set (t2 := LcTable (<[j_id j := finalize_values (now w + d) q2 r1]> (lc_data t1)) (lc_next_id t1)).
  set (i1 := Inv j PhClaim None None).
  set (i2 := Inv j PhRun (Some (now w + d)) None).
  set (i3 := Inv j (PhSuccess (run_stats j n) success_write_retry_delays) (Some (now w + d)) (Some (OpDone n))).
  set (m1 := <[tok := i1]> (invs w)). set (m2 := <[tok := i2]> m1). set (m3 := <[tok := i3]> m2).
  assert (Hu1 : update_lifecycle_audit_row (now w + d) q (table w) = (no_flags, t1))
    by by apply update_updates.
  assert (Hu2 : update_lifecycle_audit_row (now w + d) q2 t1 = (no_flags, t2)).
  { apply update_updates; [apply lookup_insert_eq|done]. }
  set (rep1 := (q, no_flags, now w + d) :: replies w).
  exists (MkWorld (now w + d) t2 m3 (q2 :: q :: sent w) ((q2, no_flags, now w + d) :: rep1)).
  eexists. split; [|split; [apply lookup_insert_eq|done]].
  eapply steps_cons; [apply (st_tick _ d); unfold d; vm_compute; done|].
  eapply steps_cons.
  { apply (st_deliver _ tok j); cbn; [done|done|]. intros r' Hr'. congruence. }
  unfold run_action_start, dedup_window. rewrite Hdd. cbn [option_list request_of app now table invs sent replies].
  fold q i1 m1.
  eapply steps_cons; [apply (st_apply _ q); by left|].
  cbn [now table invs sent replies]. rewrite Hu1. cbn [fst snd]. fold rep1.
  eapply steps_cons.
  { eapply (st_answer _ tok i1 q no_flags (now w + d)); [apply lookup_insert_eq|done|by left|].
    unfold advance; cbn [invs]. rewrite (lookup_insert_eq (invs w) tok i1 : m1 !! tok = _). reflexivity. }
  cbn [now table invs sent replies option_list request_of app i_job i_since i_result i_phase i1]. fold i2 m2.
  eapply steps_cons.
  { eapply (st_event _ tok (EvOp (OpDone n))); [done|].
    unfold advance; cbn [invs]. rewrite (lookup_insert_eq m1 tok i2 : m2 !! tok = _). reflexivity. }
  cbn [now table invs sent replies option_list request_of app i_job i_since i_result i_phase i2]. fold i3 m3 q2.
  eapply steps_cons; [apply (st_apply _ q2); by left|].
  cbn [now table invs sent replies]. rewrite Hu2. cbn [fst snd]. apply steps_refl.
Qed.

(** ** Executing a schedule *)

Inductive label : Type :=
| LTick (d : Z)
| LCreate (org action by_ : string)
| LDeliver (tok : string) (j : job)
| LApply (n : nat)
| LAnswer (tok : string) (n : nat)
| LEvent (tok : string) (ev : event).

Definition exec (l : label) (w : world) : option world :=
  match l with
  | LTick d =>
      if 0 <=? d then Some (MkWorld (now w + d) (table w) (invs w) (sent w) (replies w)) else None
  | LCreate org action by_ =>
      Some (MkWorld (now w) (lifecycle_audit_create (now w) org action by_ (table w)).2
              (invs w) (sent w) (replies w))
  | LDeliver tok j =>
      if bool_decide (invs w !! tok = None) && (j_id j <? lc_next_id (table w))
         && match lc_data (table w) !! j_id j with
            | Some r => bool_decide (lc_org r = j_org j) | None => true
            end
      then Some (MkWorld (now w) (table w)
              (<[tok := Inv j (run_action_start (Some j)) None None]> (invs w))
              (option_list (request_of tok j (run_action_start (Some j))) ++ sent w) (replies w))
      else None
  | LApply n =>
      q ← sent w !! n;
      Some (MkWorld (now w) (update_lifecycle_audit_row (now w) q (table w)).2 (invs w) (sent w)
              ((q, (update_lifecycle_audit_row (now w) q (table w)).1, now w) :: replies w))
  | LAnswer tok n =>
      i ← invs w !! tok;
      q ← request_of tok (i_job i) (i_phase i);
      p ← replies w !! n;
      if bool_decide (p.1.1 = q) then advance tok (EvWrite (Some p.1.2)) (Some p.2) w else None
  | LEvent tok ev => if is_answer ev then None else advance tok ev None w
  end.

Lemma exec_step l w w' : exec l w = Some w' → step w w'.
Proof.
  destruct l as [d|org action by_|tok j|n|tok n|tok ev]; cbn; intros H.
  - destruct (0 <=? d) eqn:E; simplify_eq. apply st_tick. by apply Z.leb_le.
  - simplify_eq. apply st_create.
  - destruct (bool_decide _) eqn:E1; [|done]. destruct (j_id j <? _) eqn:E2; [|done].
    cbn in H. destruct (match _ with Some _ => _ | None => _ end) eqn:E3; [|done]. simplify_eq.
    bool_to_prop. apply st_deliver; [done|done|]. intros r Hr. rewrite Hr in E3. by bool_to_prop.
  - apply bind_Some in H as (q & Hq & [= <-]). apply st_apply. by eapply list_elem_of_lookup_2.
  - apply bind_Some in H as (i & Hi & H). apply bind_Some in H as (q & Hq & H).
    apply bind_Some in H as ([[q' resp] at_] & Hp & H). case_bool_decide; simplify_eq/=.
    eapply st_answer; [done|done| |done]. by eapply list_elem_of_lookup_2.
  - destruct (is_answer ev) eqn:E; [done|]. by eapply st_event.
Qed.

Fixpoint run (ls : list label) (w : world) : option world :=
  match ls with [] => Some w | l :: ls => exec l w ≫= run ls end.

Definition start : world := MkWorld 0 (LcTable ∅ 1) ∅ [] [].

Lemma lc_run_reachable ls w w' : reachable w → run ls w = Some w' → reachable w'.
Proof.
  revert w. induction ls as [|l ls IH]; cbn; intros w Hw; [by intros [= <-]|].
  intros (w1 & H1 & H2)%bind_Some. eapply IH; [|done]. eapply reach_step; [done|by eapply exec_step].
Qed.

Definition after (ls : list label) : world := default start (run ls start).

Lemma lc_after_reachable ls : is_Some (run ls start) → reachable (after ls).
Proof.
  intros [w Hw]. unfold after. rewrite Hw. eapply lc_run_reachable; [|done]. by apply reach_init.
Qed.

(** One row, claimed by [a], whose claim outlives the lease before [b] comes. *)
Definition purge_job : job := Job 1 "org" "purge-soft-deleted" "deleted" None None.

Definition claim_by (tok : string) : list label := [LDeliver tok purge_job; LApply 0; LAnswer tok 0].

Definition claimed : list label := LCreate "org" "purge-soft-deleted" "core-operations" :: claim_by "a".

Definition overrun : list label := claimed ++ LTick (claim_lease + 1) :: claim_by "b".

Definition finish_by (tok : string) (n : Z) : list label :=
  [LEvent tok (EvOp (OpDone n)); LApply 0; LAnswer tok 0].

Lemma lifecycle_runs_are_exclusive_witness :
  let w := after overrun in
  let i1 := Inv purge_job PhRun (Some 0) None in
  let i2 := Inv purge_job PhRun (Some (claim_lease + 1)) None in
  running w "a" i1 ∧ running w "b" i2
  ∧ ∃ tok i since, (tok = "a" ∨ tok = "b") ∧ invs w !! tok = Some i ∧ i_since i = Some since
                   ∧ claim_lease < now w - since.
Proof.
  intros w i1 i2. assert (running w "a" i1) as H1 by (split; reflexivity).
  assert (running w "b" i2) as H2 by (split; reflexivity).
  split; [exact H1|]. split; [exact H2|].
  refine (lifecycle_runs_are_exclusive w "a" i1 "b" i2 _ H1 H2 _ eq_refl _).
  - apply lc_after_reachable. vm_compute. eauto.
  - discriminate.
  - vm_compute. eauto.
Defined.

Lemma lifecycle_success_was_earned_witness :
  let w := after (claimed ++ finish_by "a" 3) in
  let r := LcRow "org" "purge-soft-deleted" "core-operations" 0 (Some 0) LSuccess (Some 0)
             (Some "a") (Some (PDict [("deleted", PInt 3)])) None in
  lc_data (table w) !! 1 = Some r
  ∧ ∃ tok i, invs w !! tok = Some i ∧ j_id (i_job i) = 1
    ∧ (lc_stats r = Some skip_stats
       ∨ ∃ n, i_result i = Some (OpDone n) ∧ lc_stats r = Some (run_stats (i_job i) n)).
Proof.
  intros w r. assert (lc_data (table w) !! 1 = Some r) as H by reflexivity. split; [exact H|].
  refine (lifecycle_success_was_earned w 1 r _ H eq_refl). apply lc_after_reachable. vm_compute. eauto.
Defined.

Lemma lifecycle_ack_leaves_a_record_witness :
  let w := after (overrun ++ finish_by "b" 3 ++ finish_by "a" 0) in
  ∃ i, invs w !! "a" = Some i ∧ i_phase i = PhEnd Acked
  ∧ (lc_data (table w) !! j_id (i_job i) = None
     ∨ (∃ r, lc_data (table w) !! j_id (i_job i) = Some r ∧ lc_state r = LSuccess)
     ∨ (∃ m, i_result i = Some (OpPermanent m))
     ∨ (∃ b, b ≠ "a" ∧ granted w b (j_id (i_job i)))).
Proof.
  intros w. pose (i := Inv purge_job (PhEnd Acked) (Some 0) (Some (OpDone 0))).
  assert (invs w !! "a" = Some i) as H by reflexivity.
  exists i. split; [exact H|]. split; [reflexivity|].
  refine (lifecycle_ack_leaves_a_record w "a" i _ H eq_refl). apply lc_after_reachable. vm_compute. eauto.
Defined.

Lemma lifecycle_row_recovers_witness :
  let w := after claimed in
  let r := LcRow "org" "purge-soft-deleted" "core-operations" 0 None LInProgress (Some 0)
             (Some "a") None None in
  lc_data (table w) !! 1 = Some r
  ∧ ∃ w' r', steps step w w' ∧ lc_data (table w') !! 1 = Some r'
      ∧ lc_state r' = LSuccess ∧ lc_stats r' = Some (run_stats purge_job 7).
Proof.
  intros w r. assert (lc_data (table w) !! 1 = Some r) as H by reflexivity. split; [exact H|].
  refine (lifecycle_row_recovers w 1 r purge_job 7 _ H _ eq_refl eq_refl eq_refl).
  - apply lc_after_reachable. vm_compute. eauto.
  - discriminate.
Defined.

(** The skip row of the dedup gate is written without a claim token, so storage does not
    compare it with the claim: a second delivery whose dedup read finds another run's
    success overwrites a row whose own run is still going, and that run's result is
    never recorded. *)
Definition crystallize_job : job := Job 1 "org" "crystallize" "links_or_clusters" (Some (hours 23)) None.

Definition skipped_over : list label :=
  [LCreate "org" "crystallize" "core-operations";
   LDeliver "a" crystallize_job; LEvent "a" (EvDedup (Some false)); LApply 0; LAnswer "a" 0;
   LDeliver "b" crystallize_job; LEvent "b" (EvDedup (Some true)); LApply 0; LAnswer "b" 0].

Lemma skip_overwrites_a_live_claim :
  let w := after skipped_over in let w' := after (skipped_over ++ finish_by "a" 9) in
  is_Some (run (skipped_over ++ finish_by "a" 9) start)
  ∧ (∃ i, running w "a" i) ∧ (∃ r, lc_data (table w) !! 1 = Some r ∧ lc_state r = LSuccess)
  ∧ ∃ r, lc_data (table w') !! 1 = Some r ∧ lc_stats r = Some skip_stats.
Proof.
  split; [vm_compute; eauto|]. split; [eexists; split; reflexivity|].
  split; eexists; split; reflexivity.
Qed.

End World.
