(* ===== verification/Scheduler.v ===== *)
(** * The scheduler of core-operations

    [core_operations/scheduler.py]: the delay providers that align a task with the
    wall clock, the registry, and the loop each task runs; [core_operations/lease.py]
    and [core_api/routes/scheduler_lease.py] with [cache_set_nx]: the lease that lets
    one replica of the service run a tick.

    Time is microseconds since the epoch, in UTC; [datetime.replace] and [weekday] are
    arithmetic on it (the epoch was a Thursday). [total_seconds] is left in
    microseconds. *)

From Stdlib Require Import SpecFloat.
From S2P Require Import Prelude PyStr PyVal.

Local Open Scope Z_scope.

(** ** Delay providers *)

Definition usec : Z := 1000000.
Definition minute : Z := 60 * usec.
Definition hour : Z := 3600 * usec.
Definition day : Z := 86400 * usec.

(** [t.replace(minute=0, second=0, microsecond=0)] and its kin: the start of the
    period of length [p] that holds [t]. *)
Definition floor_to (p t : Z) : Z := t - t mod p.

(** [date.weekday()]: 0 is Monday. *)
Definition weekday_of (t : Z) : Z := (t / day + 3) mod 7.

Definition value_error {A} (msg : string) : result exn A := Err (PyError "ValueError" msg).

Definition seconds_until_next_utc_hour (h now : Z) : result exn Z :=
  if negb ((0 <=? h) && (h <=? 23)) then value_error "hour must be in 0..23" else
  let target := floor_to day now + h * hour in
  let target := if target <=? now then target + day else target in
  Ok (target - now).

Definition seconds_until_next_utc_top_of_hour (now : Z) : result exn Z :=
  let target := floor_to hour now + hour in Ok (target - now).

Definition seconds_until_next_utc_hour_multiple (every anchor now : Z) : result exn Z :=
  if negb ((1 <=? every) && (every <=? 24)) then value_error "every_hours must be in 1..24" else
  if negb ((0 <=? anchor) && (anchor <=? 23)) then value_error "anchor_hour must be in 0..23" else
  let top := floor_to hour now in
  let epoch_hour := top / usec / 3600 in
  let target := top + (anchor - epoch_hour) mod every * hour in
  let target := if target <=? now then target + every * hour else target in
  Ok (target - now).

Definition seconds_until_next_utc_minute_past (m now : Z) : result exn Z :=
  if negb ((0 <=? m) && (m <=? 59)) then value_error "minute must be in 0..59" else
  let target := floor_to hour now + m * minute in
  let target := if target <=? now then target + hour else target in
  Ok (target - now).

Definition seconds_until_next_utc_half_past (now : Z) : result exn Z :=
  let target := floor_to hour now + 30 * minute in
  let target := if target <=? now then target + hour else target in
  Ok (target - now).

Definition seconds_until_next_utc_weekday_hour (wd h now : Z) : result exn Z :=
  if negb ((0 <=? wd) && (wd <=? 6)) then value_error "weekday must be in 0..6 (Mon..Sun)" else
  if negb ((0 <=? h) && (h <=? 23)) then value_error "hour must be in 0..23" else
  let target := floor_to day now + h * hour in
  let target := target + (wd - weekday_of now) mod 7 * day in
  let target := if target <=? now then target + 7 * day else target in
  Ok (target - now).

(** The providers a task can be registered with. *)
Inductive alignment : Type :=
| DailyAt (h : Z)
| TopOfHour
| EveryHours (n anchor : Z)
| HalfPast
| MinutePast (m : Z)
| WeeklyAt (wd h : Z).

Definition delay_provider (a : alignment) (now : Z) : result exn Z :=
  match a with
  | DailyAt h => seconds_until_next_utc_hour h now
  | TopOfHour => seconds_until_next_utc_top_of_hour now
  | EveryHours n anchor => seconds_until_next_utc_hour_multiple n anchor now
  | HalfPast => seconds_until_next_utc_half_past now
  | MinutePast m => seconds_until_next_utc_minute_past m now
  | WeeklyAt wd h => seconds_until_next_utc_weekday_hour wd h now
  end.

(** What each provider aims at, said without it: the instants of the schedule, and
    the distance between two of them. *)
Definition is_slot (a : alignment) (t : Z) : Prop :=
  match a with
  | DailyAt h => t mod day = h * hour
  | TopOfHour => t mod hour = 0
  | EveryHours n anchor => t mod hour = 0 ∧ (t / hour - anchor) mod n = 0
  | HalfPast => t mod hour = 30 * minute
  | MinutePast m => t mod hour = m * minute
  | WeeklyAt wd h => t mod day = h * hour ∧ weekday_of t = wd
  end.

Definition slot_period (a : alignment) : Z :=
  match a with
  | DailyAt _ => day
  | TopOfHour | HalfPast | MinutePast _ => hour
  | EveryHours n _ => n * hour
  | WeeklyAt _ _ => 7 * day
  end.

Definition valid_alignment (a : alignment) : bool :=
  match a with
  | DailyAt h => (0 <=? h) && (h <=? 23)
  | TopOfHour | HalfPast => true
  | EveryHours n anchor => ((1 <=? n) && (n <=? 24)) && ((0 <=? anchor) && (anchor <=? 23))
  | MinutePast m => (0 <=? m) && (m <=? 59)
  | WeeklyAt wd h => ((0 <=? wd) && (wd <=? 6)) && ((0 <=? h) && (h <=? 23))
  end.

(** Every schedule is the instants at one offset within a period. *)
Definition slot_offset (a : alignment) : Z :=
  match a with
  | DailyAt h => h * hour
  | TopOfHour => 0
  | EveryHours n anchor => anchor mod n * hour
  | HalfPast => 30 * minute
  | MinutePast m => m * minute
  | WeeklyAt wd h => (wd - 3) mod 7 * day + h * hour
  end.

Lemma slot_period_pos a : valid_alignment a = true → 0 < slot_period a.
Proof.
  destruct a; cbn; intros H; bool_to_prop; unfold day, hour, usec in *; lia.
Qed.

(** An offset [o] below the inner period and a phase [k] of the outer one. *)
Lemma mod_nested p n t o k :
  0 < p → 0 < n → 0 ≤ o < p → 0 ≤ k < n →
  (t mod p = o ∧ (t / p) mod n = k) ↔ t mod (n * p) = k * p + o.
Proof.
  intros Hp Hn Ho Hk. rewrite (Z.mul_comm n p), Z.rem_mul_r by lia. split; [intros [-> ->]; lia|].
  intros H. pose proof (Z.mod_pos_bound t p Hp). pose proof (Z.mod_pos_bound (t / p) n Hn).
  assert ((t / p) mod n = k); nia.
Qed.

Lemma slot_offset_spec a t :
  valid_alignment a = true → is_slot a t ↔ t mod slot_period a = slot_offset a.
Proof.
  destruct a as [h| |n anchor| |m|wd h]; cbn; intros Hv; try tauto; bool_to_prop.
  - assert (HS : (t / hour - anchor) mod n = 0 ↔ (t / hour) mod n = anchor mod n).
    { rewrite Zminus_mod. pose proof (Z.mod_pos_bound (t / hour) n). pose proof (Z.mod_pos_bound anchor n).
      split; [|intros ->; by rewrite Z.sub_diag].
      intros E. apply Z.mod_divide in E as [c Hc]; [|lia]. assert (c = 0) by nia. lia. }
    rewrite HS, mod_nested; [by rewrite Z.add_0_r|unfold hour, usec; lia..|].
    apply Z.mod_pos_bound. lia.
  - unfold weekday_of.
    assert (HS : (t / day + 3) mod 7 = wd ↔ (t / day) mod 7 = (wd - 3) mod 7).
    { pose proof (Z.div_mod (t / day) 7). pose proof (Z.mod_pos_bound (t / day) 7).
      rewrite <-Zplus_mod_idemp_l. split; intros E.
      - rewrite <-E, Zminus_mod_idemp_l. rewrite Z.add_simpl_r. rewrite Z.mod_mod; lia.
      - rewrite E, Zplus_mod_idemp_l, Z.sub_add, Z.mod_small; lia. }
    rewrite HS, mod_nested; [done|unfold day, usec; lia|lia|unfold hour, day, usec; lia|].
    apply Z.mod_pos_bound. lia.
Qed.

(** The distance to the next instant at offset [o] of period [p], never zero. *)
Definition next_delay (p o now : Z) : Z := (o - now - 1) mod p + 1.

Lemma next_delay_bounds p o now : 0 < p → 0 < next_delay p o now ≤ p.
Proof. intros Hp. unfold next_delay. pose proof (Z.mod_pos_bound (o - now - 1) p Hp). lia. Qed.

Lemma next_delay_unique p o now d :
  0 < p → 0 < d ≤ p → (now + d) mod p = o mod p → d = next_delay p o now.
Proof.
  intros Hp Hd Ho. unfold next_delay.
  assert (E : (o - now - 1) mod p = (d - 1) mod p).
  { replace (o - now - 1) with (o - (now + 1)) by lia. rewrite Zminus_mod, <-Ho, <-Zminus_mod.
    f_equal. lia. }
  rewrite E, Z.mod_small by lia. lia.
Qed.

Lemma next_delay_hits p o now : 0 < p → (now + next_delay p o now) mod p = o mod p.
Proof.
  intros Hp. unfold next_delay. replace (now + ((o - now - 1) mod p + 1))
    with ((o - now - 1) mod p + (now + 1)) by lia.
  rewrite Zplus_mod_idemp_l. f_equal. lia.
Qed.

Lemma next_delay_least p o now t :
  0 < p → now < t < now + next_delay p o now → t mod p ≠ o mod p.
Proof.
  intros Hp Ht E. pose proof (next_delay_bounds p o now Hp).
  assert (t - now = next_delay p o now); [|lia].
  apply next_delay_unique; [done|lia|]. by replace (now + (t - now)) with t by lia.
Qed.

(** [if target <= current: target += period] *)
Lemma bump_is_next p o now target :
  0 < p → target mod p = o mod p → now - p < target ≤ now + p →
  (if target <=? now then target + p else target) - now = next_delay p o now.
Proof.
  intros Hp Ho Hb. apply next_delay_unique; [done|destruct (Z.leb_spec target now); lia|].
  rewrite <-Ho, Zplus_minus. destruct (target <=? now); [|done].
  rewrite <-(Z.mul_1_l p) at 1. apply Z.mod_add. lia.
Qed.

Lemma floor_to_bounds p t : 0 < p → t - p < floor_to p t ≤ t.
Proof. intros Hp. unfold floor_to. pose proof (Z.mod_pos_bound t p Hp). lia. Qed.

Lemma floor_to_div p t : 0 < p → floor_to p t = t / p * p.
Proof. intros Hp. unfold floor_to. pose proof (Z.div_mod t p). lia. Qed.

(** An offset within the period that a floor starts. *)
Lemma floor_plus_mod p t x : 0 < p → 0 ≤ x < p → (floor_to p t + x) mod p = x.
Proof. intros Hp Hx. rewrite floor_to_div, Z.add_comm, Z.mod_add by lia. by apply Z.mod_small. Qed.

Lemma slot_offset_bounds a : valid_alignment a = true → 0 ≤ slot_offset a < slot_period a.
Proof.
  destruct a; cbn; intros H; bool_to_prop; unfold day, hour, minute, usec in *; try lia.
  - pose proof (Z.mod_pos_bound anchor n). lia.
  - pose proof (Z.mod_pos_bound (wd - 3) 7). lia.
Qed.

Lemma delay_is_next a now :
  valid_alignment a = true →
  delay_provider a now = Ok (next_delay (slot_period a) (slot_offset a) now).
Proof.
  intros Hv.
  pose proof (slot_period_pos a Hv) as Hp. pose proof (slot_offset_bounds a Hv) as Ho.
  assert (Hmod : ∀ t, is_slot a t → t mod slot_period a = slot_offset a mod slot_period a).
  { intros t Ht. apply slot_offset_spec in Ht; [|done]. by rewrite Ht, Z.mod_small. }
  assert (hour = 3600 * usec ∧ day = 86400 * usec ∧ minute = 60 * usec ∧ usec = 1000000)
    as (Hh & Hdy & Hm & Hu) by done.
  destruct a as [h| |n anchor| |m|wd h]; cbn [delay_provider valid_alignment slot_period is_slot] in *.
  - unfold seconds_until_next_utc_hour. rewrite Hv. cbn [negb]. f_equal.
    pose proof (floor_to_bounds day now). bool_to_prop.
    apply bump_is_next; [lia|apply Hmod, floor_plus_mod|]; lia.
  - unfold seconds_until_next_utc_top_of_hour. f_equal. pose proof (floor_to_bounds hour now).
    apply next_delay_unique; [lia|lia|]. rewrite <-(Hmod (floor_to hour now + hour)); [f_equal; lia|].
    rewrite floor_to_div by lia. replace (now / hour * hour + hour) with ((now / hour + 1) * hour) by lia.
    apply Z.mod_mul. lia.
  - unfold seconds_until_next_utc_hour_multiple. pose proof Hv as Hv'.
    apply andb_true_iff in Hv' as [-> ->]. cbn [negb]. f_equal. bool_to_prop.
    pose proof (floor_to_bounds hour now).
    assert (He : floor_to hour now / usec / 3600 = now / hour).
    { rewrite Z.div_div, Z.mul_comm, <-Hh, floor_to_div, Z.div_mul by lia. done. }
    rewrite He. pose proof (Z.mod_pos_bound (anchor - now / hour) n).
    apply bump_is_next; [lia| |lia]. apply Hmod.
    rewrite floor_to_div, <-Z.mul_add_distr_r by lia. split; [apply Z.mod_mul; lia|].
    rewrite Z.div_mul by lia.
    replace (now / hour + (anchor - now / hour) mod n - anchor)
      with ((anchor - now / hour) mod n + (now / hour - anchor)) by lia.
    rewrite Zplus_mod_idemp_l. replace (anchor - now / hour + (now / hour - anchor)) with 0 by lia.
    apply Z.mod_0_l. lia.
  - unfold seconds_until_next_utc_half_past. f_equal. pose proof (floor_to_bounds hour now).
    apply bump_is_next; [lia|apply Hmod, floor_plus_mod|]; lia.
  - unfold seconds_until_next_utc_minute_past. rewrite Hv. cbn [negb]. f_equal.
    pose proof (floor_to_bounds hour now). bool_to_prop.
    apply bump_is_next; [lia|apply Hmod, floor_plus_mod|]; lia.
  - unfold seconds_until_next_utc_weekday_hour. pose proof Hv as Hv'.
    apply andb_true_iff in Hv' as [-> ->]. cbn [negb]. f_equal. bool_to_prop.
    pose proof (floor_to_bounds day now). pose proof (Z.mod_pos_bound (wd - weekday_of now) 7).
    set (k := (wd - weekday_of now) mod 7) in *.
    replace (floor_to day now + h * hour + k * day) with (floor_to day now + k * day + h * hour) by lia.
    apply bump_is_next; [lia| |lia]. apply Hmod.
    assert (floor_to day now + k * day = (now / day + k) * day) as -> by (rewrite floor_to_div; lia).
    rewrite Z.add_comm, Z.mod_add, Z.mod_small by lia. split; [done|].
    unfold weekday_of. rewrite Z.div_add, Z.div_small by lia.
    subst k. unfold weekday_of.
    replace (0 + (now / day + _) + 3) with ((wd - (now / day + 3) mod 7) mod 7 + (now / day + 3)) by lia.
    rewrite Zplus_mod_idemp_l, <-Zplus_mod_idemp_r, Z.sub_add. apply Z.mod_small. lia.
Qed.

Lemma delay_invalid a now :
  valid_alignment a = false → ∃ msg, delay_provider a now = Err (PyError "ValueError" msg).
Proof.
  destruct a; cbn; intros H; try done;
    unfold seconds_until_next_utc_hour, seconds_until_next_utc_hour_multiple,
      seconds_until_next_utc_minute_past, seconds_until_next_utc_weekday_hour, value_error;
    try (rewrite H; cbn; eauto; done);
    apply andb_false_iff in H as [H|H]; rewrite H; cbn; eauto; case_match; eauto.
Qed.

(** A delay provider with valid arguments answers the wait to the next instant of
    its schedule: strictly positive, at most one period, and with no instant of the
    schedule inside it. Invalid arguments raise [ValueError]. *)
Theorem delay_reaches_next_slot a now :
  if valid_alignment a
  then ∃ d, delay_provider a now = Ok d ∧ 0 < d ≤ slot_period a ∧ is_slot a (now + d)
            ∧ ∀ t, now < t < now + d → ¬ is_slot a t
  else ∃ msg, delay_provider a now = Err (PyError "ValueError" msg).
Proof.
  destruct (valid_alignment a) eqn:Hv; [|by apply delay_invalid].
  pose proof (slot_period_pos a Hv) as Hp. pose proof (slot_offset_bounds a Hv) as Ho.
  exists (next_delay (slot_period a) (slot_offset a) now).
  split_and!; [by apply delay_is_next|by apply next_delay_bounds..| |].
  - apply slot_offset_spec; [done|]. by rewrite next_delay_hits, Z.mod_small.
  - intros t Ht Hs. apply slot_offset_spec in Hs; [|done].
    eapply (next_delay_least _ _ _ t Hp Ht). by rewrite Hs, Z.mod_small.
Qed.

(** ** The registry *)

Record task : Type := Task { t_name : string; t_interval : Z; t_align : option alignment }.

(** [_running] holds the spawned loops, each with [done()]; [spawned] is what was ever
    spawned. *)
Record sched : Type := Sched {
  s_tasks : list task;
  s_running : list (task * bool);
  s_started : bool;
  s_lease : bool;
  s_spawned : list task
}.

Definition sched_init : sched := Sched [] [] false false [].

Definition set_lease (lease : bool) (s : sched) : result exn sched :=
  if s_started s
  then Err (PyError "RuntimeError" "cannot set a lease after scheduler has started")
  else Ok (Sched (s_tasks s) (s_running s) (s_started s) lease (s_spawned s)).

Definition register (t : task) (s : sched) : result exn sched :=
  if s_started s
  then Err (PyError "RuntimeError" "cannot register task after scheduler has started")
  else if t_interval t <=? 0
  then value_error "interval_seconds must be > 0"
  else if existsb (λ u, bool_decide (t_name u = t_name t)) (s_tasks s)
  then value_error "already registered"
  else Ok (Sched (s_tasks s ++ [t]) (s_running s) (s_started s) (s_lease s) (s_spawned s)).

Definition sched_start (s : sched) : sched :=
  if s_started s then s
  else Sched (s_tasks s) (s_running s ++ ((λ t, (t, false)) <$> s_tasks s)) true (s_lease s)
         (s_spawned s ++ s_tasks s).

Definition sched_stop (s : sched) : sched :=
  Sched (s_tasks s) [] (s_started s) (s_lease s) (s_spawned s).

Definition is_healthy (s : sched) : bool :=
  match s_tasks s with
  | [] => true
  | _ => Nat.eqb (length (s_running s)) (length (s_tasks s))
         && forallb (λ p, negb p.2) (s_running s)
  end.

(** A loop that ends, cancelled or crashed. *)
Definition task_done (n : nat) (s : sched) : sched :=
  Sched (s_tasks s) (alter (λ p, (p.1, true)) n (s_running s)) (s_started s) (s_lease s) (s_spawned s).

Inductive sched_op : Type :=
| OpSetLease (b : bool) | OpRegister (t : task) | OpStart | OpStop | OpDoneTask (n : nat).

(** A call that raises leaves the scheduler as it was. *)
Definition sched_apply (o : sched_op) (s : sched) : sched :=
  match o with
  | OpSetLease b => match set_lease b s with Ok s' => s' | Err _ => s end
  | OpRegister t => match register t s with Ok s' => s' | Err _ => s end
  | OpStart => sched_start s
  | OpStop => sched_stop s
  | OpDoneTask n => task_done n s
  end.

Definition sched_run (ops : list sched_op) : sched := foldl (λ s o, sched_apply o s) sched_init ops.

Definition sched_ok (s : sched) : Prop :=
  NoDup (t_name <$> s_tasks s) ∧ Forall (λ t, 0 < t_interval t) (s_tasks s)
  ∧ s_spawned s = (if s_started s then s_tasks s else [])
  ∧ ((s_running s).*1 = s_spawned s ∨ s_running s = []).

Lemma sched_apply_ok o s : sched_ok s → sched_ok (sched_apply o s).
Proof.
  intros H0. pose proof H0 as (Hn & Hi & Hs & Hr). destruct o as [b|t| | |n]; cbn.
  - unfold set_lease. destruct (s_started s) eqn:E; [done|].
    split_and!; cbn; by rewrite ?E.
  - unfold register. destruct (s_started s) eqn:E; [done|].
    destruct (Z.leb_spec (t_interval t) 0); [done|].
    destruct (existsb _ _) eqn:Ex; [done|].
    split_and!; cbn; rewrite ?E in *; [|apply Forall_app; split; [done|apply Forall_singleton; lia]|done|done].
    rewrite fmap_app. apply NoDup_app. split_and!; [done| |apply NoDup_singleton].
    intros x Hx ->%list_elem_of_singleton. apply list_elem_of_fmap in Hx as (u & Hu & Hin).
    apply not_true_iff_false in Ex. apply Ex, existsb_exists. exists u.
    split; [by apply list_elem_of_In|]. by apply bool_decide_eq_true_2.
  - unfold sched_start. destruct (s_started s) eqn:E; [done|].
    rewrite Hs in *. assert (s_running s = []) as ->
      by (destruct Hr as [Hr|]; [by apply fmap_nil_inv in Hr|done]).
    split_and!; cbn; try done. left. rewrite <-list_fmap_compose. apply list_fmap_id.
  - unfold sched_stop. split_and!; cbn; auto.
  - unfold task_done. split_and!; cbn; try done. destruct Hr as [Hr| ->]; [left|by right].
    rewrite <-Hr. clear. revert n. induction (s_running s) as [|[t b] l IH]; intros [|n]; cbn; try done.
    f_equal. apply IH.
Qed.


(** ** The lease

    Redis keeps, per task, the expiry of the lease that was granted last. *)

Definition lease_ttl_max : Z := 300 * usec.

(** [min(_LEASE_TTL_S, task.interval_seconds / 2)]; the interval in seconds, the
    result in microseconds. *)
Definition lease_ttl (interval : Z) : Z := Z.min lease_ttl_max (interval * usec / 2).

(** [int(-(-ttl // 1))]: whole seconds, rounded up. *)
Definition whole_seconds (ttl : Z) : Z := - (- ttl / usec).

(** [SET key "held" EX ttl NX]: granted when no lease is live. *)
Definition set_nx (now ttl_s : Z) (held : option Z) : bool * option Z :=
  match held with
  | Some expiry => if now <? expiry then (false, held) else (true, Some (now + ttl_s * usec))
  | None => (true, Some (now + ttl_s * usec))
  end.

(** [cache_set_nx]: an unreachable Redis, or one that raises, grants. *)
Definition cache_set_nx (redis_up : bool) (now ttl_s : Z) (held : option Z) : bool * option Z :=
  if redis_up then set_nx now ttl_s held else (true, held).

(** [^[a-z0-9][a-z0-9-]{0,63}$] with [re.match]: [$] also matches before a newline that
    ends the string. *)
Definition task_char (c : ascii) : bool := is_az c || is_digit c.

Fixpoint task_name_tail (n : nat) (s : string) : bool :=
  match s with
  | EmptyString => true
  | String "010" EmptyString => true
  | String c s =>
      match n with O => false | S n => (task_char c || Ascii.eqb c "-") && task_name_tail n s end
  end.

Definition task_name_ok (s : string) : bool :=
  match s with
  | EmptyString => false
  | String c s => task_char c && task_name_tail 63 s
  end.

(** A number of seconds in [1, 900], rounded up: [float(ttl_raw)] and its bounds. *)
Definition ttl_ok (v : pyval) : option Z :=
  match v with
  | PInt _ | PFloat _ =>
      match num_of v with
      | Some (NDyadic m e) =>
          match dyadic_cmp 1 0 m e, dyadic_cmp m e 900 0 with
          | (Lt | Eq), (Lt | Eq) =>
              Some (if 0 <=? e then m * 2 ^ e else - (- m / 2 ^ (- e)))
          | _, _ => None
          end
      | _ => None
      end
  | _ => None
  end.

(** The route: the task's lease is keyed by its name. *)
Definition tick_lease_route (redis_up : bool) (now : Z) (body : pyval) (leases : gmap string Z)
    : result exn bool * gmap string Z :=
  match as_dict body with
  | None => (Err (HTTPException 422 "request body must be a JSON object"), leases)
  | Some d =>
      match dict_get "task" d with
      | Some (PStr task) =>
          if task_name_ok task then
            match dict_get "ttl_s" d ≫= ttl_ok with
            | Some ttl_s =>
                let '(granted, held) := cache_set_nx redis_up now ttl_s (leases !! task) in
                (Ok granted, match held with Some x => <[task := x]> leases | None => leases end)
            | None => (Err (HTTPException 422 "'ttl_s' must be between 1.0 and 900.0"), leases)
            end
          else (Err (HTTPException 422 "'task' must be a lowercase hyphenated name"), leases)
      | _ => (Err (HTTPException 422 "'task' must be a lowercase hyphenated name"), leases)
      end
  end.

(** What the HTTP call of [claim_tick_lease] ends with; [body = None] is a body that is
    not JSON. *)
Inductive lease_answer : Type :=
| Unreachable
| Answered (status : Z) (body : option pyval).

(** Only an explicit [{"granted": false}] denies. A body that is not an object makes
    [.get] raise, which grants. *)
Definition claim_tick_lease (r : lease_answer) : bool :=
  match r with
  | Unreachable => true
  | Answered status body =>
      if 400 <=? status then true
      else match body with
           | Some (PDict d) =>
               match dict_get "granted" d with Some (PBool false) => false | _ => true end
           | _ => true
           end
  end.

(** [Scheduler._claim]: no lease, or a lease call that raised, runs the tick. *)
Definition claim (lease : bool) (r : option lease_answer) : bool :=
  if lease then match r with Some r => claim_tick_lease r | None => true end else true.

(** ** The loop of one task *)

(** One turn of the loop, by what the clock and the calls did in it: how late the sleep
    ended, how long the lease took and what it answered, how long [fn] ran and whether
    it raised. *)
Record turn : Type := Turn {
  late : Z; asking : Z; answer : option lease_answer; running : Z; raised : bool
}.

Definition turn_ok (p : turn) : Prop := 0 ≤ late p ∧ 0 ≤ asking p ∧ 0 ≤ running p.

(** The instant aimed at, when [fn] was called if it was, and when the turn ended. *)
Record turn_trace : Type := TurnTrace { target : Z; fired : option Z; ended : Z }.

(** An aligned turn of [_run]: sleep to the next instant, ask, run. A denied lease and
    an exception both re-enter the loop. *)
Definition aligned_turn (a : alignment) (lease : bool) (now : Z) (p : turn) : result exn turn_trace :=
  d ← delay_provider a now;
  let asked := now + d + late p + asking p in
  Ok (if claim lease (answer p)
      then TurnTrace (now + d) (Some asked) (asked + running p)
      else TurnTrace (now + d) None asked).

(** A turn of an interval task: run, then sleep, whether [fn] raised or not. *)
Definition interval_turn (interval now : Z) (p : turn) : turn_trace :=
  TurnTrace now (Some now) (now + running p + interval * usec + late p).

Fixpoint aligned_loop (a : alignment) (lease : bool) (now : Z) (ps : list turn) : list turn_trace :=
  match ps with
  | [] => []
  | p :: ps =>
      match aligned_turn a lease now p with
      | Ok x => x :: aligned_loop a lease (ended x) ps
      | Err _ => []
      end
  end.

Fixpoint interval_loop (interval now : Z) (ps : list turn) : list turn_trace :=
  match ps with
  | [] => []
  | p :: ps => let x := interval_turn interval now p in x :: interval_loop interval (ended x) ps
  end.

(** What an aligned loop that started at [now] must have done: every turn aims at the
    next instant after the previous one ended, and its call comes after that instant
    and before its end. *)
Fixpoint loop_spec (a : alignment) (now : Z) (xs : list turn_trace) : Prop :=
  match xs with
  | [] => True
  | x :: xs =>
      (is_slot a (target x) ∧ now < target x ≤ now + slot_period a
       ∧ (∀ t, now < t < target x → ¬ is_slot a t)
       ∧ target x ≤ ended x ∧ (∀ f, fired x = Some f → target x ≤ f ≤ ended x))
      ∧ loop_spec a (ended x) xs
  end.

(** The loop of an aligned task aims every turn at the next instant of its schedule
    after the previous turn ended, so an instant is only ever missed while an earlier
    tick is still running; it calls [fn] at most once per turn and never before the
    instant, it never spins (each target is later than the last turn's end), and no
    failure ends it. *)
Theorem aligned_loop_keeps_schedule a lease now ps :
  valid_alignment a = true → Forall turn_ok ps →
  loop_spec a now (aligned_loop a lease now ps)
  ∧ length (aligned_loop a lease now ps) = length ps
  ∧ StronglySorted (λ x y, ended x < target y) (aligned_loop a lease now ps).
Proof.
  intros Hv Hps. revert now. induction Hps as [|p ps Hp Hps IH]; intros now; [split_and!; [done..|constructor]|].
  pose proof (delay_reaches_next_slot a now) as Hd. rewrite Hv in Hd.
  destruct Hd as (d & Ed & Hb & Hs & Hl). cbn [aligned_loop]. unfold aligned_turn. rewrite Ed. cbn.
  destruct Hp as (H1 & H2 & H3).
  set (x := if claim lease (answer p) then _ else _).
  assert (Hx : target x = now + d ∧ target x ≤ ended x ∧ (∀ f, fired x = Some f → target x ≤ f ≤ ended x)).
  { subst x. destruct (claim lease (answer p)); cbn; split_and!; intros; simplify_eq; lia. }
  destruct Hx as (Ht & He & Hf). destruct (IH (ended x)) as (IH1 & IH2 & IH3).
  split; [|split; [cbn; by rewrite IH2|]].
  - split; [|done]. rewrite Ht in *. split_and!; try done; try lia.
  - constructor; [done|].
    assert (∀ n0 xs, loop_spec a n0 xs → ∀ n, n ≤ n0 → Forall (λ y, n < target y) xs) as Hall.
    { clear. intros n0 xs. revert n0. induction xs as [|y xs IH]; intros n0 Hs n Hn; [constructor|].
      destruct Hs as [(_ & Hb & _ & He & _) Hs]. constructor; [lia|]. eapply IH; [done|lia]. }
    eapply Hall; [done|]. lia.
Qed.

(** An interval task calls [fn] at once and then never sooner than its interval
    after the previous call returned or raised. *)
Theorem interval_loop_spaced interval now ps :
  0 < interval → Forall turn_ok ps →
  head (interval_loop interval now ps) ≫= fired = match ps with [] => None | _ => Some now end
  ∧ StronglySorted (λ x y, ∃ f g, fired x = Some f ∧ fired y = Some g ∧ f + interval * usec ≤ g)
      (interval_loop interval now ps).
Proof.
  intros Hi Hps. split; [by destruct ps|]. revert now.
  induction Hps as [|p ps Hp Hps IH]; intros now; cbn; [constructor|].
  constructor; [apply IH|].
  assert (∀ n0, Forall (λ y, ∃ g, fired y = Some g ∧ n0 ≤ g) (interval_loop interval n0 ps)) as Hall.
  { clear IH Hp now. induction Hps as [|q ps Hq Hps IH]; intros n0; cbn; [constructor|].
    constructor; [by exists n0|]. eapply Forall_impl; [apply IH|]. cbn.
    intros y (g & Hg & Hle). exists g. split; [done|]. destruct Hq as (? & ? & ?). unfold usec in *. lia. }
  eapply Forall_impl; [apply Hall|]. cbn. intros y (g & Hg & Hle).
  exists now, g. split_and!; [done..|]. destruct Hp as (? & ? & ?). lia.
Qed.

(** ** Many replicas, one tick *)

(** The leases of one task asked for at the instants [ts], in the order Redis serves
    them. *)
Fixpoint serve_asks (ttl_s : Z) (held : option Z) (ts : list Z) : list bool * option Z :=
  match ts with
  | [] => ([], held)
  | t :: ts =>
      let '(g, held) := cache_set_nx true t ttl_s held in
      let '(gs, held) := serve_asks ttl_s held ts in (g :: gs, held)
  end.

(** The asks of one tick after another. *)
Fixpoint serve_ticks (ttl_s : Z) (held : option Z) (ticks : list (Z * list Z)) : list (list bool) :=
  match ticks with
  | [] => []
  | (_, ts) :: ticks =>
      let '(gs, held) := serve_asks ttl_s held ts in gs :: serve_ticks ttl_s held ticks
  end.

(** The replicas ask for the tick of an instant within [spread] of it. *)
Definition tick_ok (spread : Z) (tick : Z * list Z) : Prop :=
  tick.2 ≠ [] ∧ Sorted Z.le tick.2 ∧ Forall (λ t, tick.1 ≤ t ≤ tick.1 + spread) tick.2.

Definition one_granted (gs : list bool) : Prop := ∃ n, gs = true :: replicate n false.

Lemma serve_asks_denied ttl_s x ts :
  Forall (λ t, t < x) ts → serve_asks ttl_s (Some x) ts = (replicate (length ts) false, Some x).
Proof.
  induction 1 as [|t ts Ht _ IH]; [done|]. cbn. rewrite (proj2 (Z.ltb_lt t x)) by lia.
  by rewrite IH.
Qed.

Definition free_at (t : Z) (held : option Z) : Prop :=
  match held with Some x => x ≤ t | None => True end.

Lemma serve_asks_first ttl_s held spread s ts :
  spread < ttl_s * usec → free_at s held → tick_ok spread (s, ts) →
  ∃ x, (serve_asks ttl_s held ts).2 = Some x ∧ x ≤ s + spread + ttl_s * usec
       ∧ one_granted (serve_asks ttl_s held ts).1.
Proof.
  intros Hsp Hf (Hne & Hso & Hall). cbn in *. destruct ts as [|t ts]; [done|].
  apply Forall_cons in Hall as [Ht Hall]. cbn.
  assert (set_nx t ttl_s held = (true, Some (t + ttl_s * usec))) as ->.
  { destruct held as [x|]; [|done]. cbn in *. by rewrite (proj2 (Z.ltb_ge t x)) by lia. }
  rewrite serve_asks_denied.
  - cbn. exists (t + ttl_s * usec). split_and!; [done|lia|]. by eexists.
  - eapply Forall_impl; [apply Hall|]. cbn. intros u Hu. lia.
Qed.

Lemma serve_ticks_one ttl_s period spread held ticks :
  0 ≤ spread < ttl_s * usec → ttl_s * usec + spread ≤ period →
  Forall (tick_ok spread) ticks → StronglySorted (λ x y, x.1 + period ≤ y.1) ticks →
  (∀ t, t ∈ ticks → free_at t.1 held) → Forall one_granted (serve_ticks ttl_s held ticks).
Proof.
  intros Hsp Hint Hok Hso. revert held Hok.
  induction Hso as [|[s ts] ticks Hso IH Hlt]; intros held Hok Hf; cbn; [constructor|].
  apply Forall_cons in Hok as [Ho Hok].
  destruct (serve_asks_first ttl_s held spread s ts) as (x & Hx & Hle & Hg);
    [lia|apply (Hf (s, ts)); left|done|].
  destruct (serve_asks ttl_s held ts) as [gs held'] eqn:E. cbn in *. subst held'.
  constructor; [done|]. apply IH; [done|]. intros t Ht. rewrite Forall_forall in Hlt.
  specialize (Hlt t Ht). cbn in *. lia.
Qed.

(** Of the replicas that ask for one tick of a task, exactly one runs it, on every
    tick: when the lease lasts longer than the spread of their asks and is over before
    the next tick. The lease a task asks for is at most half its interval. *)
Theorem one_replica_per_tick interval spread ticks :
  let ttl_s := whole_seconds (lease_ttl interval) in
  0 ≤ spread < ttl_s * usec → ttl_s * usec + spread ≤ interval * usec →
  Forall (tick_ok spread) ticks →
  StronglySorted (λ x y, x.1 + interval * usec ≤ y.1) ticks →
  Forall one_granted (serve_ticks ttl_s None ticks).
Proof.
  intros ttl_s Hsp Hint Hok Hso. by apply (serve_ticks_one _ (interval * usec) spread).
Qed.

Lemma delay_half_interval interval : 0 < interval → lease_ttl interval ≤ interval * usec / 2.
Proof. unfold lease_ttl. lia. Qed.

(** Two replicas, the hourly reconcile task, three ticks. *)
Definition hourly_ticks : list (Z * list Z) :=
  (λ k, (k * hour + 30 * minute, [k * hour + 30 * minute + 120000; k * hour + 30 * minute + 300000]))
    <$> [0; 1; 2].

Lemma one_replica_per_tick_witness :
  whole_seconds (lease_ttl 3600) = 300
  ∧ Forall one_granted (serve_ticks 300 None hourly_ticks).
Proof.
  split; [reflexivity|].
  refine (one_replica_per_tick 3600 usec hourly_ticks _ _ _ _).
  - vm_compute. split; [discriminate|reflexivity].
  - vm_compute. discriminate.
  - repeat constructor; try discriminate; vm_compute; try discriminate; split; discriminate.
  - repeat constructor; vm_compute; discriminate.
Defined.

Lemma aligned_loop_keeps_schedule_witness :
  let ps := [Turn 5 0 None (2 * hour) true; Turn 0 7 (Some Unreachable) 9 false] in
  map target (aligned_loop HalfPast true 0 ps) = [30 * minute; 150 * minute + hour]
  ∧ loop_spec HalfPast 0 (aligned_loop HalfPast true 0 ps).
Proof.
  intros ps. split; [reflexivity|].
  refine (proj1 (aligned_loop_keeps_schedule HalfPast true 0 ps eq_refl _)).
  repeat constructor; vm_compute; discriminate.
Defined.

Lemma interval_loop_spaced_witness :
  let ps := [Turn 0 0 None 9 true; Turn 5 0 None 1 false] in
  map ended (interval_loop 60 0 ps) = [60 * usec + 9; 120 * usec + 15]
  ∧ StronglySorted (λ x y, ∃ f g, fired x = Some f ∧ fired y = Some g ∧ f + 60 * usec ≤ g)
      (interval_loop 60 0 ps).
Proof.
  intros ps. split; [reflexivity|]. refine (proj2 (interval_loop_spaced 60 0 ps eq_refl _)).
  repeat constructor; vm_compute; discriminate.
Defined.

(** A task name that ends in a newline passes the route's pattern. *)
Lemma newline_task_name_accepted : task_name_ok (String.append "agent-digest" (String "010" "")) = true.
Proof. reflexivity. Qed.
