(* ===== verification/IngestChunking.v ===== *)
(** * Chunking a document for ingest

    [core_api/services/ingest_chunking.py]: a document is parsed into typed blocks, and
    the blocks are packed into sections, one model call each. A paragraph that is too
    long is cut at sentences, and a sentence that is still too long between tokens.

    Text is a list of code points, so that the cuts between bytes are exact. The
    tokenizer (tiktoken), the sentence segmenter (pysbd) and the Markdown parser
    (markdown-it) are parameters. *)

From S2P Require Import Prelude.

Local Open Scope Z_scope.

Abbreviation text := (list Z).
Abbreviation bytes := (list Z).

(** ** UTF-8 *)

(** A Unicode scalar value. *)
Definition scalar (c : Z) : bool :=
  ((0 <=? c) && (c <? 55296)) || ((57344 <=? c) && (c <? 1114112)).

Definition utf8_bytes (c : Z) : bytes :=
  if c <? 128 then [c]
  else if c <? 2048 then [192 + c / 64; 128 + c mod 64]
  else if c <? 65536 then [224 + c / 4096; 128 + c / 64 mod 64; 128 + c mod 64]
  else [240 + c / 262144; 128 + c / 4096 mod 64; 128 + c / 64 mod 64; 128 + c mod 64].

Definition utf8 (t : text) : bytes := t ≫= utf8_bytes.

(** One character of a strict decoder: the lead byte says how many bytes there are, and
    they must be the encoding of the scalar they spell. *)
Definition utf8_decode1 (b : bytes) : option (Z * bytes) :=
  let check (c : Z) (rest : bytes) (used : bytes) :=
    if scalar c && bool_decide (utf8_bytes c = used) then Some (c, rest) else None in
  match b with
  | [] => None
  | b0 :: r0 =>
      if b0 <? 128 then check b0 r0 [b0]
      else if b0 <? 224 then
        match r0 with
        | b1 :: r => check ((b0 - 192) * 64 + (b1 - 128)) r [b0; b1]
        | _ => None
        end
      else if b0 <? 240 then
        match r0 with
        | b1 :: b2 :: r => check ((b0 - 224) * 4096 + (b1 - 128) * 64 + (b2 - 128)) r [b0; b1; b2]
        | _ => None
        end
      else
        match r0 with
        | b1 :: b2 :: b3 :: r =>
            check ((b0 - 240) * 262144 + (b1 - 128) * 4096 + (b2 - 128) * 64 + (b3 - 128)) r
              [b0; b1; b2; b3]
        | _ => None
        end
  end.

Fixpoint utf8_decode_fuel (n : nat) (b : bytes) : option text :=
  match b, n with
  | [], _ => Some []
  | _, O => None
  | _, S n =>
      match utf8_decode1 b with
      | Some (c, r) => cons c <$> utf8_decode_fuel n r
      | None => None
      end
  end.

(** [bytes.decode("utf-8")]; [None] is [UnicodeDecodeError]. *)
Definition utf8_decode (b : bytes) : option text := utf8_decode_fuel (length b) b.

Lemma utf8_decode1_char c r : scalar c = true → utf8_decode1 (utf8_bytes c ++ r) = Some (c, r).
Proof.
  intros Hs. assert (0 ≤ c < 1114112) as Hc by (unfold scalar in Hs; bool_to_prop; destruct Hs; bool_to_prop; lia).
  pose proof (Z.div_mod c 64). pose proof (Z.div_mod (c / 64) 64). pose proof (Z.div_mod (c / 64 / 64) 64).
  pose proof (Z.mod_pos_bound c 64). pose proof (Z.mod_pos_bound (c / 64) 64).
  pose proof (Z.mod_pos_bound (c / 64 / 64) 64).
  assert (E1 : c / 4096 = c / 64 / 64) by (rewrite Z.div_div by lia; done).
  assert (E2 : c / 262144 = c / 64 / 64 / 64) by (rewrite !Z.div_div by lia; done).
  pose proof (Z.div_pos c 64). pose proof (Z.div_pos (c / 64) 64). pose proof (Z.div_pos (c / 64 / 64) 64).
  unfold utf8_decode1. remember (utf8_bytes c) as u eqn:Hu. pose proof Hu as Hu'. unfold utf8_bytes in Hu'.
  rewrite ?E1, ?E2 in Hu'.
  destruct (Z.ltb_spec c 128); [|destruct (Z.ltb_spec c 2048); [|destruct (Z.ltb_spec c 65536)]];
    rewrite Hu'; cbn [app].
  - rewrite (proj2 (Z.ltb_lt c 128)) by lia. by rewrite Hs, bool_decide_eq_true_2 by congruence.
  - rewrite (proj2 (Z.ltb_ge _ 128)), (proj2 (Z.ltb_lt _ 224)) by lia.
    replace (_ + _) with c by lia. by rewrite Hs, bool_decide_eq_true_2 by congruence.
  - rewrite (proj2 (Z.ltb_ge _ 128)), (proj2 (Z.ltb_ge _ 224)), (proj2 (Z.ltb_lt _ 240)) by lia.
    replace (_ + _) with c by lia. by rewrite Hs, bool_decide_eq_true_2 by congruence.
  - rewrite (proj2 (Z.ltb_ge _ 128)), (proj2 (Z.ltb_ge _ 224)), (proj2 (Z.ltb_ge _ 240)) by lia.
    replace (_ + _) with c by lia. by rewrite Hs, bool_decide_eq_true_2 by congruence.
Qed.

Lemma utf8_decode1_inv b c r : utf8_decode1 b = Some (c, r) → scalar c = true ∧ b = utf8_bytes c ++ r.
Proof.
  unfold utf8_decode1. intros H.
  repeat case_match; simplify_eq; bool_to_prop;
    repeat match goal with H : bool_decide _ = true |- _ => apply bool_decide_eq_true in H end;
    match goal with H : utf8_bytes _ = _ |- _ => rewrite H end; done.
Qed.

Lemma utf8_bytes_nonnil c : utf8_bytes c ≠ [].
Proof. unfold utf8_bytes. repeat case_match; done. Qed.

Lemma utf8_cons c t : utf8 (c :: t) = utf8_bytes c ++ utf8 t.
Proof. done. Qed.

Lemma utf8_app a b : utf8 (a ++ b) = utf8 a ++ utf8 b.
Proof. unfold utf8. apply bind_app. Qed.

Lemma utf8_decode_fuel_ok n t :
  Forall (λ c, scalar c = true) t → (length t ≤ n)%nat → utf8_decode_fuel n (utf8 t) = Some t.
Proof.
  intros Ht. revert n. induction Ht as [|c t Hc Ht IH]; intros n Hn; [by destruct n|].
  destruct n as [|n]; [cbn in Hn; lia|]. rewrite utf8_cons.
  destruct (utf8_bytes c ++ utf8 t) as [|x l] eqn:E.
  { apply app_eq_nil in E as [E _]. by apply utf8_bytes_nonnil in E. }
  cbn [utf8_decode_fuel]. rewrite <-E, utf8_decode1_char by done. rewrite IH; [done|cbn in Hn; lia].
Qed.

Lemma utf8_length t : (length t ≤ length (utf8 t))%nat.
Proof.
  induction t as [|c t IH]; [done|]. rewrite utf8_cons, length_app. cbn.
  destruct (utf8_bytes c) eqn:E; [by apply utf8_bytes_nonnil in E|]. cbn. lia.
Qed.

Lemma utf8_decode_ok t : Forall (λ c, scalar c = true) t → utf8_decode (utf8 t) = Some t.
Proof. intros Ht. apply utf8_decode_fuel_ok; [done|apply utf8_length]. Qed.

Lemma utf8_decode_inv b t :
  utf8_decode b = Some t → b = utf8 t ∧ Forall (λ c, scalar c = true) t.
Proof.
  unfold utf8_decode. generalize (length b). intros n. revert b t.
  induction n as [|n IH]; intros [|x b] t; cbn [utf8_decode_fuel].
  1,3: intros [= <-]; split; [done|constructor].
  { intros [=]. }
  destruct (utf8_decode1 (x :: b)) as [[c r]|] eqn:E; [|done].
  intros (t' & Ht' & ->)%fmap_Some. apply IH in Ht' as [-> Ht']. apply utf8_decode1_inv in E as [Hc ->].
  split; [done|by constructor].
Qed.

(** A text whose encoding starts another's is a prefix of it. *)
Lemma utf8_prefix a b t :
  Forall (λ c, scalar c = true) a → Forall (λ c, scalar c = true) t →
  utf8 a ++ b = utf8 t → ∃ t', t = a ++ t' ∧ b = utf8 t'.
Proof.
  intros Ha. revert t. induction Ha as [|c a Hc Ha IH]; intros t Ht E; [by exists t|].
  destruct Ht as [|d t Hd Ht].
  { rewrite utf8_cons in E. apply app_eq_nil in E as [[E _]%app_eq_nil _].
    by apply utf8_bytes_nonnil in E. }
  rewrite !utf8_cons, <-(assoc_L (++)) in E.
  pose proof (utf8_decode1_char c (utf8 a ++ b) Hc) as E1. rewrite E, utf8_decode1_char in E1 by done.
  injection E1 as -> E1. destruct (IH _ Ht) as (t' & -> & ->); [by symmetry|]. by exists t'.
Qed.

(** ** Text *)

(** [str.isspace] of one character, which is also [\s]. *)
Definition is_space (c : Z) : bool :=
  ((9 <=? c) && (c <=? 13)) || ((28 <=? c) && (c <=? 32)) || (c =? 133) || (c =? 160)
  || (c =? 5760) || ((8192 <=? c) && (c <=? 8202)) || (c =? 8232) || (c =? 8233)
  || (c =? 8239) || (c =? 8287) || (c =? 12288).

Fixpoint lstrip (t : text) : text :=
  match t with
  | c :: t' => if is_space c then lstrip t' else t
  | [] => []
  end.

Definition strip (t : text) : text := reverse (lstrip (reverse (lstrip t))).

Definition newline : Z := 10.
Definition hash : Z := 35.

(** [sep.join(parts)] *)
Fixpoint join (sep : text) (parts : list text) : text :=
  match parts with
  | [] => []
  | [p] => p
  | p :: parts => p ++ sep ++ join sep parts
  end.

(** What is left of a text without its white space. *)
Definition ink (t : text) : text := filter (λ c, is_space c = false) t.

(** ** Blocks and sections *)

Inductive block_type : Type := Heading | Paragraph | ListBlock | CodeBlock | TableBlock | Blockquote.

#[export] Instance block_type_eq_dec : EqDecision block_type.
Proof. solve_decision. Defined.

Record block : Type := Block { b_type : block_type; b_text : text; b_depth : nat }.

Record section : Type := Sec {
  s_text : text;
  s_breadcrumb : text;
  s_tokens : nat;
  s_types : list block_type
}.

Definition SECTION_SOFT_TOKENS : nat := 2000.
Definition SECTION_HARD_TOKENS : nat := 3000.
Definition CARRY_TOKEN_HEADROOM : nat := 4.
Definition SEGMENT_WINDOW_CHARS : nat := 2000.

(** ** The libraries *)

(** tiktoken: the tokens of a text spell its UTF-8 encoding, and a run of tokens spells
    the bytes of its tokens. *)
Class Tokenizer : Type := {
  token : Type;
  encode : text → list token;
  decode_bytes : list token → bytes;
  decode_encode t : Forall (λ c, scalar c = true) t → decode_bytes (encode t) = utf8 t;
  decode_bytes_app a b : decode_bytes (a ++ b) = decode_bytes a ++ decode_bytes b
}.

(** pysbd: the ends of the sentences of a text, or an exception. *)
Class Segmenter : Type := segment : text → option (list nat).

Section Chunking.
Context `{Tokenizer} `{Segmenter}.

Definition count_tokens (t : text) : nat := length (encode t).

(** ** Cutting between tokens *)

(** [range(0, len(l), step)] with [l[start:start+step]]: fuel, one slice each. *)
Fixpoint slices {A} (fuel step : nat) (l : list A) : list (list A) :=
  match fuel, l with
  | _, [] | O, _ => []
  | S fuel, _ => take step l :: slices fuel step (drop step l)
  end.

(** The [while chunk] loop: peel bytes off the end until the rest decodes. *)
Fixpoint peel (fuel : nat) (chunk carry : bytes) : text * bytes :=
  match chunk, fuel with
  | [], _ | _, O => ([], carry)
  | _, S fuel =>
      match utf8_decode chunk with
      | Some piece => (piece, carry)
      | None => peel fuel (take (length chunk - 1) chunk) (drop (length chunk - 1) chunk ++ carry)
      end
  end.

Definition keep_stripped (piece : text) : list text :=
  match strip piece with [] => [] | p => [p] end.

(** One slice after another; [replace] is what decoding the left-over bytes with
    replacement characters gives. *)
Fixpoint hard_split_loop (replace : bytes → text) (ids : list (list token)) (carry : bytes) : list text :=
  match ids with
  | [] => match carry with [] => [] | _ => keep_stripped (replace carry) end
  | sl :: ids =>
      let chunk := carry ++ decode_bytes sl in
      let '(piece, carry) := peel (length chunk) chunk [] in
      keep_stripped piece ++ hard_split_loop replace ids carry
  end.

Definition hard_split_on_tokens (replace : bytes → text) (t : text) (hard : nat) : list text :=
  let ids := encode t in
  if (length ids <=? hard)%nat then [t]
  else let step := Nat.max 1 (hard - CARRY_TOKEN_HEADROOM) in
       hard_split_loop replace (slices (length ids) step ids) [].

(** ** Cutting at sentences *)

(** [max(rfind(" "), rfind("\n"), rfind("\t"))]: the last such character. *)
Fixpoint last_blank (t : text) : option nat :=
  match t with
  | [] => None
  | c :: t =>
      match last_blank t with
      | Some i => Some (S i)
      | None => if (c =? 32) || (c =? 10) || (c =? 9) then Some O else None
      end
  end.

(** The slices of [text] that one window's ends give. *)
Fixpoint cut_ends (t : text) (taken : nat) (ends : list nat) : list text * nat :=
  match ends with
  | [] => ([], taken)
  | e :: ends =>
      if (taken <? e)%nat then
        let '(out, taken') := cut_ends t e ends in (take (e - taken) (drop taken t) :: out, taken')
      else cut_ends t taken ends
  end.

Definition window_of (t : text) : bool * text :=
  let stop := Nat.min SEGMENT_WINDOW_CHARS (length t) in
  let final := (stop =? length t)%nat in
  let window := take stop t in
  (final, if final then window
          else match last_blank window with
               | Some cut => if (0 <? cut)%nat then take (S cut) window else window
               | None => window
               end).

Definition window_ends (final : bool) (window : text) (ends : list nat) : list nat :=
  if final then ends ++ [length window]
  else if (1 <? length ends)%nat then take (length ends - 1) ends
  else [length window].

(** [_sentence_slices] on what is left of the text; [None] is pysbd's exception. *)
Fixpoint sentence_slices_fuel (fuel : nat) (t : text) : option (list text) :=
  match t, fuel with
  | [], _ => Some []
  | _, O => None
  | _, S fuel =>
      let '(final, window) := window_of t in
      ends ← segment window;
      let '(out, taken) := cut_ends t 0 (window_ends final window ends) in
      rest ← sentence_slices_fuel fuel (drop taken t);
      Some (out ++ rest)
  end.

Definition sentence_slices (t : text) : option (list text) := sentence_slices_fuel (length t) t.

(** [re.split(r"(?<=\. )", text)]: a cut after every full stop and space. *)
Fixpoint naive_split (t : text) : list text :=
  match t with
  | [] => [[]]
  | c :: t' =>
      match t' with
      | d :: t'' =>
          if (c =? 46) && (d =? 32) then [c; d] :: naive_split t''
          else match naive_split t' with p :: ps => (c :: p) :: ps | [] => [[c]] end
      | [] => [[c]]
      end
  end.

(** The sentences packed under the cap. *)
Fixpoint pack_sentences (hard : nat) (sents : list text) (current : text) (current_tokens : nat)
    : list text :=
  match sents with
  | [] => keep_stripped current
  | sent :: sents =>
      let sent_tokens := count_tokens (strip sent) in
      if (hard <? current_tokens + sent_tokens)%nat && negb (bool_decide (strip current = []))
      then strip current :: pack_sentences hard sents sent sent_tokens
      else pack_sentences hard sents (current ++ sent) (current_tokens + sent_tokens)
  end.

Definition split_oversized_paragraph (replace : bytes → text) (t : text) (hard : nat) : list text :=
  let sents := default (naive_split t) (sentence_slices t) in
  pack_sentences hard sents [] 0 ≫= λ piece,
    if (hard <? count_tokens piece)%nat then hard_split_on_tokens replace piece hard else [piece].

(** ** Packing blocks *)

Record acc : Type := Acc {
  a_sections : list section;
  a_parts : list text;
  a_tokens : nat;
  a_types : list block_type;
  a_stack : list (nat * text)
}.

(** [" > ".join(...)]; the stack is kept with its top first. *)
Definition breadcrumb (stack : list (nat * text)) : text :=
  join [32; 62; 32] (reverse (stack.*2)).

Definition flush (a : acc) : acc :=
  match a_parts a with
  | [] => a
  | _ =>
      let joined := strip (join [newline; newline] (a_parts a)) in
      Acc (a_sections a ++
             match joined with
             | [] => []
             | _ => [Sec joined (breadcrumb (a_stack a)) (a_tokens a) (a_types a)]
             end) [] 0 [] (a_stack a)
  end.

Fixpoint pop_deeper (depth : nat) (stack : list (nat * text)) : list (nat * text) :=
  match stack with
  | (d, t) :: rest => if (depth <=? d)%nat then pop_deeper depth rest else stack
  | [] => []
  end.

Definition heading_line (b : block) : text := replicate (b_depth b) hash ++ 32 :: b_text b.

Definition emit (a : acc) (ss : list section) : acc :=
  Acc (a_sections a ++ ss) (a_parts a) (a_tokens a) (a_types a) (a_stack a).

Definition add_part (part : text) (b : block) (tokens : nat) (a : acc) : acc :=
  Acc (a_sections a) (a_parts a ++ [part]) (a_tokens a + tokens) (a_types a ++ [b_type b]) (a_stack a).

Definition push_heading (b : block) (a : acc) : acc :=
  Acc (a_sections a) (a_parts a) (a_tokens a) (a_types a)
    ((b_depth b, b_text b) :: pop_deeper (b_depth b) (a_stack a)).

Definition non_empty {A} (l : list A) : bool := match l with [] => false | _ => true end.

Definition chunk_block (replace : bytes → text) (soft hard : nat) (a : acc) (b : block) : acc :=
  let tokens := count_tokens (b_text b) in
  match b_type b with
  | Heading =>
      let a := if (b_depth b <=? 2)%nat && non_empty (a_parts a) then flush a else a in
      add_part (heading_line b) b tokens (push_heading b a)
  | ty =>
      if bool_decide (ty ∈ [ListBlock; TableBlock; CodeBlock]) && (hard <? tokens)%nat then
        let a := flush a in emit a [Sec (b_text b) (breadcrumb (a_stack a)) tokens [ty]]
      else if bool_decide (ty = Paragraph) && (hard <? tokens)%nat then
        let a := flush a in
        emit a ((λ sub, Sec sub (breadcrumb (a_stack a)) (count_tokens sub) [Paragraph])
                  <$> split_oversized_paragraph replace (b_text b) hard)
      else
        let a := if (soft <? a_tokens a + tokens)%nat && non_empty (a_parts a) then flush a else a in
        add_part (b_text b) b tokens a
  end.

Definition acc0 : acc := Acc [] [] 0 [] [].

Definition chunk_blocks (replace : bytes → text) (soft hard : nat) (blocks : list block)
    : list section :=
  a_sections (flush (foldl (chunk_block replace soft hard) acc0 blocks)).

End Chunking.

(** ** Pieces of a text

    [covers t ps]: [ps] are slices of [t], in order, and what lies between and around
    them is white space. *)

Definition blank (t : text) : Prop := Forall (λ c, is_space c = true) t.

Inductive covers : text → list text → Prop :=
| covers_nil w : blank w → covers w []
| covers_cons w p rest ps : blank w → covers rest ps → covers (w ++ p ++ rest) (p :: ps).

Lemma covers_blank w t ps : blank w → covers t ps → covers (w ++ t) ps.
Proof.
  intros Hw Hc. inversion Hc; subst; [constructor; by apply Forall_app|].
  rewrite (assoc_L (++)). constructor; [by apply Forall_app|done].
Qed.

Lemma covers_app a b ps qs : covers a ps → covers b qs → covers (a ++ b) (ps ++ qs).
Proof.
  intros Ha Hb. induction Ha as [w Hw|w p rest ps Hw Ha IH]; [by apply covers_blank|].
  rewrite <-!(assoc_L (++)). cbn. by constructor.
Qed.

Lemma covers_one t : covers t [t].
Proof.
  rewrite <-(app_nil_l t) at 1. rewrite <-(app_nil_r t) at 1.
  apply covers_cons; [constructor|]. constructor. constructor.
Qed.

Lemma covers_trans t ps qss : covers t ps → Forall2 covers ps qss → covers t (concat qss).
Proof.
  intros Hc. revert qss. induction Hc as [w Hw|w p rest ps Hw Hc IH]; intros qss HF.
  - inversion HF; subst. by constructor.
  - apply Forall2_cons_inv_l in HF as (qs & qss' & Hp & HF' & ->). cbn. apply covers_blank; [done|].
    apply covers_app; [done|]. by apply IH.
Qed.

Lemma ink_app a b : ink (a ++ b) = ink a ++ ink b.
Proof. apply filter_app. Qed.

Lemma ink_blank w : blank w → ink w = [].
Proof.
  induction 1 as [|c w Hc Hw IH]; [done|]. unfold ink in *. rewrite filter_cons.
  by rewrite decide_False by congruence.
Qed.

Lemma covers_ink t ps : covers t ps → ink t = concat (ink <$> ps).
Proof.
  induction 1 as [w Hw|w p rest ps Hw Hc IH]; [by apply ink_blank|].
  rewrite !ink_app, ink_blank, IH by done. done.
Qed.

Lemma lstrip_spec t : ∃ w, blank w ∧ t = w ++ lstrip t.
Proof.
  induction t as [|c t (w & Hw & E)]; [exists []; split; [constructor|done]|]. cbn.
  destruct (is_space c) eqn:Hc; [|by exists []; split; [constructor|]].
  exists (c :: w). split; [by constructor|]. cbn. by f_equal.
Qed.

Lemma strip_spec t : ∃ w1 w2, blank w1 ∧ blank w2 ∧ t = w1 ++ strip t ++ w2.
Proof.
  destruct (lstrip_spec t) as (w1 & H1 & E1).
  destruct (lstrip_spec (reverse (lstrip t))) as (w2 & H2 & E2).
  exists w1, (reverse w2). split_and!; [done| |].
  - unfold blank. by apply Forall_reverse.
  - rewrite E1 at 1. f_equal. unfold strip. rewrite <-reverse_app, <-E2. by rewrite reverse_involutive.
Qed.

Lemma covers_keep t : covers t (keep_stripped t).
Proof.
  destruct (strip_spec t) as (w1 & w2 & H1 & H2 & E). unfold keep_stripped.
  destruct (strip t) as [|c p]; rewrite E.
  - constructor. cbn. by apply Forall_app.
  - apply covers_cons; [done|by constructor].
Qed.

Lemma strip_ink t : ink (strip t) = ink t.
Proof.
  destruct (strip_spec t) as (w1 & w2 & H1 & H2 & E). rewrite E at 2.
  rewrite !ink_app, !(ink_blank w1), !(ink_blank w2) by done. by rewrite app_nil_r.
Qed.

(** ** Proofs of the splitters *)

Section ChunkingProofs.
Context `{Tokenizer} `{Segmenter}.
Context (replace : bytes → text).

Lemma slices_concat {A} fuel step (l : list A) :
  (0 < step)%nat → (length l ≤ fuel)%nat → concat (slices fuel step l) = l.
Proof.
  intros Hs. revert l. induction fuel as [|fuel IH]; intros [|x l] Hl; cbn [slices concat]; try done.
  { cbn in Hl. lia. }
  rewrite IH; [apply take_drop|]. rewrite length_drop. cbn in *. lia.
Qed.

(** What is peeled off is what did not decode; nothing that decodes is peeled. *)
Lemma peel_spec fuel chunk carry :
  (length chunk ≤ fuel)%nat →
  let '(piece, carry') := peel fuel chunk carry in
  chunk ++ carry = utf8 piece ++ carry' ∧ Forall (λ c, scalar c = true) piece
  ∧ (utf8_decode chunk = Some piece ∧ carry' = carry ∨ utf8_decode chunk = None).
Proof.
  revert chunk carry. induction fuel as [|fuel IH]; intros [|x chunk] carry Hl; cbn [peel].
  1,3: split_and!; [done|constructor|by left].
  { cbn in Hl. lia. }
  destruct (utf8_decode (x :: chunk)) as [p|] eqn:E.
  - apply utf8_decode_inv in E as E'. destruct E' as [-> Hp]. split_and!; [done|done|by left].
  - set (n := (length (x :: chunk) - 1)%nat).
    specialize (IH (take n (x :: chunk)) (drop n (x :: chunk) ++ carry)).
    destruct (peel _ _ _) as [p c]. destruct IH as (E1 & Hp & _).
    { rewrite length_take. cbn in *. lia. }
    split_and!; [|done|by right]. by rewrite <-E1, (assoc_L (++)), take_drop.
Qed.

Lemma hard_split_loop_covers ids carry t :
  Forall (λ c, scalar c = true) t →
  carry ++ concat (decode_bytes <$> ids) = utf8 t →
  (carry = [] ∨ ids ≠ []) →
  covers t (hard_split_loop replace ids carry).
Proof.
  intros Ht. revert carry t Ht. induction ids as [|sl ids IH]; intros carry t Ht E Hc; cbn [hard_split_loop].
  { destruct Hc as [->|]; [|done]. cbn in E. destruct t as [|c t]; [by constructor; constructor|].
    rewrite utf8_cons in E. symmetry in E. apply app_eq_nil in E as [E _]. by apply utf8_bytes_nonnil in E. }
  rewrite fmap_cons in E. cbn [concat] in E.
  set (chunk := carry ++ decode_bytes sl) in *.
  pose proof (peel_spec (length chunk) chunk [] ltac:(done)) as Hp.
  destruct (peel (length chunk) chunk []) as [piece carry']. destruct Hp as (E1 & Hs & Hd).
  rewrite app_nil_r in E1.
  assert (E2 : utf8 piece ++ (carry' ++ concat (decode_bytes <$> ids)) = utf8 t).
  { rewrite <-E. rewrite (assoc_L (++)), <-E1. unfold chunk. by rewrite (assoc_L (++)). }
  destruct (utf8_prefix _ _ _ Hs Ht E2) as (t' & -> & Et').
  apply Forall_app in Ht as [_ Ht'].
  apply covers_app; [apply covers_keep|]. apply IH; [done..|].
  destruct ids as [|sl' ids]; [left|by right].
  destruct Hd as [[_ ->]|Hd]; [done|]. exfalso. cbn in Et'. rewrite app_nil_r in Et'. subst carry'.
  rewrite <-utf8_app in E1. rewrite E1, utf8_decode_ok in Hd; [done|]. by apply Forall_app.
Qed.

Lemma decode_bytes_concat (ls : list (list token)) :
  decode_bytes (concat ls) = concat (decode_bytes <$> ls).
Proof.
  induction ls as [|l ls IH]; cbn [concat]; [|by rewrite decode_bytes_app, IH].
  pose proof (decode_bytes_app [] []) as E. cbn in E. destruct (decode_bytes []) as [|x l]; [done|].
  exfalso. apply (f_equal length) in E. rewrite length_app in E. cbn in E. lia.
Qed.

Lemma hard_split_covers t hard :
  Forall (λ c, scalar c = true) t → covers t (hard_split_on_tokens replace t hard).
Proof.
  intros Ht. unfold hard_split_on_tokens. destruct (Nat.leb_spec (length (encode t)) hard) as [|Hlt];
    [apply covers_one|].
  apply hard_split_loop_covers; [done| |by left]. cbn.
  rewrite <-decode_bytes_concat, slices_concat by lia. by apply decode_encode.
Qed.

Lemma concat_nil_snoc {A} (l : list (list A)) x : concat (l ++ [x]) = concat l ++ x.
Proof. rewrite concat_app. cbn. by rewrite app_nil_r. Qed.

(** The slices of a window are consecutive. *)
Lemma cut_ends_spec (t : text) taken ends :
  let '(out, taken') := cut_ends t taken ends in
  (taken ≤ taken')%nat ∧ drop taken t = concat out ++ drop taken' t
  ∧ (∀ e, e ∈ ends → (e ≤ taken')%nat).
Proof.
  revert taken. induction ends as [|e ends IH]; intros taken; cbn [cut_ends].
  { split_and!; [lia|done|]. by intros e ?%elem_of_nil. }
  destruct (Nat.ltb_spec taken e) as [Hlt|Hge].
  - specialize (IH e). destruct (cut_ends t e ends) as [out taken']. destruct IH as (H1 & H2 & H3).
    split_and!; [lia| |].
    + cbn [concat]. rewrite <-(assoc_L (++)), <-H2.
      rewrite <-(take_drop (e - taken) (drop taken t)) at 1. f_equal. rewrite drop_drop. f_equal. lia.
    + intros e' [->|He]%elem_of_cons; [done|auto].
  - specialize (IH taken). destruct (cut_ends t taken ends) as [out taken']. destruct IH as (H1 & H2 & H3).
    split_and!; [done..|]. intros e' [->|He]%elem_of_cons; [lia|auto].
Qed.

Lemma sentence_slices_concat fuel t out : sentence_slices_fuel fuel t = Some out → concat out = t.
Proof.
  revert t out. induction fuel as [|fuel IH]; intros [|c t] out; cbn [sentence_slices_fuel].
  1,3: by intros [= <-].
  { done. }
  destruct (window_of (c :: t)) as [final window]. intros (ends & Hends & Hs)%bind_Some.
  pose proof (cut_ends_spec (c :: t) 0 (window_ends final window ends)) as Hc.
  destruct (cut_ends (c :: t) 0 (window_ends final window ends)) as [o taken].
  apply bind_Some in Hs as (rest & Hrest & [= <-]). destruct Hc as (_ & Hd & _).
  rewrite concat_app, (IH _ _ Hrest). by rewrite <-Hd.
Qed.

(** A sentence ends after it starts. *)
Definition segmenter_ok : Prop :=
  ∀ w, w ≠ [] → ∃ ends, segment w = Some ends ∧ Forall (λ e, (0 < e)%nat) ends.

Lemma window_nonempty t : t ≠ [] → (window_of t).2 ≠ [].
Proof.
  intros Ht. unfold window_of. cbn [snd].
  assert (take (Nat.min SEGMENT_WINDOW_CHARS (length t)) t ≠ []) as Hw.
  { destruct t; [done|]. unfold SEGMENT_WINDOW_CHARS. cbn [length].
    replace (Nat.min 2000 (S (length t))) with (S (Nat.min 1999 (length t))) by lia. done. }
  revert Hw. generalize (take (Nat.min SEGMENT_WINDOW_CHARS (length t)) t). intros w Hw.
  destruct (Nat.eqb _ _); [done|]. destruct (last_blank w) as [cut|]; [|done].
  destruct (Nat.ltb 0 cut); [|done]. by destruct w.
Qed.

(** The first end of a window's slices is past its start. *)
Lemma window_ends_progress final window ends :
  window ≠ [] → Forall (λ e, (0 < e)%nat) ends →
  ∃ e, e ∈ window_ends final window ends ∧ (0 < e)%nat.
Proof.
  intros Hw He. unfold window_ends. assert (0 < length window)%nat as Hl by (destruct window; cbn; [done|lia]).
  destruct final.
  - exists (length window). split; [apply elem_of_app; right; left|done].
  - destruct (Nat.ltb_spec 1 (length ends)) as [H1|]; [|by exists (length window); split; [left|]].
    destruct ends as [|e ends]; [cbn in H1; lia|]. exists e. apply Forall_cons in He as [He _].
    split; [|done]. destruct ends; [cbn in H1; lia|]. cbn. left.
Qed.

(** Cutting a text at its sentences ends, with no more windows than characters, and
    the slices join back to the text exactly: nothing is dropped and nothing inserted,
    whatever boundaries the segmenter reports. *)
Theorem sentence_slices_exact t :
  segmenter_ok →
  ∃ out, sentence_slices t = Some out ∧ concat out = t
    ∧ ∀ fuel, (length t ≤ fuel)%nat → sentence_slices_fuel fuel t = Some out.
Proof.
  intros Hok.
  assert (∀ fuel t, (length t ≤ fuel)%nat → is_Some (sentence_slices_fuel fuel t)
    ∧ sentence_slices_fuel fuel t = sentence_slices_fuel (length t) t) as Hf.
  { intros fuel. induction fuel as [fuel IH] using lt_wf_ind. intros [|c u] Hl; [by destruct fuel; cbn; eauto|].
    destruct fuel as [|fuel]; [cbn in Hl; lia|]. cbn [sentence_slices_fuel length].
    pose proof (window_nonempty (c :: u)) as Hw. destruct (window_of (c :: u)) as [final window].
    destruct (Hok window) as (ends & -> & He); [by apply Hw|]. cbn.
    destruct (window_ends_progress final window ends) as (e & Hin & Hpos); [by apply Hw|done|].
    pose proof (cut_ends_spec (c :: u) 0 (window_ends final window ends)) as Hc.
    destruct (cut_ends (c :: u) 0 (window_ends final window ends)) as [o taken]. destruct Hc as (_ & _ & Hge).
    specialize (Hge e Hin). assert (length (drop taken (c :: u)) ≤ length u)%nat as Hd
      by (rewrite length_drop; cbn; lia). cbn in Hl.
    destruct (IH fuel ltac:(lia) (drop taken (c :: u)) ltac:(lia)) as [[r Hr] E].
    rewrite Hr in *. cbn. split; [eauto|].
    destruct (IH (length u) ltac:(lia) (drop taken (c :: u)) Hd) as [_ E']. by rewrite E', <-E. }
  destruct (Hf (length t) t (le_n _)) as [[out Ho] _]. exists out. split; [done|].
  split; [by eapply sentence_slices_concat|]. intros fuel Hfl. by rewrite (proj2 (Hf fuel t Hfl)).
Qed.

Lemma naive_split_concat t : concat (naive_split t) = t ∧ naive_split t ≠ [].
Proof.
  induction t as [t IH] using (induction_ltof1 _ length). unfold ltof in IH.
  destruct t as [|c [|d t]]; [done|done|]. cbn [naive_split].
  destruct (_ && _).
  - destruct (IH t) as [E _]; [cbn; lia|]. cbn [concat app]. by rewrite E.
  - destruct (IH (d :: t)) as [E Hn]; [cbn; lia|]. cbn [naive_split] in E, Hn.
    destruct (match t with [] => _ | _ => _ end) as [|p ps]; [done|]. cbn in *. by rewrite E.
Qed.

Lemma pack_covers hard sents current tokens :
  covers (current ++ concat sents) (pack_sentences hard sents current tokens).
Proof.
  revert current tokens. induction sents as [|sent sents IH]; intros current tokens; cbn [pack_sentences concat].
  { rewrite app_nil_r. apply covers_keep. }
  destruct (_ && _) eqn:E.
  - apply andb_true_iff in E as [_ E]. apply negb_true_iff, bool_decide_eq_false in E.
    pose proof (covers_keep current) as Hk. unfold keep_stripped in Hk.
    destruct (strip current) as [|c p]; [done|]. by apply (covers_app _ _ [c :: p]).
  - rewrite (assoc_L (++)). apply IH.
Qed.

Lemma covers_scalar t ps : covers t ps → Forall (λ c, scalar c = true) t →
  Forall (Forall (λ c, scalar c = true)) ps.
Proof.
  induction 1 as [|w p rest ps Hw Hc IH]; intros Ht; [constructor|].
  apply Forall_app in Ht as [_ [Hp Hr]%Forall_app]. constructor; auto.
Qed.

(** A paragraph that is cut up loses nothing: the pieces are slices of it, in order,
    with nothing but white space between and around them: no character is damaged by a
    cut between tokens. *)
Theorem split_paragraph_covers t hard :
  Forall (λ c, scalar c = true) t → covers t (split_oversized_paragraph replace t hard).
Proof.
  intros Ht. unfold split_oversized_paragraph.
  set (sents := default (naive_split t) (sentence_slices t)).
  assert (Hs : concat sents = t).
  { unfold sents. destruct (sentence_slices t) as [out|] eqn:E; cbn;
      [by eapply sentence_slices_concat|apply naive_split_concat]. }
  pose proof (pack_covers hard sents [] 0) as Hp. cbn in Hp. rewrite Hs in Hp.
  pose proof (covers_scalar _ _ Hp Ht) as Hps.
  set (f := λ piece, if (hard <? count_tokens piece)%nat then _ else _).
  assert (E : ∀ ps : list text, ps ≫= f = concat (f <$> ps)).
  { intros ps. induction ps as [|p ps IH]; [done|]. cbn. by rewrite <-IH. }
  rewrite E. eapply covers_trans; [done|]. clear - Hps.
  induction Hps as [|p ps Hp Hps IH]; constructor; [|done].
  unfold f. case_match; [by apply hard_split_covers|apply covers_one].
Qed.

(** ** Proofs of the packer *)

Variables soft hard : nat.

Abbreviation step := (chunk_block replace soft hard).

(** What a block contributes to the text of a section. *)
Definition rendered (b : block) : text :=
  if bool_decide (b_type b = Heading) then heading_line b else b_text b.

Definition ink_of (ss : list section) : text := concat ((λ s, ink (s_text s)) <$> ss).

Definition acc_ink (a : acc) : text := ink_of (a_sections a) ++ ink (join [newline; newline] (a_parts a)).

Lemma ink_of_app a b : ink_of (a ++ b) = ink_of a ++ ink_of b.
Proof. unfold ink_of. by rewrite fmap_app, concat_app. Qed.

Lemma join_snoc_ink parts p :
  ink (join [newline; newline] (parts ++ [p])) = ink (join [newline; newline] parts) ++ ink p.
Proof.
  induction parts as [|q parts IH]; [done|]. destruct parts as [|r parts].
  - cbn [app join]. by rewrite !ink_app.
  - change (join [newline; newline] ((q :: r :: parts) ++ [p]))
      with (q ++ [newline; newline] ++ join [newline; newline] ((r :: parts) ++ [p])).
    change (join [newline; newline] (q :: r :: parts))
      with (q ++ [newline; newline] ++ join [newline; newline] (r :: parts)).
    by rewrite !(ink_app q), !(ink_app [newline; newline]), IH, <-!(assoc_L (++)).
Qed.

Lemma flush_ink a : acc_ink (flush a) = acc_ink a.
Proof.
  unfold flush, acc_ink. destruct (a_parts a) as [|p ps] eqn:E; [by rewrite E|].
  cbn [a_sections a_parts]. rewrite ink_of_app. change (join _ []) with ([] : text). cbn [ink].
  rewrite app_nil_r. f_equal.
  rewrite <-(strip_ink (join _ _)). destruct (strip _) as [|c t]; [done|].
  unfold ink_of. cbn. by rewrite app_nil_r.
Qed.

Lemma flush_parts a : a_parts (flush a) = [].
Proof. unfold flush. by destruct (a_parts a) eqn:E. Qed.

Lemma flush_stack a : a_stack (flush a) = a_stack a.
Proof. unfold flush. by destruct (a_parts a). Qed.

Lemma emit_ink a ss : a_parts a = [] → acc_ink (emit a ss) = acc_ink a ++ ink_of ss.
Proof.
  intros E. unfold acc_ink, emit. cbn [a_sections a_parts]. rewrite E, ink_of_app.
  change (ink (join _ [])) with ([] : text). by rewrite !app_nil_r.
Qed.

Lemma add_part_ink p b n a : acc_ink (add_part p b n a) = acc_ink a ++ ink p.
Proof. unfold acc_ink, add_part. cbn [a_sections a_parts]. by rewrite join_snoc_ink, (assoc_L (++)). Qed.

Lemma flush_if_ink (c : bool) a : acc_ink (if c then flush a else a) = acc_ink a.
Proof. destruct c; [apply flush_ink|done]. Qed.

Lemma push_ink b a : acc_ink (push_heading b a) = acc_ink a.
Proof. done. Qed.

Lemma emit_one_ink a t bc n tys :
  acc_ink (emit (flush a) [Sec t bc n tys]) = acc_ink a ++ ink t.
Proof.
  rewrite emit_ink, flush_ink by apply flush_parts. f_equal.
  change (ink_of [Sec t bc n tys]) with (ink t ++ []). apply app_nil_r.
Qed.

Lemma emit_pieces_ink a t bc :
  Forall (λ c, scalar c = true) t →
  acc_ink (emit (flush a) ((λ sub, Sec sub bc (count_tokens sub) [Paragraph])
                             <$> split_oversized_paragraph replace t hard)) = acc_ink a ++ ink t.
Proof.
  intros Ht. rewrite emit_ink, flush_ink by apply flush_parts. f_equal.
  unfold ink_of. rewrite <-list_fmap_compose. symmetry. by apply covers_ink, split_paragraph_covers.
Qed.

Lemma step_ink a b :
  Forall (λ c, scalar c = true) (b_text b) → acc_ink (step a b) = acc_ink a ++ ink (rendered b).
Proof.
  intros Hb. unfold chunk_block, rendered. destruct (b_type b) eqn:Ht.
  1: by rewrite add_part_ink, push_ink, flush_if_ink.
  all: cbn zeta; destruct (bool_decide (_ ∈ _) && _); [by rewrite emit_one_ink|];
    (destruct (bool_decide (_ = Paragraph) && _); [by rewrite emit_pieces_ink|]); by rewrite add_part_ink, flush_if_ink.
Qed.

(** Packing loses nothing: the sections hold every block (a heading as its line of
    number signs) in the order of the document, up to white space. *)
Theorem chunk_blocks_lose_nothing blocks :
  Forall (λ b, Forall (λ c, scalar c = true) (b_text b)) blocks →
  concat ((λ s, ink (s_text s)) <$> chunk_blocks replace soft hard blocks)
  = concat ((λ b, ink (rendered b)) <$> blocks).
Proof.
  intros Hb. unfold chunk_blocks.
  assert (Hf : ∀ bs a, Forall (λ b, Forall (λ c, scalar c = true) (b_text b)) bs →
    acc_ink (foldl step a bs) = acc_ink a ++ concat ((λ b, ink (rendered b)) <$> bs)).
  { clear. induction bs as [|b bs IH]; intros a Hbs; cbn; [by rewrite app_nil_r|].
    apply Forall_cons in Hbs as [Hb Hbs]. by rewrite IH, step_ink, (assoc_L (++)). }
  specialize (Hf blocks acc0 Hb). rewrite <-(flush_ink (foldl _ _ _)) in Hf.
  unfold acc_ink at 1 in Hf. rewrite flush_parts in Hf. cbn in Hf. by rewrite app_nil_r in Hf.
Qed.

(** *** The budget *)

Definition within_budget (types : list block_type) (tokens : nat) : Prop :=
  (1 < length types)%nat → last types ≠ Some Heading → (tokens ≤ soft)%nat.

Definition budget_ok (a : acc) : Prop :=
  Forall (λ s, within_budget (s_types s) (s_tokens s)) (a_sections a)
  ∧ (a_parts a = [] → a_types a = []) ∧ within_budget (a_types a) (a_tokens a).

Lemma flush_budget a : budget_ok a → budget_ok (flush a).
Proof.
  intros (H1 & H2 & H3). unfold flush. destruct (a_parts a) eqn:E; [split_and!; rewrite ?E; auto|].
  split_and!; cbn [a_sections a_parts a_types a_tokens]; [|done|by intros ?; cbn in *; lia]. apply Forall_app. split; [done|].
  destruct (strip _); [constructor|]. by repeat constructor.
Qed.

Lemma flush_if_budget (c : bool) a : budget_ok a → budget_ok (if c then flush a else a).
Proof. destruct c; [apply flush_budget|done]. Qed.

Lemma emit_budget a ss :
  Forall (λ s, (length (s_types s) ≤ 1)%nat) ss → budget_ok a → budget_ok (emit a ss).
Proof.
  intros Hs (H1 & H2 & H3). split_and!; [|done..]. cbn. apply Forall_app. split; [done|].
  eapply Forall_impl; [exact Hs|]. cbn. intros s Hl Hl'. lia.
Qed.

Lemma add_part_budget p b n a :
  budget_ok a →
  (b_type b ≠ Heading → a_types a ≠ [] → (a_tokens a + n ≤ soft)%nat) →
  budget_ok (add_part p b n a).
Proof.
  intros (H1 & H2 & H3) Hn. split_and!; cbn [a_sections a_parts a_types a_tokens add_part];
    [done|by intros [_ ?]%app_eq_nil|].
  intros Hl Hh. rewrite last_snoc in Hh. apply Hn; [congruence|]. intros E. rewrite E in Hl. cbn in Hl. lia.
Qed.

Lemma push_budget b a : budget_ok a → budget_ok (push_heading b a).
Proof. done. Qed.

Lemma step_budget a b : budget_ok a → budget_ok (step a b).
Proof.
  intros Ha. unfold chunk_block. destruct (b_type b) eqn:Ht.
  1: { apply add_part_budget; [by apply push_budget, flush_if_budget|congruence]. }
  all: cbn zeta; destruct (bool_decide (_ ∈ _) && _);
    [apply emit_budget; [by repeat constructor|by apply flush_budget]|].
  all: destruct (bool_decide (_ = Paragraph) && _);
    [apply emit_budget; [apply Forall_fmap, Forall_true; intros; cbn; lia|by apply flush_budget]|].
  all: apply add_part_budget; [by apply flush_if_budget|]; intros _ Hne.
  all: destruct (Nat.ltb_spec soft (a_tokens a + count_tokens (b_text b))) as [Hlt|]; [|cbn; lia].
  all: cbn [andb] in *; destruct (non_empty (a_parts a)) eqn:Hp; cbn in *;
    [destruct Hne; unfold flush; by destruct (a_parts a)|].
  all: destruct Hne; apply Ha; by destruct (a_parts a).
Qed.

(** A section that holds more than one block stays within the soft budget, unless
    it ends in a heading: the budget is only checked before a block that is not a
    heading is added. Blocks over the budget stand alone. *)
Theorem sections_within_budget blocks s :
  s ∈ chunk_blocks replace soft hard blocks →
  (1 < length (s_types s))%nat → last (s_types s) ≠ Some Heading → (s_tokens s ≤ soft)%nat.
Proof.
  intros Hs. assert (budget_ok (flush (foldl step acc0 blocks))) as (Hb & _ & _).
  { apply flush_budget. assert (budget_ok acc0) as Hi.
    { split_and!; [constructor|done|]. intros Hl. cbn in Hl. lia. }
    revert Hi. generalize acc0. clear Hs. induction blocks as [|b bs IH]; intros a Ha; [done|].
    apply IH, step_budget, Ha. }
  rewrite Forall_forall in Hb. by apply Hb.
Qed.

(** *** The breadcrumb *)

(** The headings still open at the end of [bs]: those that no later heading of their
    depth or less has closed, outermost first. *)
Fixpoint open_headings (bs : list block) : list (nat * text) :=
  match bs with
  | [] => []
  | b :: bs =>
      if bool_decide (b_type b = Heading)
         && forallb (λ c, negb (bool_decide (b_type c = Heading)) || (b_depth b <? b_depth c)%nat) bs
      then (b_depth b, b_text b) :: open_headings bs
      else open_headings bs
  end.

Definition trail (bs : list block) : text := join [32; 62; 32] (open_headings bs).*2.

Lemma open_headings_snoc bs b :
  open_headings (bs ++ [b])
  = if bool_decide (b_type b = Heading)
    then filter (λ p, (p.1 < b_depth b)%nat) (open_headings bs) ++ [(b_depth b, b_text b)]
    else open_headings bs.
Proof.
  induction bs as [|c bs IH]; cbn [app open_headings]; [by destruct (bool_decide _)|].
  rewrite IH, forallb_app. cbn [forallb]. rewrite andb_true_r.
  destruct (bool_decide (b_type b = Heading)); cbn [negb orb].
  - destruct (bool_decide (b_type c = Heading)); cbn [andb]; [|done].
    destruct (forallb _ bs); cbn [andb]; [|done]. rewrite filter_cons. cbn [fst].
    destruct (Nat.ltb_spec (b_depth c) (b_depth b)) as [Hl|Hl].
    + by rewrite decide_True.
    + by rewrite decide_False by lia.
  - rewrite andb_true_r. done.
Qed.

(** The stack, top first, holds strictly deeper headings on top. *)
Definition stack_sorted (st : list (nat * text)) : Prop := StronglySorted (λ p q, (q.1 < p.1)%nat) st.

Lemma pop_deeper_filter d st :
  stack_sorted st → pop_deeper d st = filter (λ p, (p.1 < d)%nat) st.
Proof.
  induction 1 as [|[d' t] st Hs IH Hp]; [done|]. cbn [pop_deeper]. rewrite filter_cons. cbn [fst].
  destruct (Nat.leb_spec d d') as [Hd|Hd].
  - by rewrite decide_False by lia.
  - rewrite decide_True by done. f_equal. clear - Hp Hd.
    induction Hp as [|p st Hpd Hp IH]; [done|]. cbn in Hpd. rewrite filter_cons, decide_True by lia.
    by f_equal.
Qed.

Definition trail_ok (bs : list block) (a : acc) : Prop :=
  stack_sorted (a_stack a) ∧ a_stack a = reverse (open_headings bs)
  ∧ Forall (λ s, ∃ done_ rest, bs = done_ ++ rest ∧ s_breadcrumb s = trail done_) (a_sections a).

Lemma trail_weaken bs b ss :
  Forall (λ s, ∃ done_ rest, bs = done_ ++ rest ∧ s_breadcrumb s = trail done_) ss →
  Forall (λ s, ∃ done_ rest, bs ++ [b] = done_ ++ rest ∧ s_breadcrumb s = trail done_) ss.
Proof.
  intros Hs. eapply Forall_impl; [exact Hs|]. cbn. intros s (d & r & -> & E). exists d, (r ++ [b]).
  by rewrite (assoc_L (++)).
Qed.

Lemma breadcrumb_trail bs a : a_stack a = reverse (open_headings bs) → breadcrumb (a_stack a) = trail bs.
Proof. intros ->. unfold breadcrumb, trail. by rewrite fmap_reverse, reverse_involutive. Qed.

Lemma emit_trail bs a ss :
  trail_ok bs a → Forall (λ s, s_breadcrumb s = breadcrumb (a_stack a)) ss → trail_ok bs (emit a ss).
Proof.
  intros (H1 & H2 & H3) Hs. split_and!; [done..|]. cbn. apply Forall_app. split; [done|].
  eapply Forall_impl; [exact Hs|]. cbn. intros s ->. exists bs, []. rewrite app_nil_r.
  split; [done|]. by apply breadcrumb_trail.
Qed.

Lemma flush_trail bs a : trail_ok bs a → trail_ok bs (flush a).
Proof.
  intros Ha. unfold flush. destruct (a_parts a); [done|].
  apply (emit_trail bs (Acc (a_sections a) [] 0 [] (a_stack a))); [done|].
  case_match; by repeat constructor.
Qed.

Lemma flush_if_trail bs (c : bool) a : trail_ok bs a → trail_ok bs (if c then flush a else a).
Proof. destruct c; [apply flush_trail|done]. Qed.

Lemma step_trail bs a b : trail_ok bs a → trail_ok (bs ++ [b]) (step a b).
Proof.
  intros Ha.
  assert (Hother : ∀ a, trail_ok bs a → b_type b ≠ Heading → trail_ok (bs ++ [b]) a).
  { clear. intros a (H1 & H2 & H3) Hb. split_and!; [done| |by apply trail_weaken].
    by rewrite open_headings_snoc, bool_decide_eq_false_2. }
  assert (Hhead : ∀ a, trail_ok bs a → b_type b = Heading → trail_ok (bs ++ [b]) (push_heading b a)).
  { clear. intros a (H1 & H2 & H3) Hb. unfold push_heading. split_and!; cbn; [| |by apply trail_weaken].
    - rewrite pop_deeper_filter by done. constructor; [by apply StronglySorted_filter|].
      apply Forall_forall. intros p [Hp _]%list_elem_of_filter. done.
    - rewrite open_headings_snoc, bool_decide_eq_true_2, pop_deeper_filter, H2 by done.
      by rewrite reverse_snoc, filter_reverse. }
  unfold chunk_block. destruct (b_type b) eqn:Ht.
  1: { apply (Hhead _ (flush_if_trail _ _ _ Ha) eq_refl). }
  all: apply Hother; [|done]; cbn zeta; destruct (bool_decide (_ ∈ _) && _);
    [apply emit_trail; [by apply flush_trail|by repeat constructor]|].
  all: destruct (bool_decide (_ = Paragraph) && _);
    [apply emit_trail; [by apply flush_trail|by apply Forall_fmap, Forall_true]|].
  all: exact (flush_if_trail _ _ _ Ha).
Qed.

(** The breadcrumb of a section is the trail of the headings open where the section
    ends: of all the headings up to some point of the document, those no later heading
    of their depth or less has closed. *)
Theorem breadcrumb_is_heading_trail blocks s :
  s ∈ chunk_blocks replace soft hard blocks →
  ∃ before after, blocks = before ++ after ∧ s_breadcrumb s = trail before.
Proof.
  intros Hs. assert (trail_ok blocks (flush (foldl step acc0 blocks))) as (_ & _ & Hb).
  { apply flush_trail. clear Hs. induction blocks as [|b bs IH] using rev_ind.
    - split_and!; [constructor|done|constructor].
    - rewrite foldl_app. cbn. by apply step_trail. }
  rewrite Forall_forall in Hb. by apply Hb.
Qed.

End ChunkingProofs.

(** ** Parsing *)

(** [re.split(r"\n{2,}", text)]: [cur] is the piece so far, followed by [nl] newlines. *)
Fixpoint para_split (cur : text) (nl : nat) (t : text) : list text :=
  match t with
  | [] => if (nl <? 2)%nat then [cur ++ replicate nl newline] else [cur; []]
  | c :: t =>
      if c =? newline then para_split cur (S nl) t
      else if (nl <? 2)%nat then para_split (cur ++ replicate nl newline ++ [c]) 0 t
      else cur :: para_split [c] 0 t
  end.

Definition parse_plaintext (t : text) : list block :=
  (λ p, Block Paragraph p 0) <$> (para_split [] 0 t ≫= keep_stripped).

Inductive doc_format : Type := MarkdownDoc | PlaintextDoc.

(** The rest of the text after each line start. *)
Fixpoint line_starts (t : text) : list text :=
  match t with
  | [] => []
  | c :: t => if c =? newline then t :: line_starts t else line_starts t
  end.

Fixpoint span (f : Z → bool) (t : text) : nat * text :=
  match t with
  | c :: t' => if f c then let '(n, r) := span f t' in (S n, r) else (0%nat, t)
  | [] => (0%nat, [])
  end.

(** [^#{1,6}\s+\S] *)
Definition atx_heading (t : text) : bool :=
  let '(n, r) := span (λ c, c =? hash) t in
  (1 <=? n)%nat && (n <=? 6)%nat
  && match r with c :: r => is_space c && existsb (λ c, negb (is_space c)) r | [] => false end.

Definition name_char (c : Z) : bool :=
  ((97 <=? c) && (c <=? 122)) || ((65 <=? c) && (c <=? 90)) || ((48 <=? c) && (c <=? 57))
  || (c =? 95) || (c =? 45).

(** [^```[a-zA-Z0-9_-]*\s*$]: the white space may hold the newline that [$] needs. *)
Definition fence_line (t : text) : bool :=
  match t with
  | 96 :: 96 :: 96 :: t =>
      let r := (span name_char t).2 in
      match (span (λ c, is_space c && negb (c =? newline)) r).2 with
      | [] => true
      | c :: _ => c =? newline
      end
  | _ => false
  end.

Definition detect_format (t : text) : doc_format :=
  let starts := t :: line_starts t in
  if existsb atx_heading starts || existsb fence_line starts then MarkdownDoc else PlaintextDoc.

(** [parse], with markdown-it's reading of a text as an argument. *)
Definition parse (parse_markdown : text → list block) (t : text) : list block :=
  match detect_format t with MarkdownDoc => parse_markdown t | PlaintextDoc => parse_plaintext t end.

Lemma blank_newlines n : blank (replicate n newline).
Proof. apply Forall_replicate. done. Qed.

Lemma para_split_covers cur nl t :
  covers (cur ++ replicate nl newline ++ t) (para_split cur nl t ≫= keep_stripped).
Proof.
  revert cur nl. induction t as [|c t IH]; intros cur nl; cbn [para_split].
  - rewrite app_nil_r. destruct (nl <? 2)%nat; cbn [mbind list_bind].
    + rewrite app_nil_r. apply covers_keep.
    + apply covers_app; [apply covers_keep|constructor; apply blank_newlines].
  - destruct (Z.eqb_spec c newline) as [->|Hc].
    + replace (replicate nl newline ++ newline :: t) with (replicate (S nl) newline ++ t); [apply IH|].
      rewrite replicate_S_end, <-(assoc_L (++)). done.
    + destruct (nl <? 2)%nat.
      * replace (cur ++ replicate nl newline ++ c :: t)
          with ((cur ++ replicate nl newline ++ [c]) ++ replicate 0 newline ++ t); [apply IH|].
        cbn. by rewrite <-!(assoc_L (++)).
      * cbn [mbind list_bind]. apply covers_app; [apply covers_keep|].
        apply covers_blank; [apply blank_newlines|]. apply (IH [c] 0%nat).
Qed.

(** Reading plain text keeps all of it: the paragraphs are slices of the text, in
    order, with only white space left out, and none is empty. *)
Theorem parse_plaintext_covers t :
  covers t (b_text <$> parse_plaintext t)
  ∧ Forall (λ b, b_type b = Paragraph ∧ b_text b ≠ []) (parse_plaintext t).
Proof.
  unfold parse_plaintext. split.
  - rewrite <-list_fmap_compose, list_fmap_id. apply (para_split_covers [] 0 t).
  - apply Forall_fmap, Forall_forall. intros p (q & Hp & _)%list_elem_of_bind. cbn. split; [done|].
    unfold keep_stripped in Hp. destruct (strip q) as [|c s]; [by apply elem_of_nil in Hp|].
    by apply list_elem_of_singleton in Hp as ->.
Qed.

(** ** A tokenizer of bytes *)

Module ByteTokens.

#[export] Instance byte_tokenizer : Tokenizer :=
  {| token := Z; encode := utf8; decode_bytes := λ l, l;
     decode_encode := λ _ _, eq_refl; decode_bytes_app := λ _ _, eq_refl |}.

(** Sentences that end after a full stop. *)
Fixpoint stops (n : nat) (t : text) : list nat :=
  match t with [] => [] | c :: t => if c =? 46 then S n :: stops (S n) t else stops (S n) t end.

#[export] Instance stop_segmenter : Segmenter := λ t, Some (stops 0 t).

Lemma stops_pos n t : Forall (λ e, (0 < e)%nat) (stops n t).
Proof.
  revert n. induction t as [|c t IH]; intros n; cbn [stops]; [constructor|].
  case_match; [constructor; [lia|]|]; apply IH.
Qed.

Definition letters (n : nat) : text := replicate n 233.

Definition example_doc : list block :=
  [Block Heading [65] 2; Block Paragraph (letters 4) 0; Block Heading [66] 3;
   Block Paragraph (letters 40) 0; Block ListBlock (letters 3) 0].

End ByteTokens.

Section ChunkingWitnesses.
Import ByteTokens.

Definition drop_bytes : bytes → text := λ _, [].

Lemma sentence_slices_exact_witness :
  sentence_slices [65; 46; 32; 66; 46] = Some [[65; 46]; [32; 66; 46]]
  ∧ ∃ out, sentence_slices [65; 46; 32; 66; 46] = Some out ∧ concat out = [65; 46; 32; 66; 46]
    ∧ ∀ fuel, (5 ≤ fuel)%nat → sentence_slices_fuel fuel [65; 46; 32; 66; 46] = Some out.
Proof.
  split; [reflexivity|]. refine (sentence_slices_exact [65; 46; 32; 66; 46] _).
  intros w _. eexists. split; [reflexivity|apply stops_pos].
Defined.

Lemma split_paragraph_covers_witness :
  split_oversized_paragraph drop_bytes (letters 10) 11 = [letters 3; letters 4; letters 3]
  ∧ covers (letters 10) (split_oversized_paragraph drop_bytes (letters 10) 11).
Proof.
  split; [reflexivity|]. refine (split_paragraph_covers drop_bytes (letters 10) 11 _).
  by repeat constructor.
Defined.

Lemma chunk_blocks_lose_nothing_witness :
  length (chunk_blocks drop_bytes 12 20 example_doc) = 7%nat
  ∧ concat ((λ s, ink (s_text s)) <$> chunk_blocks drop_bytes 12 20 example_doc)
    = concat ((λ b, ink (rendered b)) <$> example_doc).
Proof.
  split; [reflexivity|]. refine (chunk_blocks_lose_nothing drop_bytes 12 20 example_doc _).
  by repeat constructor.
Defined.

Lemma sections_within_budget_witness :
  let s := Sec [35; 35; 32; 65; 10; 10; 233; 233; 233; 233] [65] 9 [Heading; Paragraph] in
  s ∈ chunk_blocks drop_bytes 12 20 (take 2 example_doc) ∧ (s_tokens s ≤ 12)%nat.
Proof.
  intros s. assert (s ∈ chunk_blocks drop_bytes 12 20 (take 2 example_doc)) as Hs by (vm_compute; left).
  split; [exact Hs|]. refine (sections_within_budget drop_bytes 12 20 _ s Hs _ _); [cbn; lia|done].
Defined.

(** A heading of depth three or more does not start a section but does replace the
    trail: the section that holds the text before it is filed under it. *)
Lemma breadcrumb_is_heading_trail_witness :
  let s := Sec [35; 35; 32; 65; 10; 10; 233; 233; 233; 233; 10; 10; 35; 35; 35; 32; 66] [65; 32; 62; 32; 66]
             10 [Heading; Paragraph; Heading] in
  s ∈ chunk_blocks drop_bytes 12 20 (take 3 example_doc)
  ∧ ∃ before after, take 3 example_doc = before ++ after ∧ s_breadcrumb s = trail before.
Proof.
  intros s. assert (s ∈ chunk_blocks drop_bytes 12 20 (take 3 example_doc)) as Hs by (vm_compute; left).
  split; [exact Hs|]. exact (breadcrumb_is_heading_trail drop_bytes 12 20 _ s Hs).
Defined.
End ChunkingWitnesses.
