(* ===== verification/SkillPromote.v ===== *)
(** * Promoting skill candidates

    [evaluate_auto_gates] of [services/skill_lifecycle.py] and the promoter tick of
    [services/skill_promoter.py], with the storage calls it makes: the candidate query
    ([document_query]), the conditional status flip ([document_update_status]) and the
    table of rejected fingerprints ([services/forge/poison.py]).

    Reasons of a failed gate are short names for which check failed. The scanner is the
    class [Sentinel] of [SkillWrite]; [datetime.fromisoformat] (with a naive time read as
    UTC, in microseconds) is the class [FromIso]. *)

From S2P Require Import PyStr PyVal SkillWrite.

#[local] Open Scope Z_scope.

Definition us_per_day : Z := 86400 * 1000000.

Class FromIso := fromisoformat : string → option Z.

(** ** The six gates *)

Record gate_outcome := Gate { g_name : string; g_passed : bool; g_reason : string }.

Record gate_result := GateResult { gr_promote : bool; gr_gates : list gate_outcome }.

Definition fail_reasons (r : gate_result) : list string :=
  (λ g, g_name g +:+ ": " +:+ g_reason g) <$> filter (λ g, g_passed g = false) (gr_gates r).

(** [isinstance(v, int)]: a bool is an int. *)
Definition as_int (v : pyval) : option Z :=
  match v with PInt z => Some z | PBool b => Some (if b then 1 else 0) | _ => None end.

Definition at_least_gate (name : string) (v : pyval) (least : Z) : gate_outcome :=
  match as_int v with
  | None => Gate name false "missing"
  | Some n => if n <? least then Gate name false "too few" else Gate name true ""
  end.

Record gate_settings := GateSettings {
  min_cluster_size : Z; min_distinct_agents : Z; freshness_window_days : Z
}.

Definition default_gate_settings : gate_settings := GateSettings 3 3 14.

Section Gates.
Context `{FromIso}.

(** [window_end_raw.replace("Z", "+00:00")] *)
Fixpoint utc_suffix (s : string) : string :=
  match s with
  | EmptyString => ""
  | String "Z" s => "+00:00" +:+ utc_suffix s
  | String c s => String c (utc_suffix s)
  end.

Definition freshness_gate (window_end : pyval) (now window_days : Z) : gate_outcome :=
  match as_str window_end ≫= λ s, fromisoformat (utc_suffix s) with
  | None => Gate "freshness" false "missing/unparseable origin.window_end"
  | Some e => if window_days * us_per_day <? now - e then Gate "freshness" false "too old"
              else Gate "freshness" true ""
  end.

(** A checker that raised answers [Err]. *)
Definition poison_checker := string → option string → string → result exn bool.
Definition live_fetcher := string → string → string → result exn (option pydict).

Definition poison_gate (checker : option poison_checker) (tenant : string) (fleet : option string)
    (fingerprint : pyval) : gate_outcome :=
  match fingerprint with
  | PStr (String _ _ as fp) =>
      match checker with
      | None => Gate "poison" false "no poison_checker available"
      | Some f =>
          match f tenant fleet fp with
          | Err _ => Gate "poison" false "poison_checker raised"
          | Ok true => Gate "poison" false "poisoned"
          | Ok false => Gate "poison" true ""
          end
      end
  | _ => Gate "poison" false "missing fingerprint"
  end.

Definition scan_gate (state : pyval) : gate_outcome :=
  if bool_decide (state = PStr "clean") then Gate "scan" true "" else Gate "scan" false "not clean".

Definition hash_gate (fetch : option live_fetcher) (tenant : string) (doc : pydict) : gate_outcome :=
  if negb (bool_decide (default (PStr "create") (dict_get "kind" doc) = PStr "update"))
  then Gate "hash_binding" true "n/a (kind=create)"
  else
    let target_hash := match get "target" doc with PDict t => get "target_content_hash" t | _ => PNone end in
    match target_hash, get "slug" doc with
    | PStr h, PStr slug =>
        match fetch with
        | None => Gate "hash_binding" false "no live_data_fetcher available"
        | Some f =>
            match f tenant "skills" slug with
            | Err _ => Gate "hash_binding" false "live_data_fetcher raised"
            | Ok live =>
                if bool_decide (default PNone (live ≫= dict_get "content_hash") = PStr h)
                then Gate "hash_binding" true ""
                else Gate "hash_binding" false "hash mismatch"
            end
        end
    | _, _ => Gate "hash_binding" false "kind=update missing target.target_content_hash or slug"
    end.

(** [evaluate_auto_gates]. An [origin] or [scan] that is neither a dict nor empty has no
    [get]: the function raises. *)
Definition evaluate_auto_gates (st : gate_settings) (checker : option poison_checker)
    (fetch : option live_fetcher) (tenant : string) (fleet : option string) (now : Z) (doc : pydict)
    : result exn gate_result :=
  origin ← or_empty (get "origin" doc);
  scan ← or_empty (get "scan" doc);
  let gates :=
    [at_least_gate "volume" (get "cluster_size" origin) (min_cluster_size st);
     at_least_gate "diversity" (get "distinct_agents" origin) (min_distinct_agents st);
     freshness_gate (get "window_end" origin) now (freshness_window_days st);
     poison_gate checker tenant fleet (get "cluster_fingerprint" doc);
     scan_gate (get "state" scan);
     hash_gate fetch tenant doc] in
  Ok (GateResult (forallb g_passed gates) gates).

(** The facts that allow a promotion, said of the document and of what the checkers
    answer. *)
Record promotable (st : gate_settings) (checker : option poison_checker) (fetch : option live_fetcher)
    (tenant : string) (fleet : option string) (now : Z) (doc : pydict) : Prop := Promotable {
  p_origin : ∃ origin, get "origin" doc = PDict origin
    ∧ (∃ n, as_int (get "cluster_size" origin) = Some n ∧ min_cluster_size st ≤ n)
    ∧ (∃ n, as_int (get "distinct_agents" origin) = Some n ∧ min_distinct_agents st ≤ n)
    ∧ ∃ s e, get "window_end" origin = PStr s ∧ fromisoformat (utc_suffix s) = Some e
             ∧ now - e ≤ freshness_window_days st * us_per_day;
  p_poison : ∃ f fp, checker = Some f ∧ get "cluster_fingerprint" doc = PStr fp ∧ fp ≠ ""
    ∧ f tenant fleet fp = Ok false;
  p_scan : ∃ scan, get "scan" doc = PDict scan ∧ get "state" scan = PStr "clean";
  p_binding : default (PStr "create") (dict_get "kind" doc) = PStr "update" →
    ∃ f target h slug live, fetch = Some f ∧ get "target" doc = PDict target
      ∧ get "target_content_hash" target = PStr h ∧ get "slug" doc = PStr slug
      ∧ f tenant "skills" slug = Ok (Some live) ∧ get "content_hash" live = PStr h
}.

Lemma get_nil k : get k [] = PNone.
Proof. done. Qed.

Lemma or_empty_inv v d : or_empty v = Ok d → v = PDict d ∨ d = [].
Proof.
  unfold or_empty. destruct (truthy v) eqn:E; cbn; [|intros [= <-]; by right].
  destruct v; try done. intros [= <-]. by left.
Qed.

Lemma at_least_passed name v n :
  g_passed (at_least_gate name v n) = true ↔ ∃ z, as_int v = Some z ∧ n ≤ z.
Proof.
  unfold at_least_gate. destruct (as_int v) as [z|]; [|split; [done|by intros (? & ? & _)]].
  destruct (Z.ltb_spec z n); cbn; split; [done|intros (? & [= <-] & ?); lia|eauto|done].
Qed.

Lemma freshness_passed w now days :
  g_passed (freshness_gate w now days) = true ↔
  ∃ s e, w = PStr s ∧ fromisoformat (utc_suffix s) = Some e ∧ now - e ≤ days * us_per_day.
Proof.
  unfold freshness_gate. destruct w; cbn; try (split; [done|by intros (? & ? & ? & _)]).
  destruct (fromisoformat (utc_suffix s)) as [e|] eqn:E; cbn;
    [|split; [done|intros (? & ? & [= <-] & ? & _); congruence]].
  destruct (Z.ltb_spec (days * us_per_day) (now - e)); cbn; split; try done.
  - intros (? & ? & [= <-] & ? & ?). simplify_eq. lia.
  - eauto 10.
Qed.

Lemma poison_passed checker tenant fleet v :
  g_passed (poison_gate checker tenant fleet v) = true ↔
  ∃ f fp, checker = Some f ∧ v = PStr fp ∧ fp ≠ "" ∧ f tenant fleet fp = Ok false.
Proof.
  unfold poison_gate. split.
  - destruct v as [| | | |[|c s]| |]; try done. destruct checker as [f|]; [|done].
    destruct (f tenant fleet (String c s)) as [[]|] eqn:E; try done. intros _. eauto 10.
  - intros (f & fp & -> & -> & Hne & E). destruct fp; [done|]. by rewrite E.
Qed.

Lemma hash_passed fetch tenant doc :
  g_passed (hash_gate fetch tenant doc) = true ↔
  (default (PStr "create") (dict_get "kind" doc) = PStr "update" →
   ∃ f target h slug live, fetch = Some f ∧ get "target" doc = PDict target
     ∧ get "target_content_hash" target = PStr h ∧ get "slug" doc = PStr slug
     ∧ f tenant "skills" slug = Ok (Some live) ∧ get "content_hash" live = PStr h).
Proof.
  unfold hash_gate. case_bool_decide as Hk; cbn [negb]; [|by split].
  split.
  - intros Hg _. destruct (get "target" doc) as [| | | | | |t]; try done.
    destruct (get "target_content_hash" t) as [| | | |h| |] eqn:Hh; try done.
    destruct (get "slug" doc) as [| | | |slug| |]; try done.
    destruct fetch as [f|]; [|done]. destruct (f tenant "skills" slug) as [[live|]|] eqn:E; try done.
    cbn in Hg. case_bool_decide as He; [|done]. exists f, t, h, slug, live. split_and!; done.
  - intros Hp. destruct (Hp Hk) as (f & t & h & slug & live & -> & -> & -> & -> & -> & Hl).
    cbn. by rewrite bool_decide_eq_true_2.
Qed.

(** A candidate is promoted exactly when every fact the gates are about holds of it:
    a cluster large, diverse and recent enough, a fingerprint that is checked and not
    rejected, a clean scan and, for an update, a target hash that is the live skill's.
    Whatever is missing, ill-typed or unanswerable holds it back. *)
Theorem promotion_needs_every_gate st checker fetch tenant fleet now doc :
  (∃ r, evaluate_auto_gates st checker fetch tenant fleet now doc = Ok r ∧ gr_promote r = true)
  ↔ promotable st checker fetch tenant fleet now doc.
Proof.
  unfold evaluate_auto_gates. split.
  - intros (r & E & Hp). destruct (or_empty (get "origin" doc)) as [origin|] eqn:Ho; [|done].
    destruct (or_empty (get "scan" doc)) as [scan|] eqn:Hs; [|done]. cbn in E. injection E as <-.
    cbn [gr_promote forallb] in Hp. bool_to_prop.
    repeat match goal with H : g_passed (at_least_gate _ _ _) = true |- _ => apply at_least_passed in H end.
    match goal with H : g_passed (freshness_gate _ _ _) = true |- _ => apply freshness_passed in H as Hf end.
    match goal with H : g_passed (poison_gate _ _ _ _) = true |- _ => apply poison_passed in H as Hpo end.
    match goal with H : g_passed (hash_gate _ _ _) = true |- _ => pose proof (proj1 (hash_passed _ _ _) H) as Hh end.
    split; [|done| |done].
    + apply or_empty_inv in Ho as [Ho| ->]; [|by destruct Hf as (? & ? & ? & _)].
      exists origin. split; [done|]. eauto.
    + apply or_empty_inv in Hs as [Hs| ->]; [|done]. exists scan. split; [done|].
      match goal with H : g_passed (scan_gate _) = true |- _ => revert H end.
      unfold scan_gate. by case_bool_decide.
  - intros [(origin & Ho & Hv & Hd & Hf) Hpo (scan & Hs & Hc) Hh].
    assert (or_empty (get "origin" doc) = Ok origin) as ->.
    { rewrite Ho. destruct origin; [|done]. by destruct Hf as (? & ? & ? & _). }
    assert (or_empty (get "scan" doc) = Ok scan) as -> by (rewrite Hs; by destruct scan).
    eexists. split; [reflexivity|]. cbn [gr_promote forallb].
    rewrite !(proj2 (at_least_passed _ _ _)) by done.
    rewrite (proj2 (freshness_passed _ _ _)), (proj2 (poison_passed _ _ _ _)), (proj2 (hash_passed _ _ _))
      by done. unfold scan_gate. rewrite Hc. done.
Qed.
End Gates.

(** ** Rejected fingerprints *)

Record poison_row := PoisonRow {
  po_tenant : string; po_fleet : option string; po_fingerprint : string;
  po_rejected_at : Z; po_cooloff_days : Z
}.

(** [write_rejected_fingerprint] *)
Definition write_rejected_fingerprint (tenant : string) (fleet : option string) (fp : string)
    (cooloff_days now : Z) (rows : list poison_row) : result exn (list poison_row) :=
  if bool_decide (fp = "") then Err (PyError "ValueError" "cluster_fingerprint must be non-empty")
  else if cooloff_days <? 1 then Err (PyError "ValueError" "cooloff_days must be >= 1")
  else Ok (PoisonRow tenant fleet fp now cooloff_days :: rows).

(** [forge_is_fingerprint_poisoned]: a row of the tenant, of no fleet or of this one (or
    any, for a scan of no fleet), whose cool-off is not over. *)
Definition forge_is_fingerprint_poisoned (now : Z) (rows : list poison_row) (tenant : string)
    (fleet : option string) (fp : string) : bool :=
  existsb (λ r, bool_decide (po_tenant r = tenant) && bool_decide (po_fingerprint r = fp)
                && match po_fleet r, fleet with
                   | Some a, Some b => bool_decide (a = b) | _, _ => true
                   end
                && (now <? po_rejected_at r + po_cooloff_days r * us_per_day)) rows.

Definition db_poison_checker (now : Z) (rows : list poison_row) : poison_checker :=
  λ tenant fleet fp, Ok (forge_is_fingerprint_poisoned now rows tenant fleet fp).

(** ** The documents *)

Record skill_doc := SkillDoc {
  d_tenant : string; d_collection : string; d_id : string; d_fleet : option string; d_data : pydict
}.

(** [document_query] for the promoter: Forge's candidates of the tenant (of the fleet, or
    of no fleet, when one is given), oldest first, at most [limit]. *)
Definition is_candidate (tenant : string) (fleet : option string) (d : skill_doc) : bool :=
  bool_decide (d_tenant d = tenant) && bool_decide (d_collection d = "skills")
  && match fleet with
     | Some (String _ _ as f) =>
         match d_fleet d with Some g => bool_decide (g = f) | None => true end
     | _ => true
     end
  && bool_decide (get "status" (d_data d) = PStr "candidate")
  && bool_decide (get "source" (d_data d) = PStr "forge").

Definition created_leb (a b : skill_doc) : bool :=
  match as_str (get "created_at" (d_data a)), as_str (get "created_at" (d_data b)) with
  | Some x, Some y => str_leb x y
  | _, None => true
  | None, Some _ => false
  end.

Definition query_candidates (tenant : string) (fleet : option string) (limit : nat)
    (db : list skill_doc) : list skill_doc :=
  take limit (py_sorted created_leb (filter (λ d, is_candidate tenant fleet d = true) db)).

Definition cas_matches (tenant collection id expected : string) (d : skill_doc) : bool :=
  bool_decide (d_tenant d = tenant) && bool_decide (d_collection d = collection)
  && bool_decide (d_id d = id) && bool_decide (get "status" (d_data d) = PStr expected).

Definition flip_status (new_status now_iso : string) (d : skill_doc) : skill_doc :=
  SkillDoc (d_tenant d) (d_collection d) (d_id d) (d_fleet d)
    (dict_set (new_status +:+ "_at") (PStr now_iso) (dict_set "status" (PStr new_status) (d_data d))).

(** [document_update_status]: whether a row matched, and the table. *)
Definition document_update_status (now_iso tenant collection id new_status expected : string)
    (db : list skill_doc) : bool * list skill_doc :=
  (existsb (cas_matches tenant collection id expected) db,
   (λ d, if cas_matches tenant collection id expected d then flip_status new_status now_iso d else d) <$> db).

(** ** The scan's counters *)

Fixpoint digits_value (s : string) (acc : Z) (last_digit : bool) : option Z :=
  match s with
  | EmptyString => if last_digit then Some acc else None
  | String c s =>
      if is_digit c then digits_value s (acc * 10 + (Z.of_N (code c) - 48)) true
      else if (Ascii.eqb c "_") && last_digit then digits_value s acc false
      else None
  end.

(** [int(v)]; what it raises is [None], but for an infinite float ([OverflowError]). *)
Definition py_int (v : pyval) : result exn (option Z) :=
  match v with
  | PInt z => Ok (Some z)
  | PBool b => Ok (Some (if b then 1 else 0))
  | PFloat (SpecFloat.S754_infinity _) => Err (PyError "OverflowError" "cannot convert float infinity to integer")
  | PFloat SpecFloat.S754_nan => Ok None
  | PFloat f => Ok (Some (float_to_Z f))
  | PStr s =>
      Ok (match strip s with
          | String "-" s => Z.opp <$> digits_value s 0 false
          | String "+" s => digits_value s 0 false
          | s => digits_value s 0 false
          end)
  | _ => Ok None
  end.

(** [_scan_is_clean] *)
Definition scan_is_clean (doc : pydict) : result exn bool :=
  match (if truthy (get "scan" doc) then get "scan" doc else PDict []) with
  | PDict scan =>
      critical ← py_int (default (PInt 0) (dict_get "critical" scan));
      Ok (bool_decide (get "state" scan = PStr "clean") && bool_decide (critical = Some 0))
  | _ => Ok false
  end.

(** [_scan_warned] *)
Definition scan_warned (doc : pydict) : result exn bool :=
  match (if truthy (get "scan" doc) then get "scan" doc else PDict []) with
  | PDict scan =>
      let w := default (PInt 0) (dict_get "warn" scan) in
      warn ← py_int (if truthy w then w else PInt 0);
      Ok (match warn with Some n => 0 <? n | None => true end)
  | _ => Ok true
  end.

(** ** The tick *)

Section Tick.
Context `{FromIso} `{Sentinel}.

Record promoter := Promoter {
  pr_tenant : string;
  pr_fleet : option string;
  pr_settings : gate_settings;
  pr_now : Z;
  pr_now_iso : string;
  pr_limit : nat;
  pr_auto_promote_clean : bool;
  pr_body_max : Z;
  pr_description_max : Z;
  pr_poison : poison_checker;
  pr_live : live_fetcher
}.

Definition rescan_before_apply (p : promoter) (doc : pydict) : bool * list scan_finding :=
  let r := scan_skill_doc doc (pr_body_max p) (pr_description_max p) in
  (bool_decide (sc_state r = "clean") && negb (any_fatal r), sc_findings r).

(** Where a candidate that passed every gate goes. *)
Definition destination (p : promoter) (doc : pydict) : result exn string :=
  clean ← (if pr_auto_promote_clean p then scan_is_clean doc else Ok false);
  warned ← (if clean then scan_warned doc else Ok true);
  Ok (if clean && negb warned then
        let '(allow, findings) := rescan_before_apply p doc in
        if allow && match findings with [] => true | _ => false end then "active" else "staged"
      else "staged").

Record attempt := Attempt {
  at_id : string; at_promoted : bool; at_gates : gate_result; at_target : option string
}.

(** What the update call ends with: storage's answer, or an exception of the call, with
    the update applied or not. *)
Inductive update_call := Answers | Raises (applied : bool).

(** A flip the tick made in the table: the document as it was read and the rows it
    changed. *)
Record flip := Flip { fl_read : skill_doc; fl_target : string; fl_before : list skill_doc }.

Record tick_state := TickState {
  tk_db : list skill_doc; tk_attempts : list attempt; tk_flips : list flip
}.

(** The loop over the rows read. Before each update the rest of the system may have
    changed the table ([env]); an exception of the gates ends the tick. *)
Fixpoint promote_rows (p : promoter) (env : list ((list skill_doc → list skill_doc) * update_call))
    (rows : list skill_doc) (s : tick_state) : tick_state * option exn :=
  match rows with
  | [] => (s, None)
  | row :: rows =>
      let doc := d_data row in
      match evaluate_auto_gates (pr_settings p) (Some (pr_poison p)) (Some (pr_live p))
              (pr_tenant p) (d_fleet row) (pr_now p) doc with
      | Err e => (s, Some e)
      | Ok gates =>
          if gr_promote gates then
            match destination p doc with
            | Err e => (s, Some e)
            | Ok target =>
                let '(interfere, call) := default (λ db, db, Answers) (head env) in
                let db := interfere (tk_db s) in
                let '(matched, db') :=
                  document_update_status (pr_now_iso p) (pr_tenant p) "skills" (d_id row) target
                    "candidate" db in
                let applied := match call with Answers => true | Raises b => b end in
                let ok := matched && match call with Answers => true | Raises _ => false end in
                promote_rows p (tail env) rows
                  (TickState (if applied then db' else db)
                     (tk_attempts s ++ [Attempt (d_id row) ok gates (if ok then Some target else None)])
                     (tk_flips s ++ if applied && matched
                                    then [Flip row target (filter (λ d, cas_matches (pr_tenant p)
                                            "skills" (d_id row) "candidate" d = true) db)]
                                    else []))
            end
          else promote_rows p env rows
                 (TickState (tk_db s) (tk_attempts s ++ [Attempt (d_id row) false gates None]) (tk_flips s))
      end
  end.

Definition promote_pending_candidates (p : promoter) env (db : list skill_doc)
    : tick_state * option exn :=
  promote_rows p env (query_candidates (pr_tenant p) (pr_fleet p) (pr_limit p) db) (TickState db [] []).

(** What must be true of a flip. *)
Definition flip_ok (p : promoter) (f : flip) : Prop :=
  promotable (pr_settings p) (Some (pr_poison p)) (Some (pr_live p)) (pr_tenant p)
    (d_fleet (fl_read f)) (pr_now p) (d_data (fl_read f))
  ∧ Forall (λ d, d_tenant d = pr_tenant p ∧ d_collection d = "skills" ∧ d_id d = d_id (fl_read f)
                 ∧ get "status" (d_data d) = PStr "candidate") (fl_before f)
  ∧ (fl_target f = "staged"
     ∨ fl_target f = "active" ∧ pr_auto_promote_clean p = true
       ∧ scan_is_clean (d_data (fl_read f)) = Ok true ∧ scan_warned (d_data (fl_read f)) = Ok false
       ∧ rescan_before_apply p (d_data (fl_read f)) = (true, [])).

Lemma destination_spec p doc target :
  destination p doc = Ok target →
  target = "staged"
  ∨ target = "active" ∧ pr_auto_promote_clean p = true ∧ scan_is_clean doc = Ok true
    ∧ scan_warned doc = Ok false ∧ rescan_before_apply p doc = (true, []).
Proof.
  unfold destination. intros H1.
  destruct (pr_auto_promote_clean p); [|cbn in H1; simplify_eq; by left].
  destruct (scan_is_clean doc) as [[]|]; cbn -[rescan_before_apply] in H1; [|simplify_eq; by left|done].
  destruct (scan_warned doc) as [[]|]; cbn -[rescan_before_apply] in H1; [simplify_eq; by left| |done].
  destruct (rescan_before_apply p doc) as [[] [|f fs]]; cbn in H1; simplify_eq; auto. right. auto.
Qed.

Definition count_promoted (xs : list attempt) : nat := length (filter (λ a, at_promoted a = true) xs).

Lemma cas_matches_inv tenant collection id expected d :
  cas_matches tenant collection id expected d = true →
  d_tenant d = tenant ∧ d_collection d = collection ∧ d_id d = id ∧ get "status" (d_data d) = PStr expected.
Proof. unfold cas_matches. intros H1. bool_to_prop. done. Qed.

Lemma promote_rows_ok p env rows s :
  Forall (flip_ok p) (tk_flips s) →
  Forall (flip_ok p) (tk_flips (promote_rows p env rows s).1).
Proof.
  revert env s. induction rows as [|row rows IH]; intros env s Hs; cbn [promote_rows]; [done|].
  destruct (evaluate_auto_gates _ _ _ _ _ _ _) as [gates|] eqn:Eg; [|done].
  destruct (gr_promote gates) eqn:Ep; [|by apply IH].
  destruct (destination p (d_data row)) as [target|] eqn:Ed; [|done].
  destruct (default _ _) as [interfere call]. destruct (document_update_status _ _ _ _ _ _ _) as [m db'].
  apply IH. cbn [tk_flips]. apply Forall_app. split; [done|].
  destruct (_ && m); [|constructor]. constructor; [|constructor]. split_and!; cbn [fl_read fl_before fl_target].
  - eapply promotion_needs_every_gate. eauto.
  - apply Forall_forall. intros d [Hd _]%list_elem_of_filter. by apply cas_matches_inv.
  - by apply destination_spec.
Qed.

End Tick.

(** ** A queue that does not move *)

Section Starvation.
Context `{FromIso} `{Sentinel}.

Definition at_time (p : promoter) (now : Z) : promoter :=
  Promoter (pr_tenant p) (pr_fleet p) (pr_settings p) now (pr_now_iso p) (pr_limit p)
    (pr_auto_promote_clean p) (pr_body_max p) (pr_description_max p) (pr_poison p) (pr_live p).

(** The window the candidate was mined from is too old. *)
Definition aged_out (p : promoter) (d : skill_doc) : Prop :=
  ∃ origin scan, or_empty (get "origin" (d_data d)) = Ok origin
    ∧ or_empty (get "scan" (d_data d)) = Ok scan
    ∧ g_passed (freshness_gate (get "window_end" origin) (pr_now p)
                  (freshness_window_days (pr_settings p))) = false.

Lemma freshness_only_ages w now now' days :
  now ≤ now' → g_passed (freshness_gate w now days) = false →
  g_passed (freshness_gate w now' days) = false.
Proof.
  intros Hle Hf. apply not_true_iff_false. rewrite freshness_passed.
  intros (s & e & -> & He & Hd). apply not_true_iff_false in Hf. apply Hf, freshness_passed.
  exists s, e. split_and!; [done|done|lia].
Qed.

Lemma aged_out_rows p env rows s :
  Forall (aged_out p) rows →
  tk_db (promote_rows p env rows s).1 = tk_db s ∧ (promote_rows p env rows s).2 = None.
Proof.
  intros Hr. revert s. induction Hr as [|row rows (origin & scan & Ho & Hs & Hf) _ IH]; intros s; [done|].
  cbn [promote_rows]. unfold evaluate_auto_gates. rewrite Ho, Hs. cbn [mbind result_bind].
  cbn [gr_promote forallb]. rewrite Hf, !andb_false_l, !andb_false_r.
  match goal with |- context [promote_rows p env rows ?s'] => by destruct (IH s') end.
Qed.

(** Candidates that have aged out are held but stay candidates, at the head of the
    queue: once the oldest [limit] of a tenant have aged out, no later tick promotes
    anything, however good the candidates behind them are. *)
Theorem aged_out_candidates_block_the_queue p env db now' :
  pr_now p ≤ now' →
  Forall (aged_out p) (query_candidates (pr_tenant p) (pr_fleet p) (pr_limit p) db) →
  tk_db (promote_pending_candidates (at_time p now') env db).1 = db
  ∧ Forall (aged_out (at_time p now'))
      (query_candidates (pr_tenant p) (pr_fleet p) (pr_limit p)
         (tk_db (promote_pending_candidates (at_time p now') env db).1)).
Proof.
  intros Hle Hq.
  assert (Forall (aged_out (at_time p now')) (query_candidates (pr_tenant p) (pr_fleet p) (pr_limit p) db))
    as Hq'.
  { eapply Forall_impl; [exact Hq|]. intros d (o & sc & Ho & Hs & Hf).
    exists o, sc. split_and!; [done..|]. cbn. by eapply freshness_only_ages. }
  destruct (aged_out_rows (at_time p now') env _ (TickState db [] []) Hq') as [E _].
  unfold promote_pending_candidates in *. cbn [at_time pr_tenant pr_fleet pr_limit] in *. rewrite E. done.
Qed.
End Starvation.

(** ** A candidate *)

Module PromoteExample.

#[export] Instance day_of_string : FromIso := λ s, if bool_decide (s = "2026-01-01T00:00:00+00:00") then Some 0 else None.
#[export] Instance clean_scanner : Sentinel := λ _ _ _, ScanResult "clean" "" 0 0 0 [].

Definition origin : pydict :=
  [("cluster_size", PInt 4); ("distinct_agents", PInt 3); ("window_end", PStr "2026-01-01T00:00:00Z")].

Definition candidate : skill_doc :=
  SkillDoc "t" "skills" "fix-ci" None
    [("status", PStr "candidate"); ("source", PStr "forge"); ("kind", PStr "create");
     ("origin", PDict origin); ("cluster_fingerprint", PStr "fp");
     ("scan", PDict [("state", PStr "clean"); ("critical", PInt 0); ("warn", PInt 0)])].

Definition tick_at (now : Z) : promoter :=
  Promoter "t" None default_gate_settings now "now" 1 true 40000 160
    (db_poison_checker now []) (λ _ _ _, Ok None).

Example clean_candidate_is_activated :
  tk_db (promote_pending_candidates (tick_at us_per_day) [] [candidate]).1
  = [flip_status "active" "now" candidate].
Proof. vm_compute. reflexivity. Qed.

Lemma aged_out_candidates_block_the_queue_witness :
  let p := tick_at (15 * us_per_day) in
  let db := [candidate] in
  tk_db (promote_pending_candidates (at_time p (30 * us_per_day)) [] db).1 = db
  ∧ Forall (aged_out (at_time p (30 * us_per_day)))
      (query_candidates (pr_tenant p) (pr_fleet p) (pr_limit p)
         (tk_db (promote_pending_candidates (at_time p (30 * us_per_day)) [] db).1)).
Proof.
  intros p db. refine (aged_out_candidates_block_the_queue p [] db (30 * us_per_day) _ _).
  - vm_compute. discriminate.
  - constructor; [|constructor]. exists origin, [("state", PStr "clean"); ("critical", PInt 0); ("warn", PInt 0)].
    split_and!; vm_compute; reflexivity.
Defined.
End PromoteExample.
