(* ===== verification/Consult.v ===== *)
(** * Bounded consultation

    [clients/collaboration/core/src/caura_bus_core/consult.py]: [ConsultationBudget], which
    bounds how many requests one task sends and for how long, and [PresentedResponses], the
    bounded record of the responses a session has shown.

    Clock readings are arguments, in microseconds. The collection of the replies is in
    [Collect]. *)

From S2P Require Import Prelude PyVal.

Local Open Scope Z_scope.

(** ** The budget of a task *)

Definition ROOT_SCOPE : string := "root".

Record scope : Type := Scope {
  started : Z;
  deadline : Z;
  requests_sent : nat;
  keys : gset string
}.

Abbreviation scopes := (gmap string scope).

Record budget : Type := Budget { max_requests : nat; deadline_seconds : Z }.

(** The constructor refuses limits that are not positive. *)
Definition consultation_budget (max : Z) (deadline_s : Z) : result exn budget :=
  if (max <? 1) || (deadline_s <=? 0)
  then Err (PyError "ValueError" "consultation limits must be positive")
  else Ok (Budget (Z.to_nat max) deadline_s).

Inductive limit_error : Type := ConsultationCycleError | BudgetSpent | DeadlinePassed.

Section Budget.
Variable b : budget.

Definition limit_of (deadline_in : option Z) : Z :=
  match deadline_in with
  | None => deadline_seconds b
  | Some d => Z.min (deadline_seconds b) d
  end.

(** [_scope]: the scope of a key, new when it has none or when the root's window is over. *)
Definition scope_of (now : Z) (key : string) (deadline_in : option Z) (s : scopes) : scope * scopes :=
  match s !! key with
  | Some sc =>
      if bool_decide (key = ROOT_SCOPE) && (deadline sc <=? now) then
        let sc := Scope now (now + Z.max 0 (limit_of deadline_in)) 0 ∅ in (sc, <[key := sc]> s)
      else match deadline_in with
           | Some d =>
               let sc := Scope (started sc) (Z.min (deadline sc) (now + Z.max 0 d))
                           (requests_sent sc) (keys sc) in (sc, <[key := sc]> s)
           | None => (sc, s)
           end
  | None =>
      let sc := Scope now (now + Z.max 0 (limit_of deadline_in)) 0 ∅ in (sc, <[key := sc]> s)
  end.

(** How [admit_request] ends: the request is counted, it is a resend, or it is refused. *)
Inductive admission : Type := Counted | Resent | Refused (e : limit_error).

Definition admit_request (now now' : Z) (key : string) (recipients : list string)
    (waiting_sender : option string) (deadline_in : option Z) (request_key : option string)
    (s : scopes) : admission * scopes :=
  if match waiting_sender with Some w => bool_decide (w ∈ recipients) | None => false end
  then (Refused ConsultationCycleError, s)
  else
    let '(sc, s) := scope_of now key deadline_in s in
    if match request_key with Some k => bool_decide (k ∈ keys sc) | None => false end then (Resent, s)
    else if (max_requests b <=? requests_sent sc)%nat then (Refused BudgetSpent, s)
    else if deadline sc <=? now' then (Refused DeadlinePassed, s)
    else (Counted,
          <[key := Scope (started sc) (deadline sc) (S (requests_sent sc))
                     (match request_key with Some k => {[k]} ∪ keys sc | None => keys sc end)]> s).

(** Seconds left to consult. *)
Definition remaining (now : Z) (key : string) (deadline_in : option Z) (s : scopes) : Z :=
  let whole := Z.max 0 (limit_of deadline_in) in
  match s !! key with
  | None => whole
  | Some sc =>
      if bool_decide (key = ROOT_SCOPE) && (deadline sc <=? now) then whole
      else let left := deadline sc - now in
           Z.max 0 (match deadline_in with Some d => Z.min left d | None => left end)
  end.

Definition release (key : string) (s : scopes) : scopes :=
  if bool_decide (key = ROOT_SCOPE) then s else delete key s.

(** The calls a session makes, each with the times it read. *)
Inductive call : Type :=
| Admit (now now' : Z) (key : string) (recipients : list string) (waiting : option string)
    (deadline_in : option Z) (request_key : option string)
| Release (key : string).

Definition call_run (c : call) (s : scopes) : option admission * scopes :=
  match c with
  | Admit now now' key rs w d rk => let '(a, s) := admit_request now now' key rs w d rk s in (Some a, s)
  | Release key => (None, release key s)
  end.

(** The calls and what each answered. *)
Fixpoint run (cs : list call) (s : scopes) : list (call * option admission) :=
  match cs with
  | [] => []
  | c :: cs => let '(a, s) := call_run c s in (c, a) :: run cs s
  end.

(** The times at which a request of the scope was counted. *)
Definition counted (key : string) (tr : list (call * option admission)) : list Z :=
  omap (λ ca, match ca with
              | (Admit _ now' k _ _ _ _, Some Counted) => if bool_decide (k = key) then Some now' else None
              | _ => None
              end) tr.

Definition uses (key : string) (c : call) : bool :=
  match c with Admit _ _ k _ _ _ _ => bool_decide (k = key) | Release k => false end.

Definition releases (key : string) (c : call) : bool :=
  match c with Release k => bool_decide (k = key) | _ => false end.

(** A call reads the clock at [t] or later, and its second reading no earlier than its
    first. *)
Definition clock_from (t : Z) (c : call) : Prop :=
  match c with Admit now now' _ _ _ _ _ => t ≤ now ≤ now' | Release _ => True end.

Fixpoint clocked (t : Z) (cs : list call) : Prop :=
  match cs with
  | [] => True
  | c :: cs => clock_from t c ∧ clocked (match c with Admit _ now' _ _ _ _ _ => now' | _ => t end) cs
  end.

(** *** Lemmas *)

Lemma counted_cons key c a tr :
  counted key ((c, a) :: tr)
  = match c, a with
    | Admit _ now' k _ _ _ _, Some Counted => if bool_decide (k = key) then [now'] else []
    | _, _ => []
    end ++ counted key tr.
Proof. unfold counted. destruct c, a as [[]|]; cbn; try done. by case_bool_decide. Qed.

Lemma scope_of_other now key k d s sc s' :
  scope_of now key d s = (sc, s') → k ≠ key → s' !! k = s !! k.
Proof. unfold scope_of. intros. repeat case_match; simplify_eq; by simplify_map_eq. Qed.

Lemma scope_of_here now key d s sc s' :
  scope_of now key d s = (sc, s') → s' !! key = Some sc.
Proof. unfold scope_of. intros. repeat case_match; simplify_eq; by simplify_map_eq. Qed.

Lemma admit_other now now' key k rs w d rk s a s' :
  admit_request now now' key rs w d rk s = (a, s') → k ≠ key → s' !! k = s !! k.
Proof.
  unfold admit_request. intros H Hk. destruct (match w with Some _ => _ | None => false end); [by simplify_eq|].
  destruct (scope_of now key d s) as [sc s1] eqn:E. rewrite <-(scope_of_other _ _ _ _ _ _ _ E Hk).
  repeat case_match; simplify_eq; by simplify_map_eq.
Qed.

(** What [admit_request] does to the scope it works on. *)
Lemma admit_scope now now' key rs w d rk s a s' :
  admit_request now now' key rs w d rk s = (a, s') →
  s' = s ∧ a = Refused ConsultationCycleError
  ∨ ∃ sc, (scope_of now key d s).1 = sc
      ∧ (a = Counted ∧ (requests_sent sc < max_requests b)%nat ∧ now' < deadline sc
         ∧ (∃ ks, s' !! key = Some (Scope (started sc) (deadline sc) (S (requests_sent sc)) ks))
         ∨ a ≠ Counted ∧ s' !! key = Some sc).
Proof.
  unfold admit_request. intros H. destruct (match w with Some _ => _ | None => false end); [left; by simplify_eq|].
  right. destruct (scope_of now key d s) as [sc s1] eqn:E. apply scope_of_here in E.
  exists sc. split; [done|].
  destruct (match rk with Some _ => _ | None => false end); [simplify_eq; eauto|].
  destruct (Nat.leb_spec (max_requests b) (requests_sent sc)); [simplify_eq; eauto|].
  destruct (Z.leb_spec (deadline sc) now'); simplify_eq; [eauto|].
  left. split_and!; [done|lia|lia|]. rewrite lookup_insert_eq. eauto.
Qed.

Lemma scope_of_task now key d s sc :
  key ≠ ROOT_SCOPE → s !! key = Some sc →
  let sc' := (scope_of now key d s).1 in
  started sc' = started sc ∧ deadline sc' ≤ deadline sc ∧ requests_sent sc' = requests_sent sc.
Proof.
  intros Hk Hs. unfold scope_of. rewrite Hs, bool_decide_eq_false_2 by done.
  destruct d; cbn; split_and!; lia.
Qed.

Lemma call_run_skips c key s :
  uses key c = false → releases key c = false → (call_run c s).2 !! key = s !! key.
Proof.
  destruct c as [now now' k rs w d rk|k]; cbn; intros Hu Hr; bool_to_prop.
  - destruct (admit_request now now' k rs w d rk s) as [a s'] eqn:E. cbn. by eapply admit_other.
  - unfold release. case_bool_decide; [done|]. by rewrite lookup_delete_ne.
Qed.

Lemma counted_unused c key s tr :
  uses key c = false → counted key ((c, (call_run c s).1) :: tr) = counted key tr.
Proof.
  rewrite counted_cons. destruct c; cbn; [|done]. destruct (admit_request _ _ _ _ _ _ _ _) as [[]]; cbn; try done.
  by intros ->.
Qed.

Lemma run_cons c cs s : run (c :: cs) s = (c, (call_run c s).1) :: run cs (call_run c s).2.
Proof. cbn [run]. by destruct (call_run c s). Qed.

(** An open scope that nobody releases counts no more than its room, before its
    deadline. *)
Lemma open_scope_bounded key cs s sc :
  key ≠ ROOT_SCOPE → s !! key = Some sc → Forall (λ c, releases key c = false) cs →
  (requests_sent sc ≤ max_requests b)%nat →
  (length (counted key (run cs s)) + requests_sent sc ≤ max_requests b)%nat
  ∧ Forall (λ t, t < deadline sc) (counted key (run cs s)).
Proof.
  intros Hk. revert s sc. induction cs as [|c cs IH]; intros s sc Hs HF Hm; [by cbn; split; [lia|]|].
  apply Forall_cons in HF as [Hr HF]. rewrite run_cons.
  destruct (uses key c) eqn:Hu.
  2: { rewrite counted_unused by done. apply IH; [by rewrite call_run_skips|done|done]. }
  destruct c as [now now' k rs w d rk|]; [|done]. cbn in Hu. bool_to_prop. subst k.
  cbn [call_run]. destruct (admit_request now now' key rs w d rk s) as [a s'] eqn:E.
  apply admit_scope in E as [[-> ->]|(sc' & Hsc & HE)]; [by apply IH|].
  destruct (scope_of_task now key d s sc Hk Hs) as (_ & Hd & Hn). rewrite Hsc in Hd, Hn.
  rewrite counted_cons. destruct HE as [(-> & Hlt & Hnow & ks & HE)|[Ha HE]]; cbn [fst snd].
  - rewrite bool_decide_eq_true_2 by done.
    destruct (IH _ _ HE HF) as [H1 H2]; cbn in *; [lia|]. split; [lia|].
    constructor; [lia|]. eapply Forall_impl; [exact H2|]. intros; cbn in *; lia.
  - replace (match a with Counted => _ | _ => _ end) with ([] : list Z) by (by destruct a).
    destruct (IH _ _ HE HF) as [H1 H2]; [lia|]. cbn [app]. split; [lia|].
    eapply Forall_impl; [exact H2|]. intros; cbn in *; lia.
Qed.

(** The scope [scope_of] opens for a key that has none. *)
Lemma scope_of_new now key d s :
  s !! key = None → 0 < deadline_seconds b →
  let sc := (scope_of now key d s).1 in
  started sc = now ∧ deadline sc ≤ now + deadline_seconds b ∧ requests_sent sc = 0%nat.
Proof. intros Hs Hd. unfold scope_of. rewrite Hs. cbn. unfold limit_of. destruct d; split_and!; lia. Qed.

Lemma clocked_mono t t' cs : t' ≤ t → clocked t cs → clocked t' cs.
Proof.
  revert t t'. induction cs as [|[] cs IH]; cbn; intros t t' Hle; [done| |].
  - intros [? ?]. split; [lia|done].
  - intros [_ ?]. split; [done|]. by eapply IH.
Qed.

Lemma clocked_cons t c cs : clocked t (c :: cs) → clocked t cs.
Proof. destruct c; cbn; intros [? ?]; [|done]. eapply clocked_mono; [|done]. lia. Qed.

Lemma counted_after key cs t s : clocked t cs → Forall (λ u, t ≤ u) (counted key (run cs s)).
Proof.
  revert t s. induction cs as [|c cs IH]; intros t s Hc; [by constructor|].
  rewrite run_cons, counted_cons. apply Forall_app. split.
  - destruct c as [now now' k rs w d rk|]; [|constructor]. destruct (call_run _ _).1 as [[]|]; try constructor.
    case_bool_decide; constructor; [|constructor]. cbn in Hc. lia.
  - apply clocked_cons in Hc. by apply IH.
Qed.

(** A task sends a bounded number of requests in bounded time. From the moment its
    scope is opened until it is released, at most [max_requests] requests are counted for
    it, all of them within [deadline_seconds] of the opening, whatever else is asked of
    the budget in between, and no deadline a caller passes can extend it. *)
Theorem task_requests_bounded key cs s t :
  key ≠ ROOT_SCOPE → s !! key = None → 0 < deadline_seconds b →
  Forall (λ c, releases key c = false) cs → clocked t cs →
  (length (counted key (run cs s)) ≤ max_requests b)%nat
  ∧ ∃ t0, t ≤ t0 ∧ Forall (λ u, t0 ≤ u < t0 + deadline_seconds b) (counted key (run cs s)).
Proof.
  intros Hk Hs Hd. revert s t Hs. induction cs as [|c cs IH]; intros s t Hs HF Hc.
  { split; [cbn; lia|]. exists t. split; [lia|constructor]. }
  apply Forall_cons in HF as [Hr HF]. pose proof (clocked_cons _ _ _ Hc) as Hc'.
  rewrite run_cons. destruct (uses key c) eqn:Hu.
  2: { rewrite counted_unused by done. apply IH; [by rewrite call_run_skips|done|done]. }
  pose proof (counted_after key (c :: cs) t s Hc) as Hafter. rewrite run_cons in Hafter.
  destruct c as [now now' k rs w d rk|]; [|done]. cbn in Hu. bool_to_prop. subst k.
  cbn [call_run clocked clock_from] in *. destruct (admit_request now now' key rs w d rk s) as [a s'] eqn:E.
  apply admit_scope in E as [[-> ->]|(sc & Hsc & HE)]; [by apply IH|].
  destruct (scope_of_new now key d s Hs Hd) as (_ & Hdl & Hn). rewrite Hsc in Hdl, Hn.
  destruct Hc as [Hnow Hc]. rewrite counted_cons in *.
  pose proof (counted_after key cs now' s' Hc) as Hlater.
  destruct HE as [(-> & Hlt & Hin & ks & HE)|[Ha HE]]; cbn [fst snd] in *.
  - rewrite bool_decide_eq_true_2 in * by done.
    destruct (open_scope_bounded key cs s' _ Hk HE HF) as [H1 H2]; cbn in *; [lia|].
    split; [lia|]. exists now. split; [lia|]. constructor; [lia|].
    apply Forall_forall. intros u Hu. rewrite Forall_forall in H2, Hlater.
    specialize (H2 _ Hu). specialize (Hlater _ Hu). cbn in *; lia.
  - replace (match a with Counted => _ | _ => _ end) with ([] : list Z) in * by (by destruct a).
    destruct (open_scope_bounded key cs s' _ Hk HE HF) as [H1 H2]; cbn [app] in *; [lia|].
    split; [lia|]. exists now. split; [lia|].
    apply Forall_forall. intros u Hu. rewrite Forall_forall in H2, Hlater.
    specialize (H2 _ Hu). specialize (Hlater _ Hu). cbn in *; lia.
Qed.

(** *** The root's windows *)

Definition whole_windows (c : call) : bool :=
  match c with Admit _ _ k _ _ (Some _) _ => negb (bool_decide (k = ROOT_SCOPE)) | _ => true end.

(** The counted requests of an interval. *)
Definition within (T len : Z) (ts : list Z) : nat :=
  length (filter (λ t, T ≤ t < T + len) ts).

Lemma within_app T len l1 l2 : within T len (l1 ++ l2) = (within T len l1 + within T len l2)%nat.
Proof. unfold within. by rewrite filter_app, length_app. Qed.

Lemma within_one T len t :
  within T len [t] = if (T <=? t) && (t <? T + len) then 1%nat else 0%nat.
Proof.
  unfold within. rewrite filter_cons, filter_nil.
  case_decide; destruct (Z.leb_spec T t), (Z.ltb_spec t (T + len)); cbn; lia.
Qed.

(** What an interval can still hold, given the root's window. *)
Definition room (T now : Z) (sc : option scope) : nat :=
  if T + deadline_seconds b <=? now then 0%nat else
  match sc with
  | None => 2 * max_requests b
  | Some sc =>
      if T + deadline_seconds b <=? deadline sc then max_requests b - requests_sent sc
      else if T <? deadline sc then 2 * max_requests b - requests_sent sc
      else 2 * max_requests b
  end.

Definition root_ok (now : Z) (sc : option scope) : Prop :=
  match sc with
  | None => True
  | Some sc => deadline sc = started sc + deadline_seconds b ∧ started sc ≤ now
               ∧ (requests_sent sc ≤ max_requests b)%nat
  end.

Lemma scope_of_root now s :
  0 < deadline_seconds b → root_ok now (s !! ROOT_SCOPE) →
  let sc := (scope_of now ROOT_SCOPE None s).1 in
  root_ok now (Some sc)
  ∧ ((s !! ROOT_SCOPE = Some sc ∧ now < deadline sc)
     ∨ (started sc = now ∧ requests_sent sc = 0%nat
        ∧ match s !! ROOT_SCOPE with Some old => deadline old ≤ now | None => True end)).
Proof.
  intros Hd. unfold scope_of. destruct (s !! ROOT_SCOPE) as [sc|] eqn:E; cbn.
  - rewrite bool_decide_eq_true_2 by done. cbn. intros Hok. destruct (Z.leb_spec (deadline sc) now); cbn.
    + split; [split_and!; unfold limit_of; lia|]. right. split_and!; done.
    + split; [done|]. left. done.
  - intros _. split; [split_and!; unfold limit_of; lia|]. right. done.
Qed.

Lemma root_room cs s t T :
  0 < deadline_seconds b → Forall (λ c, whole_windows c = true) cs → clocked t cs →
  root_ok t (s !! ROOT_SCOPE) →
  (within T (deadline_seconds b) (counted ROOT_SCOPE (run cs s)) ≤ room T t (s !! ROOT_SCOPE))%nat.
Proof.
  intros Hd. revert s t. induction cs as [|c cs IH]; intros s t HF Hc Hok; [cbn; lia|].
  apply Forall_cons in HF as [Hw HF]. pose proof (clocked_cons _ _ _ Hc) as Hc'.
  rewrite run_cons. destruct (uses ROOT_SCOPE c) eqn:Hu.
  2: { rewrite counted_unused by done.
       assert (Hrel : (call_run c s).2 !! ROOT_SCOPE = s !! ROOT_SCOPE).
       { destruct c as [|k]; [by apply call_run_skips|]. cbn. unfold release. case_bool_decide; [done|].
         by rewrite lookup_delete_ne. }
       rewrite <-Hrel. eapply IH; [done..|]. by rewrite Hrel. }
  destruct c as [now now' k rs w d rk|]; [|done]. cbn in Hu. bool_to_prop. subst k.
  destruct d; [by cbn in Hw|].
  cbn [call_run clocked clock_from] in *. destruct (admit_request now now' ROOT_SCOPE rs w None rk s) as [a s'] eqn:E.
  apply admit_scope in E as [[-> ->]|(sc & Hsc & HE)]; [by eapply IH|].
  destruct Hc as [Hnow Hc].
  assert (Hok' : root_ok now (s !! ROOT_SCOPE)).
  { destruct (s !! ROOT_SCOPE); cbn in *; [|done]. lia. }
  pose proof (scope_of_root now s Hd Hok') as Hr. cbn zeta in Hr. rewrite Hsc in Hr.
  destruct Hr as [(Hdl & Hst & Hn) Hr].
  assert (Hroom : (room T now (Some sc) ≤ room T t (s !! ROOT_SCOPE))%nat).
  { unfold room. destruct Hr as [[-> _]|(Hnew & Hz & Hold)]; [repeat case_match; simplify_eq; bool_to_prop; lia|].
    destruct (s !! ROOT_SCOPE) as [ol|]; cbn in Hok'; repeat case_match; simplify_eq; bool_to_prop; lia. }
  assert (Hdead : now < deadline sc) by (destruct Hr as [[_ ?]|(Hnew & _)]; lia).
  rewrite counted_cons, within_app. etransitivity; [|exact Hroom].
  destruct HE as [(-> & Hlt & Hin & ks & HE)|[Ha HE]]; cbn [fst snd].
  - rewrite bool_decide_eq_true_2 by done. rewrite within_one.
    specialize (IH s' _ HF Hc). rewrite HE in IH. cbn [root_ok deadline started requests_sent] in IH.
    specialize (IH ltac:(lia)). unfold room in *. cbn [deadline requests_sent] in *.
    repeat case_match; bool_to_prop; cbn in *; lia.
  - replace (match a with Counted => _ | _ => _ end) with ([] : list Z) by (by destruct a).
    specialize (IH s' _ HF Hc). rewrite HE in IH. specialize (IH ltac:(cbn; lia)).
    change (within T (deadline_seconds b) []) with 0%nat. etransitivity; [exact IH|].
    unfold room. repeat case_match; bool_to_prop; lia.
Qed.

(** The agent's own turn is rate-bounded and never blocked for good: in any interval as
    long as the window, at most twice [max_requests] requests of the root are counted,
    and once its window is over the next request is. *)
Theorem root_rate_bounded cs s t T :
  0 < deadline_seconds b → s !! ROOT_SCOPE = None → clocked t cs →
  Forall (λ c, whole_windows c = true) cs →
  (within T (deadline_seconds b) (counted ROOT_SCOPE (run cs s)) ≤ 2 * max_requests b)%nat
  ∧ ∀ sc s' now rs rk,
      s' !! ROOT_SCOPE = Some sc → deadline sc ≤ now → (0 < max_requests b)%nat →
      (admit_request now now ROOT_SCOPE rs None None rk s').1 = Counted.
Proof.
  intros Hd Hs Hc HF. split.
  - pose proof (root_room cs s t T Hd HF Hc) as H. rewrite Hs in H. specialize (H I).
    unfold room in H. case_match; lia.
  - intros sc s' now rs rk Hs' Hnow Hm. unfold admit_request, scope_of. rewrite Hs', bool_decide_eq_true_2 by done.
    destruct (Z.leb_spec (deadline sc) now); [|lia]. cbn [andb requests_sent deadline keys].
    replace (match rk with Some k => bool_decide (k ∈ (∅ : gset string)) | None => false end) with false
      by (destruct rk; [symmetry; by apply bool_decide_eq_false_2|done]).
    destruct (Nat.leb_spec (max_requests b) 0); [lia|]. unfold limit_of.
    destruct (Z.leb_spec (now + Z.max 0 (deadline_seconds b)) now); [lia|done].
Qed.

(** A request that was counted is never refused for its budget when it is sent again
    while its scope lasts. *)
Lemma resend_accepted now now' key rs w d k s s' t t' rs' d' :
  key ≠ ROOT_SCOPE →
  admit_request now now' key rs w d (Some k) s = (Counted, s') →
  (admit_request t t' key rs' None d' (Some k) s').1 = Resent.
Proof.
  intros Hk. unfold admit_request. destruct (match w with Some _ => _ | None => false end); [done|].
  destruct (scope_of now key d s) as [sc s1] eqn:E.
  destruct (bool_decide (k ∈ keys sc)); [done|]. destruct (Nat.leb _ _); [done|].
  destruct (Z.leb _ _); [done|]. intros [= <-].
  unfold scope_of. rewrite lookup_insert_eq, (bool_decide_eq_false_2 (key = ROOT_SCOPE)) by done. cbn.
  destruct d'; cbn; rewrite bool_decide_eq_true_2 by set_solver; done.
Qed.
End Budget.

(** ** Responses already shown

    The [OrderedDict] of message ids, the one to be forgotten first at the head. *)

Definition PRESENTED_MAXIMUM : nat := 4096.

(** [while len(self._ids) > self.maximum: self._ids.popitem(last=False)] *)
Fixpoint forget (fuel maximum : nat) (ids : list string) : list string :=
  match fuel, ids with
  | S fuel, _ :: rest => if (maximum <? length ids)%nat then forget fuel maximum rest else ids
  | _, _ => ids
  end.

Definition presented_add (maximum : nat) (id : string) (ids : list string) : bool * list string :=
  if bool_decide (id ∈ ids) then (false, filter (λ x, x ≠ id) ids ++ [id])
  else let ids := ids ++ [id] in (true, forget (length ids) maximum ids).

Fixpoint presented_adds (maximum : nat) (shown ids : list string) : list bool * list string :=
  match shown with
  | [] => ([], ids)
  | id :: shown =>
      let '(new, ids) := presented_add maximum id ids in
      let '(news, ids) := presented_adds maximum shown ids in (new :: news, ids)
  end.

Lemma forget_drop fuel maximum ids :
  (length ids ≤ fuel)%nat → forget fuel maximum ids = drop (length ids - maximum) ids.
Proof.
  revert ids. induction fuel as [|fuel IH]; intros [|x ids] Hl; try done; [cbn in Hl; lia|].
  cbn [forget]. destruct (Nat.ltb_spec maximum (length (x :: ids))) as [Hm|Hm]; cbn [length] in *.
  - rewrite IH by lia. by rewrite (Nat.sub_succ_l maximum) by lia.
  - by replace (S (length ids) - maximum)%nat with 0%nat by lia.
Qed.

(** The distinct ids of a history, each at its last occurrence. *)
Definition distinct_last (h : list string) : list string := remove_dups h.

Lemma distinct_last_snoc h id :
  distinct_last (h ++ [id]) = filter (λ x, x ≠ id) (distinct_last h) ++ [id].
Proof.
  unfold distinct_last. induction h as [|x h IH]; [done|]. cbn [app remove_dups].
  case_decide as Hin; case_decide as Hin'; [exact IH| | |].
  - apply elem_of_app in Hin as [|Hx]; [done|]. apply list_elem_of_singleton in Hx as ->.
    rewrite IH, filter_cons_False by naive_solver. done.
  - exfalso. apply Hin, elem_of_app. by left.
  - rewrite IH, filter_cons_True; [done|]. intros ->. apply Hin, elem_of_app. right. by left.
Qed.

Lemma distinct_last_nodup h : NoDup (distinct_last h).
Proof. apply NoDup_remove_dups. Qed.

Lemma filter_out_absent (id : string) (l : list string) : id ∉ l → filter (λ x, x ≠ id) l = l.
Proof.
  induction l as [|x l IH]; [done|]. intros [Hne Hn]%not_elem_of_cons.
  rewrite filter_cons_True by done. by rewrite IH.
Qed.

Lemma filter_out_length (id : string) (l : list string) :
  NoDup l → id ∈ l → S (length (filter (λ x, x ≠ id) l)) = length l.
Proof.
  induction l as [|x l IH]; [by intros _ ?%elem_of_nil|]. intros [Hx Hn]%NoDup_cons Hin.
  destruct (decide (x = id)) as [->|Hne].
  - rewrite filter_cons_False by (intros H; by apply H). cbn. by rewrite filter_out_absent.
  - rewrite filter_cons_True by done. cbn. f_equal. apply IH; [done|]. by apply elem_of_cons in Hin as [->|].
Qed.

(** One more response keeps the bounded record in step with the history. *)
Lemma presented_add_latest maximum (id : string) (d : list string) :
  NoDup d →
  (presented_add maximum id (drop (length d - maximum) d)).2
  = let d' := filter (λ x, x ≠ id) d ++ [id] in drop (length d' - maximum) d'.
Proof.
  intros Hd. cbn zeta. set (n := (length d - maximum)%nat).
  assert (HQ : (length (drop n d) = length d - n)%nat) by apply length_drop.
  assert (HP : length (take n d) = n) by (apply length_take_le; lia).
  rewrite <-(take_drop n d) in Hd. rewrite <-(take_drop n d) at 2 3.
  set (P := take n d) in *. set (Q := drop n d) in *. clearbody P Q.
  apply NoDup_app in Hd as (HdP & Hdisj & HdQ). rewrite filter_app, !length_app. cbn [length].
  unfold presented_add. case_bool_decide as Hin; cbn [snd].
  - rewrite (filter_out_absent _ P) by (intros HinP; by eapply Hdisj).
    pose proof (filter_out_length _ _ HdQ Hin).
    replace (length P + length (filter (λ x, x ≠ id) Q) + 1 - maximum)%nat with (length P + 0)%nat by lia.
    by rewrite <-app_assoc, drop_app_add.
  - rewrite (filter_out_absent _ Q), forget_drop, length_app by done. cbn [length].
    rewrite <-app_assoc. destruct (decide (n = 0)%nat) as [Hn|Hn].
    + assert (P = []) as -> by (apply length_zero_iff_nil; lia). done.
    + replace (length (filter (λ x, x ≠ id) P) + length Q + 1 - maximum)%nat
        with (length (filter (λ x, x ≠ id) P) + (length Q + 1 - maximum))%nat by lia.
      by rewrite drop_app_add.
Qed.

(** What a session remembers as shown is exactly the latest [maximum] distinct
    responses of its history, and a response is reported new exactly when it is not among
    them: nothing shown recently is shown again, and the record never outgrows its
    bound. *)
Theorem presented_remembers_latest maximum h id :
  let ids := (presented_adds maximum h []).2 in
  ids = drop (length (distinct_last h) - maximum) (distinct_last h)
  ∧ ((presented_add maximum id ids).1 = true ↔ id ∉ ids)
  ∧ (length ids ≤ maximum)%nat.
Proof.
  assert (Hgen : ∀ h2 h1, (presented_adds maximum h2
      (drop (length (distinct_last h1) - maximum) (distinct_last h1))).2
    = drop (length (distinct_last (h1 ++ h2)) - maximum) (distinct_last (h1 ++ h2))).
  { clear h id. induction h2 as [|id h2 IH]; intros h1; [by rewrite app_nil_r|].
    rewrite (cons_middle id h1 h2), (assoc_L (++)), <-IH, distinct_last_snoc,
      <-presented_add_latest by apply distinct_last_nodup.
    cbn [presented_adds]. by destruct (presented_add _ _ _), (presented_adds _ _ _). }
  intros ids. assert (ids = drop (length (distinct_last h) - maximum) (distinct_last h)) as ->
    by apply (Hgen h []). split_and!; [done| |rewrite length_drop; lia].
  unfold presented_add. case_bool_decide; naive_solver.
Qed.

(** ** Examples *)

Definition two_a_minute : budget := Budget 2 60000000.

(** A delivery's task: a request, its resend, a second request under a tighter deadline, a
    third refused, one to the waiting sender refused. *)
Definition task_calls : list call :=
  [Admit 0 0 "d1" ["bob"] (Some "alice") None (Some "k1");
   Admit 5 5 "d1" ["bob"] (Some "alice") None (Some "k1");
   Admit 7 8 "d1" ["carol"] (Some "alice") (Some 30000000) (Some "k2");
   Admit 9 9 "d1" ["dan"] (Some "alice") None None;
   Admit 10 10 "d1" ["alice"] (Some "alice") None None].

Example task_answers :
  (run two_a_minute task_calls ∅).*2
  = [Some Counted; Some Resent; Some Counted; Some (Refused BudgetSpent);
     Some (Refused ConsultationCycleError)].
Proof. vm_compute. reflexivity. Qed.

Lemma task_requests_bounded_witness :
  let tr := run two_a_minute task_calls ∅ in
  counted "d1" tr = [0; 8]
  ∧ ((length (counted "d1" tr) ≤ 2)%nat
     ∧ ∃ t0, 0 ≤ t0 ∧ Forall (λ u, t0 ≤ u < t0 + 60000000) (counted "d1" tr)).
Proof.
  split; [vm_compute; reflexivity|].
  refine (task_requests_bounded two_a_minute "d1" task_calls ∅ 0 _ _ _ _ _); [done..| |].
  - repeat constructor.
  - cbn. lia.
Defined.

Definition root_calls : list call :=
  [Admit 0 0 "root" ["bob"] None None None; Admit 1 1 "root" ["bob"] None None None;
   Admit 2 2 "root" ["bob"] None None None; Admit 60000000 60000000 "root" ["bob"] None None None].

Lemma root_rate_bounded_witness :
  let tr := run two_a_minute root_calls ∅ in
  counted "root" tr = [0; 1; 60000000]
  ∧ (within 1 60000000 (counted "root" tr) ≤ 4)%nat.
Proof.
  split; [vm_compute; reflexivity|].
  refine (proj1 (root_rate_bounded two_a_minute root_calls ∅ 0 1 _ _ _ _)); [done..| |].
  - cbn. lia.
  - repeat constructor.
Defined.
