(* ===== verification/Collect.v ===== *)
(** * Collecting the replies to a request

    [clients/collaboration/core/src/caura_bus_core/consult.py]: [_slots] and
    [ResponseCollector], which polls Caura for the correlated responses to one request
    until every expected recipient is accounted for or a local bound is reached.

    A delivery row and an envelope are records of the fields that are read; [""] stands for
    a missing message id. What Caura answers to each read is an argument: an answer, a
    transient failure ([Ok None], which [_read] swallows) or an exception. Times are in
    microseconds. *)

From S2P Require Import Prelude PyStr PyVal.

Local Open Scope Z_scope.

Record delivery : Type := Delivery {
  dv_id : string;
  dv_recipient : string;
  reassigned_from : option string;
  reply_state : option string;
  reply_message_id : option string;
  late_reply_message_id : option string;
  dv_late : bool
}.

(** [if s]: neither missing nor empty. *)
Definition present (s : option string) : option string :=
  match s with Some "" => None | o => o end.

(** ** Slots

    Which expected recipient a delivery serves: the recipient of the delivery it was
    reassigned from, and so on up. [seen] cuts cycles, the results are memoised. *)

Fixpoint slot (fuel : nat) (by_id : list (string * delivery)) (slots : list (string * string))
    (id : string) (seen : list string) : option string * list (string * string) :=
  match dict_get id slots with
  | Some s => (Some s, slots)
  | None =>
      match dict_get id by_id with
      | None => (None, slots)
      | Some row =>
          let own slots := (Some (dv_recipient row), dict_set id (dv_recipient row) slots) in
          match present (reassigned_from row), fuel with
          | Some parent, S fuel =>
              if dict_mem parent by_id && negb (bool_decide (parent ∈ seen)) then
                let '(found, slots) := slot fuel by_id slots parent (seen ++ [id]) in
                match present found with
                | Some s => (Some s, dict_set id s slots)
                | None => own slots
                end
              else own slots
          | _, _ => own slots
          end
      end
  end.

Definition rows_by_id (ds : list delivery) : list (string * delivery) :=
  foldl (λ m d, dict_set (dv_id d) d m) [] ds.

Definition slots_of (ds : list delivery) : list (string * string) :=
  let by_id := rows_by_id ds in
  foldl (λ slots id, (slot (S (length by_id)) by_id slots id []).2) [] (dict_keys by_id).

(** ** The collector *)

Record envelope : Type := Envelope {
  en_id : string;
  en_from : option string;
  en_kind : string;
  en_correlation : option string;
  en_body : string
}.

Record answer : Type := Answer {
  an_sender : string; an_message : string; an_body : string; an_late : bool
}.

Record collector : Type := Collector {
  expected : option (list string);
  answers : list (string * answer);
  seen_ids : list string;
  excluded : nat;
  deliveries : list delivery
}.

Definition collector_init (expect : option (list string)) : collector :=
  Collector (py_sorted str_leb ∘ remove_dups <$> expect) [] [] 0 [].

Section Collect.
Variable request_id : string.

Definition sender_slots (c : collector) : list (string * string) :=
  let slots := slots_of (deliveries c) in
  foldl (λ m row,
           match dict_get (dv_id row) slots with
           | Some s => if dict_mem s m && negb (dict_mem (dv_recipient row) m)
                       then dict_set (dv_recipient row) s m else m
           | None => m
           end)
    ((λ r, (r, r)) <$> default [] (expected c)) (deliveries c).

Definition is_late (ds : list delivery) (message_id : string) : bool :=
  existsb (λ r, (bool_decide (reply_message_id r = Some message_id)
                 || bool_decide (late_reply_message_id r = Some message_id))
                && (dv_late r || bool_decide (late_reply_message_id r = Some message_id))) ds.

Definition exclude (c : collector) : collector :=
  Collector (expected c) (answers c) (seen_ids c) (S (excluded c)) (deliveries c).

Definition consider (e : envelope) (c : collector) : collector :=
  if bool_decide (en_id e = "") || bool_decide (en_id e ∈ seen_ids c) then c
  else
    let c := Collector (expected c) (answers c) (seen_ids c ++ [en_id e]) (excluded c) (deliveries c) in
    match en_from e ≫= λ s, dict_get s (sender_slots c) with
    | Some s =>
        if bool_decide (en_kind e = "response") && bool_decide (en_correlation e = Some request_id)
           && negb (dict_mem s (answers c))
        then Collector (expected c)
               (dict_set s (Answer (default "" (en_from e)) (en_id e) (en_body e)
                              (is_late (deliveries c) (en_id e))) (answers c))
               (seen_ids c) (excluded c) (deliveries c)
        else exclude c
    | None => exclude c
    end.

(** [_states]: the latest row of each slot, then the expected recipients without an answer,
    each with its row, split into pending and closed. *)
Definition CLOSED_REPLY_STATES : list string := ["unanswered"; "cancelled"].

Definition latest_rows (ds : list delivery) : list (string * delivery) :=
  let slots := slots_of ds in
  foldl (λ m row,
           match dict_get (dv_id row) slots with
           | Some s => if negb (dict_mem s m) || bool_decide (is_Some (present (reassigned_from row)))
                       then dict_set s row m else m
           | None => m
           end) [] ds.

Definition is_closed (row : option delivery) : bool :=
  match row ≫= reply_state with Some s => bool_decide (s ∈ CLOSED_REPLY_STATES) | None => false end.

Definition unanswered (c : collector) : list (string * option delivery) :=
  let latest := latest_rows (deliveries c) in
  (λ r, (r, dict_get r latest)) <$> filter (λ r, dict_mem r (answers c) = false) (default [] (expected c)).

Definition pending (c : collector) : list (string * option delivery) :=
  filter (λ p, is_closed p.2 = false) (unanswered c).

Definition closed (c : collector) : list (string * option delivery) :=
  filter (λ p, is_closed p.2 = true) (unanswered c).

Inductive outcome : Type := Complete | Partial | NoReply | CancelledLocally.

#[export] Instance outcome_eq_dec : EqDecision outcome.
Proof. solve_decision. Defined.

Definition some_or_none (c : collector) : outcome :=
  match answers c with [] => NoReply | _ => Partial end.

Definition outcome_of (c : collector) : option outcome :=
  match expected c with
  | None => None
  | Some rs =>
      if forallb (λ r, dict_mem r (answers c)) rs then Some Complete
      else match pending c with [] => Some (some_or_none c) | _ => None end
  end.

(** ** One poll *)

Record page : Type := Page { messages : list envelope; next_cursor : option string }.

(** What Caura answers during one poll: the status of the request, the pages of recent
    messages by number and cursor, and the message a row's recorded reply names. *)
Record server : Type := Server {
  sv_status : result exn (option (list delivery));
  sv_recent : nat → option string → result exn (option page);
  sv_reply : nat → string → result exn (option envelope)
}.

Definition MAX_RECENT_PAGES : nat := 5.

Fixpoint read_pages (sv : server) (tries k : nat) (before : option string) (c : collector)
    : result exn collector :=
  match tries with
  | O => Ok c
  | S tries =>
      p ← sv_recent sv k before;
      match p with
      | None => Ok c
      | Some p =>
          let c := foldl (λ c e, consider e c) c (messages p) in
          match present (next_cursor p) with
          | None => Ok c
          | before => if bool_decide (outcome_of c = Some Complete) then Ok c
                      else read_pages sv tries (S k) before c
          end
      end
  end.

Definition slot_of (c : collector) (row : delivery) : option string :=
  dict_get (dv_id row) (slots_of (deliveries c)).

Fixpoint fetch_recorded_replies (sv : server) (k : nat) (rows : list delivery) (c : collector)
    : result exn collector :=
  match rows with
  | [] => Ok c
  | row :: rows =>
      let message_id := match present (reply_message_id row) with
                        | None => present (late_reply_message_id row) | o => o end in
      match message_id with
      | Some m =>
          if bool_decide (m ∈ seen_ids c)
             || match slot_of c row with Some s => dict_mem s (answers c) | None => false end
          then fetch_recorded_replies sv (S k) rows c
          else found ← sv_reply sv k m;
               fetch_recorded_replies sv (S k) rows
                 (match found with Some e => consider e c | None => c end)
      | None => fetch_recorded_replies sv (S k) rows c
      end
  end.

(** The recipients of the original deliveries, once. *)
Definition snapshot (ds : list delivery) : list string :=
  py_sorted str_leb (remove_dups
    (dv_recipient <$> filter (λ d, present (reassigned_from d) = None) ds)).

Definition poll (sv : server) (c : collector) : result exn collector :=
  status ← sv_status sv;
  let c := match status with
           | None => c
           | Some ds => Collector (match expected c with None => Some (snapshot ds) | o => o end)
                          (answers c) (seen_ids c) (excluded c) ds
           end in
  match expected c with
  | None => Ok c
  | Some _ =>
      c ← read_pages sv MAX_RECENT_PAGES 0 None c;
      fetch_recorded_replies sv 0 (deliveries c) c
  end.

(** ** The loop

    One round: what Caura answered, when the poll was done, and how the wait after it
    ended. *)
Record round : Type := Round { rd_server : server; polled_at : Z; stopped : bool; waited_until : Z }.

Fixpoint collect_loop (deadline interval max_interval : Z) (rounds : list round) (c : collector)
    : option (result exn (outcome * collector)) :=
  match rounds with
  | [] => None
  | rd :: rounds =>
      match poll (rd_server rd) c with
      | Err e => Some (Err e)
      | Ok c =>
          match outcome_of c with
          | Some o => Some (Ok (o, c))
          | None =>
              if deadline - polled_at rd <=? 0 then Some (Ok (some_or_none c, c))
              else if stopped rd then Some (Ok (CancelledLocally, c))
              else collect_loop deadline (Z.min (interval * 3 / 2) max_interval) max_interval rounds c
          end
      end
  end.

Definition second : Z := 1000000.
Definition MAX_COLLECT_SECONDS : Z := 45.
Definition poll_interval : Z := second.
Definition max_poll_interval : Z := 5 * second.

(** [collect] with the default poll intervals. *)
Definition collect (started timeout : Z) (expect : option (list string)) (rounds : list round)
    : option (result exn (outcome * collector)) :=
  collect_loop (started + timeout) poll_interval max_poll_interval rounds (collector_init expect).
End Collect.

(** ** Slots are the roots of the reassignment chains *)

(** [root by_id n id r]: following [reassigned_from] [n] times from [id] leads to a delivery
    that was not reassigned from one we know, of recipient [r]. *)
Inductive root (by_id : list (string * delivery)) : nat → string → string → Prop :=
| root_here id d :
    dict_get id by_id = Some d →
    (∀ p, present (reassigned_from d) = Some p → dict_get p by_id = None) →
    root by_id 0 id (dv_recipient d)
| root_up n id d p r :
    dict_get id by_id = Some d → present (reassigned_from d) = Some p →
    root by_id n p r → root by_id (S n) id r.

Lemma root_known by_id n id r : root by_id n id r → is_Some (dict_get id by_id).
Proof. destruct 1; eauto. Qed.

Lemma root_unique by_id n id r n' r' :
  root by_id n id r → root by_id n' id r' → n = n' ∧ r = r'.
Proof.
  intros H. revert n' r'. induction H as [id d Hd Hp|n id d p r Hd Hp H IH]; intros n' r' H';
    inversion H' as [? d' Hd' Hp'|? ? d' p' ? Hd' Hp' H'']; simplify_eq.
  - done.
  - apply root_known in H'' as [? ?]. specialize (Hp _ Hp'). congruence.
  - apply root_known in H as [? ?]. specialize (Hp' _ Hp). congruence.
  - destruct (IH _ _ H'') as [-> ->]. done.
Qed.

(** A chain is no longer than the rows. *)
Lemma root_chain by_id n id r :
  root by_id n id r →
  ∃ l, length l = S n ∧ NoDup l ∧ ∀ x, x ∈ l → x ∈ by_id.*1 ∧ ∃ m s, (m ≤ n)%nat ∧ root by_id m x s.
Proof.
  induction 1 as [id d Hd Hp|n id d p r Hd Hp H (l & Hl & Hnd & IH)].
  - exists [id]. split_and!; [done|apply NoDup_singleton|]. intros x ->%list_elem_of_singleton.
    split; [apply dict_mem_true; unfold dict_mem; by rewrite Hd|]. eauto using root.
  - assert (Hr : root by_id (S n) id r) by eauto using root.
    exists (id :: l). split_and!; [cbn; lia| |].
    + apply NoDup_cons. split; [|done]. intros Hin. destruct (IH _ Hin) as [_ (m & s & Hm & Hx)].
      destruct (root_unique _ _ _ _ _ _ Hr Hx). lia.
    + intros x [->|Hin]%elem_of_cons.
      * split; [apply dict_mem_true; unfold dict_mem; by rewrite Hd|]. eauto.
      * destruct (IH _ Hin) as [? (m & s & ? & ?)]. split; [done|]. exists m, s. split; [lia|done].
Qed.

Lemma root_depth by_id n id r : root by_id n id r → (n < length by_id)%nat.
Proof.
  intros (l & Hl & Hnd & Hin)%root_chain. rewrite <-(length_fmap fst by_id).
  pose proof (submseteq_length l (by_id.*1)) as H. rewrite Hl in H. apply H, NoDup_submseteq; [done|].
  intros x Hx. by destruct (Hin x Hx).
Qed.

(** The memo holds roots. *)
Definition memo_ok (by_id : list (string * delivery)) (slots : list (string * string)) : Prop :=
  ∀ id r, dict_get id slots = Some r → ∃ n, root by_id n id r.

Lemma memo_set by_id slots id n r :
  memo_ok by_id slots → root by_id n id r → memo_ok by_id (dict_set id r slots).
Proof.
  intros Hm Hr k v. rewrite dict_get_set. case_bool_decide as E; [|by apply Hm].
  intros [= <-]. subst. eauto.
Qed.

Definition memo_le (slots slots' : list (string * string)) : Prop :=
  ∀ id, is_Some (dict_get id slots) → is_Some (dict_get id slots').

Lemma memo_le_set slots id r : memo_le slots (dict_set id r slots).
Proof. intros k Hk. rewrite dict_get_set. by case_bool_decide. Qed.

Lemma slot_root by_id n id r fuel slots seen :
  root by_id n id r → (n ≤ fuel)%nat → r ≠ "" → memo_ok by_id slots →
  (∀ s, s ∈ seen → ∃ m s', (n < m)%nat ∧ root by_id m s s') →
  ∃ slots', slot fuel by_id slots id seen = (Some r, slots') ∧ memo_ok by_id slots'
            ∧ dict_get id slots' = Some r ∧ memo_le slots slots'.
Proof.
  intros H. revert fuel slots seen.
  induction H as [id d Hd Hp|n id d p r Hd Hp H IH]; intros fuel slots seen Hf Hne Hm Hseen.
  - assert (Hr : root by_id 0 id (dv_recipient d)) by eauto using root.
    destruct (dict_get id slots) as [s|] eqn:E.
    { destruct (Hm _ _ E) as [m Hm']. destruct (root_unique _ _ _ _ _ _ Hr Hm') as [_ <-].
      exists slots. split_and!; [by destruct fuel; cbn [slot]; rewrite E|done|done|by intros ?]. }
    exists (dict_set id (dv_recipient d) slots).
    split_and!; [|by eapply memo_set|apply dict_get_set_eq|apply memo_le_set].
    destruct fuel; cbn [slot]; rewrite E, Hd.
    + by destruct (present (reassigned_from d)).
    + destruct (present (reassigned_from d)) as [p|]; [|done].
      unfold dict_mem. by rewrite (Hp p).
  - assert (Hr : root by_id (S n) id r) by eauto using root.
    destruct (dict_get id slots) as [s|] eqn:E.
    { destruct (Hm _ _ E) as [m Hm']. destruct (root_unique _ _ _ _ _ _ Hr Hm') as [_ <-].
      exists slots. split_and!; [by destruct fuel; cbn [slot]; rewrite E|done|done|by intros ?]. }
    destruct fuel as [|fuel]; [lia|].
    destruct (IH fuel slots (seen ++ [id])) as (slots' & Hs & Hm' & Hg & Hle); [lia|done..| |].
    { intros s [Hin|Hs]%elem_of_app.
      2: { apply list_elem_of_singleton in Hs as ->. exists (S n), r. split; [lia|done]. }
      destruct (Hseen s Hin) as (m & s' & ? & ?). exists m, s'. split; [lia|done]. }
    exists (dict_set id r slots').
    split_and!; [|by eapply memo_set|apply dict_get_set_eq|].
    + cbn [slot]. rewrite E, Hd, Hp. unfold dict_mem.
      destruct (root_known _ _ _ _ H) as [dp ->]. cbn [andb].
      rewrite bool_decide_eq_false_2.
      2: { intros Hin. destruct (Hseen _ Hin) as (m & s' & Hlt & Hm'').
           destruct (root_unique _ _ _ _ _ _ H Hm''). lia. }
      cbn [negb]. rewrite Hs. by destruct r.
    + intros k Hk. rewrite dict_get_set. case_bool_decide; [done|]. by apply Hle.
Qed.

(** A delivery serves the recipient its chain of reassignments started from, however
    long the chain and in whatever order the rows come: [_slots] maps exactly the known
    deliveries, each to the recipient of its root. *)
Theorem slots_follow_reassignment ds :
  (∀ id d, dict_get id (rows_by_id ds) = Some d →
     ∃ n r, root (rows_by_id ds) n id r ∧ r ≠ "") →
  ∀ id r, dict_get id (slots_of ds) = Some r ↔ ∃ n, root (rows_by_id ds) n id r.
Proof.
  intros Hall. unfold slots_of. set (by_id := rows_by_id ds) in *. cbn zeta.
  assert (Hgen : ∀ ids slots, (∀ id, id ∈ ids → id ∈ by_id.*1) → memo_ok by_id slots →
    let slots' := foldl (λ slots id, (slot (S (length by_id)) by_id slots id []).2) slots ids in
    memo_ok by_id slots' ∧ memo_le slots slots' ∧ ∀ id, id ∈ ids → is_Some (dict_get id slots')).
  { induction ids as [|id ids IH]; intros slots Hin Hm; cbn [foldl].
    { split_and!; [done|by intros ?|by intros ? ?%elem_of_nil]. }
    assert (Hid : id ∈ by_id.*1) by (apply Hin; by left). apply dict_mem_true in Hid.
    unfold dict_mem in Hid. destruct (dict_get id by_id) as [d|] eqn:Hd; [|done].
    destruct (Hall _ _ Hd) as (n & r & Hr & Hne). pose proof (root_depth _ _ _ _ Hr).
    destruct (slot_root by_id n id r (S (length by_id)) slots [] Hr ltac:(lia) Hne Hm)
      as (slots' & Hs & Hm' & Hg & Hle); [by intros ? ?%elem_of_nil|].
    rewrite Hs. cbn [snd]. destruct (IH slots') as (H1 & H2 & H3); [intros; apply Hin; by right|done|].
    split_and!; [done| |].
    - intros k Hk. by apply H2, Hle.
    - intros k [->|Hk]%elem_of_cons; [apply H2; eauto|by apply H3]. }
  destruct (Hgen (dict_keys by_id) []) as (H1 & _ & H3); [done|by intros ? ?|].
  intros id r. split; [apply H1|]. intros [n Hr].
  destruct (root_known _ _ _ _ Hr) as [d Hd].
  destruct (H3 id) as [r' Hr']; [apply dict_mem_true; unfold dict_mem; by rewrite Hd|].
  destruct (H1 _ _ Hr') as [m Hm]. by destruct (root_unique _ _ _ _ _ _ Hr Hm) as [_ ->].
Qed.

Lemma slot_S fuel by_id slots id seen :
  slot (S fuel) by_id slots id seen =
  match dict_get id slots with
  | Some s => (Some s, slots)
  | None =>
      match dict_get id by_id with
      | None => (None, slots)
      | Some row =>
          let own slots := (Some (dv_recipient row), dict_set id (dv_recipient row) slots) in
          match present (reassigned_from row) with
          | Some parent =>
              if dict_mem parent by_id && negb (bool_decide (parent ∈ seen)) then
                let '(found, slots) := slot fuel by_id slots parent (seen ++ [id]) in
                match present found with
                | Some s => (Some s, dict_set id s slots)
                | None => own slots
                end
              else own slots
          | None => own slots
          end
      end
  end.
Proof. cbn [slot]. by repeat case_match. Qed.

(** The fuel of [slots_of] is enough on any rows, cyclic ones too: [seen] holds distinct
    known ids. *)
Lemma slot_fuel_enough by_id fuel slots id seen :
  NoDup seen → (∀ s, s ∈ seen → s ∈ by_id.*1) →
  (id ∈ seen → ∃ d, dict_get id by_id = Some d ∧ present (reassigned_from d) = Some id) →
  (length by_id < fuel + length seen)%nat →
  slot (S fuel) by_id slots id seen = slot fuel by_id slots id seen.
Proof.
  revert slots id seen. induction fuel as [|fuel IH]; intros slots id seen Hnd Hin Hid Hlen.
  { exfalso. pose proof (submseteq_length seen (by_id.*1)) as Hl. rewrite length_fmap in Hl.
    enough (length seen ≤ length by_id)%nat by lia. by apply Hl, NoDup_submseteq. }
  rewrite (slot_S (S fuel)), (slot_S fuel). destruct (dict_get id slots); [done|].
  destruct (dict_get id by_id) as [row|] eqn:Hrow; [|done].
  destruct (present (reassigned_from row)) as [p|] eqn:Hp; [|done].
  destruct (dict_mem p by_id) eqn:Hmem; [|done]. case_bool_decide as Hps; [done|]. cbn [andb negb].
  assert (Hids : id ∉ seen).
  { intros Hi. destruct (Hid Hi) as (d & Hd & Hpd). simplify_eq. done. }
  rewrite (IH slots p (seen ++ [id])); [done|..].
  - apply NoDup_app. split_and!; [done| |apply NoDup_singleton].
    intros x Hx ->%list_elem_of_singleton. done.
  - intros s [Hs|Hs]%elem_of_app; [by apply Hin|]. apply list_elem_of_singleton in Hs as ->.
    apply dict_mem_true. unfold dict_mem. by rewrite Hrow.
  - intros [|Hpi]%elem_of_app; [done|]. apply list_elem_of_singleton in Hpi as ->. eauto.
  - rewrite length_app. cbn. lia.
Qed.

Lemma dict_set_fresh {V} k (v : V) d : k ∉ d.*1 → dict_set k v d = d ++ [(k, v)].
Proof.
  induction d as [|[k' v'] d IH]; [done|]. cbn. intros [Hne Hni]%not_elem_of_cons.
  rewrite bool_decide_eq_false_2 by done. by rewrite IH.
Qed.

(** ** What a collection reports *)

Section CollectProofs.
Variable request_id : string.

(** The messages Caura showed. *)
Definition served (rounds : list round) (e : envelope) : Prop :=
  ∃ rd, rd ∈ rounds ∧
    ((∃ k before p, sv_recent (rd_server rd) k before = Ok (Some p) ∧ e ∈ messages p)
     ∨ ∃ k m, sv_reply (rd_server rd) k m = Ok (Some e)).

(** Who may answer for a slot: its recipient when it is expected, or the recipient of a
    delivery that serves it. *)
Definition may_answer (expect : list string) (ds : list delivery) (sender s : string) : Prop :=
  (sender = s ∧ s ∈ expect)
  ∨ ∃ row, row ∈ ds ∧ dv_recipient row = sender ∧ dict_get (dv_id row) (slots_of ds) = Some s.

Lemma sender_slots_sound c x s :
  dict_get x (sender_slots c) = Some s → may_answer (default [] (expected c)) (deliveries c) x s.
Proof.
  unfold sender_slots. intros H. cbn zeta in H.
  assert (Hgen : ∀ rows m,
    (∀ x s, dict_get x m = Some s → may_answer (default [] (expected c)) (deliveries c) x s) →
    (∀ row, row ∈ rows → row ∈ deliveries c) →
    ∀ x s, dict_get x (foldl (λ m row,
           match dict_get (dv_id row) (slots_of (deliveries c)) with
           | Some s => if dict_mem s m && negb (dict_mem (dv_recipient row) m)
                       then dict_set (dv_recipient row) s m else m
           | None => m
           end) m rows) = Some s → may_answer (default [] (expected c)) (deliveries c) x s).
  { clear x s H. induction rows as [|row rows IH]; intros m Hm Hin x s; cbn [foldl]; [apply Hm|].
    apply IH; [|intros; apply Hin; by right]. intros x' s'.
    destruct (dict_get (dv_id row) _) as [sl|] eqn:Hsl; [|apply Hm].
    destruct (dict_mem sl m && negb (dict_mem (dv_recipient row) m)); [|apply Hm].
    rewrite dict_get_set. case_bool_decide as Hx; [|apply Hm]. intros [= ->]. right. exists row.
    split_and!; [apply Hin; by left|done|done]. }
  eapply Hgen; [|done|exact H]. intros x' s' Hx. left.
  apply dict_get_elem in Hx. apply list_elem_of_fmap in Hx as (r & [= -> ->] & ?). done.
Qed.

(** The books of a collector. *)
Record books (ok : envelope → Prop) (c : collector) : Prop := Books {
  bk_seen : NoDup (seen_ids c);
  bk_keys : NoDup (answers c).*1;
  bk_count : (excluded c + length (answers c) = length (seen_ids c))%nat;
  bk_answers : ∀ s a, (s, a) ∈ answers c →
    ∃ e ds, ok e ∧ en_id e = an_message a ∧ en_id e ∈ seen_ids c ∧ en_kind e = "response"
      ∧ en_correlation e = Some request_id ∧ en_from e = Some (an_sender a) ∧ en_body e = an_body a
      ∧ may_answer (default [] (expected c)) ds (an_sender a) s
}.

Lemma consider_expected e c : expected (consider request_id e c) = expected c.
Proof. unfold consider, exclude. by repeat case_match. Qed.

Lemma considers_expected es c :
  expected (foldl (λ c e, consider request_id e c) c es) = expected c.
Proof. revert c. induction es as [|e es IH]; intros c; [done|]. cbn [foldl]. by rewrite IH, consider_expected. Qed.

Lemma read_pages_expected sv tries k before c c' :
  read_pages request_id sv tries k before c = Ok c' → expected c' = expected c.
Proof.
  revert k before c. induction tries as [|n IH]; intros k before c; cbn [read_pages]; [by intros [= <-]|].
  destruct (sv_recent sv k before) as [[p|]|]; cbn; [|by intros [= <-]|done].
  destruct (present (next_cursor p)); [|intros [= <-]; by rewrite considers_expected].
  case_bool_decide; [intros [= <-]; by rewrite considers_expected|].
  intros Hr%IH. by rewrite Hr, considers_expected.
Qed.

Lemma fetch_expected sv k rows c c' :
  fetch_recorded_replies request_id sv k rows c = Ok c' → expected c' = expected c.
Proof.
  revert k c. induction rows as [|row rows IH]; intros k c; cbn [fetch_recorded_replies]; [by intros [= <-]|].
  destruct (match present (reply_message_id row) with None => _ | o => o end) as [m|]; [|by intros ?%IH].
  destruct (_ || _); [by intros ?%IH|].
  destruct (sv_reply sv k m) as [[e|]|] eqn:E; cbn; [| |done]; intros Hr%IH; [|done].
  by rewrite Hr, consider_expected.
Qed.

Lemma consider_books (ok : envelope → Prop) e c :
  ok e → books ok c → books ok (consider request_id e c).
Proof.
  intros He [Hs Hk Hc Ha]. unfold consider. case_bool_decide as H1; [done|].
  case_bool_decide as H2; [done|]. cbn [orb].
  set (c1 := Collector (expected c) (answers c) (seen_ids c ++ [en_id e]) (excluded c) (deliveries c)).
  assert (Hs1 : NoDup (seen_ids c1)).
  { cbn. apply NoDup_app. split_and!; [done| |apply NoDup_singleton]. intros x Hx ->%list_elem_of_singleton. done. }
  assert (Ha1 : ∀ s a, (s, a) ∈ answers c → ∃ e ds, ok e ∧ en_id e = an_message a ∧ en_id e ∈ seen_ids c1
      ∧ en_kind e = "response" ∧ en_correlation e = Some request_id ∧ en_from e = Some (an_sender a)
      ∧ en_body e = an_body a ∧ may_answer (default [] (expected c)) ds (an_sender a) s).
  { intros s a Hin. destruct (Ha s a Hin) as (e' & ds & H). exists e', ds. cbn. rewrite elem_of_app. naive_solver. }
  assert (Hex : books ok (exclude c1)).
  { split; cbn; [done|done|rewrite length_app; cbn; lia|done]. }
  destruct (en_from e) as [sender|] eqn:Hf; cbn [mbind option_bind]; [|done].
  destruct (dict_get sender (sender_slots c1)) as [s|] eqn:Hsl; [|done].
  case_bool_decide as Hkind; [|done]. case_bool_decide as Hcor; [|done]. cbn [andb].
  destruct (dict_mem s (answers c1)) eqn:Hmem; [done|]. cbn [negb].
  assert (Hni : s ∉ (answers c).*1) by (intros Hin%dict_mem_true; cbn in Hmem; congruence).
  set (a := Answer _ _ _ _).
  assert (Hset : dict_set s a (answers c) = answers c ++ [(s, a)])
    by by apply dict_set_fresh.
  split; unfold c1; cbn [expected answers seen_ids excluded]; rewrite ?Hset.
  - done.
  - rewrite fmap_app. apply NoDup_app. split_and!; [done| |apply NoDup_singleton].
    intros x Hx ->%list_elem_of_singleton. done.
  - rewrite !length_app. cbn. lia.
  - intros s' a' [Hin|Hin]%elem_of_app; [by apply Ha1|]. apply list_elem_of_singleton in Hin as [= -> ->].
    exists e, (deliveries c). cbn. rewrite Hf. cbn. split_and!; try done.
    + apply elem_of_app. right. by left.
    + by apply (sender_slots_sound c1).
Qed.

Lemma considers_books (ok : envelope → Prop) es c :
  (∀ e, e ∈ es → ok e) → books ok c → books ok (foldl (λ c e, consider request_id e c) c es).
Proof.
  revert c. induction es as [|e es IH]; intros c Hok Hb; [done|]. cbn [foldl]. apply IH.
  - intros; apply Hok; by right.
  - apply consider_books; [apply Hok; by left|done].
Qed.

Lemma read_pages_books (ok : envelope → Prop) sv tries k before c c' :
  (∀ k b p e, sv_recent sv k b = Ok (Some p) → e ∈ messages p → ok e) →
  books ok c → read_pages request_id sv tries k before c = Ok c' → books ok c'.
Proof.
  intros Hok. revert k before c. induction tries as [|n IH]; intros k before c Hb; cbn [read_pages].
  { by intros [= <-]. }
  destruct (sv_recent sv k before) as [[p|]|] eqn:E; cbn; [|by intros [= <-]|done].
  assert (Hb' : books ok (foldl (λ c e, consider request_id e c) c (messages p))) by (apply considers_books; eauto).
  destruct (present (next_cursor p)); [|by intros [= <-]]. case_bool_decide; [by intros [= <-]|]. eauto.
Qed.

Lemma fetch_books (ok : envelope → Prop) sv k rows c c' :
  (∀ k m e, sv_reply sv k m = Ok (Some e) → ok e) →
  books ok c → fetch_recorded_replies request_id sv k rows c = Ok c' → books ok c'.
Proof.
  intros Hok. revert k c. induction rows as [|row rows IH]; intros k c Hb; cbn [fetch_recorded_replies].
  { by intros [= <-]. }
  destruct (match present (reply_message_id row) with None => _ | o => o end) as [m|]; [|eauto].
  destruct (_ || _); [eauto|].
  destruct (sv_reply sv k m) as [[e|]|] eqn:E; cbn; [| |done]; [|eauto].
  apply IH. apply consider_books; eauto.
Qed.

Lemma poll_books (ok : envelope → Prop) sv c c' :
  (∀ k b p e, sv_recent sv k b = Ok (Some p) → e ∈ messages p → ok e) →
  (∀ k m e, sv_reply sv k m = Ok (Some e) → ok e) →
  books ok c → (expected c = None → answers c = []) → poll request_id sv c = Ok c' →
  books ok c' ∧ (expected c' = None → answers c' = []).
Proof.
  intros H1 H2 Hb Hne. unfold poll. destruct (sv_status sv) as [st|]; cbn [mbind result_bind]; [|done].
  set (c1 := match st with Some _ => _ | None => c end).
  assert (Hb1 : books ok c1 ∧ (expected c1 = None → answers c1 = [])).
  { destruct st as [ds|]; [|done]. destruct Hb as [Hs Hk Hc Ha]. subst c1. split; cbn.
    - split; cbn; [done..|]. intros s a Hin. destruct (Ha s a Hin) as (e & ds' & H).
      destruct (expected c) as [x|] eqn:E; [eauto|by rewrite Hne in Hin by done; apply elem_of_nil in Hin].
    - by destruct (expected c). }
  clearbody c1. destruct Hb1 as [Hb1 Hne1]. destruct (expected c1) as [x|] eqn:E.
  - destruct (read_pages request_id sv MAX_RECENT_PAGES 0 None c1) as [c2|] eqn:E2; cbn [mbind result_bind]; [|done]. intros E3. split.
    + eapply fetch_books; [done| |done]. by eapply read_pages_books.
    + apply fetch_expected in E3. apply read_pages_expected in E2. by rewrite E3, E2, E.
  - intros [= <-]. by rewrite E.
Qed.

Lemma collect_loop_books (ok : envelope → Prop) deadline interval max_interval rounds c o c' :
  (∀ e, served rounds e → ok e) →
  books ok c → (expected c = None → answers c = []) →
  collect_loop request_id deadline interval max_interval rounds c = Some (Ok (o, c')) →
  books ok c'
  ∧ (outcome_of c' = Some o ∨ outcome_of c' = None ∧ (o = some_or_none c' ∨ o = CancelledLocally)).
Proof.
  revert interval c. induction rounds as [|rd rounds IH]; intros interval c Hok Hb Hne; cbn [collect_loop]; [done|].
  destruct (poll request_id (rd_server rd) c) as [c1|] eqn:Hp; [|done].
  apply (poll_books ok) in Hp as [Hb1 Hne1]; [| | |done..].
  2: { intros k b p e Hr He. apply Hok. exists rd. split; [by left|]. left. eauto. }
  2: { intros k m e He. apply Hok. exists rd. split; [by left|]. right. eauto. }
  destruct (outcome_of c1) as [o1|] eqn:Ho; [intros [= <- <-]; auto|].
  destruct (_ <=? 0); [intros [= <- <-]; auto|]. destruct (stopped rd); [intros [= <- <-]; auto|].
  apply IH; [|done..]. intros e (rd' & Hin & He). apply Hok. exists rd'. split; [by right|done].
Qed.

Lemma unanswered_spec c r :
  r ∈ (unanswered c).*1 ↔ r ∈ default [] (expected c) ∧ dict_mem r (answers c) = false.
Proof.
  unfold unanswered. rewrite <-list_fmap_compose. cbn. rewrite list_elem_of_fmap.
  setoid_rewrite list_elem_of_filter. naive_solver.
Qed.

Lemma unanswered_row c r row : (r, row) ∈ unanswered c → row = dict_get r (latest_rows (deliveries c)).
Proof. unfold unanswered. by intros (? & [= -> ->] & _)%list_elem_of_fmap. Qed.

Lemma pending_or_closed c r :
  r ∈ default [] (expected c) → dict_mem r (answers c) = false →
  (r ∈ (pending c).*1 ∧ r ∉ (closed c).*1) ∨ (r ∉ (pending c).*1 ∧ r ∈ (closed c).*1).
Proof.
  intros He Ha. assert (Hu : r ∈ (unanswered c).*1) by by apply unanswered_spec.
  apply list_elem_of_fmap in Hu as ([r' row] & -> & Hu). cbn.
  unfold pending, closed. destruct (is_closed row) eqn:E; [right|left]; split.
  1,4: intros ([r2 row2] & Hr & [Hc Hin]%list_elem_of_filter)%list_elem_of_fmap; cbn in *; subst r2;
       apply unanswered_row in Hin as ->; apply unanswered_row in Hu as ->; congruence.
  all: apply list_elem_of_fmap; exists (r', row); split; [done|]; by apply list_elem_of_filter.
Qed.


(** ** A collection ends *)

(** The clock of the rounds: a wait that was not stopped lasts as long as it was asked
    to. *)
Fixpoint timed (deadline now interval max_interval : Z) (rounds : list round) : Prop :=
  match rounds with
  | [] => True
  | rd :: rounds =>
      now ≤ polled_at rd
      ∧ polled_at rd + Z.min interval (deadline - polled_at rd) ≤ waited_until rd
      ∧ timed deadline (waited_until rd) (Z.min (interval * 3 / 2) max_interval) max_interval rounds
  end.

Lemma collect_loop_ends deadline now interval max_interval k rounds c :
  second ≤ interval → second ≤ max_interval → timed deadline now interval max_interval rounds →
  deadline - now ≤ Z.of_nat k * second → (k < length rounds)%nat →
  is_Some (collect_loop request_id deadline interval max_interval rounds c).
Proof.
  revert now interval k c. induction rounds as [|rd rounds IH]; intros now interval k c Hi Hm Ht Hd Hl; [cbn in Hl; lia|].
  cbn [collect_loop]. destruct Ht as (Hnow & Hw & Ht).
  destruct (poll request_id (rd_server rd) c) as [c1|]; [|eauto]. destruct (outcome_of c1); [eauto|].
  destruct (Z.leb_spec (deadline - polled_at rd) 0); [eauto|]. destruct (stopped rd); [eauto|].
  unfold second in *. destruct k as [|k]; [lia|]. cbn [length] in Hl.
  eapply (IH (waited_until rd) _ k); [|done|done| |lia].
  - apply Z.min_glb; [|done]. apply Z.div_le_lower_bound; lia.
  - lia.
Qed.

(** A collection ends by itself: whatever Caura answers or fails to answer, it has
    returned or raised after at most 46 polls, one a second at most over the 45 seconds a
    caller may ask for. *)
Theorem collection_ends start timeout expect rounds :
  0 ≤ timeout ≤ MAX_COLLECT_SECONDS * second →
  timed (start + timeout) start poll_interval max_poll_interval rounds →
  (46 ≤ length rounds)%nat →
  is_Some (collect request_id start timeout expect rounds).
Proof.
  intros Ht Htimed Hl. unfold collect. eapply (collect_loop_ends _ start _ _ 45); [done|done|done| |lia].
  unfold MAX_COLLECT_SECONDS, second in *. lia.
Qed.
End CollectProofs.

(** ** Examples *)

Definition row (id recipient : string) (parent : option string) (state : string) : delivery :=
  Delivery id recipient parent (Some state) None None false.

Definition response (id sender : string) : envelope :=
  Envelope id (Some sender) "response" (Some "req") "done".

(** A request to [a] and [c]; [a]'s delivery was reassigned to [b], then to [d]. *)
Definition chain : list delivery :=
  [row "3" "d" (Some "2") "awaiting"; row "2" "b" (Some "1") "cancelled";
   row "1" "a" None "cancelled"; row "4" "c" None "awaiting"].

Lemma slots_follow_reassignment_witness :
  slots_of chain = [("1", "a"); ("2", "a"); ("3", "a"); ("4", "c")]
  ∧ ∀ id r, dict_get id (slots_of chain) = Some r ↔ ∃ n, root (rows_by_id chain) n id r.
Proof.
  split; [vm_compute; reflexivity|].
  refine (slots_follow_reassignment chain _). intros id d Hd.
  assert (H1 : root (rows_by_id chain) 0 "1" "a") by (eapply (root_here _ "1" (row "1" "a" None "cancelled")); [done|by intros]).
  assert (H2 : root (rows_by_id chain) 1 "2" "a") by by eapply root_up.
  assert (H3 : root (rows_by_id chain) 2 "3" "a") by by eapply root_up.
  assert (H4 : root (rows_by_id chain) 0 "4" "c") by (eapply (root_here _ "4" (row "4" "c" None "awaiting")); [done|by intros]).
  apply dict_get_elem in Hd. vm_compute in Hd.
  repeat (apply elem_of_cons in Hd as [[= -> _]|Hd]; [by eauto|]). by apply elem_of_nil in Hd.
Defined.

Definition answering (ds : list delivery) (es : list envelope) : server :=
  Server (Ok (Some ds)) (λ _ _, Ok (Some (Page es None))) (λ _ _, Ok None).

Definition unreachable_server : server := Server (Ok None) (λ _ _, Ok None) (λ _ _, Ok None).

(** Caura is unreachable, then shows [d]'s answer and a stranger's, then [c]'s. *)
Definition three_rounds : list round :=
  [Round unreachable_server 100 false 1000100;
   Round (answering chain [response "m1" "d"; response "m2" "mallory"]) 1000200 false 2500200;
   Round (answering chain [response "m3" "c"; response "m1" "d"]) 2500300 false 0].

Definition answered_by (r : option (result exn (outcome * collector)))
    : option (outcome * list (string * string) * nat) :=
  match r with
  | Some (Ok (o, c)) => Some (o, (λ p, (p.1, an_sender p.2)) <$> answers c, excluded c)
  | _ => None
  end.


(** Caura never answers: 46 rounds of waits a second and more apart. *)
Fixpoint idle_rounds (n : nat) (now : Z) : list round :=
  match n with
  | O => []
  | S n => Round unreachable_server now false (now + 5 * second) :: idle_rounds n (now + 5 * second)
  end.

Lemma collection_ends_witness :
  length (idle_rounds 46 0) = 46%nat
  ∧ is_Some (collect "req" 0 (45 * second) None (idle_rounds 46 0)).
Proof.
  split; [reflexivity|].
  refine (collection_ends "req" 0 (45 * second) None (idle_rounds 46 0) _ _ _).
  - unfold MAX_COLLECT_SECONDS, second. lia.
  - vm_compute. repeat split; intros [=].
  - apply Nat.leb_le. reflexivity.
Defined.

(** A delivery reassigned to someone who is expected anyway: the second answer of [c] is
    excluded, and [a] is never completed. *)
Example reassigned_to_expected :
  let ds := [row "1" "a" None "cancelled"; row "2" "c" (Some "1") "awaiting"; row "3" "c" None "awaiting"] in
  let c := foldl (λ c e, consider "req" e c) (Collector (Some ["a"; "c"]) [] [] 0 ds)
             [response "m1" "c"; response "m2" "c"] in
  ((answers c).*1, excluded c, outcome_of c) = (["c"], 1%nat, None).
Proof. vm_compute. reflexivity. Qed.

(** A caller that expects only [a] can be given the answer of a recipient it did not name. *)
Example unexpected_recipient_answered :
  let ds := [row "1" "a" None "cancelled"; row "2" "c" (Some "1") "awaiting";
             row "3" "c" None "cancelled"; row "4" "d" (Some "3") "awaiting"] in
  let c := consider "req" (response "m1" "d") (Collector (Some ["a"]) [] [] 0 ds) in
  (answers c).*1 = ["c"].
Proof. vm_compute. reflexivity. Qed.
