(* ===== verification/BusClient.v ===== *)
(** * The collaboration bus client

    [clients/collaboration/core/src/caura_bus_core/bus.py] with [retry.py]: one request
    with its retries ([Bus.request]), the directory listing ([_all_pages]) and the live
    event stream ([Bus.events]); and [process_delivery] of the adapter SDK, which settles a
    claimed delivery.

    What the server answers is an argument. Delays are in milliseconds, without the
    random part the code adds. *)

From S2P Require Import Prelude PyVal.

Local Open Scope Z_scope.

(** ** One request *)

Definition transient_status (status : Z) : bool := (status =? 429) || ((500 <=? status) && (status <? 600)).

Definition is_success (status : Z) : bool := (200 <=? status) && (status <? 300).

(** How one attempt ends: the body is [None] when it is not JSON, [retry_after] is the
    header read as a number of milliseconds. *)
Inductive attempt_end : Type :=
| TransportFailure
| Responded (status : Z) (body : option pyval) (retry_after : option Z).

Inductive bus_exn : Type := TransportError | PlatformError (status : Z).

#[export] Instance bus_exn_eq_dec : EqDecision bus_exn.
Proof. solve_decision. Defined.

Definition RETRY_AFTER_CAP : Z := 5000.

Definition retry_after_delay (header : option Z) : option Z :=
  match header with
  | Some s => if s <? 0 then None else Some (Z.min s RETRY_AFTER_CAP)
  | None => None
  end.

Definition attempt_limit : nat := 3.

(** The loop from attempt [k] on, over what the attempts end with: the delays slept and
    the outcome; [None] when the list is too short. *)
Fixpoint request_loop (retry_safe : bool) (k : nat) (ends : list attempt_end)
    : option (list Z * result bus_exn pyval) :=
  match ends with
  | [] => None
  | e :: ends =>
      let last := negb retry_safe || (k =? attempt_limit - 1)%nat in
      let retry hinted :=
        let delay := 250 * 2 ^ Z.of_nat k in
        let delay := match hinted with Some h => Z.max delay h | None => delay end in
        '(ds, r) ← request_loop retry_safe (S k) ends; Some (delay :: ds, r) in
      match e with
      | TransportFailure => if last then Some ([], Err TransportError) else retry None
      | Responded status body header =>
          if is_success status then
            Some ([], match body with Some v => Ok v | None => Err (PlatformError status) end)
          else if negb (transient_status status) || last then Some ([], Err (PlatformError status))
          else retry (retry_after_delay header)
      end
  end.

Definition request (retry_safe : bool) (ends : list attempt_end) : option (list Z * result bus_exn pyval) :=
  request_loop retry_safe 0 ends.

(** What one attempt's end means for the caller. *)
Definition outcome_of_attempt (e : attempt_end) : result bus_exn pyval :=
  match e with
  | TransportFailure => Err TransportError
  | Responded status body _ =>
      if is_success status then match body with Some v => Ok v | None => Err (PlatformError status) end
      else Err (PlatformError status)
  end.

Definition may_retry (e : attempt_end) : bool :=
  match e with TransportFailure => true | Responded s _ _ => negb (is_success s) && transient_status s end.

Lemma request_loop_spec safe k ends ds r :
  (k < attempt_limit)%nat → request_loop safe k ends = Some (ds, r) →
  ∃ e, ends !! length ds = Some e ∧ r = outcome_of_attempt e
    ∧ Forall (λ e, may_retry e = true) (take (length ds) ends)
    ∧ (length ds + k < attempt_limit)%nat ∧ (safe = false → ds = [])
    ∧ Forall (λ d, 250 ≤ d ≤ RETRY_AFTER_CAP) ds.
Proof.
  revert k ds r. induction ends as [|e ends IH]; intros k ds r Hk; cbn [request_loop]; [done|].
  set (last := negb safe || _).
  assert (Hstop : ∀ r', r' = outcome_of_attempt e → Some ([], r') = Some (ds, r) →
    ∃ e', (e :: ends) !! length ds = Some e' ∧ r = outcome_of_attempt e'
    ∧ Forall (λ e, may_retry e = true) (take (length ds) (e :: ends))
    ∧ (length ds + k < attempt_limit)%nat ∧ (safe = false → ds = [])
    ∧ Forall (λ d, 250 ≤ d ≤ RETRY_AFTER_CAP) ds).
  { intros r' -> [= <- <-]. exists e. split_and!; try done; by constructor. }
  assert (Hretry : ∀ delay, last = false → may_retry e = true → 250 ≤ delay ≤ RETRY_AFTER_CAP →
    ('(ds, r) ← request_loop safe (S k) ends; Some (delay :: ds, r)) = Some (ds, r) →
    ∃ e', (e :: ends) !! length ds = Some e' ∧ r = outcome_of_attempt e'
    ∧ Forall (λ e, may_retry e = true) (take (length ds) (e :: ends))
    ∧ (length ds + k < attempt_limit)%nat ∧ (safe = false → ds = [])
    ∧ Forall (λ d, 250 ≤ d ≤ RETRY_AFTER_CAP) ds).
  { intros delay Hlast He Hd. destruct (request_loop safe (S k) ends) as [[ds' r']|] eqn:E; cbn; [|done].
    intros [= <- <-]. unfold last in Hlast. apply orb_false_iff in Hlast as [Hs Hk'].
    apply negb_false_iff in Hs. apply Nat.eqb_neq in Hk'. unfold attempt_limit in *.
    destruct (IH (S k) _ _ ltac:(lia) E) as (e' & H1 & H2 & H3 & H4 & H5 & H6).
    exists e'. cbn [length lookup list_lookup take]. split_and!; [done|done| |lia|by rewrite Hs|].
    - by constructor.
    - by constructor. }
  assert (H250 : 250 ≤ 250 * 2 ^ Z.of_nat k ≤ RETRY_AFTER_CAP).
  { unfold attempt_limit in Hk. destruct k as [|[|[|]]]; [done..|lia]. }
  clearbody last. destruct e as [|status body header].
  - destruct last; [by apply Hstop|]. by apply Hretry.
  - unfold may_retry, outcome_of_attempt in *. destruct (is_success status); [by apply Hstop|].
    destruct (transient_status status) eqn:Ht; cbn [negb orb]; [|by apply Hstop].
    destruct last; [by apply Hstop|]. apply Hretry; [done|done|].
    unfold retry_after_delay. destruct header as [h|]; [|done]. destruct (h <? 0); [done|]. lia.
Qed.

Lemma request_loop_ends safe k ends :
  (k < attempt_limit)%nat → (attempt_limit - k ≤ length ends)%nat → is_Some (request_loop safe k ends).
Proof.
  revert k. induction ends as [|e ends IH]; intros k Hk Hl; [unfold attempt_limit in *; cbn in Hl; lia|]. cbn [request_loop length] in *.
  destruct (negb safe || (k =? attempt_limit - 1)%nat) eqn:Hlast.
  { destruct e as [|s b h]; [eauto|]. destruct (is_success s); [eauto|]. rewrite orb_true_r. eauto. }
  apply orb_false_iff in Hlast as [_ Hk'%Nat.eqb_neq].
  destruct (IH (S k)) as [[ds r] Hr]; [unfold attempt_limit in *; lia..|].
  destruct e as [|s b h]; [rewrite Hr; cbn; eauto|]. destruct (is_success s); [eauto|].
  destruct (negb (transient_status s)); [eauto|]. cbn [orb]. rewrite Hr. cbn. eauto.
Qed.

(** A call to the bus is sent at most three times, and exactly once when it has no
    durable idempotency; it ends with the answer of its last attempt, every earlier one
    having failed in transport or with 429 or 5xx, and it waits between a quarter of a
    second and five seconds each time, whatever Retry-After says. *)
Theorem request_bounded retry_safe ends :
  (attempt_limit ≤ length ends)%nat →
  ∃ ds r e, request retry_safe ends = Some (ds, r)
    ∧ ends !! length ds = Some e ∧ r = outcome_of_attempt e
    ∧ Forall (λ e, may_retry e = true) (take (length ds) ends)
    ∧ (length ds < attempt_limit)%nat ∧ (retry_safe = false → ds = [])
    ∧ Forall (λ d, 250 ≤ d ≤ RETRY_AFTER_CAP) ds.
Proof.
  intros Hl. assert (Hret : is_Some (request retry_safe ends)) by (apply request_loop_ends; [unfold attempt_limit; lia|lia]).
  destruct Hret as [[ds r] H]. destruct (request_loop_spec retry_safe 0 ends ds r) as (e & H1 & H2 & H3 & H4 & H5 & H6);
    [unfold attempt_limit; lia|done|].
  exists ds, r, e. split_and!; try done. lia.
Qed.

(** ** The directory *)

Definition DIRECTORY_PAGE_MAX : Z := 500.
Definition DIRECTORY_MAX_PAGES : nat := 200.

Definition page_size (limit : pyval) : result exn Z :=
  match limit with
  | PInt n => if (1 <=? n) && (n <=? DIRECTORY_PAGE_MAX) then Ok n
              else Err (PyError "ValueError" "limit must be between 1 and 500")
  | _ => Err (PyError "ValueError" "limit must be between 1 and 500")
  end.

Inductive dir_exn : Type := FetchFailed (e : bus_exn) | DirectoryIncomplete.

Section Directory.
Context {A : Type}.

(** What the server answers to a page request: the agents of the page and the cursor of
    the next. *)
Variable fetch : option string → result bus_exn (list A * option string).

Fixpoint all_pages_from (max_pages : nat) (cursor : option string) (agents : list A)
    : result dir_exn (list A) :=
  match max_pages with
  | O => Err DirectoryIncomplete
  | S n =>
      match fetch cursor with
      | Err e => Err (FetchFailed e)
      | Ok (page, next) =>
          match next with
          | None => Ok (agents ++ page)
          | Some _ => all_pages_from n next (agents ++ page)
          end
      end
  end.

Definition all_pages (max_pages : nat) : result dir_exn (list A) := all_pages_from max_pages None [].

(** The directory behind the pages: following the cursors from one, [n] pages to the
    last. *)
Inductive listing : option string → nat → list A → Prop :=
| last_page cursor page : fetch cursor = Ok (page, None) → listing cursor 1 page
| more_pages cursor page next n rest :
    fetch cursor = Ok (page, Some next) → listing (Some next) n rest → listing cursor (S n) (page ++ rest).

(** A full listing is all of the directory or an error: it returns the pages up to the
    last one, in order, exactly when there are at most [max_pages] of them; a directory
    that does not end there is [DirectoryIncomplete], never a shortened list. *)
Theorem full_listing_is_complete max_pages agents :
  all_pages max_pages = Ok agents ↔ ∃ n, (n ≤ max_pages)%nat ∧ listing None n agents.
Proof.
  unfold all_pages.
  assert (Hgen : ∀ cursor acc agents, all_pages_from max_pages cursor acc = Ok agents ↔
    ∃ n rest, (n ≤ max_pages)%nat ∧ listing cursor n rest ∧ agents = acc ++ rest).
  { clear agents. induction max_pages as [|m IH]; intros cursor acc agents; cbn [all_pages_from].
    - split; [done|]. intros (n & rest & Hn & Hl & _). inversion Hl; lia.
    - destruct (fetch cursor) as [[page [next|]]|e] eqn:E.
      + rewrite IH. split.
        * intros (n & rest & Hn & Hl & ->). exists (S n), (page ++ rest).
          split_and!; [lia|by eapply more_pages|by rewrite app_assoc].
        * intros (n & rest & Hn & Hl & ->). inversion Hl as [? ? E2|? ? ? ? ? E2]; subst;
            rewrite E in E2; simplify_eq.
          eexists _, _. split_and!; [|done|by rewrite app_assoc]. lia.
      + split.
        * intros [= <-]. exists 1%nat, page. split_and!; [lia|by constructor|done].
        * intros (n & rest & _ & Hl & ->). inversion Hl as [? ? E2|? ? ? ? ? E2]; subst;
            rewrite E in E2; by simplify_eq.
      + split; [done|]. intros (n & rest & _ & Hl & _). inversion Hl as [? ? E2|? ? ? ? ? E2]; subst;
            rewrite E in E2; by simplify_eq. }
  rewrite Hgen. naive_solver.
Qed.
End Directory.

(** ** The event stream *)

(** One event of the log; a resync says from where the stream goes on. *)
Record log_event : Type := LogEvent { seq : Z; body : pyval }.

(** What the reload over REST ends with: fresh state, a failure that may pass (a transient
    status, or the transport), or a refusal. *)
Inductive reload : Type := Reloaded | ReloadFailed | ReloadRefused (status : Z).

(** A line of the stream: an event, a resync marker with its reload, a frame that is not an
    event, or a line that is no frame. *)
Inductive line : Type :=
| Event (e : log_event)
| Resync (at_seq : Z) (resume_after : option Z) (r : reload)
| Garbled
| Comment.

(** What the consumer is handed. *)
Inductive handed : Type := HEvent (e : log_event) | HResync (resume : Z).

Record stream_state : Type := StreamState { cursor : Z; handed_over : list handed }.

Definition resume_of (at_seq : Z) (resume_after : option Z) : Z := default at_seq resume_after.

(** The lines of one connection: the state, and the refusal that ends the stream. *)
Fixpoint read_lines (lines : list line) (s : stream_state) : stream_state * option Z :=
  match lines with
  | [] => (s, None)
  | Comment :: lines => read_lines lines s
  | Garbled :: _ => (s, None)
  | Event e :: lines => read_lines lines (StreamState (seq e) (handed_over s ++ [HEvent e]))
  | Resync at_seq resume r :: lines =>
      match r with
      | Reloaded => let to := resume_of at_seq resume in
                    read_lines lines (StreamState to (handed_over s ++ [HResync to]))
      | ReloadFailed => (s, None)
      | ReloadRefused status => (s, Some status)
      end
  end.

(** One connection: what the server sends after a cursor until the connection ends, however
    it ends; or the status it refuses it with. *)
Inductive connection : Type := Stream (lines : Z → list line) | Status (status : Z) | NoConnection.

Definition connect (c : connection) (s : stream_state) : stream_state * option Z :=
  match c with
  | Stream lines => read_lines (lines (cursor s)) s
  | Status status => if transient_status status then (s, None) else (s, Some status)
  | NoConnection => (s, None)
  end.

(** [events]: one connection after another, until one is refused. *)
Fixpoint events (cs : list connection) (s : stream_state) : stream_state * option Z :=
  match cs with
  | [] => (s, None)
  | c :: cs => match connect c s with
               | (s, None) => events cs s
               | (s, Some status) => (s, Some status)
               end
  end.

(** What Caura promises of a stream: it sends the log after the cursor, in order; a resync
    marker may replace part of it, and resumes no earlier than the cursor; after a frame
    that was cut, anything. *)
Section Log.
Variable log : list log_event.

Definition next_event (after : Z) : option log_event := head (filter (λ e, after < seq e) log).

Inductive sends : Z → list line → Prop :=
| sends_nil after : sends after []
| sends_comment after ls : sends after ls → sends after (Comment :: ls)
| sends_garbled after ls : sends after (Garbled :: ls)
| sends_event after e ls : next_event after = Some e → sends (seq e) ls → sends after (Event e :: ls)
| sends_resync after at_seq resume r ls :
    after ≤ resume_of at_seq resume → sends (resume_of at_seq resume) ls →
    sends after (Resync at_seq resume r :: ls).

Definition honest (c : connection) : Prop :=
  match c with Stream lines => ∀ after, sends after (lines after) | _ => True end.

(** The consumer saw everything from [after] to [upto]: each event in turn, or a resync
    that spans what it did not see. *)
Inductive seen_all : Z → list handed → Z → Prop :=
| seen_none after : seen_all after [] after
| seen_event after e hs upto :
    next_event after = Some e → seen_all (seq e) hs upto → seen_all after (HEvent e :: hs) upto
| seen_resync after resume hs upto :
    after ≤ resume → seen_all resume hs upto → seen_all after (HResync resume :: hs) upto.

Lemma seen_all_app after hs1 mid hs2 upto :
  seen_all after hs1 mid → seen_all mid hs2 upto → seen_all after (hs1 ++ hs2) upto.
Proof. induction 1; cbn; eauto using seen_all. Qed.

Lemma read_lines_seen after lines s :
  sends (cursor s) lines → seen_all after (handed_over s) (cursor s) →
  let s' := (read_lines lines s).1 in seen_all after (handed_over s') (cursor s').
Proof.
  revert s. induction lines as [|l lines IH]; intros s Hs Ha; [done|].
  inversion Hs; subst; cbn [read_lines]; cbn zeta.
  - by apply IH.
  - done.
  - apply IH; [done|]. eapply seen_all_app; [done|]. by repeat econstructor.
  - destruct r; [|done|done]. apply IH; [done|]. eapply seen_all_app; [done|]. by repeat econstructor.
Qed.

Lemma connect_seen after c s :
  honest c → seen_all after (handed_over s) (cursor s) →
  let s' := (connect c s).1 in seen_all after (handed_over s') (cursor s').
Proof.
  intros Hc Ha. destruct c as [lines|status|]; cbn [connect]; [|by destruct (transient_status status)|done].
  apply read_lines_seen; [apply Hc|done].
Qed.

Definition gap (after : Z) (hs : list handed) (x : Z) : Prop :=
  ∃ hs1 resume hs2 lo, hs = hs1 ++ HResync resume :: hs2 ∧ seen_all after hs1 lo ∧ lo < x ≤ resume.

Lemma next_event_spec after e :
  StronglySorted (λ a b, seq a < seq b) log → next_event after = Some e →
  e ∈ log ∧ after < seq e ∧ ∀ x, x ∈ log → after < seq x → seq e ≤ seq x ∧ (seq x = seq e → x = e).
Proof.
  unfold next_event. induction log as [|a l IH]; [done|]. intros [Hl Ha]%StronglySorted_inv.
  rewrite filter_cons. case_decide as Hlt; cbn [head].
  - intros [= ->]. split_and!; [by left|done|]. intros x [->|Hx]%elem_of_cons Hgt; [done|].
    rewrite Forall_forall in Ha. specialize (Ha x Hx). lia.
  - intros H. destruct (IH Hl H) as (H1 & H2 & H3). split_and!; [by right|done|].
    intros x [->|Hx]%elem_of_cons Hgt; [lia|by apply H3].
Qed.

Lemma seen_all_mono after hs upto :
  StronglySorted (λ a b, seq a < seq b) log → seen_all after hs upto → after ≤ upto.
Proof.
  intros Hl. induction 1 as [|after e hs upto Hn _ IH|]; [lia| |lia].
  destruct (next_event_spec _ _ Hl Hn) as (_ & ? & _). lia.
Qed.

Lemma seen_all_covers after hs upto e :
  StronglySorted (λ a b, seq a < seq b) log → seen_all after hs upto →
  e ∈ log → after < seq e ≤ upto → HEvent e ∈ hs ∨ gap after hs (seq e).
Proof.
  intros Hl. induction 1 as [after|after x hs upto Hn H IH|after resume hs upto Hle H IH]; intros Hin Hr; [lia| |].
  - destruct (next_event_spec _ _ Hl Hn) as (_ & _ & Hmin). destruct (Hmin e Hin) as [Hxe Heq]; [lia|].
    destruct (decide (seq e = seq x)) as [E|]; [rewrite (Heq E); left; by left|].
    destruct IH as [|(hs1 & r & hs2 & lo & -> & Hs & Hlo)]; [done|lia|left; by right|].
    right. exists (HEvent x :: hs1), r, hs2, lo. split_and!; [done|by econstructor|lia..].
  - destruct (decide (seq e ≤ resume)).
    { right. exists [], resume, hs, after. split_and!; [done|constructor|lia..]. }
    destruct IH as [|(hs1 & r & hs2 & lo & -> & Hs & Hlo)]; [done|lia|left; by right|].
    right. exists (HResync resume :: hs1), r, hs2, lo. split_and!; [done|by econstructor|lia..].
Qed.

Definition handed_seqs (hs : list handed) : list Z :=
  omap (λ h, match h with HEvent e => Some (seq e) | HResync _ => None end) hs.

Lemma seen_all_increasing after hs upto :
  StronglySorted (λ a b, seq a < seq b) log → seen_all after hs upto →
  StronglySorted Z.lt (handed_seqs hs) ∧ Forall (λ x, after < x) (handed_seqs hs).
Proof.
  intros Hl. induction 1 as [|after x hs upto Hn H [IH1 IH2]|after resume hs upto Hle H [IH1 IH2]].
  - split; constructor.
  - destruct (next_event_spec _ _ Hl Hn) as (_ & Hgt & _). cbn. split.
    + by constructor.
    + constructor; [done|]. eapply Forall_impl; [done|]. cbn. lia.
  - cbn. split; [done|]. eapply Forall_impl; [done|]. cbn. lia.
Qed.

(** C28: the live stream skips nothing and repeats nothing, however often it breaks: over
    any connections, cut anywhere, garbled, refused or resynchronised, each event of the
    log between the first cursor and the current one was handed over, or lies in a gap a
    resync told the consumer about; and what was handed over is in the order of the log,
    each event once. *)
Theorem stream_loses_nothing cs after :
  StronglySorted (λ a b, seq a < seq b) log → Forall honest cs →
  let s := (events cs (StreamState after [])).1 in
  (∀ e, e ∈ log → after < seq e ≤ cursor s →
     HEvent e ∈ handed_over s ∨ gap after (handed_over s) (seq e))
  ∧ StronglySorted Z.lt (handed_seqs (handed_over s)) ∧ after ≤ cursor s.
Proof.
  intros Hl Hc s. assert (Hs : seen_all after (handed_over s) (cursor s)).
  { subst s. assert (Ha : seen_all after (handed_over (StreamState after [])) (cursor (StreamState after [])))
      by constructor.
    revert Ha. generalize (StreamState after []). induction Hc as [|c cs Hc Hcs IH]; intros s Ha; [done|].
    cbn [events]. pose proof (connect_seen after c s Hc Ha) as H. destruct (connect c s) as [s' [status|]]; [done|].
    by apply IH. }
  split_and!; [intros e; by apply seen_all_covers|by eapply seen_all_increasing|by eapply seen_all_mono].
Qed.
End Log.

(** ** Waiting for a delivery *)

(** How one short poll ends, with the clock after it. *)
Inductive poll_end (D : Type) : Type :=
| Data (delivery : option D) (notices : list pyval)
| Refused (status : Z)
| Unreachable.
Arguments Data {D}.
Arguments Refused {D}.
Arguments Unreachable {D}.

(** [wait_result]: polls until there is something to hand over or the time is up. A wait
    without time ends after one poll. *)
Fixpoint wait_loop {D} (deadline timeout : Z) (responded : bool) (polls : list (poll_end D * Z))
    : option (result bus_exn (option D * list pyval)) :=
  match polls with
  | [] => None
  | (p, now) :: polls =>
      let go_on responded :=
        if (deadline - now <=? 0) || (timeout =? 0)
        then Some (if responded : bool then Ok (None, []) else Err (PlatformError 503))
        else wait_loop deadline timeout responded polls in
      match p with
      | Data (Some d) ns => Some (Ok (Some d, ns))
      | Data None [] => go_on true
      | Data None ns => Some (Ok (None, ns))
      | Refused status => if status <? 500 then Some (Err (PlatformError status)) else go_on responded
      | Unreachable => go_on responded
      end
  end.

Definition wait_result {D} (start timeout : Z) (polls : list (poll_end D * Z)) :=
  wait_loop (start + timeout) timeout false polls.

(** A wait hands over what a poll delivered, and answers "nothing" only when Caura said so
    at least once: an outage is an error, never an empty inbox. *)
Theorem wait_never_hides_an_outage {D} start timeout (polls : list (poll_end D * Z)) :
  match wait_result start timeout polls with
  | Some (Ok (Some d, ns)) => ∃ now, (Data (Some d) ns, now) ∈ polls
  | Some (Ok (None, ns)) => ∃ now, (Data None ns, now) ∈ polls
  | _ => True
  end.
Proof.
  unfold wait_result.
  assert (H : ∀ b, match wait_loop (start + timeout) timeout b polls with
    | Some (Ok (Some d, ns)) => ∃ now, (Data (Some d) ns, now) ∈ polls
    | Some (Ok (None, ns)) => (b = true ∧ ns = []) ∨ ∃ now, (Data None ns, now) ∈ polls
    | _ => True
    end).
  { generalize (start + timeout) as deadline. induction polls as [|[p now] polls IH]; intros deadline b; [done|].
    assert (Hgo : ∀ b', (b' = true → b = true ∨ (Data None [], now) ∈ (p, now) :: polls) →
      match (if (deadline - now <=? 0) || (timeout =? 0) then Some (if b' : bool then Ok (None, []) else Err (PlatformError 503))
             else wait_loop deadline timeout b' polls) with
      | Some (Ok (Some d, ns)) => ∃ now0, (Data (Some d) ns, now0) ∈ (p, now) :: polls
      | Some (Ok (None, ns)) => (b = true ∧ ns = []) ∨ ∃ now0, (Data None ns, now0) ∈ (p, now) :: polls
      | _ => True
      end).
    { intros b' Hb. destruct (_ || _).
      - destruct b'; [|done]. destruct (Hb eq_refl) as [->|]; eauto.
      - specialize (IH deadline b'). destruct (wait_loop deadline timeout b' polls) as [[[[d|] ns]|]|]; try done.
        + destruct IH as [n Hn]. exists n. by right.
        + destruct IH as [[-> ->]|[n Hn]]; [destruct (Hb eq_refl) as [->|]; eauto|]. right. exists n. by right. }
    cbn [wait_loop]. destruct p as [[d|] [|n ns]|status|]; try by (exists now; left).
    - apply (Hgo true). intros _. right. by left.
    - right. exists now. by left.
    - destruct (status <? 500); [done|]. apply (Hgo b). auto.
    - apply (Hgo b). auto. }
  specialize (H false). destruct (wait_loop _ _ false polls) as [[[[d|] ns]|]|]; try done.
  by destruct H as [[? _]|].
Qed.

(** ** Settling a delivery: [process_delivery] *)

(** What the tasks of a delivery raised: a human pause, a refusal by Caura, anything
    else. *)
Inductive task_exn : Type := HumanRequired | RefusedCall (status : Z) | OtherException.

Definition fatal (e : task_exn) : bool :=
  match e with RefusedCall s => negb (s =? 409) && negb (transient_status s) | _ => false end.

Inductive settlement : Type := SAck | SNack | SPaused.

#[export] Instance settlement_eq_dec : EqDecision settlement.
Proof. solve_decision. Defined.

(** The settlements that were asked for, and how the function ends; [settle] is what Caura
    answers to each. *)
Definition process_delivery (supports_interrupt : bool) (raised : list task_exn)
    (settle : settlement → result bus_exn unit) : list settlement * result bus_exn unit :=
  match find fatal raised with
  | Some (RefusedCall s) => ([], Err (PlatformError s))
  | Some _ => ([], Ok tt)
  | None =>
      match raised with
      | [] =>
          match settle SAck with
          | Ok _ => ([SAck], Ok tt)
          | Err (PlatformError s as e) =>
              if (s =? 409) && supports_interrupt then
                match settle SPaused with
                | Ok _ => ([SAck; SPaused], Ok tt)
                | Err (PlatformError _) => ([SAck; SPaused], Err e)
                | Err TransportError => ([SAck; SPaused], Err TransportError)
                end
              else ([SAck], Err e)
          | Err e => ([SAck], Err e)
          end
      | _ =>
          if supports_interrupt then
            match settle SPaused with
            | Ok _ => ([SPaused], Ok tt)
            | Err _ => ([SPaused; SNack], Ok tt)
            end
          else ([SNack], Ok tt)
      end
  end.

(** A delivery is acknowledged only when its work ended with no exception at all, and
    at most one of the settlements it asks for is accepted. *)
Theorem delivery_settled_once supports raised settle :
  let '(asked, _) := process_delivery supports raised settle in
  (SAck ∈ asked → raised = [])
  ∧ (length (filter (λ a, settle a = Ok tt) asked) ≤ 1)%nat.
Proof.
  unfold process_delivery. destruct (find fatal raised) as [[]|]; cbn;
    [by split; [intros ?%elem_of_nil|lia]..|].
  assert (Hlen : ∀ a, (length (filter (λ a, settle a = Ok tt) [a]) ≤ 1)%nat).
  { intros a. rewrite filter_cons. case_decide; cbn; lia. }
  assert (Hlen2 : ∀ a b, settle a ≠ Ok tt → (length (filter (λ a, settle a = Ok tt) [a; b]) ≤ 1)%nat).
  { intros a b Ha. rewrite filter_cons_False by done. apply Hlen. }
  destruct raised as [|e raised].
  - destruct (settle SAck) as [[]|[|s]] eqn:E; [by split|by split|].
    destruct (_ && _); [|by split].
    destruct (settle SPaused) as [[]|[|]]; (split; [done|apply Hlen2; congruence]).
  - destruct supports; [destruct (settle SPaused) as [[]|] eqn:E|]; (split; [set_solver|]); try apply Hlen.
    apply Hlen2. congruence.
Qed.

(** ** Examples *)

Lemma request_bounded_witness :
  let ends := [Responded 503 None (Some 2000); TransportFailure; Responded 200 (Some (PInt 1)) None] in
  request true ends = Some ([2000; 500], Ok (PInt 1))
  ∧ ∃ ds r e, request true ends = Some (ds, r)
    ∧ ends !! length ds = Some e ∧ r = outcome_of_attempt e
    ∧ Forall (λ e, may_retry e = true) (take (length ds) ends)
    ∧ (length ds < attempt_limit)%nat ∧ (true = false → ds = [])
    ∧ Forall (λ d, 250 ≤ d ≤ RETRY_AFTER_CAP) ds.
Proof.
  split; [reflexivity|]. refine (request_bounded true _ _). cbn. unfold attempt_limit. lia.
Defined.

Definition ev (n : Z) : log_event := LogEvent n PNone.
Definition short_log : list log_event := [ev 3; ev 5; ev 8; ev 9].

(** A server: it sends what follows the cursor, and loses the history before 8. *)
Definition after_cursor (after : Z) : list line :=
  Comment :: (Event <$> filter (λ e, after < seq e) short_log).

Definition cut_stream : connection := Stream (λ after, take 2 (after_cursor after) ++ [Garbled; Event (ev 99)]).
Definition pruned_stream : connection :=
  Stream (λ after, if after <? 5 then [Resync 5 None Reloaded; Event (ev 8)] else []).

Lemma sends_filter after es :
  StronglySorted (λ a b, seq a < seq b) short_log →
  filter (λ e, after < seq e) short_log = es →
  ∀ n tl, sends short_log (match last (take n es) with Some e => seq e | None => after end) tl →
  sends short_log after ((Event <$> take n es) ++ tl).
Proof.
  intros Hl. revert after. induction es as [|e es IH]; intros after He n tl Ht; [by destruct n|].
  destruct n as [|n]; [done|]. cbn [take fmap list_fmap app].
  assert (Hn : next_event short_log after = Some e) by (unfold next_event; by rewrite He).
  apply sends_event; [done|]. apply IH.
  - destruct (next_event_spec short_log after e Hl Hn) as (Hin & Hgt & Hmin).
    clear -He Hl Hgt.
    assert (Hs : StronglySorted (λ a b, seq a < seq b) (e :: es)) by (rewrite <-He; by apply StronglySorted_filter).
    assert (Hff : filter (λ x, seq e < seq x) short_log = filter (λ x, seq e < seq x) (filter (λ x, after < seq x) short_log)).
    { rewrite list_filter_filter_l; [done|]. intros x Hx. cbn in *. lia. }
    rewrite Hff, He, filter_cons_False by lia. apply StronglySorted_inv in Hs as [_ Hf].
    clear -Hf. induction Hf as [|x l Hx Hf IH]; [done|]. by rewrite filter_cons_True, IH.
  - cbn [take last] in Ht. destruct (take n es) as [|x l]; [done|].
    replace (last (e :: x :: l)) with (last (x :: l)) in Ht by done. destruct (last (x :: l)) eqn:E; [done|].
    by apply last_None in E.
Qed.

Lemma short_log_sorted : StronglySorted (λ a b, seq a < seq b) short_log.
Proof. repeat constructor. Qed.

Lemma stream_loses_nothing_witness :
  let cs := [cut_stream; NoConnection; pruned_stream; Status 503; cut_stream] in
  events cs (StreamState 0 [])
  = (StreamState 9 [HEvent (ev 3); HResync 5; HEvent (ev 8); HEvent (ev 9)], None)
  ∧ let s := (events cs (StreamState 0 [])).1 in
    (∀ e, e ∈ short_log → 0 < seq e ≤ cursor s →
       HEvent e ∈ handed_over s ∨ gap short_log 0 (handed_over s) (seq e))
    ∧ StronglySorted Z.lt (handed_seqs (handed_over s)) ∧ 0 ≤ cursor s.
Proof.
  intros cs. split; [reflexivity|].
  refine (stream_loses_nothing short_log cs 0 short_log_sorted _).
  assert (Hcut : honest short_log cut_stream).
  { intros after. unfold after_cursor. cbn [take app]. apply sends_comment.
    rewrite <-fmap_take. eapply (sends_filter after); [apply short_log_sorted|done|].
    constructor. }
  repeat (constructor; [first [exact Hcut|done|idtac]|]); [|constructor].
  intros after. cbn. destruct (Z.ltb_spec after 5); [|constructor].
  apply sends_resync; [cbn; lia|]. apply sends_event; [done|constructor].
Defined.

Lemma listing_example :
  let fetch c := match c with
                 | None => Ok ([1; 2], Some "p2") | Some _ => Ok ([3], None) end in
  all_pages (A := Z) fetch 200 = Ok [1; 2; 3] ∧ all_pages (A := Z) fetch 1 = Err DirectoryIncomplete.
Proof. done. Qed.
