(* ===== verification/AgentRegistry.v ===== *)
(** * The agent registry

    [common/models/agent.py] and the agent methods of
    [core-storage-api/.../services/postgres_service.py] over the tables [agents] and
    [agent_tombstones], and the registration half of
    [core-api/.../services/agent_service.py]: [get_or_create_agent], the broker ownership gate
    and [resolve_write_agent], with the aliases of [service_agent_ids.py].

    A storage method is one transaction on [db]. The core-api functions are programs in the
    monad [M]: before each storage call the class [World] lets other callers act, and a read
    of the replica sees whatever [replica] shows. A row's primary key and its timestamps decide
    nothing here and are left out. *)

From S2P Require Import Prelude PyStr PyVal.

#[local] Open Scope Z_scope.

(** ** Service agent ids *)

Definition INSIGHTER_AGENT_ID : string := "caura-insighter".
Definition DOC_INDEXER_AGENT_ID : string := "caura-doc-indexer".
Definition _SERVICE_AGENT_INPUT_ALIASES : list (string * string) :=
  [("memclaw-insighter", INSIGHTER_AGENT_ID); ("memclaw-doc-indexer", DOC_INDEXER_AGENT_ID)].
Definition canonical_service_agent_id (agent_id : string) : string :=
  default agent_id (dict_get agent_id _SERVICE_AGENT_INPUT_ALIASES).

Definition DEFAULT_TRUST_LEVEL : Z := 1.

(** ** Storage *)

Record agent : Type := Agent {
  agent_id : string;
  fleet_id : option string;
  display_name : option string;
  install_id : option string;
  owner_install_uuid : option string;
  trust_level : Z;
  search_profile : option pyval
}.

#[export] Instance agent_eq_dec : EqDecision agent.
Proof. solve_decision. Defined.

(** The body of an upsert: a key that is missing or null is [None]. *)
Record agent_data : Type := AgentData {
  d_tenant_id : string;
  d_agent_id : string;
  d_fleet_id : option string;
  d_display_name : option string;
  d_install_id : option string;
  d_owner_install_uuid : option string;
  d_trust_level : option Z;
  d_search_profile : option pyval
}.

Definition d_key (d : agent_data) : string * string := (d_tenant_id d, d_agent_id d).

(** Keyed by tenant and agent id, the unique constraint of the table. *)
Record db : Type := Db {
  agents : gmap (string * string) agent;
  tombstones : gset (string * string)
}.

(** The row [INSERT] writes; a trust level not given is the column's default. *)
Definition new_row (d : agent_data) : agent :=
  Agent (d_agent_id d) (d_fleet_id d) (d_display_name d) (d_install_id d) (d_owner_install_uuid d)
    (default 1 (d_trust_level d)) (d_search_profile d).

Definition set_trust (l : Z) (a : agent) : agent :=
  Agent (agent_id a) (fleet_id a) (display_name a) (install_id a) (owner_install_uuid a) l
    (search_profile a).
Definition set_fleet (f : option string) (a : agent) : agent :=
  Agent (agent_id a) f (display_name a) (install_id a) (owner_install_uuid a) (trust_level a)
    (search_profile a).

(** [overwrite]: a value given replaces the stored one; [backfill] only fills a null. *)
Definition overwrite {A} (new old : option A) : option A :=
  match new with Some v => Some v | None => old end.
Definition backfill {A} (new old : option A) : option A :=
  match old with Some v => Some v | None => new end.

(** The conflict branch's loop over the fields. *)
Definition conflict_row (tombstoned : bool) (d : agent_data) (a : agent) : agent :=
  Agent (agent_id a)
    (overwrite (d_fleet_id d) (fleet_id a))
    (overwrite (d_display_name d) (display_name a))
    (backfill (d_install_id d) (install_id a))
    (backfill (d_owner_install_uuid d) (owner_install_uuid a))
    (if tombstoned then trust_level a else default (trust_level a) (d_trust_level d))
    (search_profile a).

Definition put_row (k : string * string) (a : agent) (s : db) : db :=
  Db (<[k := a]> (agents s)) (tombstones s).

(** The conflict branch, with the tombstone as it was read before the row is locked. *)
Definition apply_conflict (tombstoned : bool) (d : agent_data) (s : db) : result exn (agent * db) :=
  match agents s !! d_key d with
  | None => Err (PyError "ValueError" "conflict but re-select returned nothing")
  | Some a => let a := conflict_row tombstoned d a in Ok (a, put_row (d_key d) a s)
  end.

Definition _agent_add (d : agent_data) (create_only : bool) (s : db) : (agent * bool) * db :=
  let tombstoned := bool_decide (d_key d ∈ tombstones s) in
  match agents s !! d_key d with
  | None =>
      let a := new_row d in
      let a := if tombstoned then set_trust 0 a else a in
      ((a, true), put_row (d_key d) a s)
  | Some a =>
      if create_only then ((a, false), s)
      else let a := conflict_row tombstoned d a in ((a, false), put_row (d_key d) a s)
  end.

Definition agent_add (d : agent_data) (s : db) : agent * db :=
  let '((a, _), s) := _agent_add d false s in (a, s).

Definition agent_create_only (tenant_id : string) (d : agent_data) (s : db) :
    result exn (agent * bool) * db :=
  if bool_decide (tenant_id = "") || negb (bool_decide (d_tenant_id d = tenant_id))
  then (Err (PyError "ValueError" "Agent tenant_id does not match the requested tenant"), s)
  else let '(r, s) := _agent_add d true s in (Ok r, s).

Definition agent_delete (k : string * string) (s : db) : bool * db :=
  match agents s !! k with
  | None => (false, s)
  | Some _ => (true, Db (delete k (agents s)) ({[k]} ∪ tombstones s))
  end.

Definition agent_update_trust_level (k : string * string) (level : Z) (fleet : option string)
    (s : db) : bool * db :=
  match agents s !! k with
  | None => (false, s)
  | Some a =>
      let a := set_trust level a in
      let a := match fleet with Some f => set_fleet (Some f) a | None => a end in
      (true, Db (<[k := a]> (agents s))
               (if 0 <? level then tombstones s ∖ {[k]} else tombstones s))
  end.

Definition agent_update_fleet (k : string * string) (fleet : string) (s : db) : bool * db :=
  match agents s !! k with
  | None => (false, s)
  | Some a => (true, put_row k (set_fleet (Some fleet) a) s)
  end.

(** The columns of [memories] the backfill reads. *)
Record memory : Type := Memory {
  m_tenant_id : string; m_agent_id : string; m_fleet_id : option string;
  m_deleted : bool; m_created_at : Z
}.

(** One agent per pair that has none, from its earliest live memory: the rows are inserted in
    the order of creation, and only the first of a pair finds no row. *)
Definition backfill_row (m : memory) (cs : nat * db) : nat * db :=
  let k := (m_tenant_id m, m_agent_id m) in
  match agents cs.2 !! k with
  | Some _ => cs
  | None => (S cs.1, put_row k (Agent (m_agent_id m) (m_fleet_id m) None None None 1 None) cs.2)
  end.
Definition agent_backfill_from_memories (ms : list memory) (s : db) : nat * db :=
  fold_left (λ cs m, backfill_row m cs)
    (py_sorted (λ a b, m_created_at a <=? m_created_at b) (filter (λ m, m_deleted m = false) ms))
    (0%nat, s).

(** The transactions on the two tables, one per call to storage. *)
Inductive op : Type :=
| Add (d : agent_data) (create_only : bool)
| Delete (k : string * string)
| SetTrust (k : string * string) (level : Z) (fleet : option string)
| SetFleet (k : string * string) (fleet : string)
| Backfill (ms : list memory).

Definition run_op (o : op) (s : db) : db :=
  match o with
  | Add d co => (_agent_add d co s).2
  | Delete k => (agent_delete k s).2
  | SetTrust k l f => (agent_update_trust_level k l f s).2
  | SetFleet k f => (agent_update_fleet k f s).2
  | Backfill ms => (agent_backfill_from_memories ms s).2
  end.
Definition run_ops (os : list op) (s : db) : db := fold_left (λ s o, run_op o s) os s.

(** ** Core-api's view of storage *)

(** What the caller does not control: the writes other callers commit before its n-th storage
    call, what the replica shows at it, and the tenant's approval setting. *)
Class World : Type := {
  before : nat → db → db;
  replica : nat → db → db;
  require_agent_approval : string → bool
}.

(** The [agent_registered] entry of the audit log. *)
Record registration : Type := Registration {
  r_tenant_id : string; r_agent_id : string; r_fleet_id : option string; r_trust_level : Z;
  r_display_name : option string; r_install_id : option string;
  r_owner_install_uuid : option string; r_carried_from_legacy_main : bool
}.

(** The storage calls made, the primary, the bodies sent and the audit entries, newest first. *)
Record st : Type := St {
  calls : nat; base : db; puts : list agent_data; audit : list registration
}.

Definition M (A : Type) : Type := st → result exn A * st.
#[export] Instance m_ret : MRet M := λ A a s, (Ok a, s).
#[export] Instance m_bind : MBind M := λ A B f m s,
  match m s with
  | (Ok a, s') => f a s'
  | (Err e, s') => (Err e, s')
  end.
Definition raise {A} (e : exn) : M A := λ s, (Err e, s).

Section Client.
Context {w : World}.

(** [storage_client.get_agent]: an id with a slash names no path and is not looked up. *)
Definition get_agent (agent_id tenant_id : string) (read : bool) : M (option agent) := λ s,
  if str_any (λ c, bool_decide (c = "/"%char)) agent_id then (Ok None, s)
  else
    let b := before (calls s) (base s) in
    let shown := if read then replica (calls s) b else b in
    (Ok (agents shown !! (tenant_id, agent_id)), St (S (calls s)) b (puts s) (audit s)).

Definition create_or_update_agent (d : agent_data) : M agent := λ s,
  let b := before (calls s) (base s) in
  let '(a, b) := agent_add d b in
  (Ok a, St (S (calls s)) b (d :: puts s) (audit s)).

Definition log_registered (r : registration) : M unit := λ s,
  (Ok tt, St (calls s) (base s) (puts s) (r :: audit s)).

(** The fields the hit path fills; [None] when there is nothing to send. *)
Definition backfill_of (tenant_id : string) (a : agent)
    (fleet display install owner : option string) : option agent_data :=
  let missing (new old : option string) := match old with None => new | Some _ => None end in
  let f := missing fleet (fleet_id a) in
  let n := match display with
           | Some v => if bool_decide (display_name a = Some v) then None else Some v
           | None => None
           end in
  let i := missing install (install_id a) in
  let o := missing owner (owner_install_uuid a) in
  if bool_decide (f = None ∧ n = None ∧ i = None ∧ o = None) then None
  else Some (AgentData tenant_id (agent_id a) f n i o None None).

(** [agent.update(backfill)] on the caller's copy of the row. *)
Definition updated_copy (d : agent_data) (a : agent) : agent :=
  Agent (agent_id a) (overwrite (d_fleet_id d) (fleet_id a))
    (overwrite (d_display_name d) (display_name a)) (overwrite (d_install_id d) (install_id a))
    (overwrite (d_owner_install_uuid d) (owner_install_uuid a)) (trust_level a) (search_profile a).

(** A fresh [main-<install>] inherits trust and profile from the tenant's [main]. *)
Definition legacy_main (tenant_id agent_id : string) (fleet install : option string)
    (require_approval : bool) : M (option Z * option pyval) :=
  if negb require_approval &&
     match install with Some i => bool_decide (agent_id = "main-" +:+ i) | None => false end
  then
    legacy ← get_agent "main" tenant_id false;
    mret match legacy with
         | Some l => if bool_decide (fleet = None) || bool_decide (fleet_id l = fleet)
                     then (Some (trust_level l), search_profile l) else (None, None)
         | None => (None, None)
         end
  else mret (None, None).

(** The create branch. *)
Definition register_agent (tenant_id agent_id : string) (fleet : option string)
    (require_approval : option bool) (display install owner : option string) : M agent :=
  let approval := default (require_agent_approval tenant_id) require_approval in
  '(trust, profile) ← legacy_main tenant_id agent_id fleet install approval;
  let initial_trust := default (if approval then 0 else DEFAULT_TRUST_LEVEL) trust in
  a ← create_or_update_agent
        (AgentData tenant_id agent_id fleet display install owner (Some initial_trust) profile);
  log_registered (Registration tenant_id agent_id fleet (trust_level a) display install owner
                    (bool_decide (is_Some trust)));;
  mret a.

(** The row, and whether it was there before the call. *)
Definition get_or_create_agent (tenant_id agent_id : string) (fleet : option string)
    (require_approval : option bool) (display install owner : option string)
    (known : option agent) : M (agent * bool) :=
  let agent_id := canonical_service_agent_id agent_id in
  if str_any (λ c, bool_decide (c = "/"%char)) agent_id
  then raise (HTTPException 422 "agent_id must not contain '/'; use '-' or '.' to group agents.")
  else
    shown ← match known with Some a => mret (Some a) | None => get_agent agent_id tenant_id true end;
    found ← match shown with Some a => mret (Some a) | None => get_agent agent_id tenant_id false end;
    match found with
    | Some a =>
        match backfill_of tenant_id a fleet display install owner with
        | Some d => create_or_update_agent d;; mret (updated_copy d a, true)
        | None => mret (a, true)
        end
    | None =>
        a ← register_agent tenant_id agent_id fleet require_approval display install owner;
        mret (a, false)
    end.

Definition lookup_agent (tenant_id agent_id : string) (read : bool) : M (option agent) :=
  get_agent (canonical_service_agent_id agent_id) tenant_id read.

(** ** The broker ownership gate *)

Definition _BROKER_LABEL_PREFIX : string := "broker:".
Definition broker_label (install_uuid : option string) : string :=
  _BROKER_LABEL_PREFIX +:+
    match install_uuid with
    | Some u => if bool_decide (u = "") then "unknown" else u
    | None => "unknown"
    end.

Definition _owned_by_other_install (owner install_uuid : option string) : bool :=
  bool_decide (is_Some owner) && negb (bool_decide (owner = install_uuid)).

(** The id kept or its fallback, and the row when an existing agent is kept. *)
Definition broker_owned_agent_id (chosen : string) (install_uuid : option string)
    (tenant_id : string) : M (string * option agent) :=
  match install_uuid with
  | None => mret (chosen, None)
  | Some _ =>
      let fallback := broker_label install_uuid in
      if bool_decide (chosen = fallback) then mret (chosen, None)
      else if startswith _BROKER_LABEL_PREFIX chosen then mret (fallback, None)
      else
        owner ← lookup_agent tenant_id chosen true;
        mret match owner with
             | None => (chosen, None)
             | Some o => if _owned_by_other_install (owner_install_uuid o) install_uuid
                         then (fallback, None) else (chosen, Some o)
             end
  end.

Definition nonempty (o : option string) : bool :=
  match o with Some u => negb (bool_decide (u = "")) | None => false end.

Definition resolve_write_agent (chosen_agent_id tenant_id : string) (fleet : option string)
    (is_install_credential : bool) (install_uuid : option string)
    (require_approval : option bool) : M (agent * string) :=
  let chosen := canonical_service_agent_id chosen_agent_id in
  '(chosen, known) ← if is_install_credential then broker_owned_agent_id chosen install_uuid tenant_id
                     else mret (chosen, None);
  '(a, _) ← get_or_create_agent tenant_id chosen fleet require_approval None None
              (if is_install_credential then install_uuid else None) known;
  if is_install_credential && nonempty install_uuid &&
     _owned_by_other_install (owner_install_uuid a) install_uuid
  then
    let chosen := broker_label install_uuid in
    '(a, _) ← get_or_create_agent tenant_id chosen fleet require_approval None None install_uuid None;
    mret (a, chosen)
  else mret (a, chosen).

(** An admin's change of trust: the row is found, changed and read back from the primary. *)
Definition set_trust_level (tenant_id agent_id : string) (level : Z) (fleet : option string) : M bool :=
  λ s, let b := before (calls s) (base s) in
       let '(ok, b) := agent_update_trust_level (tenant_id, agent_id) level fleet b in
       (Ok ok, St (S (calls s)) b (puts s) (audit s)).

Definition update_trust_level (tenant_id agent_id' : string) (level : Z) (fleet : option string) :
    M agent :=
  found ← lookup_agent tenant_id agent_id' true;
  match found with
  | None => raise (HTTPException 404 "Agent not found")
  | Some a =>
      set_trust_level tenant_id (agent_id a) level fleet;;
      updated ← get_agent (agent_id a) tenant_id false;
      mret (default a updated)
  end.
End Client.

(** ** Storage: facts *)

Lemma agents_put k k' a s :
  agents (put_row k a s) !! k' = if decide (k = k') then Some a else agents s !! k'.
Proof. cbn [put_row agents]. case_decide; subst; by simplify_map_eq. Qed.

(** What an upsert leaves at a key. *)
Lemma agents_add d co s k :
  agents (_agent_add d co s).2 !! k
  = if decide (d_key d = k) then Some (_agent_add d co s).1.1 else agents s !! k.
Proof.
  unfold _agent_add. destruct (agents s !! d_key d) as [a|] eqn:E; [destruct co|];
    cbn [fst snd]; rewrite ?agents_put; case_decide; subst; by simplify_map_eq.
Qed.

Lemma tombstones_add d co s : tombstones (_agent_add d co s).2 = tombstones s.
Proof. unfold _agent_add. repeat case_match; reflexivity. Qed.

Definition live_at (k : string * string) (m : memory) : Prop :=
  m_deleted m = false ∧ (m_tenant_id m, m_agent_id m) = k.

(** The backfill is an induction over single insertions. *)
Lemma backfill_ind (I : db → Prop) ms s :
  (∀ m s, m ∈ ms → m_deleted m = false → I s → I (backfill_row m (0%nat, s)).2) →
  I s → I (agent_backfill_from_memories ms s).2.
Proof.
  intros Hs H0. unfold agent_backfill_from_memories.
  set (l := py_sorted _ _).
  assert (Hl : ∀ m, m ∈ l → m ∈ ms ∧ m_deleted m = false).
  { intros m Hm. apply py_sorted_elem, list_elem_of_filter in Hm. tauto. }
  clearbody l. revert H0. generalize 0%nat. revert s Hl.
  induction l as [|m l IH]; intros s Hl n H0; [done|]. cbn [fold_left].
  destruct (backfill_row m (n, s)) as [n' s'] eqn:E.
  apply IH; [intros; apply Hl; by right|].
  assert (s' = (backfill_row m (0%nat, s)).2) as ->.
  { revert E. unfold backfill_row. cbn [fst snd]. case_match; by intros [= _ <-]. }
  destruct (Hl m) as [Hm Hd]; [by left|]. by apply Hs.
Qed.

(** ** A deleted agent stays restricted until an admin approves it *)

Definition restricted (k : string * string) (s : db) : Prop :=
  k ∈ tombstones s ∧ ∀ a, agents s !! k = Some a → trust_level a ≤ 0.

(** An admin's raise, or a backfill that meets a live memory of the agent. *)
Definition approves (k : string * string) (o : op) : Prop :=
  match o with
  | SetTrust k' l _ => k' = k ∧ 0 < l
  | Backfill ms => Exists (live_at k) ms
  | _ => False
  end.

Lemma run_op_restricted k o s : ¬ approves k o → restricted k s → restricted k (run_op o s).
Proof.
  intros Ho [Ht Ha]. destruct o as [d co|k'|k' l f|k' f|ms]; cbn [run_op approves] in *.
  - split; [by rewrite tombstones_add|]. intros a. rewrite agents_add. case_decide as Hk; [|by auto].
    intros [= <-]. unfold _agent_add. rewrite Hk, (bool_decide_true _ Ht).
    destruct (agents s !! k) as [a|] eqn:E; [|cbn; lia].
    destruct co; cbn; by apply Ha.
  - unfold agent_delete. case_match; [|done]. cbn [snd]. split; [cbn; set_solver|].
    intros r. cbn. rewrite lookup_delete_Some. intros [_ H']. by apply Ha.
  - unfold agent_update_trust_level. destruct (agents s !! k') as [a0|] eqn:E; [|done]. cbn [snd].
    split; cbn [tombstones agents].
    + case_match; [|done]. assert (k' ≠ k) by (intros ->; apply Ho; split; [done|lia]). set_solver.
    + intros a. rewrite lookup_insert_Some. intros [[-> <-]|[_ ?]]; [|by apply Ha].
      assert (¬ 0 < l) by (intros ?; by apply Ho). destruct f; cbn; lia.
  - unfold agent_update_fleet. destruct (agents s !! k') as [a0|] eqn:E; [|done]. cbn [snd].
    split; [done|]. intros a. rewrite agents_put. case_decide; subst; [|by auto].
    intros [= <-]. cbn. by apply Ha.
  - apply (backfill_ind (restricted k)); [|done]. clear Ht Ha s. intros m s Hm Hd [Ht Ha].
    unfold backfill_row. cbn [snd fst]. case_match; [done|]. split; [done|].
    intros a. cbn [snd]. rewrite agents_put. case_decide as Hk; [|by auto]. exfalso. apply Ho.
    apply Exists_exists. exists m. by split; [|split].
Qed.


(** The deleted agent of a witness, its re-registration by a heartbeat, and the same after a
    backfill over one memory it left. *)
Definition demo_key : string * string := ("t", "scout").
Definition demo_data (trust : Z) (owner : option string) : agent_data :=
  AgentData "t" "scout" (Some "north") None None owner (Some trust) None.
Definition demo_db : db := run_op (Add (demo_data 3 None) false) (Db ∅ ∅).


(** The backfill inserts past the tombstone, at trust 1. *)
Example backfill_revives_deleted :
  let s := run_ops [Delete demo_key; Backfill [Memory "t" "scout" None false 5]] demo_db in
  demo_key ∈ tombstones s ∧ trust_level <$> agents s !! demo_key = Some 1.
Proof. cbv zeta. split; [by_compute|reflexivity]. Qed.

(** An upsert that lost the insert and read no tombstone, while the row it locks was deleted and
    registered again in between: the restricted row gets the trust of the upsert. *)
Example stale_tombstone_read_raises_trust :
  let s := run_ops [Delete demo_key; Add (demo_data 1 None) false] demo_db in
  restricted demo_key s ∧
  ∃ a s', apply_conflict false (demo_data 1 None) s = Ok (a, s') ∧ trust_level a = 1
          ∧ demo_key ∈ tombstones s'.
Proof.
  cbv zeta. split.
  - split; [by_compute|]. intros r Hr. vm_compute in Hr. injection Hr as <-. cbn. lia.
  - eexists _, _. split; [reflexivity|]. split; [reflexivity|]. by_compute.
Qed.

(** ** The owner of an agent is the install that touched it first *)

Definition owned (k : string * string) (v : string) (s : db) : Prop :=
  ∃ a, agents s !! k = Some a ∧ owner_install_uuid a = Some v.

Lemma owned_inj k v v' s : owned k v s → owned k v' s → v = v'.
Proof. intros (a & ? & ?) (a' & ? & ?). by simplify_eq. Qed.

Lemma run_op_owned k v o s : o ≠ Delete k → owned k v s → owned k v (run_op o s).
Proof.
  intros Ho (a & Ha & Hv). destruct o as [d co|k'|k' l f|k' f|ms]; cbn [run_op].
  - unfold owned. rewrite agents_add. case_decide as Hk; [|by eauto].
    eexists. split; [done|]. unfold _agent_add. rewrite Hk, Ha.
    destruct co; cbn; by rewrite ?Hv.
  - exists a. split; [|done]. unfold agent_delete. case_match; [|done]. cbn.
    rewrite lookup_delete_ne; [done|]. congruence.
  - unfold agent_update_trust_level. destruct (agents s !! k') as [a'|] eqn:E; [|by exists a].
    cbn [snd]. destruct (decide (k' = k)) as [->|].
    + simplify_eq. eexists. split; [by cbn; simplify_map_eq|]. by destruct f.
    + exists a. split; [|done]. cbn. by rewrite lookup_insert_ne.
  - unfold agent_update_fleet. destruct (agents s !! k') as [a'|] eqn:E; [|by exists a].
    cbn [snd]. unfold owned. rewrite agents_put. case_decide; [|by eauto]. simplify_eq. by eexists.
  - apply (backfill_ind (owned k v)); [|by exists a]. clear a Ha Hv s. intros m s _ _ (a & Ha & Hv).
    unfold backfill_row. cbn [snd fst]. case_match; [by exists a|]. exists a. split; [|done].
    cbn [snd]. rewrite agents_put. case_decide; congruence.
Qed.

Lemma run_ops_owned k v os s : Delete k ∉ os → owned k v s → owned k v (run_ops os s).
Proof.
  unfold run_ops. revert s. induction os as [|o os IH]; intros s Hd Hs; [done|].
  cbn [fold_left]. apply IH; [set_solver|]. apply run_op_owned; set_solver.
Qed.

(** Every row sits under its own id. *)
Definition keyed (s : db) : Prop := ∀ k a, agents s !! k = Some a → agent_id a = k.2.

(** The identity [broker:<install>] belongs to that install alone. *)
Definition reserved (s : db) : Prop :=
  ∀ t x v, owned (t, _BROKER_LABEL_PREFIX +:+ x) v s → v = x.

(** No row of the agent is without an owner. *)
Definition claimed (k : string * string) (s : db) : Prop :=
  ∀ a, agents s !! k = Some a → is_Some (owner_install_uuid a).

Definition consistent (k : string * string) (s : db) : Prop := keyed s ∧ reserved s ∧ claimed k s.

(** What other callers and the replica may do around the calls of one write to [k]: nobody
    deletes an owned row, the invariants are kept, and the replica shows no owner but the present one. *)
Class FairWorld (w : World) (k : string * string) : Prop := {
  before_owned n s k' v : owned k' v s → owned k' v (before n s);
  before_consistent n s : consistent k s → consistent k (before n s);
  replica_owned n s k' v : consistent k s → owned k' v (replica n s) → owned k' v s;
  replica_keyed n s : consistent k s → keyed (replica n s) ∧ claimed k (replica n s)
}.

(** A canonical id is one the alias table leaves alone. *)
Lemma canonical_fixed a :
  a ≠ "memclaw-insighter" → a ≠ "memclaw-doc-indexer" → canonical_service_agent_id a = a.
Proof.
  intros H1 H2. unfold canonical_service_agent_id, _SERVICE_AGENT_INPUT_ALIASES. cbn [dict_get].
  by rewrite !bool_decide_false.
Qed.

Lemma canonical_idem a :
  canonical_service_agent_id (canonical_service_agent_id a) = canonical_service_agent_id a.
Proof.
  destruct (decide (a = "memclaw-insighter")) as [->|H1]; [reflexivity|].
  destruct (decide (a = "memclaw-doc-indexer")) as [->|H2]; [reflexivity|].
  by rewrite !(canonical_fixed a).
Qed.

Lemma canonical_label x :
  canonical_service_agent_id (_BROKER_LABEL_PREFIX +:+ x) = _BROKER_LABEL_PREFIX +:+ x.
Proof. by apply canonical_fixed. Qed.

Lemma broker_label_Some u : u ≠ "" → broker_label (Some u) = _BROKER_LABEL_PREFIX +:+ u.
Proof. intros. unfold broker_label. by rewrite bool_decide_false. Qed.

Section Attribution.
Context {w : World} (k0 : string * string) {Hfair : FairWorld w k0}.

Definition advance (s s' : st) : Prop :=
  consistent k0 (base s') ∧ ∀ k v, owned k v (base s) → owned k v (base s').

(** A row read of [k]: its owner, if it shows one, is the owner now. *)
Definition row_read (k : string * string) (a : agent) (s : db) : Prop :=
  agent_id a = k.2 ∧ (∀ v, owner_install_uuid a = Some v → owned k v s) ∧
  (k = k0 → is_Some (owner_install_uuid a)).

Lemma advance_refl s : consistent k0 (base s) → advance s s.
Proof. by split. Qed.
Lemma advance_trans s1 s2 s3 : advance s1 s2 → advance s2 s3 → advance s1 s3.
Proof. intros [_ H1] [? H2]. split; auto. Qed.
Lemma row_read_advance k a s s' : advance s s' → row_read k a (base s) → row_read k a (base s').
Proof. intros [_ Hk] (? & ? & ?). repeat split; auto. Qed.

Lemma get_agent_ok aid t r s res s' :
  consistent k0 (base s) → get_agent aid t r s = (res, s') →
  ∃ o, res = Ok o ∧ advance s s' ∧ ∀ a, o = Some a → row_read (t, aid) a (base s').
Proof.
  intros Hc. unfold get_agent. case_match; intros [= <- <-].
  { eexists. split; [done|]. split; [by apply advance_refl|done]. }
  pose proof (before_consistent (calls s) _ Hc) as Hb.
  eexists. split; [done|]. split; [split; [done|]; intros; by apply before_owned|].
  intros a Ha. cbn [base]. destruct r.
  - destruct (replica_keyed (calls s) _ Hb) as [Hk Hcl]. split_and!.
    + by apply Hk in Ha.
    + intros v Hv. apply (replica_owned (calls s)); [done|]. by exists a.
    + intros <-. by apply Hcl.
  - destruct Hb as (Hk & _ & Hcl). split_and!.
    + by apply Hk in Ha.
    + intros v Hv. by exists a.
    + intros <-. by apply Hcl.
Qed.

(** An upsert by the install [u], or one that names no owner for a row that has one. *)
Definition put_by (u : string) (d : agent_data) (s : db) : Prop :=
  (d_owner_install_uuid d = Some u ∧ ∀ t x, d_key d = (t, _BROKER_LABEL_PREFIX +:+ x) → x = u) ∨
  (d_owner_install_uuid d = None ∧ ∃ v, owned (d_key d) v s).

Lemma agent_add_owner u d s a b :
  consistent k0 s → put_by u d s → agent_add d s = (a, b) →
  agent_id a = d_agent_id d ∧ agents b = <[d_key d := a]> (agents s) ∧
  ∃ v, owner_install_uuid a = Some v ∧ (owned (d_key d) v s ∨ (v = u ∧ d_owner_install_uuid d = Some u)).
Proof.
  intros (Hk & Hr & Hcl) Hp. unfold agent_add, _agent_add.
  destruct (agents s !! d_key d) as [r|] eqn:E; cbn [fst snd].
  - intros [= <- <-]. cbn. apply Hk in E as Hid. split; [done|]. split; [done|].
    destruct (owner_install_uuid r) as [v|] eqn:Ev; cbn.
    + exists v. split; [done|]. left. by exists r.
    + destruct Hp as [[Ho _]|[Ho (v & r' & ? & ?)]]; [|congruence].
      exists u. split; [done|]. by right.
  - destruct Hp as [[Ho _]|[_ (v & r' & ? & ?)]]; [|congruence].
    case_bool_decide; intros [= <- <-]; (split; [done|]; split; [done|]; exists u; split; [done|by right]).
Qed.

Lemma agent_add_consistent u d s :
  consistent k0 s → put_by u d s → consistent k0 (agent_add d s).2.
Proof.
  intros Hc Hp. destruct (agent_add d s) as [a b] eqn:Ea. cbn [snd].
  destruct (agent_add_owner u _ _ _ _ Hc Hp Ea) as (Hid & Hmap & v & Hv & Hor).
  destruct Hc as (Hk & Hr & Hcl). split_and!.
  - intros k r. rewrite Hmap, lookup_insert_Some. intros [[<- <-]|[_ ?]]; [done|by apply Hk].
  - intros t x v' (r & Hl & Hrv). rewrite Hmap, lookup_insert_Some in Hl.
    destruct Hl as [[Hkey <-]|[_ ?]]; [|by eapply (Hr t x); exists r].
    simplify_eq. destruct Hor as [Ho|[-> Ho]]; [rewrite Hkey in Ho; by eapply Hr|].
    destruct Hp as [[_ Hs]|[? _]]; [|congruence]. symmetry. by eapply Hs.
  - intros r. rewrite Hmap, lookup_insert_Some. intros [[_ <-]|[_ ?]]; [by eexists|by apply Hcl].
Qed.

Lemma agent_add_owned d s k v : owned k v s → owned k v (agent_add d s).2.
Proof.
  intros H. apply (run_op_owned _ _ (Add d false)) in H; [|done]. cbn [run_op] in H.
  unfold agent_add. by destruct (_agent_add d false s) as [[]].
Qed.

Lemma create_or_update_ok u d s res s' :
  create_or_update_agent d s = (res, s') → consistent k0 (base s) → put_by u d (base s) →
  ∃ a v, res = Ok a ∧ advance s s' ∧ owner_install_uuid a = Some v ∧ owned (d_key d) v (base s').
Proof.
  intros Hrun Hc Hp. revert Hrun. unfold create_or_update_agent.
  pose proof (before_consistent (calls s) _ Hc) as Hb.
  assert (put_by u d (before (calls s) (base s))) as Hp'.
  { destruct Hp as [?|[? (v & ?)]]; [by left|right]. split; [done|]. exists v. by apply before_owned. }
  pose proof (agent_add_consistent _ _ _ Hb Hp') as Hc'.
  pose proof (agent_add_owned d (before (calls s) (base s))) as Hown.
  destruct (agent_add d _) as [a b] eqn:Ea. intros [= <- <-]. cbn [snd base] in *.
  destruct (agent_add_owner u _ _ _ _ Hb Hp' Ea) as (_ & Hmap & v & Hv & _).
  exists a, v. split; [done|]. split; [split; [done|]; intros; by apply Hown, before_owned|].
  split; [done|]. exists a. cbn [base]. rewrite Hmap. by simplify_map_eq.
Qed.

Lemma m_bind_ok {A B} (m : M A) (f : A → M B) s r s' :
  (m ≫= f) s = (Ok r, s') → ∃ a s1, m s = (Ok a, s1) ∧ f a s1 = (Ok r, s').
Proof. unfold mbind, m_bind. destruct (m s) as [[a|e] s1]; [eauto|done]. Qed.

(** Registration as [u], under an id that is not another install's: the row has an owner, and
    the copy returned shows it unless the row was shown without one. *)
Lemma get_or_create_ok u t aid fleet ra known s a p s' :
  consistent k0 (base s) →
  (∀ x, canonical_service_agent_id aid = _BROKER_LABEL_PREFIX +:+ x → x = u) →
  (∀ r, known = Some r → row_read (t, canonical_service_agent_id aid) r (base s)) →
  get_or_create_agent t aid fleet ra None None (Some u) known s = (Ok (a, p), s') →
  advance s s' ∧ ∃ v, owned (t, canonical_service_agent_id aid) v (base s') ∧
    (owner_install_uuid a = Some v ∨
     ((t, canonical_service_agent_id aid) ≠ k0 ∧ owner_install_uuid a = Some u)).
Proof.
  intros Hc Hsafe Hknown. unfold get_or_create_agent. set (id := canonical_service_agent_id aid) in *.
  case_match; [done|]. intros Hrun.
  apply m_bind_ok in Hrun as (shown & s1 & Hshown & Hrun).
  assert (advance s s1 ∧ ∀ r, shown = Some r → row_read (t, id) r (base s1)) as [Ha1 Hr1].
  { destruct known as [r0|].
    - injection Hshown as <- <-; split; [by apply advance_refl|]. intros r [= <-]. by apply Hknown.
    - destruct (get_agent_ok _ _ _ _ _ _ Hc Hshown) as (o & [= <-] & ? & ?). done. }
  apply m_bind_ok in Hrun as (found & s2 & Hfound & Hrun).
  assert (advance s1 s2 ∧ ∀ r, found = Some r → row_read (t, id) r (base s2)) as [Ha2 Hr2].
  { destruct shown as [r0|].
    - injection Hfound as <- <-. split; [apply advance_refl, Ha1|]. intros r [= <-]. by apply Hr1.
    - destruct (get_agent_ok _ _ _ _ _ _ (proj1 Ha1) Hfound) as (o & [= <-] & ? & ?). done. }
  pose proof (advance_trans _ _ _ Ha1 Ha2) as Ha. clear Hshown Hfound Hr1 Ha1 Ha2 Hc Hknown.
  destruct found as [r|].
  - destruct (Hr2 r eq_refl) as (Hid & Hown & Hcl). clear Hr2. unfold backfill_of in Hrun.
    destruct (owner_install_uuid r) as [v|] eqn:Ev.
    + specialize (Hown v eq_refl). case_bool_decide.
      * injection Hrun as <- _ <-. split; [done|]. exists v. split; [done|]. by left.
      * apply m_bind_ok in Hrun as (? & s3 & Hput & Hrun). injection Hrun as <- _ <-.
        destruct (create_or_update_ok u _ _ _ _ Hput (proj1 Ha)
                    ltac:(right; split; [done|]; exists v; unfold d_key; cbn; by rewrite Hid))
          as (a' & v' & _ & Hadv & _ & _).
        split; [by eapply advance_trans|]. exists v. split; [by apply Hadv|]. left. cbn.
        by rewrite Ev.
    + rewrite bool_decide_false in Hrun by naive_solver.
      apply m_bind_ok in Hrun as (? & s3 & Hput & Hrun). injection Hrun as <- _ <-.
      destruct (create_or_update_ok u _ _ _ _ Hput (proj1 Ha)
                  ltac:(left; split; [done|]; unfold d_key; cbn; rewrite Hid; cbn;
                        intros ?? [= _ ?]; by apply Hsafe))
        as (a' & v' & _ & Hadv & _ & Hv').
      split; [by eapply advance_trans|]. exists v'. unfold d_key in Hv'. cbn in Hv'. rewrite Hid in Hv'.
      split; [done|]. right. split; [|done]. intros Heq. destruct (Hcl Heq); done.
  - apply m_bind_ok in Hrun as (a1 & s3 & Hreg & Hrun). injection Hrun as <- _ <-.
    unfold register_agent in Hreg. apply m_bind_ok in Hreg as ([trust profile] & s4 & Hl & Hreg).
    unfold legacy_main in Hl. rewrite andb_false_r in Hl. injection Hl as <- <- <-.
    apply m_bind_ok in Hreg as (a2 & s5 & Hput & Hreg).
    apply m_bind_ok in Hreg as (? & s6 & Hlog & Hreg). injection Hreg as <- <-.
    destruct (create_or_update_ok u _ _ _ _ Hput (proj1 Ha)
                ltac:(left; split; [done|]; unfold d_key; cbn; intros ?? [= _ ?]; by apply Hsafe))
      as (a' & v' & [= <-] & Hadv & Hv & Hv').
    unfold log_registered in Hlog. injection Hlog as _ <-.
    split; [exact (advance_trans _ _ _ Ha Hadv)|]. exists v'. split; [exact Hv'|by left].
Qed.
End Attribution.

(** What the gate lets through: the chosen id or the install's own, with a row read of it. *)
Lemma broker_gate_ok (w : World) chosen t u s id known s1 :
  let k0 := (t, canonical_service_agent_id chosen) in
  FairWorld w k0 → consistent k0 (base s) → u ≠ "" →
  broker_owned_agent_id (canonical_service_agent_id chosen) (Some u) t s = (Ok (id, known), s1) →
  advance k0 s s1 ∧
  (id = canonical_service_agent_id chosen ∨ id = broker_label (Some u)) ∧
  (∀ x, canonical_service_agent_id id = _BROKER_LABEL_PREFIX +:+ x → x = u) ∧
  (∀ r, known = Some r → row_read k0 (t, canonical_service_agent_id id) r (base s1)).
Proof.
  intros k0 Hfair Hc Hu Hgate.
  unfold broker_owned_agent_id in Hgate. rewrite (broker_label_Some _ Hu) in *.
  assert (Hlab : ∀ x, canonical_service_agent_id (_BROKER_LABEL_PREFIX +:+ u)
                      = _BROKER_LABEL_PREFIX +:+ x → x = u).
  { intros x. rewrite canonical_label. intros H. symmetry. by eapply string_app_inj_l. }
  case_bool_decide as Hch.
  { injection Hgate as <- <- <-. split; [by apply advance_refl|]. split; [by left|].
    split; [|done]. rewrite canonical_idem, Hch. intros x H. symmetry. by eapply string_app_inj_l. }
  destruct (startswith _BROKER_LABEL_PREFIX _) eqn:Hsw.
  { injection Hgate as <- <- <-. split; [by apply advance_refl|]. by split; [right|]. }
  apply m_bind_ok in Hgate as (o & s3 & Hlook & Hgate).
  unfold lookup_agent in Hlook. rewrite canonical_idem in Hlook.
  destruct (get_agent_ok k0 _ _ _ _ _ _ Hc Hlook) as (o' & [= <-] & Hadv & Hrow).
  assert (Hmine : ∀ x, canonical_service_agent_id (canonical_service_agent_id chosen)
                       = _BROKER_LABEL_PREFIX +:+ x → x = u).
  { rewrite canonical_idem. intros x Hx. exfalso. apply not_true_iff_false in Hsw.
    apply Hsw, startswith_spec. eauto. }
  destruct o as [r|]; [destruct (_owned_by_other_install _ _)|];
    injection Hgate as <- <- <-; (split; [done|]); (split; [by (left + right)|]); (split; [done|]);
    [done| |done].
  intros ? [= <-]. rewrite canonical_idem. by apply Hrow.
Qed.

(** Registration and resolution return, unless an id holds a slash. *)
Lemma get_or_create_returns {w : World} t aid fleet ra owner known s :
  str_any (λ c, bool_decide (c = "/"%char)) (canonical_service_agent_id aid) = false →
  ∃ a p s', get_or_create_agent t aid fleet ra None None owner known s = (Ok (a, p), s').
Proof.
  intros Hs. unfold get_or_create_agent, get_agent, register_agent, legacy_main, create_or_update_agent,
    log_registered. rewrite Hs, andb_false_r. unfold mbind, m_bind, mret, m_ret.
  repeat (case_match || simplify_eq); try congruence; eauto.
Qed.

Lemma resolve_write_agent_run (w : World) chosen t fleet u ra s a id s' :
  FairWorld w (t, canonical_service_agent_id chosen) →
  consistent (t, canonical_service_agent_id chosen) (base s) → u ≠ "" →
  resolve_write_agent chosen t fleet true (Some u) ra s = (Ok (a, id), s') →
  owned (t, id) u (base s') ∧
  (id = canonical_service_agent_id chosen ∨ id = broker_label (Some u)).
Proof.
  intros Hfair Hc Hu Hrun. unfold resolve_write_agent in Hrun.
  set (k0 := (t, canonical_service_agent_id chosen)) in *.
  apply m_bind_ok in Hrun as ([id1 known] & s1 & Hgate & Hrun).
  apply m_bind_ok in Hrun as ([a1 p1] & s2 & Hreg & Hrun).
  destruct (broker_gate_ok _ _ _ _ _ _ _ _ Hfair Hc Hu Hgate) as (Ha1 & Hid1 & Hsafe & Hknown).
  destruct (get_or_create_ok k0 _ _ _ _ _ _ _ _ _ _ (proj1 Ha1) Hsafe Hknown Hreg)
    as (Ha2 & v & Hv & Hor).
  assert (Hcan : canonical_service_agent_id id1 = id1).
  { destruct Hid1 as [-> | ->]; [apply canonical_idem|].
    rewrite broker_label_Some by done. apply canonical_label. }
  rewrite Hcan in *.
  assert (Hlabel : ∀ v s, consistent k0 s → owned (t, broker_label (Some u)) v s → v = u).
  { intros v0 s0 (_ & Hr & _). rewrite broker_label_Some by done. apply Hr. }
  replace (nonempty (Some u)) with true in Hrun by (cbn; by rewrite bool_decide_false).
  cbn [andb] in Hrun. destruct (_owned_by_other_install (owner_install_uuid a1) (Some u)) eqn:Hother.
  - apply m_bind_ok in Hrun as ([a2 p2] & s3 & Hreg2 & Hrun). injection Hrun as <- <- <-.
    rewrite (broker_label_Some _ Hu) in *.
    destruct (get_or_create_ok k0 u t (_BROKER_LABEL_PREFIX +:+ u) _ _ None _ _ _ _ (proj1 Ha2)
                ltac:(intros x; rewrite canonical_label; intros H; symmetry; by eapply string_app_inj_l)
                ltac:(done) Hreg2) as (Ha3 & v' & Hv' & _).
    rewrite canonical_label in Hv'. split; [|by right].
    by pose proof (Hlabel _ _ (proj1 Ha3) Hv') as ->.
  - injection Hrun as <- <- <-. split; [|done].
    assert (v = u) as ->; [|done].
    destruct Hor as [Ho|[Hne Ho]].
    + rewrite Ho in Hother. unfold _owned_by_other_install in Hother.
      rewrite bool_decide_true in Hother by done. cbn in Hother.
      apply negb_false_iff, bool_decide_eq_true in Hother. by injection Hother.
    + destruct Hid1 as [-> | ->]; [done|]. by eapply Hlabel; [apply Ha2|].
Qed.

Definition no_slash (a : string) : bool := negb (str_any (λ c, bool_decide (c = "/"%char)) a).

Lemma resolve_write_agent_returns (w : World) chosen t fleet u ra s :
  u ≠ "" → no_slash (canonical_service_agent_id chosen) → no_slash (broker_label (Some u)) →
  ∃ a id s', resolve_write_agent chosen t fleet true (Some u) ra s = (Ok (a, id), s').
Proof.
  intros Hu Hc Hl. unfold no_slash in *. apply Is_true_eq_true, negb_true_iff in Hc, Hl.
  unfold resolve_write_agent.
  assert (∃ id known s1, broker_owned_agent_id (canonical_service_agent_id chosen) (Some u) t s
                         = (Ok (id, known), s1) ∧
          str_any (λ c, bool_decide (c = "/"%char)) (canonical_service_agent_id id) = false)
    as (id & known & s1 & Hg & Hid).
  { unfold broker_owned_agent_id, lookup_agent, get_agent.
    assert (str_any (λ c, bool_decide (c = "/"%char))
              (canonical_service_agent_id (broker_label (Some u))) = false).
    { rewrite broker_label_Some in * by done. by rewrite canonical_label. }
    unfold mbind, m_bind, mret, m_ret.
    repeat (case_match || simplify_eq); eauto 10 using eq_trans, f_equal, canonical_idem;
      eexists _, _, _; (split; [done|]); by rewrite ?canonical_idem. }
  unfold mbind, m_bind. rewrite Hg.
  destruct (get_or_create_returns t id fleet ra (Some u) known s1 Hid) as (a & p & s2 & ->).
  case_match; [|by unfold mret, m_ret; eauto].
  destruct (get_or_create_returns t (broker_label (Some u)) fleet ra (Some u) None s2) as (a' & p' & s3 & ->).
  { rewrite broker_label_Some in * by done. by rewrite canonical_label. }
  unfold mret, m_ret. eauto.
Qed.

(** C10: [install_writes_as_its_own]: a broker write returns, with an agent its install owns, the one
    it chose or its own [broker:<install>], whatever registrations race it and however far the
    replica lags, as long as no row of the chosen agent is without an owner. *)
Theorem install_writes_as_its_own (w : World) chosen t fleet u ra s :
  FairWorld w (t, canonical_service_agent_id chosen) →
  consistent (t, canonical_service_agent_id chosen) (base s) → u ≠ "" →
  no_slash (canonical_service_agent_id chosen) → no_slash (broker_label (Some u)) →
  ∃ a id s', resolve_write_agent chosen t fleet true (Some u) ra s = (Ok (a, id), s') ∧
    owned (t, id) u (base s') ∧
    (id = canonical_service_agent_id chosen ∨ id = broker_label (Some u)).
Proof.
  intros Hf Hc Hu H1 H2.
  destruct (resolve_write_agent_returns w chosen t fleet u ra s Hu H1 H2) as (a & id & s' & Hrun).
  exists a, id, s'. split; [done|]. by eapply resolve_write_agent_run.
Qed.

(** A replica that shows nothing, and an install [v] that registers [scout] between the two
    confirmations of a miss and the insert of [u]. *)
Definition race_world : World := {|
  before n s := if bool_decide (n = 3%nat) then (agent_add (demo_data 1 (Some "v")) s).2 else s;
  replica _ _ := Db ∅ ∅;
  require_agent_approval _ := false
|}.
Definition race_start : st := St 0 (Db ∅ ∅) [] [].

#[local] Instance race_world_fair : FairWorld race_world demo_key.
Proof.
  split; cbn [before replica race_world].
  - intros n s k v H. case_bool_decide; [by apply agent_add_owned|done].
  - intros n s Hs. case_bool_decide; [|done]. apply (agent_add_consistent _ "v"); [done|].
    left. split; [done|]. intros ? ? E. discriminate E.
  - intros n s k v _ (a & Ha & _). cbn in Ha. by rewrite lookup_empty in Ha.
  - intros n s _. split; [intros ? ? H|intros ? H]; cbn in H; by rewrite lookup_empty in H.
Defined.

Lemma install_writes_as_its_own_witness :
  (∃ a id s', @resolve_write_agent race_world "scout" "t" None true (Some "u") None race_start
              = (Ok (a, id), s') ∧ owned ("t", id) "u" (base s') ∧
              (id = canonical_service_agent_id "scout" ∨ id = broker_label (Some "u"))) ∧
  (∃ a s', @resolve_write_agent race_world "scout" "t" None true (Some "u") None race_start
           = (Ok (a, "broker:u"), s')).
Proof.
  split; [|eexists _, _; vm_compute; reflexivity].
  apply (install_writes_as_its_own race_world "scout" "t" None "u" None race_start).
  - exact race_world_fair.
  - split_and!.
    + intros ? ? H. cbn in H. by rewrite lookup_empty in H.
    + intros ? ? ? (a & H & _). cbn in H. by rewrite lookup_empty in H.
    + intros ? H. cbn in H. by rewrite lookup_empty in H.
  - discriminate.
  - by_compute.
  - by_compute.
Defined.

(** On a row that has no owner, the loser of the race is not degraded: the reply of the upsert
    that would have shown the other owner is dropped. *)
Definition unclaimed_world : World := {|
  before n s := if bool_decide (n = 1%nat) then (agent_add (demo_data 1 (Some "v")) s).2 else s;
  replica _ s := s;
  require_agent_approval _ := false
|}.

Example unclaimed_race_is_lost_silently :
  ∃ a s', @resolve_write_agent unclaimed_world "scout" "t" None true (Some "u") None
            (St 0 demo_db [] []) = (Ok (a, "scout"), s') ∧
          owner_install_uuid a = Some "u" ∧ owned demo_key "v" (base s').
Proof.
  eexists _, _. split; [vm_compute; reflexivity|]. split; [reflexivity|]. eexists. split; reflexivity.
Qed.

(** A registration that loses the insert writes its default trust over the trust of the row:
    a key provisioned with trust 3 between the miss and the insert ends at 1. *)
Definition provision_world : World := {|
  before n s := if bool_decide (n = 2%nat) then (_agent_add (demo_data 3 None) true s).2 else s;
  replica _ s := s;
  require_agent_approval _ := false
|}.

Example registration_race_demotes :
  let '(r, s') := @get_or_create_agent provision_world "t" "scout" None None None None None None race_start in
  is_ok r = true ∧ trust_level <$> agents (base s') !! demo_key = Some 1.
Proof. split; reflexivity. Qed.
