(* ===== verification/MemoryAccess.v ===== *)
(** * What an agent may read and change

    The gates of [core-api/.../services/agent_service.py] and [trust_service.py], and the
    identity rules of [agent_ids.py]. A gate looks the agent up once and decides; the class
    [Rows] gives the row the replica shows ([true]) and the one on the primary ([false]). A
    refusal carries the status and the code of its [coded_detail]. *)

From S2P Require Import Prelude PyStr PyVal AgentRegistry.

#[local] Open Scope Z_scope.

(** ** Identity *)

Definition DEFAULT_AGENT_ID : string := "mcp-agent".
Definition RESERVED_MAIN_AGENT_ID : string := "main".
Definition ALWAYS_RESERVED_AGENT_IDS : list string := [RESERVED_MAIN_AGENT_ID].
Definition _PLACEHOLDER_BODY_AGENT_IDS : list string := [RESERVED_MAIN_AGENT_ID; DEFAULT_AGENT_ID].

(** [a or b] on optional strings: an empty string counts as none, and is what is left. *)
Definition py_or (a b : option string) : option string := if nonempty a then a else b.

Definition effective_write_agent_id (verified_id body_id : option string) : option string :=
  match verified_id, body_id with
  | Some v, _ =>
      if nonempty verified_id && negb (bool_decide (v ∈ ALWAYS_RESERVED_AGENT_IDS))
      then Some (canonical_service_agent_id v)
      else match body_id with
           | Some b => if nonempty body_id && negb (bool_decide (b ∈ _PLACEHOLDER_BODY_AGENT_IDS))
                       then Some (canonical_service_agent_id b) else py_or verified_id body_id
           | None => py_or verified_id body_id
           end
  | None, Some b =>
      if nonempty body_id && negb (bool_decide (b ∈ _PLACEHOLDER_BODY_AGENT_IDS))
      then Some (canonical_service_agent_id b) else py_or verified_id body_id
  | None, None => None
  end.

Definition effective_read_agent_id (verified_id : option string) (asserted_id : string) : string :=
  canonical_service_agent_id (default asserted_id (py_or verified_id (Some asserted_id))).

(** ** The gates *)

Class Rows : Type := shown : bool → string → string → option agent.

Definition deny {A} (code : string) : result exn A := Err (HTTPException 403 code).

Definition trust_of (a : option agent) : Z := match a with Some a => trust_level a | None => 0 end.

Section Gates.
Context {rows : Rows}.

Definition lookup (tenant_id agent_id : string) (read : bool) : option agent :=
  let id := canonical_service_agent_id agent_id in
  if no_slash id then shown read tenant_id id else None.

(** *** Trust *)

Record trust_answer : Type := TrustAnswer {
  effective_trust : Z; not_found : bool; error_str : option string
}.

Definition _MCP_ERROR_PREFIX : string := "Error (403): ".
Definition require_trust (tenant_id agent_id : string) (min_level : Z) : trust_answer :=
  match lookup tenant_id agent_id false with
  | None =>
      if min_level <=? DEFAULT_TRUST_LEVEL then TrustAnswer DEFAULT_TRUST_LEVEL true None
      else TrustAnswer DEFAULT_TRUST_LEVEL true
             (Some (_MCP_ERROR_PREFIX +:+ "Agent '" +:+ agent_id +:+ "' is not registered (no row; effective trust "
                    +:+ str_of_Z DEFAULT_TRUST_LEVEL +:+ " < required " +:+ str_of_Z min_level
                    +:+ "). Register the agent by writing one memory first."))
  | Some a =>
      if trust_level a <? min_level
      then TrustAnswer (trust_level a) false
             (Some (_MCP_ERROR_PREFIX +:+ "Agent '" +:+ agent_id +:+ "' (trust_level="
                    +:+ str_of_Z (trust_level a) +:+ ") < required " +:+ str_of_Z min_level +:+ "."))
      else TrustAnswer (trust_level a) false None
  end.

Definition run_scope_trust (scope : string) : Z :=
  if bool_decide (scope = "agent") then 1 else if bool_decide (scope = "fleet") then 2 else 3.

Definition parse_trust_error (terr : string) : string :=
  if startswith _MCP_ERROR_PREFIX terr
  then String.substring (String.length _MCP_ERROR_PREFIX) (String.length terr) terr else terr.

(** *** Writes *)

Definition fleet_write_allowed (a : agent) (fleet : option string) : result exn agent :=
  if bool_decide (fleet = None) || bool_decide (fleet = fleet_id a) then Ok a
  else if trust_level a <? 3 then deny "FLEET_SCOPE_FORBIDDEN" else Ok a.

Definition enforce_visibility_write (tenant_id agent_id : string) (visibility : option string)
    (known : option agent) : result exn unit :=
  if negb (bool_decide (visibility = Some "scope_org")) then Ok tt
  else
    let a := match known with Some a => Some a | None => lookup tenant_id agent_id false end in
    match a with
    | Some a => if trust_level a <? 3 then deny "FLEET_SCOPE_FORBIDDEN" else Ok tt
    | None => deny "FLEET_SCOPE_FORBIDDEN"
    end.

(** The bar of [enforce_crystallize], [enforce_delete] and [enforce_send_correction]: a
    registered agent at the level, by the primary. *)
Definition trusted_to (tenant_id agent_id : string) (level : Z) : result exn unit :=
  match lookup tenant_id agent_id false with
  | None => deny "AGENT_NOT_REGISTERED"
  | Some a => if trust_level a <? level then deny "AGENT_TRUST_TOO_LOW" else Ok tt
  end.

Definition enforce_crystallize (tenant_id agent_id : string) : result exn unit :=
  trusted_to tenant_id agent_id 3.
Definition enforce_delete (tenant_id agent_id : string) : result exn unit :=
  trusted_to tenant_id agent_id 3.

Definition VERIFY_MIN_TRUST : Z := 3.
Definition enforce_verify (tenant_id agent_id : string) (disputed verify : bool) : result exn unit :=
  trusted_to tenant_id agent_id VERIFY_MIN_TRUST;;
  raise_if (verify && disputed) (HTTPException 403 "AGENT_CREDENTIAL_FORBIDDEN").

Definition SEND_CORRECTION_MIN_TRUST : Z := 3.
Definition enforce_send_correction (tenant_id agent_id : string) : result exn unit :=
  trusted_to tenant_id agent_id SEND_CORRECTION_MIN_TRUST.

(** The stored document an upsert would replace: its id, author and fleet. *)
Record document : Type := Document {
  doc_id : string; doc_author : option string; doc_fleet : option string
}.

(** [existing] is what the natural key found on the primary. *)
Definition enforce_document_overwrite (tenant_id agent_id id : string) (force : bool)
    (existing : option document) : result exn unit :=
  let by_trust (fleet_peer : agent → bool) :=
    match lookup tenant_id agent_id true with
    | Some a => if (3 <=? trust_level a) || fleet_peer a then Ok tt else deny "AGENT_TRUST_TOO_LOW"
    | None => deny "AGENT_TRUST_TOO_LOW"
    end in
  if force then by_trust (λ _, false)
  else match existing with
       | None => Ok tt
       | Some d =>
           if negb (bool_decide (doc_id d = id)) then Ok tt
           else match doc_author d with
                | None => Ok tt
                | Some author =>
                    if bool_decide (canonical_service_agent_id author = agent_id) then Ok tt
                    else by_trust (λ a, bool_decide (is_Some (fleet_id a)) &&
                                        bool_decide (doc_fleet d = fleet_id a))
                end
       end.

Definition enforce_update (tenant_id agent_id : string) (owner : option string) : result exn unit :=
  match lookup tenant_id agent_id false with
  | None => deny "AGENT_NOT_REGISTERED"
  | Some a =>
      if trust_level a =? 0 then deny "AGENT_TRUST_TOO_LOW"
      else if (trust_level a <? 3) && negb (bool_decide (Some (canonical_service_agent_id agent_id) = owner))
      then deny "AGENT_TRUST_TOO_LOW" else Ok tt
  end.

Definition LIVE_MEMORY_STATUSES : list string := ["active"; "confirmed"; "pending"].
Definition OWNER_RETIREMENT_STATUSES : list string := ["outdated"; "conflicted"; "cancelled"].

Definition enforce_transition (tenant_id agent_id : string) (owner : option string) (status : string) :
    result exn unit :=
  enforce_update tenant_id agent_id owner;;
  if bool_decide (status ∈ LIVE_MEMORY_STATUSES) then Ok tt
  else if bool_decide (Some (canonical_service_agent_id agent_id) = owner) &&
          bool_decide (status ∈ OWNER_RETIREMENT_STATUSES) then Ok tt
  else enforce_delete tenant_id agent_id.

(** *** Reads *)

Definition refuse_restricted_reader (a : option agent) : result exn unit :=
  match a with
  | Some a => if trust_level a <? 1 then deny "AGENT_TRUST_TOO_LOW" else Ok tt
  | None => Ok tt
  end.

Definition enforce_registered_fleet_read (tenant_id agent_id fleet : string) : result exn unit :=
  match lookup tenant_id agent_id true with
  | None => deny "AGENT_NOT_REGISTERED"
  | Some a =>
      let required := if bool_decide (Some fleet = fleet_id a) then 1 else 2 in
      if trust_level a <? required
      then deny (if required =? 1 then "AGENT_TRUST_TOO_LOW" else "FLEET_SCOPE_FORBIDDEN") else Ok tt
  end.

(** The loop over the requested fleets: the first that is refused raises. *)
Fixpoint fleets_readable (a : agent) (fleets : list (option string)) : result exn unit :=
  match fleets with
  | [] => Ok tt
  | f :: fleets =>
      if bool_decide (f = None) || bool_decide (f = fleet_id a) then fleets_readable a fleets
      else if trust_level a <? 2 then deny "FLEET_SCOPE_FORBIDDEN" else fleets_readable a fleets
  end.

Definition enforce_fleet_read_many (tenant_id agent_id : string) (fleets : list (option string))
    (known : option agent) : result exn unit :=
  match (match known with Some a => Some a | None => lookup tenant_id agent_id true end) with
  | None => Ok tt
  | Some a => fleets_readable a fleets
  end.

Definition enforce_fleet_read (tenant_id agent_id : string) (fleet : option string) : result exn unit :=
  enforce_fleet_read_many tenant_id agent_id [fleet] None.

(** The level a scoped enumeration needs, and the fleet its query is limited to. *)
Definition resolve_read_fleet_gate (tenant_id agent_id scope : string) (fleet : option string) :
    Z * option string :=
  if bool_decide (scope = "agent") then (1, fleet)
  else if bool_decide (scope = "all") then (2, fleet)
  else
    let a := lookup tenant_id agent_id true in
    let home_fleet := a ≫= fleet_id in
    let trust := match a with Some a => trust_level a | None => DEFAULT_TRUST_LEVEL end in
    if nonempty fleet && (negb (nonempty home_fleet) || negb (bool_decide (fleet = home_fleet)))
    then (2, fleet)
    else if negb (nonempty fleet) && (trust <? 2) then
      if nonempty home_fleet then (1, home_fleet)
      else if bool_decide (is_Some a) then (2, fleet) else (1, fleet)
    else if negb (nonempty fleet) then (2, fleet)
    else (1, fleet).

(** ** Memories by id *)

Record memory_row : Type := MemoryRow {
  visibility : option string; owner_agent_id : option string; row_fleet_id : option string
}.

Definition memory_access_allowed_for_agent (a : option agent) (caller : string) (m : memory_row)
    (row_tenant_id : string) (caller_tenant_id : option string) (write : bool) : bool :=
  if match a with Some a => trust_level a <? 1 | None => false end then false
  else if bool_decide (visibility m = Some "scope_agent") then
    if nonempty caller_tenant_id && negb (bool_decide (Some row_tenant_id = caller_tenant_id)) then false
    else nonempty (owner_agent_id m) &&
         bool_decide (owner_agent_id m = Some (canonical_service_agent_id caller))
  else if bool_decide (visibility m = Some "scope_org") then true
  else match a with
       | None => true
       | Some a =>
           if bool_decide (row_fleet_id m = None) || bool_decide (row_fleet_id m = fleet_id a) then true
           else (if write then 3 else 2) <=? trust_level a
       end.

Definition install_owns_agent (tenant_id : string) (agent_id install_uuid : option string) : bool :=
  match agent_id with
  | Some a =>
      if nonempty install_uuid && nonempty agent_id
      then match lookup tenant_id a true with
           | Some o => bool_decide (owner_install_uuid o = install_uuid)
           | None => false
           end
      else false
  | None => false
  end.

Definition enforce_broker_agent_ownership (tenant_id agent_id : string) (install_uuid : option string) :
    result exn unit :=
  if install_owns_agent tenant_id (Some agent_id) install_uuid then Ok tt
  else deny "AGENT_IDENTITY_MISMATCH".

Definition authorize_memory_access (tenant_id : string) (caller : option string) (m : memory_row)
    (write : bool) (caller_tenant_id : option string) (is_install_credential : bool)
    (install_uuid : option string) : bool :=
  match caller with
  | Some c =>
      if nonempty caller
      then memory_access_allowed_for_agent (lookup tenant_id c false) c m tenant_id caller_tenant_id write
      else if is_install_credential && bool_decide (visibility m = Some "scope_agent")
      then install_owns_agent tenant_id (owner_agent_id m) install_uuid else true
  | None =>
      if is_install_credential && bool_decide (visibility m = Some "scope_agent")
      then install_owns_agent tenant_id (owner_agent_id m) install_uuid else true
  end.

(** The reader an install without an agent gets: ownership is decided once per author. *)
Definition install_reader (tenant_id : string) (install_uuid : option string) (ms : list memory_row) :
    memory_row → bool :=
  let authors := remove_dups (owner_agent_id <$> filter (λ m, visibility m = Some "scope_agent") ms) in
  let owned := filter (λ a, install_owns_agent tenant_id a install_uuid = true) authors in
  λ m, negb (bool_decide (visibility m = Some "scope_agent")) || bool_decide (owner_agent_id m ∈ owned).

Definition memory_reader (tenant_id : string) (caller caller_tenant_id : option string)
    (is_install_credential : bool) (install_uuid : option string) (ms : list memory_row) :
    memory_row → bool :=
  match caller with
  | Some c =>
      if nonempty caller then
        let a := lookup tenant_id c false in
        λ m, memory_access_allowed_for_agent a c m tenant_id caller_tenant_id false
      else if is_install_credential then install_reader tenant_id install_uuid ms else λ _, true
  | None => if is_install_credential then install_reader tenant_id install_uuid ms else λ _, true
  end.
End Gates.

Section FleetWrite.
Context {w : World}.

(** The row the request already holds, or the agent registered on the spot. *)
Definition writer_row (tenant_id agent_id : string) (fleet : option string) (known : option agent) :
    M agent :=
  match known with
  | Some a => mret a
  | None => '(a, _) ← get_or_create_agent tenant_id agent_id fleet None None None None None; mret a
  end.
Definition lift {A} (r : result exn A) : M A := λ s, (r, s).

Definition enforce_fleet_write (tenant_id agent_id : string) (fleet : option string)
    (known : option agent) : M agent :=
  a ← writer_row tenant_id agent_id fleet known;
  lift (fleet_write_allowed a fleet).
End FleetWrite.

(** ** Facts *)

Lemma fleets_readable_all a fleets :
  is_ok (fleets_readable a fleets) = forallb (λ f, is_ok (fleets_readable a [f])) fleets.
Proof.
  induction fleets as [|f fs IH]; [done|]. cbn [forallb]. rewrite <-IH. cbn [fleets_readable].
  destruct (_ || _); [done|]. by destruct (_ <? _).
Qed.

Section Properties.
Context {rows : Rows}.

(** A reader built once decides each of its rows as the check of that row does. *)
Lemma install_reader_agrees t u ms m :
  m ∈ ms →
  install_reader t u ms m
  = if bool_decide (visibility m = Some "scope_agent") then install_owns_agent t (owner_agent_id m) u
    else true.
Proof.
  intros Hm. unfold install_reader. case_bool_decide as Hv; [|done]. cbn [negb orb].
  apply eq_bool_prop_intro. rewrite bool_decide_spec, list_elem_of_filter, elem_of_remove_dups.
  split; [intros [H _]; by rewrite H|]. intros H. split; [by apply Is_true_eq_true|].
  apply list_elem_of_fmap. exists m. split; [done|]. by apply list_elem_of_filter.
Qed.

(** [fleet_list_is_each_fleet]: a read of several fleets is allowed exactly when each fleet
    would be, so naming more fleets is never checked less. *)
Theorem fleet_list_is_each_fleet t c fleets :
  is_ok (enforce_fleet_read_many t c fleets None)
  = forallb (λ f, is_ok (enforce_fleet_read t c f)) fleets.
Proof.
  unfold enforce_fleet_read, enforce_fleet_read_many. destruct (lookup t c true) as [a|].
  - apply fleets_readable_all.
  - by induction fleets.
Qed.

(** [memory_reader_agrees]: the reader of many memories gives each of them the answer the by-id
    check of that memory gives, for an agent, an install or a tenant credential. *)
Theorem memory_reader_agrees t caller ct install u ms m :
  m ∈ ms →
  memory_reader t caller ct install u ms m = authorize_memory_access t caller m false ct install u.
Proof.
  intros Hm. unfold memory_reader, authorize_memory_access.
  destruct caller as [c|]; [destruct (nonempty (Some c)); [done|]|];
    (destruct install; cbn [andb]; [by apply install_reader_agrees|done]).
Qed.

(** [by_id_matches_the_fleet_gates]: on a team memory, the by-id check of a registered agent is
    the fleet gate of the list and search reads, and of writes, for the memory's fleet. *)
Theorem by_id_matches_the_fleet_gates t c a m ct install u :
  nonempty (Some c) → lookup t c true = Some a → lookup t c false = Some a → 1 ≤ trust_level a →
  visibility m ≠ Some "scope_agent" → visibility m ≠ Some "scope_org" →
  authorize_memory_access t (Some c) m false ct install u
  = is_ok (enforce_fleet_read t c (row_fleet_id m)) ∧
  authorize_memory_access t (Some c) m true ct install u
  = is_ok (fleet_write_allowed a (row_fleet_id m)).
Proof.
  intros Hc Hr Hp Ht H1 H2. apply Is_true_eq_true in Hc.
  unfold authorize_memory_access, enforce_fleet_read, enforce_fleet_read_many, memory_access_allowed_for_agent,
    fleet_write_allowed. cbn [fleets_readable]. rewrite Hc, Hr, Hp. replace (trust_level a <? 1) with false by lia.
  rewrite (bool_decide_false _ H1), (bool_decide_false _ H2). rewrite !Z.leb_antisym.
  destruct (_ || _); [done|]. split; [by destruct (_ <? 2)|by destruct (_ <? 3)].
Qed.

(** [transition_is_no_delete]: a status change an agent is let make takes a live memory away
    only with the trust a delete needs, or from its own author to a status authors may give. *)
Theorem transition_is_no_delete t c owner status :
  enforce_transition t c owner status = Ok tt → status ∉ LIVE_MEMORY_STATUSES →
  enforce_update t c owner = Ok tt ∧
  (enforce_delete t c = Ok tt ∨
   (Some (canonical_service_agent_id c) = owner ∧ status ∈ OWNER_RETIREMENT_STATUSES)) ∧
  (Some (canonical_service_agent_id c) ≠ owner → enforce_delete t c = Ok tt).
Proof.
  intros H Hs. unfold enforce_transition in H. destruct (enforce_update t c owner) as [[]|] eqn:E; [|done].
  cbn in H. rewrite bool_decide_false in H by done. split; [done|]. destruct (bool_decide (Some _ = owner)) eqn:Ho; cbn [andb] in H.
  - apply bool_decide_eq_true in Ho. split; [|done]. case_bool_decide; [by right|by left].
  - apply bool_decide_eq_false in Ho. split; [by left|done].
Qed.

(** What a scoped enumeration answers: the fleet it reads, [None] in it for all fleets, when the
    trust gate lets it through. *)
Definition scoped_read (t c scope : string) (fleet : option string) : option (option string) :=
  let '(level, eff) := resolve_read_fleet_gate t c scope fleet in
  match error_str (require_trust t c level) with None => Some eff | Some _ => None end.

(** [scoped_read_reach]: with one row of a registered agent on both databases, trust 0 reads
    nothing, trust 1 its own memories or, with a home fleet, that fleet alone, and trust 2 and
    more whatever it asks for. *)
Theorem scoped_read_reach t c scope fleet a :
  lookup t c true = Some a → lookup t c false = Some a →
  scoped_read t c scope fleet =
  if trust_level a <? 1 then None
  else if bool_decide (scope = "agent") || (2 <=? trust_level a) then Some fleet
  else if bool_decide (scope = "all") then None
  else if nonempty (fleet_id a) && (negb (nonempty fleet) || bool_decide (fleet = fleet_id a))
  then Some (fleet_id a) else None.
Proof.
  intros Hr Hp. unfold scoped_read, resolve_read_fleet_gate, require_trust. rewrite Hr, Hp.
  cbn [mbind option_bind]. rewrite (bool_decide_true (is_Some (Some a))) by done.
  case_bool_decide as H1; cbn [orb]; [by destruct (_ <? 1)|].
  case_bool_decide as H2.
  { rewrite (Z.leb_antisym (trust_level a)). destruct (trust_level a <? 2) eqn:E; cbn; [|].
    - by destruct (_ <? 1).
    - by replace (trust_level a <? 1) with false by lia. }
  rewrite (Z.leb_antisym (trust_level a)).
  destruct (nonempty fleet) eqn:Hf; cbn [andb negb orb].
  - destruct (nonempty (fleet_id a)) eqn:Hh; cbn [andb negb orb].
    + case_bool_decide as He; cbn [negb]; [rewrite He|];
        destruct (trust_level a <? 1) eqn:E1; destruct (trust_level a <? 2) eqn:E2; done || lia.
    + destruct (trust_level a <? 1) eqn:E1; destruct (trust_level a <? 2) eqn:E2; done || lia.
  - destruct (trust_level a <? 2) eqn:E2; cbn [andb negb];
      destruct (nonempty (fleet_id a)) eqn:Hh; cbn [andb negb error_str];
      rewrite ?E2; destruct (trust_level a <? 1) eqn:E1; done || lia.
Qed.
End Properties.

(** ** Witnesses, and what a replica that lags lets through *)

Definition row (fleet : string) (trust : Z) (owner : option string) : agent :=
  Agent "scout" (Some fleet) None None owner trust None.

(** Both databases, or the replica and then the primary. *)
Definition same_rows (a : agent) : Rows := λ _ _ id, if bool_decide (id = "scout") then Some a else None.
Definition lagging_rows (old : option agent) (now : agent) : Rows := λ read _ id,
  if bool_decide (id = "scout") then (if read then old else Some now) else None.

Definition team_row : memory_row := MemoryRow (Some "scope_team") (Some "peer") (Some "south").
Definition private_row : memory_row := MemoryRow (Some "scope_agent") (Some "scout") None.

Lemma memory_reader_agrees_witness :
  @memory_reader (same_rows (row "north" 1 (Some "u"))) "t" None None true (Some "u")
    [team_row; private_row] private_row
  = @authorize_memory_access (same_rows (row "north" 1 (Some "u"))) "t" None private_row false None
      true (Some "u") ∧
  @memory_reader (same_rows (row "north" 1 (Some "u"))) "t" None None true (Some "v")
    [team_row; private_row] private_row = false.
Proof.
  split; [|reflexivity].
  apply (@memory_reader_agrees (same_rows (row "north" 1 (Some "u")))). set_solver.
Defined.

Lemma by_id_matches_the_fleet_gates_witness :
  (@authorize_memory_access (same_rows (row "north" 2 None)) "t" (Some "scout") team_row false None false None
   = is_ok (@enforce_fleet_read (same_rows (row "north" 2 None)) "t" "scout" (Some "south")) ∧
   @authorize_memory_access (same_rows (row "north" 2 None)) "t" (Some "scout") team_row true None false None
   = is_ok (fleet_write_allowed (row "north" 2 None) (Some "south"))) ∧
  @authorize_memory_access (same_rows (row "north" 2 None)) "t" (Some "scout") team_row true None false None
  = false.
Proof.
  split; [|reflexivity].
  apply (@by_id_matches_the_fleet_gates (same_rows (row "north" 2 None)) "t" "scout" (row "north" 2 None)
           team_row); [by_compute|reflexivity|reflexivity|cbn; lia|discriminate|discriminate].
Defined.

Lemma transition_is_no_delete_witness :
  let r := same_rows (row "north" 1 None) in
  @enforce_update r "t" "scout" (Some "scout") = Ok tt ∧
  (@enforce_delete r "t" "scout" = Ok tt ∨
   (Some (canonical_service_agent_id "scout") = Some "scout" ∧ "outdated" ∈ OWNER_RETIREMENT_STATUSES)) ∧
  (Some (canonical_service_agent_id "scout") ≠ Some "scout" → @enforce_delete r "t" "scout" = Ok tt).
Proof.
  intros r. apply (@transition_is_no_delete r "t" "scout" (Some "scout") "outdated");
    [reflexivity|by_compute].
Defined.

Lemma scoped_read_reach_witness :
  @scoped_read (same_rows (row "north" 1 None)) "t" "scout" "fleet" None = Some (Some "north") ∧
  @scoped_read (same_rows (row "north" 1 None)) "t" "scout" "fleet" (Some "south") = None.
Proof.
  split; etransitivity; [| |apply (@scoped_read_reach (same_rows (row "north" 1 None)) "t" "scout" "fleet"
                                     (Some "south") (row "north" 1 None)); reflexivity|]; [|reflexivity|reflexivity].
  apply (@scoped_read_reach (same_rows (row "north" 1 None)) "t" "scout" "fleet" None (row "north" 1 None));
    reflexivity.
Defined.

(** The gate pins the home fleet of the replica: an agent moved from [north] to [south] keeps
    reading [north], and the trust read again from the primary does not stop it. *)
Example stale_home_fleet_is_read :
  let r := lagging_rows (Some (row "north" 1 None)) (row "south" 1 None) in
  @scoped_read r "t" "scout" "fleet" None = Some (Some "north") ∧
  is_ok (fleets_readable (row "south" 1 None) [Some "north"]) = false.
Proof. split; reflexivity. Qed.

(** A replica that has no row yet: an agent of trust 1 reads every fleet. *)
Example replica_miss_reads_every_fleet :
  let r := lagging_rows None (row "south" 1 None) in
  @scoped_read r "t" "scout" "fleet" None = Some None ∧
  @scoped_read (same_rows (row "south" 1 None)) "t" "scout" "fleet" None = Some (Some "south").
Proof. split; reflexivity. Qed.

(** A demoted agent overwrites a document of another fleet's author while the replica shows its
    old trust, when the delete gate already refuses it. *)
Example demoted_agent_overwrites_documents :
  let r := lagging_rows (Some (row "north" 3 None)) (row "north" 0 None) in
  @enforce_document_overwrite r "t" "scout" "doc" false
    (Some (Document "doc" (Some "peer") (Some "south"))) = Ok tt ∧
  @enforce_delete r "t" "scout" = deny "AGENT_TRUST_TOO_LOW".
Proof. split; reflexivity. Qed.
