(* ===== verification/Suppression.v ===== *)
(** * The boundary guard for soft-deleted tenants

    [core-api/.../suppression.py]: the cached answer to "is this tenant suppressed", read on
    every authenticated request. Clock readings are arguments, in microseconds; storage's answer
    is [None] when the call failed. A request awaits storage between the lookup and the write,
    so the two halves are operations of their own and other requests run between them. *)

From S2P Require Import Prelude.

#[local] Open Scope Z_scope.

Definition _TTL_SECONDS : Z := 30 * 1000000.
Definition _ERROR_TTL_SECONDS : Z := 5 * 1000000.

(** [_cache]: the verdict and when it expires. *)
Abbreviation cache := (gmap string (bool * Z)).

Definition _prune_expired (now : Z) (c : cache) : cache := filter (λ e, ¬ e.2.2 <= now) c.

Definition cached (tenant_id : string) (now : Z) (c : cache) : option bool :=
  match c !! tenant_id with
  | Some (v, expires) => if now <? expires then Some v else None
  | None => None
  end.

(** What follows the storage call of a request that read the clock at [now]. *)
Definition record_answer (tenant_id : string) (now : Z) (answer : option bool) (c : cache) :
    bool * cache :=
  match answer with
  | None => (false, <[tenant_id := (false, now + _ERROR_TTL_SECONDS)]> (_prune_expired now c))
  | Some v => (v, <[tenant_id := (v, now + _TTL_SECONDS)]> (_prune_expired now c))
  end.

Definition is_tenant_suppressed (tenant_id : string) (now : Z) (answer : option bool) (c : cache) :
    bool * cache :=
  match cached tenant_id now c with
  | Some v => (v, c)
  | None => record_answer tenant_id now answer c
  end.

(** A write to the cache: which tenant, the clock its request had read, and storage's answer. *)
Record write : Type := Write { w_tenant : string; w_now : Z; w_answer : option bool }.

Definition run_write (w : write) (c : cache) : cache :=
  (record_answer (w_tenant w) (w_now w) (w_answer w) c).2.
Definition run_writes (ws : list write) (c : cache) : cache := fold_left (λ c w, run_write w c) ws c.

(** A live verdict comes from a request whose own answer was live, or failed. *)
Lemma run_writes_live (P : Z → Prop) t ws e :
  Forall (λ w, w_tenant w = t → w_answer w ≠ Some true → P (w_now w)) ws →
  run_writes ws ∅ !! t = Some (false, e) → ∃ now, P now ∧ e <= now + _TTL_SECONDS.
Proof.
  intros Hws. assert (H : ∀ c, (c !! t = Some (false, e) → ∃ now, P now ∧ e <= now + _TTL_SECONDS) →
                     run_writes ws c !! t = Some (false, e) → ∃ now, P now ∧ e <= now + _TTL_SECONDS);
    [|by apply H; rewrite lookup_empty].
  unfold run_writes. induction Hws as [|[t' n a] ws Hw _ IH]; intros c Hc; [done|]. cbn [fold_left].
  apply IH. unfold run_write, record_answer. cbn [w_tenant w_now w_answer] in *.
  destruct (decide (t' = t)) as [->|Hne].
  - destruct a as [[]|]; cbn [snd]; rewrite lookup_insert_eq; [done| |];
      intros [= <-]; exists n; (split; [by apply Hw|]); unfold _TTL_SECONDS, _ERROR_TTL_SECONDS; lia.
  - destruct a; cbn [snd]; rewrite lookup_insert_ne by done;
      intros [H' _]%map_lookup_filter_Some; by apply Hc.
Qed.

(** [suppression_cuts_off_in_thirty_seconds]: once storage calls a tenant suppressed, every check
    from thirty seconds on refuses it, whatever requests overlap and in whatever order their
    answers are written; checks begun before may have cached what they liked. *)
Theorem suppression_cuts_off_in_thirty_seconds t since ws now :
  Forall (λ w, w_tenant w = t → since <= w_now w → w_answer w = Some true) ws →
  since + _TTL_SECONDS <= now →
  (is_tenant_suppressed t now (Some true) (run_writes ws ∅)).1 = true.
Proof.
  intros Hws Hnow. unfold is_tenant_suppressed, cached.
  destruct (run_writes ws ∅ !! t) as [[[] e]|] eqn:E; [by destruct (_ <? _)| |done].
  destruct (run_writes_live (λ n, n < since) t ws e) as (n & Hn & He); [|done|].
  - eapply Forall_impl; [exact Hws|]. cbn. intros w Hw Ht Ha.
    destruct (decide (since <= w_now w)); [|lia]. by rewrite Hw in Ha.
  - by replace (now <? e) with false by lia.
Qed.

Lemma suppression_cuts_off_in_thirty_seconds_witness :
  (is_tenant_suppressed "t" 30000007 (Some true)
     (run_writes [Write "t" 8 (Some true); Write "t" 6 (Some false)] ∅)).1 = true.
Proof.
  apply (suppression_cuts_off_in_thirty_seconds "t" 7); [|by compute].
  repeat constructor; cbn; intros; lia || done.
Defined.

(** While storage is down the guard lets a suppressed tenant in, and asks again after five
    seconds. *)
Example outage_fails_open :
  let '(r, c) := is_tenant_suppressed "t" 0 None ∅ in
  r = false ∧ cached "t" 4999999 c = Some false ∧ cached "t" 5000000 c = None.
Proof. cbn zeta. repeat split; reflexivity. Qed.
