(* ===== verification/AuthContext.v ===== *)
(** * Authentication and the gates of a credential

    [core-api/.../auth.py]: [_resolve_auth_context], which turns a request's headers and the
    deployment's settings into an [AuthContext], and the gates that object offers the routes;
    with the labels of [audit_actor.py] and [http_security.credential_matches]. The heartbeat's
    client counter is left out; [org_id] and the [scopes] alias, which nothing sets, too. *)

From S2P Require Import Prelude PyStr PyVal AgentRegistry MemoryAccess Suppression.

#[local] Open Scope Z_scope.

(** ** Settings and headers *)

Record settings : Type := Settings {
  admin_api_key : option string;
  api_key : option string;
  memclaw_api_key : option string;
  gateway_shared_secret : option string;
  is_standalone : bool;
  standalone_tenant_id : string
}.

Definition get_admin_key (cfg : settings) : option string := py_or (admin_api_key cfg) (api_key cfg).

(** A request: its headers by lower-case name, and what [X-API-Key] carried. *)
Record request : Type := Request { header : string → option string; key : option string }.

Definition is_ascii (c : ascii) : bool := (code c <? 128)%N.

(** [hmac.compare_digest] of the ASCII encodings; what has none does not match. *)
Definition credential_matches (presented expected : string) : bool :=
  str_all is_ascii presented && str_all is_ascii expected && bool_decide (presented = expected).

(** [presented] is given and matches the configured key. *)
Definition matches_key (presented configured : option string) : bool :=
  match presented, configured with
  | Some p, Some c => nonempty presented && nonempty configured && credential_matches p c
  | _, _ => false
  end.

(** [value.split(",")] *)
Fixpoint split_commas (s : string) : list string :=
  match s with
  | "" => [""]
  | String c s =>
      if bool_decide (c = ","%char) then "" :: split_commas s
      else match split_commas s with
           | [] => [String c ""]
           | x :: xs => String c x :: xs
           end
  end.
Definition _parse_csv_header (value : option string) : list string :=
  match value with
  | None => []
  | Some v => filter (λ x, x ≠ "") (strip <$> split_commas v)
  end.

(** [value or None] after stripping. *)
Definition nonblank (v : option string) : option string :=
  match v with
  | Some v => if bool_decide (strip v = "") then None else Some (strip v)
  | None => None
  end.

(** ** The context *)

Record auth_context : Type := AuthContext {
  tenant_id : option string;
  is_demo : bool;
  is_admin : bool;
  user_id : option string;
  org_role : option string;
  agent : option string;
  agent_id_verified : bool;
  is_read_only : bool;
  read_only_reason : option string;
  is_install_credential : bool;
  install_uuid : option string;
  readable_tenant_ids : list string;
  capabilities : option (list string);
  is_person : bool;
  credential_kind : option string;
  credential_id : option string
}.

(** The constructor's rule for the readable tenants. *)
Definition readable_of (tenant : option string) (readable : list string) : list string :=
  match readable with
  | [] => match tenant with Some t => if bool_decide (t = "") then [] else [t] | None => [] end
  | _ => match tenant with
         | Some t => if bool_decide (t = "") || bool_decide (t ∈ readable) then readable else t :: readable
         | None => readable
         end
  end.

(** A context built with the constructor's defaults. *)
Definition key_context (tenant : option string) (admin : bool) (role agent : option string)
    (read_only : bool) (reason : option string) (credential : option string) : auth_context :=
  AuthContext tenant false admin None role agent false read_only reason false None
    (readable_of tenant []) None false None credential.

Definition ADMIN_KEY_CREDENTIAL : string := "config:admin_api_key".
Definition CAURA_KEY_CREDENTIAL : string := "config:caura_api_key".
Definition READ_ONLY_REASONS : list string := ["license"; "organization"].

(** ** Authentication *)

(** The clock and storage's verdicts at each suppression check of the request. *)
Class Boundary : Type := { check_clock : nat → Z; check_answer : nat → string → option bool }.

(** What a request changes: the checks made, the suppression cache, the bucket of the rate
    limiter, the tenant of the request's metrics and the tenant of row-level security
    ([Some None]: its bypass). *)
Record auth_state : Type := AuthState {
  checks : nat;
  suppression : cache;
  rate_limit_key : option string;
  request_tenant : option string;
  current_tenant : option (option string)
}.

Definition R (A : Type) : Type := auth_state → result exn A * auth_state.
#[export] Instance r_ret : MRet R := λ A a s, (Ok a, s).
#[export] Instance r_bind : MBind R := λ A B f m s,
  match m s with
  | (Ok a, s') => f a s'
  | (Err e, s') => (Err e, s')
  end.
Definition refuse {A} (status : Z) (code : string) : R A := λ s, (Err (HTTPException status code), s).

Definition set_current_tenant (t : option string) : R unit := λ s,
  (Ok tt, AuthState (checks s) (suppression s) (rate_limit_key s) (request_tenant s) (Some t)).
Definition _stash_request_tenant (t : string) : R unit := λ s,
  (Ok tt, AuthState (checks s) (suppression s) (rate_limit_key s) (Some t) (current_tenant s)).
Definition _set_rate_limit_key (k : string) : R unit := λ s,
  (Ok tt, AuthState (checks s) (suppression s) (Some k) (request_tenant s) (current_tenant s)).

Definition hdr (r : request) (name : string) : string := default "" (header r name).

Definition _gateway_rate_limit_key (r : request) (tenant : string) : string :=
  let api_key := hdr r "x-api-key" in
  let authorization := hdr r "authorization" in
  let bearer := if startswith "Bearer " authorization
                then String.substring 7 (String.length authorization) authorization else "" in
  let identity := "identity:" +:+ tenant +:+ "|" +:+ hdr r "x-user-id" +:+ "|" +:+ hdr r "x-agent-id"
                  +:+ "|" +:+ hdr r "x-install-uuid" in
  if bool_decide (hdr r "cookie" = "") &&
     negb (Bool.eqb (bool_decide (api_key = "")) (bool_decide (authorization = "")))
  then let credential := if bool_decide (api_key = "") then bearer else api_key in
       if bool_decide (credential = "") then identity else "credential:" +:+ credential
  else identity.

Section Resolve.
Context {boundary : Boundary} (cfg : settings).

Definition suppressed_now (t : string) : R bool := λ s,
  let '(v, c) := is_tenant_suppressed t (check_clock (checks s)) (check_answer (checks s) t) (suppression s) in
  (Ok v, AuthState (S (checks s)) c (rate_limit_key s) (request_tenant s) (current_tenant s)).

Definition _block_if_suppressed (t : string) : R unit :=
  if bool_decide (t = "") then mret tt
  else v ← suppressed_now t;
       if v : bool then refuse 403 "ORGANIZATION_SUSPENDED" else mret tt.

Fixpoint _block_if_any_readable_suppressed (t : string) (readable : list string) : R unit :=
  match readable with
  | [] => mret tt
  | rt :: readable =>
      (if negb (bool_decide (rt = "")) && negb (bool_decide (rt = t)) then _block_if_suppressed rt
       else mret tt);;
      _block_if_any_readable_suppressed t readable
  end.

(** What the headers say before any of it is trusted. *)
Definition header_agent (r : request) : option string :=
  if nonempty (header r "x-agent-id") then header r "x-agent-id" else None.
Definition header_read_only (r : request) : bool :=
  bool_decide (lower (hdr r "x-org-read-only") = "true").
Definition header_reason (r : request) : option string :=
  let reason := lower (hdr r "x-org-read-only-reason") in
  if header_read_only r && bool_decide (reason ∈ READ_ONLY_REASONS) then Some reason else None.
Definition header_readable (r : request) : list string := _parse_csv_header (header r "x-readable-tenant-ids").
Definition header_capabilities (r : request) : option (list string) :=
  match _parse_csv_header (py_or (header r "x-capabilities") (header r "x-key-scopes")) with
  | [] => None
  | l => Some l
  end.

(** Path 2: the shared key. *)
Definition caura_key_path (r : request) : R auth_context :=
  if matches_key (key r) (memclaw_api_key cfg) then
    _set_rate_limit_key ("credential:" +:+ default "" (key r));;
    if is_standalone cfg then
      let t := standalone_tenant_id cfg in
      _block_if_suppressed t;;
      set_current_tenant (Some t);;
      _stash_request_tenant t;;
      mret (key_context (Some t) false (Some "admin") (header_agent r) false None (Some CAURA_KEY_CREDENTIAL))
    else
      let t := hdr r "x-tenant-id" in
      if bool_decide (t = "") then
        set_current_tenant None;;
        mret (key_context None false None (header_agent r) false None (Some CAURA_KEY_CREDENTIAL))
      else
        _block_if_suppressed t;;
        _block_if_any_readable_suppressed t (header_readable r);;
        set_current_tenant (Some t);;
        _stash_request_tenant t;;
        mret (key_context (Some t) false None (header_agent r) (header_read_only r) (header_reason r)
                (Some CAURA_KEY_CREDENTIAL))
  else if nonempty (key r) then refuse 401 "INVALID_API_KEY" else refuse 401 "MISSING_API_KEY".

(** Path 3: standalone, no key. *)
Definition standalone_path : R auth_context :=
  let t := standalone_tenant_id cfg in
  _block_if_suppressed t;;
  set_current_tenant (Some t);;
  _stash_request_tenant t;;
  mret (key_context (Some t) false (Some "admin") None false None None).

(** The context of Path 4, from the gateway's headers. *)
Definition gateway_context (r : request) (t : string) : auth_context :=
  let secret := nonempty (gateway_shared_secret cfg) in
  let kind := let k := lower (strip (hdr r "x-caura-credential-kind")) in
              if bool_decide (k = "") then None else Some k in
  let role := let raw := lower (strip (hdr r "x-org-role")) in
              if bool_decide (raw ∈ ["admin"; "member"]) then Some raw else None in
  let agent_id := header_agent r in
  {| tenant_id := Some t;
     is_demo := false;
     is_admin := false;
     user_id := if secret then nonblank (header r "x-user-id") else None;
     org_role := role;
     agent := agent_id;
     agent_id_verified := true;
     is_read_only := header_read_only r;
     read_only_reason := header_reason r;
     is_install_credential := bool_decide (kind = Some "install_credential");
     install_uuid := (let u := header r "x-install-uuid" in if nonempty u then u else None);
     readable_tenant_ids := readable_of (Some t) (header_readable r);
     capabilities := header_capabilities r;
     is_person := bool_decide (is_Some role) && bool_decide (agent_id = None);
     credential_kind := kind;
     credential_id := if secret then nonblank (header r "x-caura-credential-id") else None |}.

(** Path 4: the gateway's headers, behind its secret when one is configured. *)
Definition gateway_path (r : request) : R auth_context :=
  let t := hdr r "x-tenant-id" in
  if bool_decide (t = "") then refuse 401 "MISSING_TENANT_CONTEXT"
  else
    match gateway_shared_secret cfg with
    | Some secret =>
        if bool_decide (secret = "") then mret tt
        else if credential_matches (hdr r "x-gateway-secret") secret
             then _set_rate_limit_key (_gateway_rate_limit_key r t)
             else refuse 401 "GATEWAY_ONLY"
    | None => mret tt
    end;;
    _block_if_suppressed t;;
    _block_if_any_readable_suppressed t (header_readable r);;
    set_current_tenant (Some t);;
    _stash_request_tenant t;;
    mret (gateway_context r t).

Definition _resolve_auth_context (r : request) : R auth_context :=
  if matches_key (key r) (get_admin_key cfg) then
    _set_rate_limit_key ("credential:" +:+ default "" (key r));;
    set_current_tenant None;;
    mret (key_context None true None None false None (Some ADMIN_KEY_CREDENTIAL))
  else if nonempty (memclaw_api_key cfg) then caura_key_path r
  else if is_standalone cfg then standalone_path
  else gateway_path r.
End Resolve.

(** ** The gates *)

Definition is_cross_tenant_read (ctx : auth_context) : bool :=
  (1 <? Z.of_nat (length (readable_tenant_ids ctx))).

Definition source_tenants_for_audit (ctx : auth_context) : list string :=
  match tenant_id ctx with
  | Some t => if is_cross_tenant_read ctx && negb (bool_decide (t = ""))
              then filter (λ x, x ≠ t) (readable_tenant_ids ctx) else []
  | None => []
  end.

(** [audit_actor.audit_credential_kind] and the property that applies it. *)
Definition audit_credential_kind (raw : option string) (admin person : bool) : string :=
  let k := lower (strip (default "" raw)) in
  if bool_decide (k = "") then if admin then "admin_key" else if person then "person" else "tenant_key"
  else k.
Definition actor_kind (cfg : settings) (ctx : auth_context) : string :=
  audit_credential_kind
    (if nonempty (gateway_shared_secret cfg) && agent_id_verified ctx then credential_kind ctx else None)
    (is_admin ctx) (is_person ctx).

Definition SURFACES : list string := ["dashboard"; "prism"; "broker"; "openclaw_plugin"].
Definition parse_surface (raw : option string) : option string :=
  match raw with
  | Some v => if bool_decide (lower (strip v) ∈ SURFACES) then Some (lower (strip v)) else None
  | None => None
  end.

Section Gates.
Context (ctx : auth_context).

Definition enforce_read_only : result exn unit :=
  if is_demo ctx then deny "DEMO_SANDBOX_READ_ONLY"
  else match capabilities ctx with
       | Some caps =>
           if bool_decide ("write" ∈ caps) then Ok tt
           else if is_person ctx then deny "READ_ONLY_ROLE" else deny "READ_ONLY_CREDENTIAL"
       | None => Ok tt
       end.

Definition enforce_usage_limits : result exn unit :=
  raise_if (is_read_only ctx) (HTTPException 403 "PLAN_LIMIT_READ_ONLY").

Definition enforce_admin : result exn unit :=
  raise_if (negb (is_admin ctx)) (HTTPException 403 "ADMIN_REQUIRED").

Definition is_org_admin : bool := is_admin ctx || bool_decide (org_role ctx = Some "admin").

Definition enforce_not_agent_credential : result exn unit :=
  if is_admin ctx then Ok tt
  else raise_if (nonempty (agent ctx)) (HTTPException 403 "AGENT_CREDENTIAL_FORBIDDEN").

Definition enforce_not_org_member : result exn unit :=
  raise_if (bool_decide (org_role ctx = Some "member")) (HTTPException 403 "ORG_ADMIN_REQUIRED").

Definition enforce_tenant_admin_credential : result exn unit :=
  if is_admin ctx then Ok tt
  else raise_if (is_install_credential ctx ||
                 (bool_decide (credential_kind ctx = Some "cross_tenant") || is_cross_tenant_read ctx))
         (HTTPException 403 "CREDENTIAL_KIND_FORBIDDEN").

Definition enforce_self_agent (requested : option string) : result exn unit :=
  match agent ctx, requested with
  | Some a, Some r =>
      raise_if (nonempty (agent ctx) &&
                negb (bool_decide (canonical_service_agent_id r = canonical_service_agent_id a)))
        (HTTPException 403 "AGENT_IDENTITY_MISMATCH")
  | _, _ => Ok tt
  end.

Definition effective_agent_id (requested : option string) : option string :=
  canonical_service_agent_id <$> py_or (agent ctx) requested.

Definition enforce_tenant (requested : option string) : result exn unit :=
  if is_admin ctx then Ok tt
  else match requested with
       | None => Err (HTTPException 400 "TENANT_REQUIRED")
       | Some _ => raise_if (negb (bool_decide (tenant_id ctx = requested)))
                     (HTTPException 403 "TENANT_MISMATCH")
       end.

Definition resolve_tenant (requested : option string) : result exn string :=
  match py_or requested (tenant_id ctx) with
  | Some t =>
      if bool_decide (t = "") then Err (HTTPException 400 "TENANT_REQUIRED")
      else enforce_tenant (Some t);; Ok t
  | None => Err (HTTPException 400 "TENANT_REQUIRED")
  end.

Definition enforce_readable_tenant (requested : string) : result exn unit :=
  if is_admin ctx then Ok tt
  else raise_if (negb (bool_decide (requested ∈ readable_tenant_ids ctx)))
         (HTTPException 403 "TENANT_NOT_READABLE").

Definition enforce_cross_tenant_read : result exn unit :=
  if is_admin ctx then Ok tt
  else raise_if (negb (is_cross_tenant_read ctx)) (HTTPException 403 "CROSS_TENANT_READ_REQUIRED").
End Gates.

(** ** Facts *)

Lemma r_bind_ok {A B} (m : R A) (f : A → R B) s r s' :
  (m ≫= f) s = (Ok r, s') → ∃ a s1, m s = (Ok a, s1) ∧ f a s1 = (Ok r, s').
Proof. unfold mbind, r_bind. destruct (m s) as [[a|e] s1]; [eauto|done]. Qed.

Ltac inv_run H :=
  repeat match type of H with
  | (?m ≫= ?f) ?s = (Ok _, _) =>
      let a := fresh "a" in let s1 := fresh "s" in let Hm := fresh "Hm" in
      apply r_bind_ok in H as (a & s1 & Hm & H)
  end.

Section Facts.
Context {boundary : Boundary} (cfg : settings) (t0 : string).

(** Storage calls [t0] suppressed at every check, and no live verdict of it is in the cache. *)
Definition known_suppressed (s : auth_state) : Prop :=
  t0 ≠ "" ∧ (∀ n, check_answer n t0 = Some true) ∧
  ∀ n, cached t0 (check_clock n) (suppression s) ≠ Some false.

(** A check keeps that so, and a tenant it lets through is another one. *)
Lemma suppressed_now_known t s v s' :
  known_suppressed s → suppressed_now t s = (Ok v, s') → known_suppressed s' ∧ (v = false → t ≠ t0).
Proof.
  intros (Hne & Hans & Hc) H. unfold suppressed_now, is_tenant_suppressed in H.
  destruct (decide (t = t0)) as [->|Hn].
  - destruct (cached t0 _ _) as [v'|] eqn:E; [|rewrite Hans in H]; injection H as <- <-.
    + split; [done|]. intros ->. by destruct (Hc (checks s)).
    + split; [|done]. split_and!; [done|done|]. intros n. cbn [suppression snd record_answer].
      unfold cached. rewrite lookup_insert_eq. by destruct (_ <? _).
  - split; [|done]. destruct (cached t _ _) as [v'|]; [by injection H as <- <-|].
    assert (∃ b e, suppression s' = <[t := (b, e)]> (_prune_expired (check_clock (checks s)) (suppression s)))
      as (b & e & Hs').
    { destruct (check_answer (checks s) t) as [a|]; injection H as <- <-; by eexists _, _. }
    split_and!; [done|done|]. intros n. specialize (Hc n). revert Hc. unfold cached.
    rewrite Hs', lookup_insert_ne by done. intros Hc Hl. apply Hc.
    destruct (_prune_expired _ _ !! t0) as [[]|] eqn:E; [|done].
    apply map_lookup_filter_Some in E as [-> _]. done.
Qed.

Lemma block_known t s a s' :
  known_suppressed s → _block_if_suppressed t s = (Ok a, s') → known_suppressed s' ∧ t ≠ t0.
Proof.
  intros Hk. unfold _block_if_suppressed. case_bool_decide as Ht.
  { intros [= _ <-]. split; [done|]. destruct Hk. congruence. }
  intros H. apply r_bind_ok in H as (v & s1 & Hv & H).
  destruct (suppressed_now_known _ _ _ _ Hk Hv) as [Hk1 Hl]. destruct v; [done|].
  injection H as _ <-. auto.
Qed.

Lemma block_readable_known t readable s a s' :
  known_suppressed s → t ≠ t0 → _block_if_any_readable_suppressed t readable s = (Ok a, s') →
  t0 ∉ readable.
Proof.
  revert s. induction readable as [|x xs IH]; intros s Hk Ht H; [set_solver|].
  cbn in H. apply r_bind_ok in H as (u & s1 & Hx & H).
  apply not_elem_of_cons. destruct (bool_decide (x = "")) eqn:E1; [|destruct (bool_decide (x = t)) eqn:E2].
  - apply bool_decide_eq_true in E1. injection Hx as _ <-. split; [|by eapply IH].
    destruct Hk. congruence.
  - apply bool_decide_eq_true in E2. injection Hx as _ <-. split; [congruence|]. by eapply IH.
  - destruct (block_known _ _ _ _ Hk Hx) as [Hk1 Hne]. split; [done|]. by eapply IH.
Qed.

(** What an accepted request's context is, path by path. *)
Lemma caura_key_path_ok r s ctx s' :
  caura_key_path cfg r s = (Ok ctx, s') →
  matches_key (key r) (memclaw_api_key cfg) ∧ ∃ t role ro reason,
    ctx = key_context t false role (header_agent r) ro reason (Some CAURA_KEY_CREDENTIAL) ∧
    (known_suppressed s → t ≠ Some t0).
Proof.
  unfold caura_key_path. destruct (matches_key _ _); [|by case_match]. intros H. split; [done|].
  apply r_bind_ok in H as (? & s1 & Hs1 & H). injection Hs1 as _ Hs1.
  assert (Hk : known_suppressed s → known_suppressed s1) by (by rewrite <-Hs1).
  destruct (is_standalone cfg); [|case_bool_decide].
  - inv_run H. injection H as <- _. eexists (Some _), _, _, _. split; [done|]. intros ? [= E].
    by eapply block_known; [apply Hk| |exact E].
  - inv_run H. injection H as <- _. by eexists None, _, _, _.
  - inv_run H. injection H as <- _. eexists (Some _), _, _, _. split; [done|]. intros ? [= E].
    by eapply block_known; [apply Hk| |exact E].
Qed.

Lemma standalone_path_ok s ctx s' :
  standalone_path cfg s = (Ok ctx, s') →
  ∃ t, ctx = key_context (Some t) false (Some "admin") None false None None ∧
       (known_suppressed s → t ≠ t0).
Proof.
  unfold standalone_path. intros H. inv_run H. injection H as <- _. eexists. split; [done|].
  intros Hk. by eapply block_known.
Qed.

(** The secret the gateway must have sent, when one is configured. *)
Definition through_gateway (r : request) : Prop :=
  ∀ g, gateway_shared_secret cfg = Some g → g ≠ "" → credential_matches (hdr r "x-gateway-secret") g.

Lemma gateway_path_ok r s ctx s' :
  gateway_path cfg r s = (Ok ctx, s') →
  ∃ t, ctx = gateway_context cfg r t ∧ t = hdr r "x-tenant-id" ∧ t ≠ "" ∧ through_gateway r ∧
    (known_suppressed s → t ≠ t0 ∧ t0 ∉ header_readable r).
Proof.
  unfold gateway_path. case_bool_decide as Ht; [done|]. intros H.
  apply r_bind_ok in H as (? & s1 & Hg & H).
  apply r_bind_ok in H as (? & s2 & Hh & H). apply r_bind_ok in H as (? & s3 & Hr & H).
  inv_run H. injection H as <- _. eexists. split; [done|]. split_and!; try done.
  - intros g E Hne. rewrite E in Hg. rewrite bool_decide_false in Hg by done.
    by destruct (credential_matches _ _).
  - intros Hk. assert (known_suppressed s1) as Hk1.
    { destruct (gateway_shared_secret cfg) as [g|]; [destruct (bool_decide _)|].
      - by injection Hg as _ <-.
      - destruct (credential_matches _ _); [by injection Hg as _ <-|done].
      - by injection Hg as _ <-. }
    destruct (block_known _ _ _ _ Hk1 Hh) as [Hk2 Hne]. split; [done|]. by eapply block_readable_known.
Qed.

Lemma resolve_cases r s ctx s' :
  _resolve_auth_context cfg r s = (Ok ctx, s') →
  (matches_key (key r) (get_admin_key cfg) ∧
   ctx = key_context None true None None false None (Some ADMIN_KEY_CREDENTIAL)) ∨
  caura_key_path cfg r s = (Ok ctx, s') ∨
  (is_standalone cfg ∧ standalone_path cfg s = (Ok ctx, s')) ∨
  gateway_path cfg r s = (Ok ctx, s').
Proof.
  unfold _resolve_auth_context. destruct (matches_key _ _).
  { intros H. inv_run H. injection H as <- _. by left. }
  destruct (nonempty _); [intros H; right; by left|].
  destruct (is_standalone cfg); intros H; right; right; [by left|by right].
Qed.

Lemma readable_of_elem t ts x : t ≠ "" → x ∈ readable_of (Some t) ts → x = t ∨ (x ∈ ts ∧ x ≠ t).
Proof.
  intros Ht. unfold readable_of. rewrite bool_decide_false by done. cbn [orb].
  destruct ts; [|case_bool_decide]; destruct (decide (x = t)); set_solver.
Qed.


End Facts.


(** ** Witnesses *)

Definition demo_settings : settings :=
  Settings (Some "root-key") None None (Some "gw-secret") false "default".
Definition demo_boundary : Boundary :=
  {| check_clock n := Z.of_nat n; check_answer _ t := Some (bool_decide (t = "closed")) |}.
Definition demo_start : auth_state := AuthState 0 ∅ None None None.
Definition demo_request (secret readable : string) : request :=
  Request (λ h, dict_get h [("x-tenant-id", "acme"); ("x-gateway-secret", secret); ("x-agent-id", "scout");
                            ("x-user-id", "kim"); ("x-readable-tenant-ids", readable)]) None.

Definition demo_answer (secret readable : string) : option (list string * option string) :=
  match (@_resolve_auth_context demo_boundary demo_settings (demo_request secret readable) demo_start).1 with
  | Ok ctx => Some (readable_tenant_ids ctx, user_id ctx)
  | Err _ => None
  end.

(** The same request with a live reading list, with a suppressed one and without the secret. *)
Example demo_answers :
  demo_answer "gw-secret" "acme, beta" = Some (["acme"; "beta"], Some "kim") ∧
  demo_answer "gw-secret" "beta,closed" = None ∧ demo_answer "guess" "beta" = None.
Proof. repeat split; vm_compute; reflexivity. Qed.


