(* ===== verification/Contradiction.v ===== *)
(** * Contradictions between single-valued facts

    The deterministic pass of [core-api/.../services/contradiction_detector.py]
    ([_rdf_conflict_pass] with [_pick_older], [_outranked], [_merge_status_update] and
    [_unlinked_pairs]), the trust of a row ([source_trust.py]), the predicates of
    [common/constants.py], and the storage side of the pass: [memory_find_rdf_conflicts], the
    [batch-update-status] route, [memory_update_status] and [memory_set_supersedes_if_null].

    [created_at] is the instant [_parse_dt] reads, [None] when it reads none. A row's other
    columns, among them the verification status a status change writes, and the log lines are
    left out. The judge of the semantic paths is a model's and is not modelled. *)

From S2P Require Import Prelude PyStr PyVal.

#[local] Open Scope Z_scope.

(** ** Predicates *)

Definition SINGLE_VALUE_PREDICATES : list string := [
  "named"; "name"; "renamed_to"; "status"; "has_status"; "current_status"; "phase";
  "current_phase"; "state"; "current_state"; "role"; "has_role"; "current_role"; "title";
  "has_title"; "job_title"; "type"; "has_type"; "category"; "classified_as"; "identified_as";
  "labeled_as"; "lives_in"; "located_in"; "is_located_in"; "location"; "current_location";
  "headquartered_in"; "hq_in"; "based_in"; "is_based_in"; "resides_in"; "resides_at";
  "stationed_at"; "hosted_on"; "hosted_at"; "is_hosted_on"; "deployed_to"; "deployed_at";
  "deployed_on"; "is_deployed_to"; "runs_on"; "running_on"; "stored_in"; "stored_at";
  "registered_in"; "registered_at"; "country"; "city"; "region"; "address"; "reports_to";
  "reporting_to"; "led_by"; "owned_by"; "managed_by"; "manager"; "manager_of"; "headed_by";
  "head_of"; "ceo_of"; "ceo"; "cto_of"; "cto"; "cfo_of"; "cfo"; "assigned_to"; "assignee";
  "is_assigned_to"; "maintained_by"; "maintainer"; "maintainer_of"; "supervised_by";
  "supervisor"; "belongs_to"; "part_of"; "created_by"; "written_by"; "score"; "scored";
  "has_score"; "rating"; "rated"; "has_rating"; "price"; "priced_at"; "has_price";
  "current_price"; "cost"; "costs"; "has_cost"; "value"; "valued_at"; "has_value"; "net_worth";
  "weight"; "weighs"; "has_weight"; "market_cap"; "has_market_cap"; "market_cap_rank"; "revenue";
  "has_revenue"; "annual_revenue"; "monthly_revenue"; "salary"; "has_salary"; "compensation";
  "budget"; "has_budget"; "funding"; "total_funding"; "valuation"; "has_valuation"; "count";
  "count_of"; "has_count"; "total"; "size"; "has_size"; "percentage"; "percentage_of";
  "estimated_at"; "estimate"; "measured_at"; "measurement"; "ranked"; "rank"; "ranking";
  "has_rank"; "potential_score"; "risk_score"; "quality_score"; "health_score"; "sentiment";
  "sentiment_score"; "confidence"; "confidence_score"; "probability"; "capacity"; "has_capacity";
  "limit"; "has_limit"; "quota"; "has_quota"; "balance"; "has_balance"; "supply"; "total_supply";
  "circulating_supply"; "volume"; "trading_volume"; "liquidity"; "all_time_high"; "all_time_low";
  "burn_rate"; "runway"; "latency"; "uptime"; "availability"; "accuracy"; "precision";
  "recall_metric"; "f1_score"; "version"; "has_version"; "latest_version"; "current_version";
  "running_version"; "released_as"; "replaced_by"; "replaces"; "succeeded_by"; "succeeds";
  "upgraded_to"; "upgraded_from"; "migrated_to"; "migrated_from"; "chosen_over"; "selected";
  "preferred"; "switched_to"; "switched_from"; "deprecated_by"; "deprecated"; "scheduled_for";
  "scheduled_at"; "rescheduled_to"; "due_by"; "due_date"; "due_on"; "starts_on"; "start_date";
  "started_on"; "started_at"; "ends_on"; "end_date"; "ended_on"; "ended_at"; "expires_on";
  "expiry_date"; "expiration"; "deadline"; "has_deadline"; "eta"; "has_eta"; "expected_by";
  "next_review"; "next_meeting"; "next_milestone"; "last_updated"; "last_modified"; "last_seen";
  "last_active"; "created_on"; "created_at"; "target_date"; "release_date"; "go_live_date";
  "launch_date"; "configured_as"; "configuration"; "set_to"; "setting"; "limited_to";
  "capped_at"; "defaults_to"; "default_value"; "backed_by"; "backend"; "powered_by";
  "styled_with"; "licensed_under"; "license"; "instance_of"; "environment"; "env"; "tier";
  "subscription"; "subscription_plan"; "pricing_plan"; "mode"; "has_mode"; "priority";
  "has_priority"; "severity"; "has_severity"; "milestone"; "has_milestone"; "sprint";
  "has_sprint"; "epic"; "has_epic"; "depends_on_completion_of"; "hostname"; "cluster";
  "namespace"; "zone"; "availability_zone"; "email"; "has_email"; "email_address"; "phone";
  "has_phone"; "phone_number"; "website"; "has_website"; "age"; "has_age"; "born_in";
  "birthdate"; "date_of_birth"; "married_to"; "spouse"; "employed_by"; "employer";
  "work_location"; "office"].

Definition _PREDICATE_ALIAS_CLUSTERS : list (list string) := [
  ["status"; "has_status"; "current_status"; "state"; "current_state"];
  ["phase"; "current_phase"]; ["role"; "has_role"; "current_role"]; ["type"; "has_type"];
  ["located_in"; "is_located_in"; "based_in"; "is_based_in"; "headquartered_in"; "hq_in"; "lives_in"; "resides_in"; "location"; "current_location"];
  ["deployed_to"; "is_deployed_to"; "deployed_at"; "deployed_on"];
  ["hosted_on"; "is_hosted_on"; "hosted_at"]; ["runs_on"; "running_on"];
  ["stored_in"; "stored_at"]; ["registered_in"; "registered_at"];
  ["reports_to"; "reporting_to"; "supervisor"; "supervised_by"; "manager"];
  ["led_by"; "headed_by"]; ["assigned_to"; "is_assigned_to"; "assignee"];
  ["maintained_by"; "maintainer"]; ["score"; "has_score"; "scored"];
  ["rating"; "has_rating"; "rated"]; ["price"; "has_price"; "priced_at"; "current_price"];
  ["cost"; "has_cost"; "costs"]; ["rank"; "has_rank"; "ranked"; "ranking"];
  ["value"; "has_value"]; ["version"; "has_version"; "current_version"];
  ["due_date"; "due_by"; "due_on"; "deadline"; "has_deadline"];
  ["email"; "has_email"; "email_address"]; ["phone"; "has_phone"; "phone_number"];
  ["birthdate"; "date_of_birth"]; ["spouse"; "married_to"]; ["employer"; "employed_by"]].

Definition predicate_cluster (predicate : string) : list string :=
  let normalized := lower (strip predicate) in
  default [normalized] (find (λ c, bool_decide (normalized ∈ c)) _PREDICATE_ALIAS_CLUSTERS).

(** ** Rows *)

Record memory : Type := Memory {
  id : string;
  tenant_id : string;
  created_at : option Z;
  content : string;
  status : string;
  supersedes_id : option string;
  agent_id : option string;
  is_inferred : bool;
  source_trust : option Z;
  subject_entity_id : option string;
  predicate : option string;
  object_value : option string;
  fleet_id : option string;
  visibility : option string;
  deleted : bool
}.

#[export] Instance memory_eq_dec : EqDecision memory.
Proof. solve_decision. Defined.

(** [s or ""], and truth. *)
Definition or_blank (s : option string) : string := default "" s.
Definition present (s : option string) : bool := negb (bool_decide (or_blank s = "")).

Definition str_ltb (a b : string) : bool := negb (str_leb b a).

Definition _pick_older (a b : memory) : memory :=
  let by_id := if str_ltb (id a) (id b) then a else if str_ltb (id b) (id a) then b else a in
  match created_at a, created_at b with
  | Some x, Some y => if bool_decide (x = y) then by_id else if x <? y then a else b
  | _, _ => by_id
  end.

(** *** Trust *)

Definition author_trust (agent_level : string → option Z) (agent_ids : list (option string)) :
    list (string * Z) :=
  (λ a, (a, default 0 (agent_level a))) <$>
    py_sorted str_leb (remove_dups (filter (λ a, a ≠ "") (or_blank <$> agent_ids))).

Definition row_trust (row : memory) (by_author : list (string * Z)) : Z :=
  if is_inferred row then default 0 (source_trust row)
  else default 0 (dict_get (or_blank (agent_id row)) by_author).

Definition _outranked (older newer : memory) (by_author : list (string * Z)) : bool :=
  row_trust newer by_author <? row_trust older by_author.

(** ** The candidates storage selects *)

(** [regexp_replace(v, '[\s,]', '', 'g')], lower-cased. *)
Fixpoint str_filter (f : ascii → bool) (s : string) : string :=
  match s with
  | "" => ""
  | String c s => if f c then String c (str_filter f s) else str_filter f s
  end.
Definition normalized_object (v : string) : string :=
  lower (str_filter (λ c, negb (is_space c || bool_decide (c = ","%char))) v).

Definition _fleet_scope (column fleet : option string) : bool := bool_decide (or_blank column = or_blank fleet).

Definition _RDF_LIVE_STATUSES : list string := ["active"; "confirmed"; "pending"].

Definition is_rdf_conflict (new m : memory) (subject predicate_ value : string) : bool :=
  bool_decide (tenant_id m = tenant_id new) && negb (deleted m) &&
  bool_decide (status m ∈ _RDF_LIVE_STATUSES) &&
  bool_decide (subject_entity_id m = Some subject) &&
  match predicate m with
  | Some p => bool_decide (lower p ∈ predicate_cluster predicate_)
  | None => false
  end &&
  match object_value m with
  | Some v => negb (bool_decide (normalized_object v = normalized_object value))
  | None => false
  end &&
  negb (bool_decide (id m = id new)) && _fleet_scope (fleet_id m) (fleet_id new) &&
  (negb (present (visibility new)) ||
   (bool_decide (visibility m = visibility new) &&
    (negb (bool_decide (visibility new = Some "scope_agent") && present (agent_id new)) ||
     bool_decide (agent_id m = agent_id new)))).

(** The gate of the pass: a whole triple whose predicate holds one value. *)
Definition triple_of (m : memory) : option (string * string * string) :=
  match subject_entity_id m, predicate m, object_value m with
  | Some s, Some p, Some v =>
      if present (Some s) && present (Some p) && present (Some v) &&
         bool_decide (lower p ∈ SINGLE_VALUE_PREDICATES)
      then Some (s, p, v) else None
  | _, _, _ => None
  end.

Definition memory_find_rdf_conflicts (table : list memory) (new : memory) : list memory :=
  match triple_of new with
  | Some (s, p, v) => filter (λ m, is_rdf_conflict new m s p v = true) table
  | None => []
  end.

(** *** The mirror of the query that retraction asks *)

Definition _rdf_object_key (v : string) : string := normalized_object v.

Definition _rdf_pass_would_mark (new other : memory) (other_is_loser : bool) : bool :=
  match triple_of new with
  | None => false
  | Some (subject, p, value) =>
      if deleted other || negb (bool_decide (subject_entity_id other = Some subject)) then false
      else if negb other_is_loser && negb (bool_decide (status other ∈ _RDF_LIVE_STATUSES)) then false
      else if negb (bool_decide (lower (or_blank (predicate other)) ∈ predicate_cluster p)) then false
      else if negb (bool_decide (or_blank (fleet_id other) = or_blank (fleet_id new))) then false
      else if present (visibility new) && negb (bool_decide (visibility other = visibility new)) then false
      else if bool_decide (visibility new = Some "scope_agent") && present (agent_id new) &&
              negb (bool_decide (agent_id other = agent_id new)) then false
      else match object_value other with
           | Some v => negb (bool_decide (_rdf_object_key value = _rdf_object_key v))
           | None => false
           end
  end.

(** ** The pass *)

(** A row of the batch payload. *)
Record update : Type := Update {
  u_id : string; u_status : string; u_supersedes : option string; u_expect_null : bool
}.

#[export] Instance update_eq_dec : EqDecision update.
Proof. solve_decision. Defined.

Definition update_fields (old row : update) : update :=
  Update (u_id old) (u_status row)
    (match u_supersedes row with Some s => Some s | None => u_supersedes old end)
    (u_expect_null row || u_expect_null old).

Definition _merge_status_update (acc : list (string * update)) (row : update) : list (string * update) :=
  match dict_get (u_id row) acc with
  | Some old => dict_set (u_id row) (update_fields old row) acc
  | None => dict_set (u_id row) row acc
  end.

Record contradiction_info : Type := ContradictionInfo {
  old_memory_id : string; old_status : string; reason : string; old_content_preview : string;
  direction : string
}.

(** What the loop carries, and [_RdfPassResult] after the flush. *)
Record pass : Type := Pass {
  contradictions : list contradiction_info;
  record_pairs : list memory;
  chain : option string;
  new_is_outdated : bool;
  updates : list (string * update);
  disputed : list memory
}.

Section Pass.
Context (new : memory) (by_author : list (string * Z)).

Definition newer_of (old : memory) : memory :=
  if bool_decide (id (_pick_older old new) = id new) then old else new.

Definition flipped (old : memory) : bool := bool_decide (id (_pick_older old new) = id new).

Definition info_of (old : memory) : contradiction_info :=
  ContradictionInfo (id old) (if flipped old then status old else "outdated") "rdf_conflict"
    (str_take 200 (content old)) (if flipped old then "flipped" else "canonical").

(** One confirmed conflict. *)
Definition rdf_step (p : pass) (old : memory) : pass :=
  let older := _pick_older old new in
  if _outranked older (newer_of old) by_author
  then Pass (contradictions p) (record_pairs p) (chain p) (new_is_outdated p) (updates p)
         (disputed p ++ [old])
  else
    let ups := _merge_status_update (updates p) (Update (id older) "outdated" None false) in
    let infos := contradictions p ++ [info_of old] in
    let pairs := record_pairs p ++ [old] in
    if flipped old then
      Pass infos pairs (chain p) true
        (if present (supersedes_id old) then ups
         else _merge_status_update ups (Update (id old) (status old) (Some (id older)) true))
        (disputed p)
    else if present (chain p) then Pass infos pairs (chain p) (new_is_outdated p) ups (disputed p)
    else
      Pass infos pairs (Some (id older)) (new_is_outdated p)
        (_merge_status_update ups
           (Update (id new) (if new_is_outdated p then "outdated" else status new) (Some (id older)) true))
        (disputed p).

Definition rdf_plan (rows : list memory) : pass :=
  fold_left rdf_step rows (Pass [] [] (supersedes_id new) false [] []).

(** The confirmed pairs no edge that landed points at. *)
Definition _unlinked_pairs (pairs : list memory) (ups : list (string * update))
    (skipped edge_skipped : list string) : list memory :=
  let linked := omap (λ u, if present (u_supersedes u.2) &&
                              negb (bool_decide (u_id u.2 ∈ skipped ++ edge_skipped))
                           then u_supersedes u.2 else None) ups in
  filter (λ old, id (_pick_older old new) ∉ linked) pairs.
End Pass.

(** ** Storage's side *)

Abbreviation table := (gmap string memory).

Definition QUARANTINED_MEMORY_STATUS : string := "quarantined".

Definition with_status (m : memory) (st : string) (sup : option string) : memory :=
  Memory (id m) (tenant_id m) (created_at m) (content m) st
    (match sup with Some s => Some s | None => supersedes_id m end)
    (agent_id m) (is_inferred m) (source_trust m) (subject_entity_id m) (predicate m) (object_value m)
    (fleet_id m) (visibility m) (deleted m).

(** A row the batch may move: of the tenant, live and not held. *)
Definition movable (tenant : string) (m : memory) : bool :=
  bool_decide (tenant_id m = tenant) && negb (deleted m) &&
  negb (bool_decide (status m = QUARANTINED_MEMORY_STATUS)).

Definition points_in_tenant (tenant : string) (t : table) (p : option string) : bool :=
  match p with
  | None => true
  | Some i => match t !! i with Some m => bool_decide (tenant_id m = tenant) | None => false end
  end.

(** [memory_update_status] as the batch calls it: no release of a hold and no expected pointer. *)
Definition memory_update_status (tenant i st : string) (sup : option string) (t : table) :
    result exn bool * table :=
  if bool_decide (st = QUARANTINED_MEMORY_STATUS)
  then (Err (PyError "ValueError" "a memory is held when it is written, never by a status update"), t)
  else if negb (points_in_tenant tenant t sup)
  then (Err (HTTPException 422 "supersedes_id"), t)
  else match t !! i with
       | Some m => if movable tenant m then (Ok true, <[i := with_status m st sup]> t) else (Ok false, t)
       | None => (Ok false, t)
       end.

Definition memory_set_supersedes_if_null (tenant i target : string) (t : table) : bool * table :=
  match t !! i with
  | Some m =>
      if movable tenant m && bool_decide (supersedes_id m = None) && points_in_tenant tenant t (Some target)
      then (true, <[i := with_status m (status m) (Some target)]> t) else (false, t)
  | None => (false, t)
  end.

(** A row of the batch: its status, then its edge under the compare-and-set when asked for. The
    rows it leaves in [skipped] and [edge_skipped]. *)
Definition batch_item (tenant : string) (u : update) (t : table) :
    result exn (list string * list string) * table :=
  let cas_edge := if u_expect_null u then u_supersedes u else None in
  let '(ok, t) := memory_update_status tenant (u_id u) (u_status u)
                    (if u_expect_null u then None else u_supersedes u) t in
  match ok with
  | Err e => (Err e, t)
  | Ok false => (Ok ([u_id u], []), t)
  | Ok true =>
      match cas_edge with
      | None => (Ok ([], []), t)
      | Some target =>
          let '(landed, t) := memory_set_supersedes_if_null tenant (u_id u) target t in
          (Ok ([], if landed then [] else [u_id u]), t)
      end
  end.

(** Each row commits on its own: an error leaves the rows before it written. *)
Fixpoint batch_items (tenant : string) (us : list update) (t : table) :
    result exn (list string * list string) * table :=
  match us with
  | [] => (Ok ([], []), t)
  | u :: us =>
      match batch_item tenant u t with
      | (Ok (skipped, edge), t) =>
          let '(r, t) := batch_items tenant us t in
          ((λ se, (skipped ++ se.1, edge ++ se.2)) <$> r, t)
      | (Err e, t) => (Err e, t)
      end
  end.

Definition batch_update_status (tenant : string) (us : list update) (t : table) :
    result exn (list string * list string) * table :=
  if bool_decide (tenant = "")
  then (Err (HTTPException 422 "'tenant_id' is required and must be a non-empty string"), t)
  else if forallb (λ u, points_in_tenant tenant t (u_supersedes u)) us
  then batch_items tenant us t
  else (Err (HTTPException 422 "supersedes_id"), t).

(** [_RdfPassResult] *)
Record pass_result : Type := PassResult {
  r_contradictions : list contradiction_info;
  r_record_pairs : list memory;
  r_supersedes_id : option string;
  r_ran : bool;
  r_unlinked : list memory;
  r_disputed : list memory;
  r_by_author : list (string * Z)
}.

(** The pass over the candidates [rows] storage answered, flushed to the table as it is then. *)
Definition _rdf_conflict_pass (new : memory) (agent_level : string → option Z) (rows : list memory)
    (t : table) : result exn pass_result * table :=
  match triple_of new with
  | None => (Ok (PassResult [] [] (supersedes_id new) false [] [] []), t)
  | Some _ =>
      let by_author := match rows with
                       | [] => []
                       | _ => author_trust agent_level (agent_id new :: (agent_id <$> rows))
                       end in
      let p := rdf_plan new by_author rows in
      let '(flushed, t) := if bool_decide (updates p = []) then (Ok ([], []), t)
                           else batch_update_status (tenant_id new) ((updates p).*2) t in
      ((λ se, PassResult (contradictions p) (record_pairs p) (chain p) true
                (_unlinked_pairs new (record_pairs p) (updates p) se.1 se.2) (disputed p) by_author)
         <$> flushed, t)
  end.

(** ** What a pass plans to write *)

Section Plan.
(** [Q t k]: an edge from [k] to [t] is justified; [St k st]: so is giving [k] the status [st]. *)
Context (Q St : string → string → Prop).

(** An update of [k]: justified, and with its edge under the compare-and-set. *)
Definition sound (k : string) (u : update) : Prop :=
  u_id u = k ∧ St k (u_status u) ∧ ∀ t, u_supersedes u = Some t → Q t k ∧ u_expect_null u = true.

Definition sound_plan (ups : list (string * update)) : Prop :=
  NoDup (ups.*1) ∧ ∀ k u, dict_get k ups = Some u → sound k u.

Lemma merge_sound ups row :
  sound_plan ups → sound (u_id row) row → sound_plan (_merge_status_update ups row).
Proof.
  intros [Hnd Hs] Hrow. unfold _merge_status_update.
  destruct (dict_get (u_id row) ups) as [old|] eqn:E; (split; [by apply dict_set_NoDup|]);
    intros k u; rewrite dict_get_set; case_bool_decide as Hk; [|by auto| |by auto]; intros [= <-]; subst k;
    [|done].
  destruct (Hs _ _ E) as (Hid & _ & Hold). destruct Hrow as (_ & Hst & Hrow). split; [done|]. cbn.
  split; [done|]. intros t Ht. destruct (u_supersedes row) as [s|].
  - simplify_eq. destruct (Hrow t eq_refl) as [? ->]. done.
  - destruct (Hold t Ht) as [? ->]. by rewrite orb_true_r.
Qed.

(** The conflict with [old] is confirmed: the newer row's author is trusted enough. *)
Definition confirmed (new : memory) (ba : list (string * Z)) (old : memory) : Prop :=
  row_trust (_pick_older old new) ba <= row_trust (newer_of new old) ba.

Lemma rdf_plan_sound new ba read :
  (∀ old, old ∈ read → confirmed new ba old →
     Q (id (_pick_older old new)) (id (newer_of new old)) ∧
     St (id (_pick_older old new)) "outdated" ∧
     St (id (newer_of new old)) (status (newer_of new old))) →
  sound_plan (updates (rdf_plan new ba read)).
Proof.
  intros Hrows. unfold rdf_plan.
  assert (H0 : sound_plan (updates (Pass [] [] (supersedes_id new) false [] [])) ∧
               (new_is_outdated (Pass [] [] (supersedes_id new) false [] []) = true → St (id new) "outdated")).
  { split; [split; [constructor|done]|done]. }
  revert H0. generalize (Pass [] [] (supersedes_id new) false [] []).
  induction read as [|old read IH]; intros p [Hp Hout]; [done|]. cbn [fold_left].
  apply IH; [intros; apply Hrows; [by right|done]|]. clear IH.
  unfold rdf_step, _outranked. destruct (_ <? _) eqn:Etrust; [done|].
  destruct (Hrows old) as (HQ & Hold & Hnew); [by left|unfold confirmed; lia|]. clear Hrows.
  assert (Hups : sound_plan (_merge_status_update (updates p)
                               (Update (id (_pick_older old new)) "outdated" None false))).
  { apply merge_sound; [done|]. split; [done|]. by split. }
  unfold flipped, newer_of in *. case_bool_decide as E.
  - split; cbn [updates new_is_outdated]; [|intros _; by rewrite <-E].
    destruct (present (supersedes_id old)); [done|]. apply merge_sound; [done|].
    split; [done|]. split; [done|]. by intros t [= <-].
  - destruct (present (chain p)); [done|]. split; [|done]. cbn [updates]. apply merge_sound; [done|].
    split; [done|]. split; [cbn; destruct (new_is_outdated p); auto|]. by intros t [= <-].
Qed.
End Plan.

(** ** The order of two memories *)

Section Order.
(** When each memory was created. *)
Context (created : string → Z).

Definition stamped (m : memory) : Prop := created_at m = Some (created (id m)).

Definition before (i j : string) : Prop :=
  created i < created j ∨ (created i = created j ∧ str_ltb i j = true).

Lemma str_ltb_irrefl a : str_ltb a a = false.
Proof. unfold str_ltb. destruct (str_leb_total a a) as [-> | ->]; done. Qed.

Lemma str_ltb_trans a b c : str_ltb a b = true → str_ltb b c = true → str_ltb a c = true.
Proof.
  unfold str_ltb. rewrite !negb_true_iff. intros H1 H2. apply not_true_iff_false. intros H3.
  apply not_true_iff_false in H1, H2. apply H1.
  destruct (str_leb_total b c) as [?|?]; [by eapply str_leb_trans|done].
Qed.

Lemma str_ltb_total a b : a ≠ b → str_ltb a b = true ∨ str_ltb b a = true.
Proof.
  unfold str_ltb. rewrite !negb_true_iff. intros Hne.
  destruct (str_leb b a) eqn:E1; [|by left]. destruct (str_leb a b) eqn:E2; [|by right].
  by destruct Hne; apply str_leb_antisym.
Qed.

Lemma before_irrefl i : ¬ before i i.
Proof. intros [?|[_ H]]; [lia|]. by rewrite str_ltb_irrefl in H. Qed.

Lemma before_trans i j k : before i j → before j k → before i k.
Proof.
  intros [?|[? ?]] [?|[? ?]]; [left; lia|left; lia|left; lia|right].
  split; [lia|by eapply str_ltb_trans].
Qed.

Lemma pick_older_spec a b :
  stamped a → stamped b → id a ≠ id b →
  (_pick_older a b = a ∧ before (id a) (id b)) ∨ (_pick_older a b = b ∧ before (id b) (id a)).
Proof.
  unfold stamped, _pick_older, before. intros -> -> Hne. case_bool_decide as E.
  - destruct (str_ltb (id a) (id b)) eqn:E1; [left; auto|].
    destruct (str_ltb_total _ _ Hne) as [?|H]; [congruence|]. rewrite H. right. auto.
  - destruct (_ <? _) eqn:El; [left|right]; split; (done || left; lia).
Qed.

(** ** Chains of supersession have no cycle *)

(** The table, and the writes of the passes under way, each with its tenant. *)
Record system : Type := System { rows : table; pending : list (string * update) }.

(** Row [i] says it supersedes [j]. *)
Definition points_at (t : table) (i j : string) : Prop := ∃ m, t !! i = Some m ∧ supersedes_id m = Some j.

(** Anything else that happens to the table adds no edge: inserts, edits, deletes, status changes. *)
Definition adds_no_edge (t t' : table) : Prop := ∀ i j, points_at t' i j → points_at t i j.

(** Passes over whatever rows they read, their writes one row at a time in any order, and the
    rest of the program. *)
Inductive system_step : system → system → Prop :=
| step_plan s new by_author read :
    stamped new → Forall (λ m, stamped m ∧ id m ≠ id new) read →
    system_step s (System (rows s)
                     (pending s ++ (pair (tenant_id new) <$> (updates (rdf_plan new by_author read)).*2)))
| step_write s tenant u :
    (tenant, u) ∈ pending s →
    system_step s (System (batch_item tenant u (rows s)).2 (pending s))
| step_other s t' : adds_no_edge (rows s) t' → system_step s (System t' (pending s)).

Definition any_status (k st : string) : Prop := True.

Definition system_ok (s : system) : Prop :=
  (∀ i j, points_at (rows s) i j → before j i) ∧ ∀ tenant u, (tenant, u) ∈ pending s → sound before any_status (u_id u) u.

Lemma points_at_with_status t i m st sup i' j' :
  t !! i = Some m → points_at (<[i := with_status m st sup]> t) i' j' →
  points_at t i' j' ∨ (i' = i ∧ sup = Some j').
Proof.
  intros Hm (m' & Hl & Hj). apply lookup_insert_Some in Hl as [[<- <-]|[_ Hl]]; [|left; by exists m'].
  cbn in Hj. destruct sup as [s|]; [right; by simplify_eq|left; by exists m].
Qed.

Lemma batch_item_edges tenant u t i j :
  sound before any_status (u_id u) u → points_at (batch_item tenant u t).2 i j →
  points_at t i j ∨ before j i.
Proof.
  intros (_ & _ & Hu). unfold batch_item, memory_update_status, memory_set_supersedes_if_null.
  assert (Hsup : (if u_expect_null u then None else u_supersedes u) = None).
  { destruct (u_supersedes u) as [s|]; [|by destruct (u_expect_null u)]. by destruct (Hu s eq_refl) as [_ ->]. }
  rewrite Hsup. destruct (bool_decide _); [by left|]. cbn [points_in_tenant negb].
  destruct (t !! u_id u) as [m|] eqn:Em; [|by left]. destruct (movable tenant m) eqn:Emov; [|by left].
  intros H.
  assert (Hstep : ∀ i j, points_at (<[u_id u := with_status m (u_status u) None]> t) i j → points_at t i j).
  { intros i' j' H'. by destruct (points_at_with_status _ _ _ _ _ _ _ Em H') as [?|[_ ?]]. }
  destruct (if u_expect_null u then u_supersedes u else None) as [target|] eqn:Ec; [|left; by apply Hstep].
  destruct (u_expect_null u); [|done]. rewrite lookup_insert_eq in H.
  destruct (_ && _ && _); cbn [snd] in H; [|left; by apply Hstep].
  apply points_at_with_status in H as [?|[-> [= ->]]]; [left; by apply Hstep| |by simplify_map_eq].
  right. by apply Hu.
Qed.

Lemma system_step_ok s s' : system_ok s → system_step s s' → system_ok s'.
Proof.
  intros [He Hp] Hs. destruct Hs as [s new ba read Hn Hr|s tenant u Hu|s t' Ht]; (split; cbn [rows pending]).
  - done.
  - intros tenant u. rewrite elem_of_app. intros [?|Hu]; [by eapply Hp|].
    apply list_elem_of_fmap in Hu as (u' & [= _ <-] & Hin).
    destruct (rdf_plan_sound before any_status new ba read) as [Hnd Hs].
    { intros old Hold _. rewrite Forall_forall in Hr. destruct (Hr old Hold) as [Ho Hne].
      unfold newer_of. destruct (pick_older_spec old new Ho Hn Hne) as [[-> Hb]|[-> Hb]];
        [rewrite (bool_decide_false _ Hne)|rewrite bool_decide_true by done]; done. }
    apply list_elem_of_fmap in Hin as ([k u'] & -> & Hin).
    apply dict_get_NoDup in Hin; [|done]. cbn. destruct (Hs _ _ Hin) as [Hid ?]. by rewrite Hid.
  - intros i j H. apply batch_item_edges in H as [?|?]; [by apply He|done|by eapply Hp].
  - done.
  - intros i j H. by apply He, Ht.
  - done.
Qed.

End Order.


(** ** What a pass leaves in the table *)

(** One update, on the row it names and on the others. *)
Lemma batch_item_other tenant u t i : i ≠ u_id u → (batch_item tenant u t).2 !! i = t !! i.
Proof.
  intros Hi. unfold batch_item, memory_update_status, memory_set_supersedes_if_null.
  destruct (bool_decide _); [done|]. destruct (negb _); [done|].
  destruct (t !! u_id u) as [m|]; [|done]. destruct (movable tenant m); [|done].
  destruct (if u_expect_null u then u_supersedes u else None); cbn [snd]; [|by rewrite lookup_insert_ne].
  rewrite lookup_insert_eq. destruct (_ && _ && _); cbn [snd]; by rewrite !lookup_insert_ne.
Qed.

Lemma batch_item_row tenant u t m' :
  (is_Some (u_supersedes u) → u_expect_null u = true) →
  (batch_item tenant u t).2 !! u_id u = Some m' →
  ∃ m, t !! u_id u = Some m ∧ (status m' = status m ∨ status m' = u_status u) ∧
       (supersedes_id m' = supersedes_id m ∨ supersedes_id m = None ∧ is_Some (u_supersedes u) ∧
         supersedes_id m' = u_supersedes u).
Proof.
  intros Hu. unfold batch_item, memory_update_status, memory_set_supersedes_if_null.
  replace (if u_expect_null u then None else u_supersedes u) with (@None string)
    by (destruct (u_supersedes u); [by rewrite Hu|by destruct (u_expect_null u)]).
  destruct (bool_decide _); [cbn; intros; exists m'; auto|]. cbn [points_in_tenant negb].
  destruct (t !! u_id u) as [m|] eqn:Em; [|cbn; congruence].
  destruct (movable tenant m); [|cbn [snd]; intros; exists m; simplify_eq; auto].
  destruct (if u_expect_null u then u_supersedes u else None) as [target|] eqn:Ec.
  - destruct (u_expect_null u); [|done]. rewrite lookup_insert_eq, Ec.
    destruct (_ && _ && _) eqn:Ecas; cbn [snd]; rewrite lookup_insert_eq; intros [= <-]; exists m; cbn; [|auto].
    apply andb_prop in Ecas as [[_ Hnone]%andb_prop _]. apply bool_decide_eq_true in Hnone. cbn in Hnone.
    split; [done|]. split; [by right|]. right. by eauto.
  - cbn [snd]. rewrite lookup_insert_eq. intros [= <-]. exists m. cbn. auto.
Qed.

(** An edge whose update is in neither list is in the table. *)
Lemma batch_item_landed tenant u t skipped edge t' target :
  batch_item tenant u t = (Ok (skipped, edge), t') → u_supersedes u = Some target →
  u_expect_null u = true → u_id u ∉ skipped ++ edge →
  ∃ m, t' !! u_id u = Some m ∧ supersedes_id m = Some target.
Proof.
  unfold batch_item. intros H Hs He Hlost. rewrite He, Hs in H.
  destruct (memory_update_status _ _ _ _ _) as [[[]|] t1]; [|injection H as <- <- <-; set_solver|done].
  unfold memory_set_supersedes_if_null in H.
  destruct (t1 !! u_id u) as [m|]; [|injection H as <- <- <-; set_solver].
  destruct (_ && _ && _); injection H as <- <- <-; [|set_solver].
  exists (with_status m (status m) (Some target)). by rewrite lookup_insert_eq.
Qed.

Lemma batch_items_other tenant us t i : i ∉ u_id <$> us → (batch_items tenant us t).2 !! i = t !! i.
Proof.
  revert t. induction us as [|u us IH]; intros t Hi; [done|]. cbn [batch_items].
  rewrite fmap_cons, not_elem_of_cons in Hi. destruct Hi as [Hu Hi].
  pose proof (batch_item_other tenant u t i Hu) as Ho.
  destruct (batch_item tenant u t) as [[[sk ed]|e] t1]; cbn [snd] in Ho; [|done].
  specialize (IH t1 Hi). destruct (batch_items tenant us t1) as [r t2]. cbn [snd] in *. congruence.
Qed.

Lemma batch_items_row tenant us t i m' :
  NoDup (u_id <$> us) → (∀ u, u ∈ us → is_Some (u_supersedes u) → u_expect_null u = true) →
  (batch_items tenant us t).2 !! i = Some m' →
  t !! i = Some m' ∨ ∃ u m, u ∈ us ∧ u_id u = i ∧ t !! i = Some m ∧
    (status m' = status m ∨ status m' = u_status u) ∧
    (supersedes_id m' = supersedes_id m ∨ supersedes_id m = None ∧ is_Some (u_supersedes u) ∧
         supersedes_id m' = u_supersedes u).
Proof.
  revert t. induction us as [|u us IH]; intros t Hnd Hex Hl; [by left|].
  rewrite fmap_cons, NoDup_cons in Hnd. destruct Hnd as [Hu Hnd]. cbn [batch_items] in Hl.
  destruct (decide (i = u_id u)) as [->|Hne].
  - right. exists u.
    pose proof (λ m' H, batch_item_row tenant u t m' (Hex u ltac:(by left)) H) as Hrow.
    destruct (batch_item tenant u t) as [[[sk ed]|e] t1].
    + pose proof (batch_items_other tenant us t1 (u_id u) Hu) as Ho.
      destruct (batch_items tenant us t1) as [r t2]. cbn [snd] in *. rewrite Ho in Hl.
      destruct (Hrow _ Hl) as (m & ? & ? & ?). exists m. split_and!; try done. by left.
    + destruct (Hrow _ Hl) as (m & ? & ? & ?). exists m. split_and!; try done. by left.
  - pose proof (batch_item_other tenant u t i Hne) as Ho.
    destruct (batch_item tenant u t) as [[[sk ed]|e] t1]; cbn [snd] in Ho.
    + specialize (IH t1 Hnd (λ x Hx, Hex x (list_elem_of_further _ _ _ Hx))).
      destruct (batch_items tenant us t1) as [r t2]. cbn [snd] in *. destruct (IH Hl) as [?|(u' & m & Hin & H)].
      * left. congruence.
      * right. exists u', m. rewrite <-Ho. split; [by right|done].
    + left. cbn in Hl. congruence.
Qed.

Lemma batch_items_landed tenant us t skipped edge t' u target :
  NoDup (u_id <$> us) → batch_items tenant us t = (Ok (skipped, edge), t') →
  u ∈ us → u_supersedes u = Some target → u_expect_null u = true → u_id u ∉ skipped ++ edge →
  ∃ m, t' !! u_id u = Some m ∧ supersedes_id m = Some target.
Proof.
  revert t skipped edge. induction us as [|u' us IH]; intros t skipped edge Hnd H Hin Hs He Hlost; [set_solver|].
  rewrite fmap_cons, NoDup_cons in Hnd. destruct Hnd as [Hu Hnd]. cbn [batch_items] in H.
  destruct (batch_item tenant u' t) as [[[sk ed]|e] t1] eqn:E1; [|done].
  destruct (batch_items tenant us t1) as [[[sk' ed']|e] t2] eqn:E2; [|done].
  injection H as <- <- <-. cbn [fst snd] in Hlost.
  apply elem_of_cons in Hin as [->|Hin]; [|eapply (IH t1); eauto; set_solver].
  destruct (batch_item_landed _ _ _ _ _ _ _ E1 Hs He) as (m & Hm & ?); [set_solver|].
  exists m. split; [|done]. rewrite <-Hm.
  pose proof (batch_items_other tenant us t1 (u_id u') Hu) as Ho. by rewrite E2 in Ho.
Qed.

Lemma plan_ids Q St ups : sound_plan Q St ups → u_id <$> ups.*2 = ups.*1.
Proof.
  intros [Hnd Hs]. rewrite <-list_fmap_compose. apply list_fmap_ext. intros i [k u] H. cbn.
  by apply (Hs k u), dict_get_NoDup; [|by eapply list_elem_of_lookup_2].
Qed.

Lemma plan_elem Q St ups u : sound_plan Q St ups → u ∈ ups.*2 → sound Q St (u_id u) u.
Proof.
  intros [Hnd Hs] ([k u'] & -> & Hin)%list_elem_of_fmap. apply dict_get_NoDup in Hin; [|done].
  destruct (Hs _ _ Hin) as [Hid H]. cbn. by rewrite Hid.
Qed.

(** The flush of a pass, and what its result says was lost. *)
Lemma pass_flush new levels read t r t' :
  _rdf_conflict_pass new levels read t = (Ok r, t') → r_ran r = true →
  let p := rdf_plan new (r_by_author r) read in
  r_record_pairs r = record_pairs p ∧ ∃ skipped edge,
    r_unlinked r = _unlinked_pairs new (record_pairs p) (updates p) skipped edge ∧
    ((updates p = [] ∧ t' = t) ∨
     batch_items (tenant_id new) ((updates p).*2) t = (Ok (skipped, edge), t')).
Proof.
  unfold _rdf_conflict_pass. destruct (triple_of new); [|by intros [= <- _]].
  set (ba := match read with [] => [] | _ => _ end). intros H Hran.
  destruct (bool_decide (updates (rdf_plan new ba read) = [])) eqn:E.
  - injection H as <- <-. cbn. split; [done|]. exists [], []. split; [done|]. left.
    by apply bool_decide_eq_true in E.
  - destruct (batch_update_status _ _ _) as [[[sk ed]|e] t1] eqn:Eb; [|done]. injection H as <- <-.
    cbn. split; [done|]. exists sk, ed. split; [done|]. right. unfold batch_update_status in Eb.
    case_bool_decide; [done|]. case_match; [exact Eb|done].
Qed.

(** [every_loser_is_traced]: after a pass, each memory it decided against is superseded by a row
    of the table, or is among the pairs the pass reports as unlinked for a conflict record. *)
Theorem every_loser_is_traced new levels read t r t' old :
  _rdf_conflict_pass new levels read t = (Ok r, t') → old ∈ r_record_pairs r →
  old ∈ r_unlinked r ∨
  ∃ i m, t' !! i = Some m ∧ supersedes_id m = Some (id (_pick_older old new)).
Proof.
  intros H Hold. destruct (r_ran r) eqn:Hran.
  2:{ unfold _rdf_conflict_pass in H. destruct (triple_of new).
      - destruct (if bool_decide _ then _ else _) as [[[]|] ?]; [|done]. by injection H as <- _.
      - injection H as <- _. cbn in Hold. set_solver. }
  destruct (pass_flush _ _ _ _ _ _ H Hran) as (Hpairs & sk & ed & Hun & Hfl). rewrite Hpairs in Hold.
  set (p := rdf_plan new (r_by_author r) read) in *.
  destruct (decide (old ∈ r_unlinked r)) as [?|Hnot]; [by left|right].
  rewrite Hun in Hnot. unfold _unlinked_pairs in Hnot. rewrite list_elem_of_filter in Hnot.
  destruct (decide (id (_pick_older old new) ∈
    omap (λ u : string * update, if present (u_supersedes u.2) && negb (bool_decide (u_id u.2 ∈ sk ++ ed))
                                 then u_supersedes u.2 else None) (updates p))) as [Hin|?]; [|tauto].
  apply list_elem_of_omap in Hin as ([k u] & Hu & Hl). cbn [snd] in Hl.
  destruct (present (u_supersedes u)); [|done]. destruct (bool_decide (u_id u ∈ sk ++ ed)) eqn:Elost; [done|].
  apply bool_decide_eq_false in Elost. cbn in Hl.
  destruct Hfl as [[He _]|Hb]; [rewrite He in Hu; set_solver|].
  pose proof (rdf_plan_sound (λ _ _, True) any_status new (r_by_author r) read ltac:(done)) as Hs.
  fold p in Hs. assert (Hu2 : u ∈ (updates p).*2) by (apply list_elem_of_fmap; by exists (k, u)).
  destruct (plan_elem _ _ _ _ Hs Hu2) as (_ & _ & Hex). destruct (Hex _ Hl) as [_ Hexp].
  exists (u_id u). eapply (batch_items_landed _ _ _ _ _ _ u); eauto.
  rewrite (plan_ids _ _ _ Hs). apply Hs.
Qed.


(** ** The retraction's mirror and the query *)

Lemma lstrip_all f s : lstrip_of f s = "" → str_all f s = true.
Proof. induction s as [|c s IH]; [done|]. cbn. destruct (f c); [exact IH|done]. Qed.

Lemma rstrip_all f s : str_all f (rstrip_of f s) = true → str_all f s = true.
Proof.
  induction s as [|c s IH]; [done|]. cbn [rstrip_of str_all].
  destruct (rstrip_of f s) as [|c' r]; [destruct (f c) eqn:E|]; cbn [str_all] in *; rewrite ?E; auto.
  intros H. apply andb_prop in H as [-> H]. by apply IH.
Qed.

Lemma lower_spaces s : str_all is_space s = true → str_all is_space (lower s) = true.
Proof.
  induction s as [|c s IH]; [done|]. cbn. intros [Hc Hs]%andb_prop. apply andb_true_intro. split; [|by apply IH].
  revert Hc. by destruct c as [[] [] [] [] [] [] [] []]; vm_compute.
Qed.

(** No cluster of a single-valued predicate has a blank member. *)
Lemma cluster_not_blank p : lower p ∈ SINGLE_VALUE_PREDICATES → "" ∉ predicate_cluster p.
Proof.
  intros Hp. unfold predicate_cluster.
  destruct (find _ _) as [c|] eqn:E; cbn [default].
  - apply find_some in E as [Hc _]. revert c Hc.
    assert (H : forallb (λ c, negb (bool_decide ("" ∈ c))) _PREDICATE_ALIAS_CLUSTERS = true) by (by vm_compute).
    rewrite forallb_forall in H. intros c Hc%H. by apply negb_true_iff, bool_decide_eq_false in Hc.
  - intros Hs%list_elem_of_singleton. assert (Hblank : strip p = "").
    { by destruct (strip p) as [|c s]. }
    assert (H : forallb (λ x, negb (str_all is_space x)) SINGLE_VALUE_PREDICATES = true) by (by vm_compute).
    rewrite forallb_forall in H. apply list_elem_of_In, H, negb_true_iff in Hp.
    by rewrite lower_spaces in Hp by (by apply rstrip_all, lstrip_all).
Qed.

Lemma triple_of_predicate m s p v : triple_of m = Some (s, p, v) → lower p ∈ SINGLE_VALUE_PREDICATES.
Proof.
  unfold triple_of. repeat case_match; try done. intros [= <- <- <-].
  match goal with H : _ && _ = true |- _ => apply andb_prop in H as [_ H]; by apply bool_decide_eq_true in H end.
Qed.

(** [mirror_agrees_with_query]: for another memory of the tenant, the question a retraction asks
    is whether the pass's query selects it, with a loser taken as live. *)
Theorem mirror_agrees_with_query new other loser :
  tenant_id other = tenant_id new → id other ≠ id new →
  _rdf_pass_would_mark new other loser
  = bool_decide ((if loser then with_status other "active" None else other)
       ∈ memory_find_rdf_conflicts [if loser then with_status other "active" None else other] new).
Proof.
  intros Ht Hid. unfold memory_find_rdf_conflicts, _rdf_pass_would_mark.
  destruct (triple_of new) as [[[s p] v]|] eqn:E; [|by rewrite bool_decide_false by set_solver].
  apply triple_of_predicate in E. apply cluster_not_blank in E.
  set (o := if loser then with_status other "active" None else other).
  transitivity (is_rdf_conflict new o s p v).
  2:{ apply eq_bool_prop_intro. rewrite bool_decide_spec, list_elem_of_filter, list_elem_of_singleton.
      split; [intros H; split; [by apply Is_true_eq_true|done]|intros [H _]; by rewrite H]. }
  unfold is_rdf_conflict, _fleet_scope.
  assert (Ho : tenant_id o = tenant_id other ∧ id o = id other ∧ deleted o = deleted other ∧
    subject_entity_id o = subject_entity_id other ∧ predicate o = predicate other ∧
    object_value o = object_value other ∧ fleet_id o = fleet_id other ∧ visibility o = visibility other ∧
    agent_id o = agent_id other ∧
    bool_decide (status o ∈ _RDF_LIVE_STATUSES) = loser || bool_decide (status other ∈ _RDF_LIVE_STATUSES)).
  { subst o. by destruct loser. }
  destruct Ho as (-> & -> & -> & -> & -> & -> & -> & -> & -> & ->).
  rewrite (bool_decide_true (tenant_id other = _)), (bool_decide_false (id other = _)) by done.
  unfold _rdf_object_key. cbn [negb andb].
  destruct (deleted other); [done|]. destruct (bool_decide (subject_entity_id other = Some s)); cbn [negb orb andb];
    [|by rewrite andb_false_r].
  assert (Hsym : ∀ w, bool_decide (normalized_object v = normalized_object w)
                      = bool_decide (normalized_object w = normalized_object v))
    by (intros w; by apply bool_decide_ext).
  destruct (predicate other) as [q|]; [change (or_blank (Some q)) with q|change (or_blank None) with ""].
  2:{ rewrite (bool_decide_false ("" ∈ _)) by done. cbn [negb].
      by destruct loser, (bool_decide (status other ∈ _)). }
  destruct (loser || bool_decide (status other ∈ _)) eqn:El; apply orb_true_iff in El || apply orb_false_iff in El;
    [|by destruct El as [-> ->]].
  replace (negb loser && negb (bool_decide (status other ∈ _RDF_LIVE_STATUSES))) with false
    by (destruct El as [-> | ->]; by rewrite ?andb_false_r).
  destruct (bool_decide (lower q ∈ _)); cbn [negb andb]; [|done].
  assert (Hv : bool_decide (visibility new = Some "scope_agent") = true → present (visibility new) = true).
  { by intros ->%bool_decide_eq_true. }
  destruct (object_value other) as [w|];
    [rewrite Hsym; destruct (bool_decide (normalized_object w = _))|]; cbn [negb andb];
    destruct (bool_decide (visibility new = _)); [rewrite (Hv eq_refl)| |rewrite (Hv eq_refl)|
      |rewrite (Hv eq_refl)|];
    destruct (bool_decide (or_blank (fleet_id other) = _)), (present (visibility new)),
      (bool_decide (visibility other = _)), (present (agent_id new)), (bool_decide (agent_id other = _)); done.
Qed.

Definition demo_memory (i : string) (created : Z) (st author value : string) (sup : option string) : memory :=
  Memory i "t" (Some created) ("lives in " +:+ value) st sup (Some author) false None (Some "maya")
    (Some "lives_in") (Some value) None (Some "scope_team") false.
Lemma mirror_agrees_with_query_witness :
  _rdf_pass_would_mark (demo_memory "a" 1 "active" "scout" "Boston" None)
    (demo_memory "b" 2 "outdated" "scout" "Berlin" None) true
  = bool_decide (with_status (demo_memory "b" 2 "outdated" "scout" "Berlin" None) "active" None
       ∈ memory_find_rdf_conflicts [with_status (demo_memory "b" 2 "outdated" "scout" "Berlin" None) "active" None]
           (demo_memory "a" 1 "active" "scout" "Boston" None)).
Proof.
  apply (mirror_agrees_with_query (demo_memory "a" 1 "active" "scout" "Boston" None)
           (demo_memory "b" 2 "outdated" "scout" "Berlin" None) true); [reflexivity|discriminate].
Defined.

(** ** Witnesses *)

Definition demo_levels (a : string) : option Z := if bool_decide (a = "guest") then Some 1 else Some 2.

Definition boston : memory := demo_memory "a" 1 "active" "scout" "Boston" None.
Definition berlin : memory := demo_memory "b" 2 "active" "scout" "Berlin" None.
Definition demo_table : table := {[ "a" := boston; "b" := berlin ]}.

(** The newer fact retires the older and points at it; the other way round gives the same table;
    a guest's newer fact retires nothing and is reported. *)
Example newer_fact_supersedes :
  let '(r, t) := _rdf_conflict_pass berlin demo_levels (memory_find_rdf_conflicts [boston; berlin] berlin) demo_table in
  is_ok r = true ∧ status <$> t !! "a" = Some "outdated" ∧ (t !! "b") ≫= supersedes_id = Some "a" ∧
  (_rdf_conflict_pass boston demo_levels (memory_find_rdf_conflicts [boston; berlin] boston) demo_table).2 = t.
Proof. vm_compute. repeat split; reflexivity. Qed.

Definition guest_berlin : memory := demo_memory "b" 2 "active" "guest" "Berlin" None.

Example less_trusted_fact_is_disputed :
  let '(r, t) := _rdf_conflict_pass guest_berlin demo_levels [boston] {[ "a" := boston; "b" := guest_berlin ]} in
  t = {[ "a" := boston; "b" := guest_berlin ]} ∧ r_disputed <$> r = Ok [boston].
Proof. vm_compute. split; reflexivity. Qed.

(** The pass read [berlin] while it was active; by its flush a third fact has retired it. The
    status it had is written back, and the retired fact is live again. *)
Definition retired_berlin : memory := demo_memory "b" 2 "outdated" "scout" "Berlin" None.
Definition oslo : memory := demo_memory "c" 3 "active" "scout" "Oslo" (Some "b").

Example stale_status_is_written_back :
  let t := {[ "a" := boston; "b" := retired_berlin; "c" := oslo ]} in
  let '(r, t') := _rdf_conflict_pass boston demo_levels [berlin] t in
  is_ok r = true ∧ status <$> t' !! "b" = Some "active" ∧ status <$> t' !! "c" = Some "active".
Proof. vm_compute. repeat split; reflexivity. Qed.

Definition demo_created (i : string) : Z := if bool_decide (i = "a") then 1 else 2.


Definition demo_pass : result exn pass_result * table := _rdf_conflict_pass berlin demo_levels [boston] demo_table.

Lemma every_loser_is_traced_witness :
  ∃ r t', demo_pass = (Ok r, t') ∧ r_record_pairs r = [boston] ∧ r_unlinked r = [] ∧
    (boston ∈ r_unlinked r ∨ ∃ i m, t' !! i = Some m ∧ supersedes_id m = Some (id (_pick_older boston berlin))).
Proof.
  destruct demo_pass as [[r|e] t'] eqn:E; [|vm_compute in E; discriminate E].
  exists r, t'. split; [done|]. assert (Hp : r_record_pairs r = [boston] ∧ r_unlinked r = []).
  { vm_compute in E. injection E as <- _. split; reflexivity. }
  destruct Hp as [Hp Hu]. split; [done|]. split; [done|].
  apply (every_loser_is_traced berlin demo_levels [boston] demo_table r t' boston E). rewrite Hp. by left.
Defined.

