(* ===== verification/Pipeline.v ===== *)
(** * The pipeline runner

    [core-api/.../pipeline/runner.py] and [step.py]: [Pipeline.run] over steps that change a shared
    context and return, raise an [HTTPException] or raise anything else. Timings and log lines are
    left out. The steps themselves are arguments: any program over the context. *)

From S2P Require Import Prelude.

Inductive step_outcome : Type := SUCCESS | SKIPPED | FAILED.

#[export] Instance step_outcome_eq_dec : EqDecision step_outcome.
Proof. solve_decision. Defined.

Record step_result : Type := StepResult { outcome : step_outcome; error : option exn }.

Record pipeline_result : Type := PipelineResult {
  steps : list step_result; step_count : nat; skipped_count : nat; failed : bool
}.

Definition is_http (e : exn) : bool := match e with HTTPException _ _ => true | PyError _ _ => false end.

Section Run.
Context {ctx : Type}.

(** A step: what it returned, [None] for an implicit success, or what it raised, and the context
    it left. *)
Abbreviation step := (ctx → result exn (option step_result) * ctx).

Definition count_step (r : step_result) (p : pipeline_result) : pipeline_result :=
  PipelineResult (steps p ++ [r]) (S (step_count p))
    (if bool_decide (outcome r = SKIPPED) then S (skipped_count p) else skipped_count p)
    (if bool_decide (outcome r = FAILED) then true else failed p).

Definition abort_step (e : exn) (p : pipeline_result) : pipeline_result :=
  PipelineResult (steps p ++ [StepResult FAILED (Some e)]) (step_count p) (skipped_count p) true.

Fixpoint run_from (ss : list step) (c : ctx) (p : pipeline_result) : result exn pipeline_result * ctx :=
  match ss with
  | [] => (Ok p, c)
  | s :: ss =>
      match s c with
      | (Ok r, c) => run_from ss c (count_step (default (StepResult SUCCESS None) r) p)
      | (Err e, c) => if is_http e then (Err e, c) else (Ok (abort_step e p), c)
      end
  end.

Definition run (ss : list step) (c : ctx) : result exn pipeline_result * ctx :=
  run_from ss c (PipelineResult [] 0 0 false).

(** ** What the runner does, step by step *)

(** The steps [ss] run in order from [c], none raises, and these are their results. *)
Inductive completes : list step → ctx → list step_result → ctx → Prop :=
| completes_nil c : completes [] c [] c
| completes_cons s ss c r c1 rs c2 :
    s c = (Ok r, c1) → completes ss c1 rs c2 →
    completes (s :: ss) c (default (StepResult SUCCESS None) r :: rs) c2.

Definition has (o : step_outcome) (rs : list step_result) : bool := existsb (λ r, bool_decide (outcome r = o)) rs.

Definition tally (rs : list step_result) (p : pipeline_result) : pipeline_result :=
  PipelineResult (steps p ++ rs) (length rs + step_count p)
    (length (filter (λ r, outcome r = SKIPPED) rs) + skipped_count p) (failed p || has FAILED rs).

Lemma tally_cons r rs p : tally rs (count_step r p) = tally (r :: rs) p.
Proof.
  unfold tally, count_step, has. cbn [steps step_count skipped_count failed length existsb].
  rewrite <-app_assoc. cbn [app]. f_equal; [lia| |].
  - case_bool_decide as E; [rewrite filter_cons_True by done|rewrite filter_cons_False by done]; cbn; lia.
  - case_bool_decide; [by rewrite orb_true_r|done].
Qed.

Lemma run_from_spec ss c p :
  (∃ rs c', completes ss c rs c' ∧ run_from ss c p = (Ok (tally rs p), c')) ∨
  (∃ ss1 s ss2 rs c1 e c', ss = ss1 ++ s :: ss2 ∧ completes ss1 c rs c1 ∧ s c1 = (Err e, c') ∧
     run_from ss c p = (if is_http e then Err e else Ok (abort_step e (tally rs p)), c')).
Proof.
  revert c p. induction ss as [|s ss IH]; intros c p.
  { left. exists [], c. split; [constructor|]. cbn. destruct p as [st n k f]. unfold tally. cbn.
    by rewrite app_nil_r, orb_false_r. }
  cbn [run_from]. destruct (s c) as [[r|e] c1] eqn:E.
  - destruct (IH c1 (count_step (default (StepResult SUCCESS None) r) p))
      as [(rs & c' & Hc & Hr)|(ss1 & s' & ss2 & rs & c2 & e & c' & -> & Hc & Hs & Hr)].
    + left. exists (default (StepResult SUCCESS None) r :: rs), c'. split; [by econstructor|].
      by rewrite Hr, tally_cons.
    + right. exists (s :: ss1), s', ss2, (default (StepResult SUCCESS None) r :: rs), c2, e, c'.
      split; [done|]. split; [by econstructor|]. split; [done|]. by rewrite Hr, tally_cons.
  - right. exists [], s, ss, [], c, e, c1. split; [done|]. split; [constructor|]. split; [done|].
    assert (tally [] p = p) as ->.
    { destruct p as [st n k f]. unfold tally. cbn. by rewrite app_nil_r, orb_false_r. }
    by destruct (is_http e).
Qed.

(** C36: [run_reports_every_step]: the steps run once each and in order up to the first that raises. If
    none does, the result lists and counts them all and is failed exactly when one returned
    FAILED; an [HTTPException] leaves as it is, and any other ends the run as a failed result
    whose last entry carries it, the context as the step left it either way. *)
Theorem run_reports_every_step ss c :
  (∃ rs c', completes ss c rs c' ∧
     run ss c = (Ok (PipelineResult rs (length rs) (length (filter (λ r, outcome r = SKIPPED) rs))
                       (has FAILED rs)), c')) ∨
  (∃ ss1 s ss2 rs c1 e c', ss = ss1 ++ s :: ss2 ∧ completes ss1 c rs c1 ∧ s c1 = (Err e, c') ∧
     run ss c = (if is_http e then Err e
                 else Ok (PipelineResult (rs ++ [StepResult FAILED (Some e)]) (length rs)
                            (length (filter (λ r, outcome r = SKIPPED) rs)) true), c')).
Proof.
  unfold run. destruct (run_from_spec ss c (PipelineResult [] 0 0 false))
    as [(rs & c' & Hc & ->)|(ss1 & s & ss2 & rs & c1 & e & c' & -> & Hc & Hs & ->)].
  - left. exists rs, c'. split; [done|]. unfold tally. cbn. by rewrite !Nat.add_0_r.
  - right. exists ss1, s, ss2, rs, c1, e, c'. split_and!; try done.
    unfold abort_step, tally. cbn. by rewrite !Nat.add_0_r.
Qed.
End Run.

(** A returned failure lets the later steps run; a raised one ends the run. *)
Example returned_failure_continues :
  let fails (c : nat) := (Ok (Some (StepResult FAILED None)), S c) in
  let raises (c : nat) := (Err (PyError "ValueError" "x"), S c) in
  let skips (c : nat) := (Ok (Some (StepResult SKIPPED None)), S c) in
  (run [fails; skips] 0%nat).2 = 2%nat ∧ (run [raises; skips] 0%nat).2 = 1%nat ∧
  step_count <$> (run [raises; skips] 0%nat).1 = Ok 0%nat.
Proof. cbn zeta. repeat split; reflexivity. Qed.
