(* ===== verification/WriteHold.v ===== *)
(** * The write hold and the settings it is decided under

    [core-api/.../services/write_hold.py] and [common/settings_version.py], with the settings cache
    of [services/organization_settings.py] and the check storage makes in the inserting
    transaction ([_assert_settings_unchanged], [memory_add]).

    An organization can hold the writes of agents below a trust level. core-api decides from
    settings it caches per process; a write that goes live names the version it was decided
    under, and storage refuses it when the settings row has another. Everything here is one
    organization's; the writes of a tenant read and change nothing of another's.

    The code is a program over calls ([prog]): the process's cache, storage's settings row, the
    agent's row on the primary, the insert. Module [System] runs any number of them, on any
    number of processes, against settings writes, changes of trust, evictions and each other. *)

From S2P Require Import Prelude PyVal.

#[local] Open Scope Z_scope.

(** ** Settings *)

(** The overrides of an organization: the [quarantine] section, whose leaves are checked to be
    integers when they are stored, and the rest, which the hold does not read. *)
Record quarantine_section : Type := QuarantineSection {
  below_trust : option Z; below_trust_by_fleet : gmap string Z
}.
Record overrides : Type := Overrides { quarantine : quarantine_section; other_sections : list (string * pyval) }.

(** [version_of]: the row's [updated_at], or [NO_SETTINGS] when there is no row. *)
Abbreviation version := (option Z).
Definition NO_SETTINGS : version := None.
Definition version_of (updated_at : option Z) : version :=
  match updated_at with Some t => Some t | None => NO_SETTINGS end.

Record cached_settings : Type := CachedSettings { cs_overrides : overrides; cs_version : option version }.

Record resolved_config : Type := ResolvedConfig { _ts : overrides; settings_version : option version }.
Definition config_of (c : cached_settings) : resolved_config :=
  ResolvedConfig (cs_overrides c) (cs_version c).

Definition quarantine_below_trust (cfg : resolved_config) (fleet_id : option string) : Z :=
  let section := quarantine (_ts cfg) in
  let level := match fleet_id with Some f => below_trust_by_fleet section !! f | None => None end in
  let level := match level with None => below_trust section | Some _ => level end in
  default 0 level.

(** ** Programs *)

Record hold : Type := Hold { h_trust_level : Z; h_below_trust : Z }.

(** What the insert is sent of the decision: the hold on its metadata, and the version it claims. *)
Record payload : Type := Payload { p_hold : option hold; p_settings_version : option version }.

Inductive insert_reply : Type :=
| Inserted
| StorageSettingsChangedError
| DuplicateMemoryError (message : string)
| StoragePointerRejectedError (message : string)
| Unreachable (message : string).

Inductive prog (A : Type) : Type :=
| Ret (a : A)
(* [_settings_cache.get], after a [pop] of the entry when it is evicted first *)
| Cached (evict : bool) (cont : option cached_settings → prog A)
| ReadSettings (cont : result exn (overrides * option version) → prog A)
(* [_encrypt_legacy_api_keys]: the settings with their plaintext keys swapped *)
| EncryptKeys (s : overrides) (cont : overrides → prog A)
| Cache (c : cached_settings) (cont : prog A)
| GetAgent (agent_id : string) (cont : result exn (option Z) → prog A)
| Insert (p : payload) (cont : insert_reply → prog A).
Arguments Ret {A}. Arguments Cached {A}. Arguments ReadSettings {A}. Arguments EncryptKeys {A}.
Arguments Cache {A}. Arguments GetAgent {A}. Arguments Insert {A}.

Record write : Type := Write {
  w_agent_id : string; w_fleet_id : option string; w_is_inferred : bool; w_captured : bool
}.

Definition CAPTURED_HOLD_BELOW_TRUST : Z := 1.

(** *** The settings *)

Definition load_and_cache {A} (k : result exn resolved_config → prog A) : prog A :=
  ReadSettings (λ r, match r with
    | Err e => k (Err e)
    | Ok (stored, v) => EncryptKeys stored (λ s,
        let resolved := CachedSettings s v in Cache resolved (k (Ok (config_of resolved))))
    end).

Definition resolve_from {A} (evict : bool) (k : result exn resolved_config → prog A) : prog A :=
  Cached evict (λ c, match c with
    | Some c => k (Ok (config_of c))
    | None => load_and_cache k
    end).
Definition resolve_config {A} : (result exn resolved_config → prog A) → prog A := resolve_from false.
Definition reload_config {A} : (result exn resolved_config → prog A) → prog A := resolve_from true.

(** *** The hold *)

(** The level a write is held below, and the verdict on an agent's trust. *)
Definition level_for (w : write) (cfg : resolved_config) : Z :=
  let below := quarantine_below_trust cfg (w_fleet_id w) in
  if w_captured w then Z.max below CAPTURED_HOLD_BELOW_TRUST else below.
Definition verdict (below : Z) (trust_level : Z) : option hold :=
  if below <=? trust_level then None else Some (Hold trust_level below).

Definition hold_for {A} (w : write) (cfg : resolved_config) (k : result exn (option hold) → prog A) : prog A :=
  if w_is_inferred w then k (Ok None)
  else
    let below := level_for w cfg in
    if below <=? 0 then k (Ok None)
    else GetAgent (w_agent_id w) (λ r, match r with
      | Err e => k (Err e)
      | Ok agent => k (Ok (verdict below (default 0 agent)))
      end).

Definition claim_settings (h : option hold) (cfg : resolved_config) (is_inferred : bool) : payload :=
  Payload h (match h with
             | Some _ => None
             | None => if is_inferred then None else settings_version cfg
             end).

(** [decide_again] of [WriteMemoryRow], and the first decision of [HoldLowTrustWrite]. *)
Definition decide_again {A} (w : write) (cfg : resolved_config) (k : result exn payload → prog A) : prog A :=
  hold_for w cfg (λ r, match r with
    | Err e => k (Err e)
    | Ok h => k (Ok (claim_settings h cfg (w_is_inferred w)))
    end).

Definition SETTINGS_CHANGED_DETAIL : string :=
  "The organization's settings changed while this write was being decided; retry it.".
Definition settings_changed_503 : exn := HTTPException 503 SETTINGS_CHANGED_DETAIL.

(** What the insert raises in [WriteMemoryRow]. *)
Definition raised_by (r : insert_reply) : result exn unit :=
  match r with
  | Inserted => Ok tt
  | StorageSettingsChangedError => Err settings_changed_503
  | DuplicateMemoryError m => Err (HTTPException 409 m)
  | StoragePointerRejectedError m => Err (HTTPException 422 m)
  | Unreachable m => Err (PyError "HTTPError" m)
  end.

Definition insert_deciding_again (p : payload)
    (again : (result exn payload → prog (result exn unit)) → prog (result exn unit))
  : prog (result exn unit) :=
  Insert p (λ r, match r with
    | StorageSettingsChangedError =>
        again (λ d, match d with
          | Err e => Ret (Err e)
          | Ok p => Insert p (λ r, Ret (raised_by r))
          end)
    | r => Ret (raised_by r)
    end).

(** The decision and the insert of one write, from the settings to the row. *)
Definition write_memory (w : write) : prog (result exn unit) :=
  resolve_config (λ c, match c with
    | Err e => Ret (Err e)
    | Ok cfg => decide_again w cfg (λ d, match d with
        | Err e => Ret (Err e)
        | Ok p => insert_deciding_again p (λ k,
            reload_config (λ c, match c with Err e => k (Err e) | Ok cfg => decide_again w cfg k end))
        end)
    end).

(** ** Storage *)

Definition settings_row : Type := option (overrides * Z).
Definition empty_overrides : overrides := Overrides (QuarantineSection None ∅) [].

Definition organization_settings_read (row : settings_row) : overrides * version :=
  match row with
  | None => (empty_overrides, version_of None)
  | Some (settings, updated_at) => (settings, version_of (Some updated_at))
  end.

(** Whether the insert goes on: a row without a claim is not checked. *)
Definition _assert_settings_unchanged (claimed : option version) (row : settings_row) : bool :=
  match claimed with
  | None => true
  | Some v => bool_decide (v = version_of (snd <$> row))
  end.

(** ** Many writes *)
Module System.

Inductive phase : Type :=
| Running (p : prog (result exn unit))
(* storage's transaction passed its check and has not committed *)
| InTransaction (p : payload) (cont : insert_reply → prog (result exn unit))
| Finished (o : result exn unit).

Record request : Type := Req { rq_process : nat; rq_write : write; rq_phase : phase }.
Record memory : Type := Memory { m_request : nat; m_hold : option hold }.

(** [st_past] is not the code's: every value the settings have had. *)
Record state : Type := State {
  st_row : settings_row; st_agents : gmap string Z; st_caches : gmap nat cached_settings;
  st_memories : list memory; st_reqs : gmap nat request;
  st_past : list (quarantine_section * version)
}.

Definition put (s : state) (i : nat) (r : request) (p : phase) : state :=
  State (st_row s) (st_agents s) (st_caches s) (st_memories s)
    (<[i := Req (rq_process r) (rq_write r) p]> (st_reqs s)) (st_past s).
Definition with_caches (s : state) (c : gmap nat cached_settings) : state :=
  State (st_row s) (st_agents s) c (st_memories s) (st_reqs s) (st_past s).
Definition commit (s : state) (i : nat) (p : payload) : state :=
  State (st_row s) (st_agents s) (st_caches s) (Memory i (p_hold p) :: st_memories s) (st_reqs s) (st_past s).

Definition at_call (s : state) (i : nat) (r : request) (p : prog (result exn unit)) : Prop :=
  st_reqs s !! i = Some r ∧ rq_phase r = Running p.
Definition in_transaction (s : state) (i : nat) (r : request) (p : payload) k : Prop :=
  st_reqs s !! i = Some r ∧ rq_phase r = InTransaction p k.

Definition refusal (r : insert_reply) : Prop := r ≠ Inserted ∧ r ≠ StorageSettingsChangedError.

Inductive step : state → state → Prop :=
(* A settings write commits. Its [updated_at] is when its transaction began: another one than any
   before it, in no particular order. *)
| step_settings s o t :
    (∀ q, (q, Some t) ∉ st_past s) →
    step s (State (Some (o, t)) (st_agents s) (st_caches s) (st_memories s) (st_reqs s)
              ((quarantine o, Some t) :: st_past s))
| step_trust s agents :
    step s (State (st_row s) agents (st_caches s) (st_memories s) (st_reqs s) (st_past s))
(* the broadcast, the local write or the TTL; it may never come *)
| step_evict s pid : step s (with_caches s (delete pid (st_caches s)))
| step_arrive s i pid w :
    st_reqs s !! i = None →
    step s (put s i (Req pid w (Running (write_memory w))) (Running (write_memory w)))
| step_cached s i r evict k :
    at_call s i r (Cached evict k) →
    let caches := if evict : bool then delete (rq_process r) (st_caches s) else st_caches s in
    step s (put (with_caches s caches) i r (Running (k (caches !! rq_process r))))
| step_read s i r k :
    at_call s i r (ReadSettings k) →
    let row := organization_settings_read (st_row s) in
    step s (put s i r (Running (k (Ok (row.1, Some row.2)))))
| step_read_fails s i r k m :
    at_call s i r (ReadSettings k) → step s (put s i r (Running (k (Err (PyError "HTTPError" m)))))
(* The swap is a settings write like any other; what it answers differs in the keys. *)
| step_encrypt s i r o k o' :
    at_call s i r (EncryptKeys o k) → quarantine o' = quarantine o → step s (put s i r (Running (k o')))
| step_cache s i r c k :
    at_call s i r (Cache c k) →
    step s (put (with_caches s (<[rq_process r := c]> (st_caches s))) i r (Running k))
| step_agent s i r a k :
    at_call s i r (GetAgent a k) → step s (put s i r (Running (k (Ok (st_agents s !! a)))))
| step_agent_fails s i r a k m :
    at_call s i r (GetAgent a k) → step s (put s i r (Running (k (Err (PyError "HTTPError" m)))))
| step_check s i r p k :
    at_call s i r (Insert p k) →
    step s (put s i r (if _assert_settings_unchanged (p_settings_version p) (st_row s)
                       then InTransaction p k else Running (k StorageSettingsChangedError)))
(* refused for another reason, or storage is out of reach *)
| step_refuse s i r p k reply :
    at_call s i r (Insert p k) ∨ in_transaction s i r p k → refusal reply →
    step s (put s i r (Running (k reply)))
| step_commit s i r p k :
    in_transaction s i r p k → step s (put (commit s i p) i r (Running (k Inserted)))
(* committed, and the answer is lost *)
| step_commit_lost s i r p k m :
    in_transaction s i r p k → step s (put (commit s i p) i r (Running (k (Unreachable m))))
| step_return s i r o :
    at_call s i r (Ret o) → step s (put s i r (Finished o)).

Definition init (s : state) : Prop :=
  st_caches s = ∅ ∧ st_memories s = [] ∧ st_reqs s = ∅ ∧
  st_past s = [((quarantine (organization_settings_read (st_row s)).1), (organization_settings_read (st_row s)).2)].

(** ** What the settings have been *)

Definition current (s : state) : quarantine_section * version :=
  let row := organization_settings_read (st_row s) in (quarantine row.1, row.2).

(** A config the settings have had, and a version they have moved on from. *)
Definition known (s : state) (o : overrides) (v : option version) : Prop :=
  ∃ v', v = Some v' ∧ (quarantine o, v') ∈ st_past s.
Definition stale (s : state) (v : version) : Prop := v ∈ (st_past s).*2 ∧ v ≠ (current s).2.

(** [s'] is later than [s], as far as the settings tell. *)
Definition later (s s' : state) : Prop :=
  (∀ o v, known s o v → known s' o v) ∧ (∀ v, stale s v → stale s' v).

#[export] Instance later_preorder : PreOrder later.
Proof. split; [by split|]. intros a b c [H1 H2] [H3 H4]. split; eauto. Qed.

Definition settled (s : state) : Prop :=
  current s ∈ st_past s ∧ NoDup (st_past s).*2 ∧
  ∀ pid c, st_caches s !! pid = Some c → known s (cs_overrides c) (cs_version c).

(** ** What a program may send

    [ok P R p s]: run from [s] on while [P] holds, [p] inserts only payloads as [R] has them,
    whatever the settings and the agents become, and caches only settings the row has had. *)
Fixpoint ok (P : state → Prop) (R : state → payload → Prop) (p : prog (result exn unit)) (s : state) : Prop :=
  match p with
  | Ret _ => True
  | Cached _ k => ∀ s' c, later s s' → P s' →
      (∀ x, c = Some x → known s' (cs_overrides x) (cs_version x)) → ok P R (k c) s'
  | ReadSettings k => ∀ s', later s s' → P s' →
      (∀ o v, known s' o v → ok P R (k (Ok (o, v))) s') ∧ ∀ e, ok P R (k (Err e)) s'
  | EncryptKeys o k => ∀ s' o', later s s' → P s' → quarantine o' = quarantine o → ok P R (k o') s'
  | Cache c k => known s (cs_overrides c) (cs_version c) ∧ ∀ s', later s s' → P s' → ok P R k s'
  | GetAgent a k => ∀ s', later s s' → P s' →
      ok P R (k (Ok (st_agents s' !! a))) s' ∧ ∀ e, ok P R (k (Err e)) s'
  | Insert p k => R s p ∧ ∀ s' r, later s s' → P s' → ok P R (k r) s'
  end.

Section Ok.
Context (P : state → Prop) (R : state → payload → Prop).
Context (R_later : ∀ s s' p, later s s' → R s p → R s' p).

Lemma known_later s s' o v : later s s' → known s o v → known s' o v.
Proof. intros [H _]. apply H. Qed.

Lemma ok_later s s' p : later s s' → ok P R p s → ok P R p s'.
Proof using R_later.
  intros Hl. destruct p; cbn.
  - done.
  - intros H s1 c' Hs. apply H. by etrans.
  - intros H s1 Hs. apply H. by etrans.
  - intros H s1 o Hs. apply H. by etrans.
  - intros [Hk H]. split; [by eapply known_later|]. intros s1 Hs. apply H. by etrans.
  - intros H s1 Hs. apply H. by etrans.
  - intros [HR H]. split; [by eapply R_later|]. intros s1 r Hs. apply H. by etrans.
Qed.

Definition cfg_known (s : state) (cfg : resolved_config) : Prop := known s (_ts cfg) (settings_version cfg).

Lemma resolve_ok s evict (k : result exn resolved_config → prog (result exn unit)) :
  (∀ s' cfg, later s s' → P s' → cfg_known s' cfg → ok P R (k (Ok cfg)) s') →
  (∀ s' e, later s s' → P s' → ok P R (k (Err e)) s') → ok P R (resolve_from evict k) s.
Proof.
  intros Hk He s1 [c|] H1 P1 Hc; cbn.
  { apply Hk; [done..|]. by apply (Hc c). }
  intros s2 H2 P2. split.
  - intros o v Hkn s3 o' H3 P3 Ho. cbn. split.
    + destruct (known_later _ _ _ _ H3 Hkn) as (v' & -> & Hv). exists v'. by rewrite Ho.
    + intros s4 H4 P4. apply Hk; [by do 3 (etrans; [eassumption|])|done|].
      destruct (known_later _ _ _ _ H4 (known_later _ _ _ _ H3 Hkn)) as (v' & -> & Hv).
      exists v'. cbn. by rewrite Ho.
  - intros e. apply He; [by etrans|done].
Qed.

Lemma decide_again_ok s w cfg (k : result exn payload → prog (result exn unit)) :
  P s → cfg_known s cfg →
  (∀ s' h, later s s' → P s' → cfg_known s' cfg →
     h = (if w_is_inferred w || (level_for w cfg <=? 0) then None
          else verdict (level_for w cfg) (default 0 (st_agents s' !! w_agent_id w))) →
     ok P R (k (Ok (claim_settings h cfg (w_is_inferred w)))) s') →
  (∀ s' e, later s s' → P s' → ok P R (k (Err e)) s') → ok P R (decide_again w cfg k) s.
Proof.
  intros HP Hc Hk He. unfold decide_again, hold_for.
  destruct (w_is_inferred w) eqn:Ei; [by apply Hk|].
  destruct (level_for w cfg <=? 0) eqn:El; [by apply Hk|].
  intros s1 H1 P1. split; [|by intros; apply He].
  apply Hk; [done..| |done]. by eapply known_later.
Qed.

(** A write sends what its decisions give. *)
Lemma write_ok s w :
  (∀ s' cfg h, P s' → cfg_known s' cfg →
     h = (if w_is_inferred w || (level_for w cfg <=? 0) then None
          else verdict (level_for w cfg) (default 0 (st_agents s' !! w_agent_id w))) →
     R s' (claim_settings h cfg (w_is_inferred w))) →
  ok P R (write_memory w) s.
Proof.
  intros HR. apply resolve_ok; [|done]. intros s1 cfg _ P1 Hc1.
  apply decide_again_ok; [done..| |done]. intros s2 h _ P2 Hc2 Hh. split; [by eapply HR|].
  intros s3 [] _ P3; try exact I.
  apply resolve_ok; [|done]. intros s4 cfg' _ P4 Hc4.
  apply decide_again_ok; [done..| |done]. intros s5 h' _ P5 Hc5 Hh'. split; [by eapply HR|done].
Qed.
End Ok.

(** ** The invariant of one request *)

Definition phase_ok (P : state → Prop) (R : state → payload → Prop) (T : payload → Prop)
    (s : state) (r : request) : Prop :=
  match rq_phase r with
  | Running p => ok P R p s
  | InTransaction p k => T p ∧ ∀ s' reply, later s s' → P s' → ok P R (k reply) s'
  | Finished _ => True
  end.

Lemma later_same s s' : st_row s' = st_row s → st_past s' = st_past s → later s s'.
Proof. intros Hr Hp. unfold later, known, stale, current. by rewrite Hr, Hp. Qed.

Lemma put_later s i r p : later s (put s i r p).
Proof. by apply later_same. Qed.

(** A settings write is to a version the row never had. *)
Lemma step_later s s' : current s ∈ st_past s → step s s' → later s s'.
Proof.
  intros Hc Hs. inversion Hs; subst; try (by apply later_same).
  - split.
    + intros o' v (v' & -> & Hv). exists v'. split; [done|]. by right.
    + intros v [Hv _]. split; [by right|]. cbn. intros ->.
      apply list_elem_of_fmap in Hv as ([q v] & ? & Hv). cbn in *. subst. by eapply H.
Qed.

Lemma settled_functional s q q' v :
  settled s → (q, v) ∈ st_past s → (q', v) ∈ st_past s → q = q'.
Proof.
  intros (_ & Hn & _) H1 H2. apply list_elem_of_lookup in H1 as [n H1], H2 as [m H2].
  assert (n = m) as ->; [|congruence].
  apply (NoDup_lookup (st_past s).*2 n m v); [done|by rewrite list_lookup_fmap, H1|by rewrite list_lookup_fmap, H2].
Qed.

Section Phases.
Context (P : state → Prop) (R : state → payload → Prop) (T : payload → Prop).
Context (R_later : ∀ s s' p, later s s' → R s p → R s' p).
Context (R_check : ∀ s p, R s p → _assert_settings_unchanged (p_settings_version p) (st_row s) = true → T p).

Lemma phase_later s s' r : later s s' → phase_ok P R T s r → phase_ok P R T s' r.
Proof using R_later.
  intros Hl. unfold phase_ok. destruct (rq_phase r); [by apply ok_later| |done].
  intros [HT H]. split; [done|]. intros s1 reply H1. apply H. by etrans.
Qed.

Lemma put_phase s s1 i j r r1 p :
  later s s1 → st_reqs s !! j = Some r → st_reqs s1 = <[j := Req (rq_process r) (rq_write r) p]> (st_reqs s) →
  (∀ r, st_reqs s !! i = Some r → phase_ok P R T s r) →
  (phase_ok P R T s r → phase_ok P R T s (Req (rq_process r) (rq_write r) p)) →
  st_reqs s1 !! i = Some r1 → phase_ok P R T s1 r1.
Proof using R_later.
  intros Hl Hj Hq Hold Hp. rewrite Hq. destruct (decide (i = j)) as [->|Hne].
  - rewrite lookup_insert_eq. intros [= <-]. eapply phase_later; [done|]. by apply Hp, Hold.
  - rewrite lookup_insert_ne by done. intros Hi. eapply phase_later; [done|]. by apply Hold.
Qed.

(** The request a step moves keeps its invariant, and the others theirs. *)
Lemma step_phase s s1 i r1 :
  P s → settled s → step s s1 →
  (∀ r, st_reqs s !! i = Some r → phase_ok P R T s r) →
  (st_reqs s !! i = None → ok P R (write_memory (rq_write r1)) s1) →
  st_reqs s1 !! i = Some r1 → phase_ok P R T s1 r1.
Proof using R_later R_check.
  intros HP Hset Hs Hold Hnew H1. pose proof (step_later _ _ (proj1 Hset) Hs) as Hl.
  inversion Hs; subst; try (eapply phase_later; [done|]; by apply Hold).
  { cbn in H1. destruct (decide (i = i0)) as [->|Hne].
    - rewrite lookup_insert_eq in H1. injection H1 as <-. by apply Hnew.
    - rewrite lookup_insert_ne in H1 by done. eapply phase_later; [done|]. by apply Hold. }
  all: try (destruct H as [Hj Hp]; eapply (put_phase s _ _ _ r); [exact Hl|exact Hj|reflexivity|exact Hold| |exact H1];
            unfold phase_ok; rewrite Hp; cbn).
  - intros H. apply H; [done..|]. destruct Hset as (_ & _ & Hc). intros x.
    subst caches. destruct evict; [by rewrite lookup_delete_eq|]. apply Hc.
  - intros H. apply H; [done..|]. exists (current s).2. split; [done|]. apply Hset.
  - intros H. by apply H.
  - intros H. by apply H.
  - intros [_ H]. by apply H.
  - intros H. by apply H.
  - intros H. by apply H.
  - intros [HR H]. destruct (_assert_settings_unchanged _ _) eqn:E; [|by apply H]. split; [by eapply R_check|done].
  - destruct H as [[Hj Hp]|[Hj Hp]]; eapply (put_phase s _ _ _ r); try exact Hl; try exact Hj; try reflexivity; try exact Hold; try exact H1; unfold phase_ok; rewrite Hp; cbn; intros [_ H]; by apply H.
  - intros [_ H]. by apply H.
  - intros [_ H]. by apply H.
  - done.
Qed.
End Phases.

(** ** What every write keeps *)

Definition anything (s : state) (p : payload) : Prop := True.
Definition good (s : state) : Prop :=
  settled s ∧ (∀ i r, st_reqs s !! i = Some r → phase_ok settled anything (λ _, True) s r) ∧
  ∀ m, m ∈ st_memories s → is_Some (st_reqs s !! m_request m).

Lemma caches_later s s1 :
  later s s1 → st_caches s1 = st_caches s ∨ (∃ pid, st_caches s1 = delete pid (st_caches s)) ∨
    (∃ pid c, st_caches s1 = <[pid := c]> (st_caches s) ∧ known s (cs_overrides c) (cs_version c)) →
  settled s → ∀ pid c, st_caches s1 !! pid = Some c → known s1 (cs_overrides c) (cs_version c).
Proof.
  intros Hl Hc (_ & _ & Hs) pid c H. eapply known_later; [exact Hl|].
  destruct Hc as [E|[[p E]|(p & c' & E & Hk)]]; rewrite E in H.
  - by eapply Hs.
  - apply lookup_delete_Some in H as [_ H]. by eapply Hs.
  - apply lookup_insert_Some in H as [[_ <-]|[_ H]]; [done|by eapply Hs].
Qed.

(** The rows of a request are those its own commits add. *)
Lemma step_memories s s1 m :
  step s s1 → m ∈ st_memories s1 →
  m ∈ st_memories s ∨ ∃ r p k, st_reqs s !! m_request m = Some r ∧ rq_phase r = InTransaction p k ∧ m_hold m = p_hold p.
Proof.
  intros Hs Hm. inversion Hs; subst; try (by left).
  all: cbn in Hm; apply elem_of_cons in Hm as [->|Hm]; [|by left].
  all: destruct H as [Hi Hp]; right; by exists r, p, k.
Qed.

Lemma reqs_step s s1 i r :
  step s s1 → st_reqs s !! i = Some r → is_Some (st_reqs s1 !! i).
Proof.
  intros Hs Hr. inversion Hs; subst; cbn; try (by exists r).
  all: rewrite lookup_insert_is_Some; destruct (decide (i0 = i)); [by left|by right].
Qed.

Lemma step_settled s s1 : good s → step s s1 → settled s1.
Proof.
  intros (Hset & Hph & _) Hs. pose proof (step_later _ _ (proj1 Hset) Hs) as Hl.
  pose proof (λ Hc, caches_later _ _ Hl Hc Hset) as Hca. destruct Hset as (Hc & Hn & _).
  split; [|split].
  - inversion Hs; subst; try exact Hc. by left.
  - inversion Hs; subst; try exact Hn. cbn. apply NoDup_cons. split; [|done].
    intros ([q v] & Hv & Hin)%list_elem_of_fmap. cbn in Hv. subst. by eapply H.
  - apply Hca. inversion Hs; subst; try (by left).
    + right. left. by exists pid.
    + cbn. subst caches. destruct evict; [|by left]. right. left. by exists (rq_process r).
    + right. right. exists (rq_process r), c. split; [done|].
      destruct H as [Hi Hp]. pose proof (Hph _ _ Hi) as Hok. unfold phase_ok in Hok. rewrite Hp in Hok. apply Hok.
Qed.

Lemma good_step s s1 : good s → step s s1 → good s1.
Proof.
  intros Hg Hs. split; [by eapply step_settled|]. split.
  2: { intros m Hm. destruct (step_memories _ _ _ Hs Hm) as [Hm'|(r & p & k & Hr & _)]; [|by eapply reqs_step].
       apply Hg in Hm' as [r Hr]. by eapply reqs_step. }
  intros i r Hr.
  eapply (step_phase settled anything (λ _, True)); try done; [apply Hg|apply Hg|apply Hg|].
  intros _. by apply write_ok.
Qed.

Lemma reachable_good s : reachable step init s → good s.
Proof.
  apply (reachable_invariant step init); [|by eauto using good_step].
  intros s' (Hc & Hm & Hr & Hp). split; [|split].
  - unfold settled, current. rewrite Hc, Hp. split_and!; [by left|apply NoDup_singleton|done].
  - intros i r. by rewrite Hr.
  - intros m. rewrite Hm. set_solver.
Qed.

(** ** A write sent after the settings are tightened *)

(** Whether a write decided here and now would be held. *)
Definition current_config (s : state) : resolved_config :=
  let row := organization_settings_read (st_row s) in ResolvedConfig row.1 (Some row.2).
Definition held_now (s : state) (w : write) : bool :=
  let below := level_for w (current_config s) in
  negb (w_is_inferred w) && (0 <? below) && (default 0 (st_agents s !! w_agent_id w) <? below).

(** A live payload claims a version the row no longer has. *)
Definition refused (s : state) (p : payload) : Prop :=
  p_hold p = None → ∃ v, p_settings_version p = Some v ∧ stale s v.

Lemma refused_later s s' p : later s s' → refused s p → refused s' p.
Proof. intros [_ H] Hr Hp. destruct (Hr Hp) as (v & Hv & Hs). eauto. Qed.

Lemma level_quarantine w cfg cfg' :
  quarantine (_ts cfg) = quarantine (_ts cfg') → level_for w cfg = level_for w cfg'.
Proof. intros H. unfold level_for, quarantine_below_trust. by rewrite H. Qed.

(** What is decided live while the write would be held was decided under other settings. *)
Lemma live_is_refused s w cfg h :
  settled s → held_now s w = true → cfg_known s cfg →
  h = (if w_is_inferred w || (level_for w cfg <=? 0) then None
       else verdict (level_for w cfg) (default 0 (st_agents s !! w_agent_id w))) →
  refused s (claim_settings h cfg (w_is_inferred w)).
Proof.
  intros Hset Hn (v & Hv & Hin) -> Hlive. unfold held_now in Hn. bool_to_prop.
  rewrite H in *. cbn [orb claim_settings p_hold p_settings_version] in *.
  rewrite Hlive. exists v. split; [done|]. split; [apply list_elem_of_fmap; by exists (quarantine (_ts cfg), v)|].
  intros ->. assert (level_for w cfg = level_for w (current_config s)) as Hq.
  { apply level_quarantine. eapply (settled_functional s); [done|exact Hin|]. apply Hset. }
  rewrite Hq in Hlive. destruct (Z.leb_spec (level_for w (current_config s)) 0); [lia|].
  unfold verdict in Hlive. by rewrite (proj2 (Z.leb_gt _ _)) in Hlive.
Qed.

Definition is_held (p : payload) : Prop := p_hold p ≠ None.

Lemma refused_check s p :
  refused s p → _assert_settings_unchanged (p_settings_version p) (st_row s) = true → is_held p.
Proof.
  intros Hr Hc Hp. destruct (Hr Hp) as (v & Hv & _ & Hne). rewrite Hv in Hc. cbn in Hc. bool_to_prop.
  apply Hne. subst v. unfold current. by destruct (st_row s) as [[]|].
Qed.

(** The write [w] of request [i] while it would be held. *)
Definition tight (w : write) (s : state) : Prop := settled s ∧ held_now s w = true.
Definition request_held (w : write) (i : nat) (s : state) : Prop :=
  ∀ r, st_reqs s !! i = Some r → rq_write r = w →
    phase_ok (tight w) refused is_held s r ∧
    ∀ m, m ∈ st_memories s → m_request m = i → m_hold m ≠ None.

Lemma write_kept s s1 i r r1 :
  step s s1 → st_reqs s !! i = Some r → st_reqs s1 !! i = Some r1 → rq_write r1 = rq_write r.
Proof.
  intros Hs Hr H1. inversion Hs; subst; cbn in H1; try (by simplify_eq).
  all: match goal with H : <[?j := _]> _ !! ?l = _ |- _ => destruct (decide (l = j)) as [->|Hne] end;
       [rewrite lookup_insert_eq in H1|rewrite lookup_insert_ne in H1 by done; by simplify_eq].
  all: unfold at_call, in_transaction in *; destruct_and?; simplify_eq; try done.
  by destruct H as [[]|[]]; simplify_eq.
Qed.


Lemma tight_step w i s s1 :
  good s → held_now s w = true → request_held w i s → step s s1 → request_held w i s1.
Proof.
  intros Hg Hn Hh Hs r1 H1 Hw.
  assert (∀ r, st_reqs s !! i = Some r → rq_write r = w) as Hsame.
  { intros r Hr. rewrite <-Hw. symmetry. by eapply write_kept. }
  split.
  - eapply (step_phase (tight w) refused is_held refused_later refused_check s); [by split; [apply Hg|]|apply Hg|done|..|exact H1].
    + intros r Hr. apply Hh; auto.
    + intros _. rewrite Hw. apply write_ok. intros s' cfg h [Hset Hn']. by apply live_is_refused.
  - intros m Hm <-. destruct (step_memories _ _ _ Hs Hm) as [Hm'|(r & p & k & Hr & Hp & ->)].
    + destruct (proj2 (proj2 Hg) _ Hm') as [r Hr]. destruct (Hh _ Hr (Hsame _ Hr)) as [_ H]. by apply H.
    + destruct (Hh _ Hr (Hsame _ Hr)) as [H _]. unfold phase_ok in H. rewrite Hp in H. apply H.
Qed.

(** C3: [late_write_is_held]: take a write that arrives at any moment after which, until it is done,
    the organization's settings and its agent's trust would hold it. It is never stored live,
    whatever settings its process had cached, whichever broadcasts were lost, however its calls
    interleave with other writes, settings writes and changes of trust, and whatever fails. *)
Theorem late_write_is_held s0 s1 i r w m
    (Hreach : reachable step init s0) (Hnew : st_reqs s0 !! i = None)
    (Hrun : steps (λ s s', held_now s w = true ∧ step s s') s0 s1)
    (Hreq : st_reqs s1 !! i = Some r) (Hw : rq_write r = w)
    (Hm : m ∈ st_memories s1) (Hi : m_request m = i) : m_hold m ≠ None.
Proof.
  assert (good s1 ∧ request_held w i s1) as [_ H].
  { eapply (steps_preserve _ (λ s, good s ∧ request_held w i s)); [|exact Hrun|].
    - intros s s' [Hg Hh] [Hn Hs]. split; [by eapply good_step|by eapply tight_step].
    - split; [by apply reachable_good|]. intros r'. by rewrite Hnew. }
  destruct (H _ Hreq Hw) as [_ Hmem]. by apply (Hmem m).
Qed.

(** ** One row, and the answer that says so *)

Definition lost (m : string) : result exn unit := Err (PyError "HTTPError" m).

(** A program that has stored nothing and answers 201 only after the one insert it makes. *)
Fixpoint pending (p : prog (result exn unit)) : Prop :=
  match p with
  | Ret o => o ≠ Ok tt
  | Cached _ k => ∀ c, pending (k c)
  | ReadSettings k => ∀ r, pending (k r)
  | EncryptKeys _ k => ∀ o, pending (k o)
  | Cache _ k => pending k
  | GetAgent _ k => ∀ r, pending (k r)
  | Insert _ k => k Inserted = Ret (Ok tt) ∧ (∀ m, k (Unreachable m) = Ret (lost m)) ∧
      ∀ r, r ≠ Inserted → pending (k r)
  end.

Lemma resolve_pending evict (k : result exn resolved_config → prog (result exn unit)) :
  (∀ r, pending (k r)) → pending (resolve_from evict k).
Proof. intros H [c|]; [apply H|]. intros [[o v]|e]; [|apply H]. intros o'. apply H. Qed.

Lemma decide_pending w cfg (k : result exn payload → prog (result exn unit)) :
  (∀ r, pending (k r)) → pending (decide_again w cfg k).
Proof.
  intros H. unfold decide_again, hold_for. destruct (w_is_inferred w); [apply H|].
  destruct (_ <=? 0); [apply H|]. intros [a|e]; apply H.
Qed.

Lemma write_pending w : pending (write_memory w).
Proof.
  apply resolve_pending. intros [cfg|e]; [|done]. apply decide_pending. intros [p|e]; [|done].
  split; [done|]. split; [done|]. intros [] Hr; try done.
  apply resolve_pending. intros [cfg'|e]; [|done]. apply decide_pending. intros [p'|e]; [|done].
  split; [done|]. split; [done|]. by intros [].
Qed.

Definition rows_of (i : nat) (s : state) : nat := length (filter (λ m, m_request m = i) (st_memories s)).

(** What the rows of a request say of its phase. *)
Definition accounted (n : nat) (ph : phase) : Prop :=
  match ph with
  | Running p => (n = 0%nat ∧ pending p) ∨ (n = 1%nat ∧ (p = Ret (Ok tt) ∨ ∃ m, p = Ret (lost m)))
  | InTransaction p k => n = 0%nat ∧ pending (Insert p k)
  | Finished o => (n = 0%nat ∧ o ≠ Ok tt) ∨ (n = 1%nat ∧ (o = Ok tt ∨ ∃ m, o = lost m))
  end.

Definition all_accounted (s : state) : Prop :=
  ∀ i, match st_reqs s !! i with Some r => accounted (rows_of i s) (rq_phase r) | None => rows_of i s = 0%nat end.

Lemma accounted_put s s1 j r p :
  all_accounted s → st_reqs s !! j = Some r → st_reqs s1 = <[j := Req (rq_process r) (rq_write r) p]> (st_reqs s) →
  (∀ i, i ≠ j → rows_of i s1 = rows_of i s) →
  (accounted (rows_of j s) (rq_phase r) → accounted (rows_of j s1) p) → all_accounted s1.
Proof.
  intros Ha Hj Hr Ho Hp i. specialize (Ha i). rewrite Hr. destruct (decide (i = j)) as [->|Hne].
  - rewrite lookup_insert_eq. rewrite Hj in Ha. by apply Hp.
  - rewrite lookup_insert_ne by done. by rewrite Ho.
Qed.

Lemma accounted_next n p q : accounted n (Running p) →
  (pending p → pending q) → (∀ o, p ≠ Ret o) → accounted n (Running q).
Proof. intros [[-> Hp]|[_ [->|[m ->]]]] Hq Hr; [left; auto|by destruct (Hr (Ok tt))|by destruct (Hr (lost m))]. Qed.

Lemma rows_commit s i j r p ph :
  rows_of j (put (commit s i p) i r ph) = if decide (j = i) then S (rows_of j s) else rows_of j s.
Proof. unfold rows_of. cbn [st_memories put commit]. rewrite filter_cons. cbn [m_request]. by repeat case_decide; subst. Qed.

Lemma rows_accounted_step s s1 : all_accounted s → step s s1 → all_accounted s1.
Proof.
  intros Ha Hs. inversion Hs; subst; try exact Ha.
  { intros j. specialize (Ha j). cbn. destruct (decide (j = i)) as [->|Hne].
    - rewrite lookup_insert_eq. rewrite H in Ha. left. split; [done|apply write_pending].
    - rewrite lookup_insert_ne by done. exact Ha. }
  all: try (destruct H as [Hj Hp]; eapply (accounted_put s _ _ r); [exact Ha|exact Hj|reflexivity| |rewrite Hp]; try done).
  all: try (intros Hacc; eapply accounted_next; [exact Hacc| |done]; cbn; naive_solver).
  - intros Hacc. destruct (_assert_settings_unchanged _ _).
    + destruct Hacc as [H|[_ [?|[??]]]]; [exact H|done..].
    + eapply accounted_next; [exact Hacc| |done]. cbn. intros (_ & _ & H). by apply H.
  - destruct H0 as [H1 H2]. destruct H as [[Hj Hp]|[Hj Hp]]; eapply (accounted_put s _ _ r); try exact Ha; try exact Hj; try reflexivity; try done; rewrite Hp.
    + intros Hacc. eapply accounted_next; [exact Hacc| |done]. cbn. intros (_ & _ & H). by apply H.
    + intros [Hn (_ & _ & H)]. left. split; [exact Hn|]. by apply H.
  - intros j Hne. by rewrite rows_commit, decide_False.
  - intros [Hn (H & _)]. right. rewrite rows_commit, decide_True, Hn by done. split; [done|]. by left.
  - intros j Hne. by rewrite rows_commit, decide_False.
  - intros [Hn (_ & H & _)]. right. rewrite rows_commit, decide_True, Hn by done. split; [done|]. right. eauto.
  - cbn. intros [[Hn Ho]|[Hn H]]; [by left|right]. split; [exact Hn|]. destruct H as [[= ->]|[m [= ->]]]; eauto.
Qed.

Lemma reachable_accounted s : reachable step init s → all_accounted s.
Proof.
  apply (reachable_invariant step init); [|by eauto using rows_accounted_step].
  intros s' (_ & Hm & Hr & _) i. unfold rows_of. by rewrite Hr, Hm.
Qed.

(** [write_stored_once]: a write stores at most one row, over the refused insert and its retry, and
    its answer tells which: one when it answers 201, none when it is refused (409, 422, 503); only
    a storage call whose answer never came leaves it open. *)
Theorem write_stored_once s i r o
    (Hreach : reachable step init s) (Hr : st_reqs s !! i = Some r) (Ho : rq_phase r = Finished o) :
  match o with
  | Ok _ => rows_of i s = 1%nat
  | Err (HTTPException _ _) => rows_of i s = 0%nat
  | Err (PyError _ _) => (rows_of i s <= 1)%nat
  end.
Proof.
  pose proof (reachable_accounted s Hreach i) as Ha. rewrite Hr, Ho in Ha.
  destruct Ha as [[Hn He]|[Hn [->|[m ->]]]]; rewrite Hn; [|done|cbn; lia].
  by destruct o as [[]|[]]; [| |lia].
Qed.

(** ** A write nobody disturbs *)

(** Against settings of version [v] the program does not end in the 503. *)
Fixpoint settles (v : version) (p : prog (result exn unit)) : Prop :=
  match p with
  | Ret o => o ≠ Err settings_changed_503
  | Cached evict k => ∀ c, (evict = true → c = None) → settles v (k c)
  | ReadSettings k => (∀ o, settles v (k (Ok (o, Some v)))) ∧ ∀ m, settles v (k (Err (PyError "HTTPError" m)))
  | EncryptKeys _ k => ∀ o, settles v (k o)
  | Cache _ k => settles v k
  | GetAgent _ k => (∀ a, settles v (k (Ok a))) ∧ ∀ m, settles v (k (Err (PyError "HTTPError" m)))
  | Insert p k => (∀ r, r ≠ StorageSettingsChangedError → settles v (k r)) ∧
      (p_settings_version p = None ∨ p_settings_version p = Some v ∨
       settles v (k StorageSettingsChangedError))
  end.

Lemma decide_settles v w cfg (k : result exn payload → prog (result exn unit)) :
  (∀ h, settles v (k (Ok (claim_settings h cfg (w_is_inferred w))))) →
  (∀ m, settles v (k (Err (PyError "HTTPError" m)))) → settles v (decide_again w cfg k).
Proof.
  intros H He. unfold decide_again, hold_for. destruct (w_is_inferred w); [apply H|].
  destruct (_ <=? 0); [apply H|]. split; [intros a; apply H|apply He].
Qed.

Lemma claim_current h s v is_inferred :
  let p := claim_settings h (ResolvedConfig s (Some v)) is_inferred in
  p_settings_version p = None ∨ p_settings_version p = Some v.
Proof. cbn. destruct h; [by left|]. destruct is_inferred; [by left|by right]. Qed.

(** The first decision may be an old one; the second is under settings just read. *)
Lemma write_settles v w : settles v (write_memory w).
Proof.
  assert (∀ r, r ≠ StorageSettingsChangedError → settles v (Ret (raised_by r))) as Hr by (by intros []).
  assert (∀ h s, settles v (Insert (claim_settings h (ResolvedConfig s (Some v)) (w_is_inferred w))
                              (λ r, Ret (raised_by r)))) as Hagain.
  { intros h s. split; [exact Hr|]. destruct (claim_current h s v (w_is_inferred w)); auto. }
  assert (∀ cfg, settles v (decide_again w cfg (λ d, match d with Err e => Ret (Err e)
            | Ok p => insert_deciding_again p (λ k,
                reload_config (λ c, match c with Err e => k (Err e) | Ok cfg => decide_again w cfg k end)) end))) as Hfirst.
  { intros cfg. apply decide_settles; [|done]. intros h. split; [by intros []|]. right. right.
    intros c Hc. rewrite Hc by done. split; [|done]. intros o o'.
    apply decide_settles; [intros h2; apply (Hagain h2 o')|done]. }
  intros [c|] _; [apply Hfirst|]. split; [|done]. intros o o'. apply Hfirst.
Qed.

Definition settling (v : version) (ph : phase) : Prop :=
  match ph with
  | Running p => settles v p
  | InTransaction _ k => ∀ r, r ≠ StorageSettingsChangedError → settles v (k r)
  | Finished o => o ≠ Err settings_changed_503
  end.

Lemma settling_step i s s1 :
  let v := (current s).2 in
  (∀ r, st_reqs s !! i = Some r → settling v (rq_phase r)) → step s s1 →
  ∀ r, st_reqs s1 !! i = Some r → settling v (rq_phase r).
Proof.
  intros v Hold Hs r1 H1.
  assert (∀ j r p q, st_reqs s !! j = Some r → (settling v (rq_phase r) → settling v p) →
            st_reqs q = <[j := Req (rq_process r) (rq_write r) p]> (st_reqs s) →
            st_reqs q !! i = Some r1 → settling v (rq_phase r1)) as Hput.
  { intros j r p q Hj Hp ->. destruct (decide (i = j)) as [->|Hne].
    - rewrite lookup_insert_eq. intros [= <-]. by apply Hp, Hold.
    - rewrite lookup_insert_ne by done. apply Hold. }
  inversion Hs; subst; try (by apply (Hold r1)).
  { cbn in H1. destruct (decide (i = i0)) as [->|Hne].
    - rewrite lookup_insert_eq in H1. injection H1 as <-. apply write_settles.
    - rewrite lookup_insert_ne in H1 by done. by apply Hold. }
  all: try (destruct H as [Hj Hp]; eapply (Hput _ r); [exact Hj| | |exact H1]; [rewrite Hp; cbn|reflexivity]).
  - intros H. apply H. subst caches. intros ->. apply lookup_delete_eq.
  - intros [H _]. apply H.
  - intros [_ H]. apply H.
  - intros H. apply H.
  - done.
  - intros [H _]. apply H.
  - intros [_ H]. apply H.
  - intros [Hr Hc]. destruct (_assert_settings_unchanged _ _) eqn:E; [exact Hr|].
    destruct Hc as [Hc|[Hc|Hc]]; [| |exact Hc]; rewrite Hc in E; [done|]. cbn in E. bool_to_prop.
    destruct E. unfold v, current. by destruct (st_row s) as [[]|].
  - destruct H0 as [_ Hne]. destruct H as [[Hj Hp]|[Hj Hp]]; (eapply (Hput _ r); [exact Hj| | |exact H1]; [rewrite Hp; cbn|reflexivity]).
    + intros [H _]. by apply H.
    + intros H. by apply H.
  - intros H. by apply H.
  - intros H. by apply H.
  - done.
Qed.

(** [undisturbed_write_settles]: a write during which no settings write commits never ends in the 503
    that asks for a retry, however old the settings its process had cached: storage refuses it at
    most once, and the second decision is under the row's own. *)
Theorem undisturbed_write_settles s0 s1 i r row
    (Hnew : st_reqs s0 !! i = None)
    (Hrun : steps (λ s s', st_row s = row ∧ step s s') s0 s1)
    (Hr : st_reqs s1 !! i = Some r) : rq_phase r ≠ Finished (Err settings_changed_503).
Proof.
  set (v := (organization_settings_read row).2).
  assert (∀ r, st_reqs s1 !! i = Some r → settling v (rq_phase r)) as H.
  { eapply (steps_preserve _ (λ s, ∀ r, st_reqs s !! i = Some r → settling v (rq_phase r))); [|exact Hrun|].
    - intros s s' Hs [Hq Hstep]. subst v. rewrite <-Hq in *. by apply (settling_step i s).
    - intros r'. by rewrite Hnew. }
  intros Hf. specialize (H r Hr). by rewrite Hf in H.
Qed.

(** ** A run, executed *)

Lemma reachable_steps s s' : reachable step init s → steps step s s' → reachable step init s'.
Proof. intros Hr Hs. induction Hs; eauto with caura. Qed.

(** The next call of request [i], answered. *)
Definition advance (i : nat) (s : state) : option state :=
  r ← st_reqs s !! i;
  match rq_phase r with
  | Running (Ret o) => Some (put s i r (Finished o))
  | Running (Cached evict k) =>
      let caches := if evict then delete (rq_process r) (st_caches s) else st_caches s in
      Some (put (with_caches s caches) i r (Running (k (caches !! rq_process r))))
  | Running (ReadSettings k) =>
      let row := organization_settings_read (st_row s) in Some (put s i r (Running (k (Ok (row.1, Some row.2)))))
  | Running (EncryptKeys o k) => Some (put s i r (Running (k o)))
  | Running (Cache c k) => Some (put (with_caches s (<[rq_process r := c]> (st_caches s))) i r (Running k))
  | Running (GetAgent a k) => Some (put s i r (Running (k (Ok (st_agents s !! a)))))
  | Running (Insert p k) =>
      Some (put s i r (if _assert_settings_unchanged (p_settings_version p) (st_row s)
                       then InTransaction p k else Running (k StorageSettingsChangedError)))
  | InTransaction p k => Some (put (commit s i p) i r (Running (k Inserted)))
  | Finished _ => None
  end.

Lemma advance_step i s s' : advance i s = Some s' → step s s'.
Proof.
  unfold advance. intros H. apply bind_Some in H as (r & Hr & H).
  destruct (rq_phase r) as [[]| |] eqn:Hp; simplify_eq; by econstructor.
Qed.

Fixpoint advance_while (P : state → bool) (i n : nat) (s : state) : option state :=
  match n with
  | O => Some s
  | S n => if P s then s' ← advance i s; advance_while P i n s' else None
  end.

Lemma advance_steps P i n s s' :
  advance_while P i n s = Some s' → steps (λ s s', P s = true ∧ step s s') s s'.
Proof.
  revert s. induction n as [|n IH]; intros s; cbn; [intros [= ->]; constructor|].
  destruct (P s) eqn:HP; [|done]. intros H. apply bind_Some in H as (s1 & H1 & H).
  eapply steps_cons; [split; [done|by eapply advance_step]|by apply IH].
Qed.

Lemma advance_quiet P i n s s' :
  advance_while P i n s = Some s' → steps (λ a b, st_row a = st_row s ∧ step a b) s s'.
Proof.
  enough (∀ row, st_row s = row → advance_while P i n s = Some s' → steps (λ a b, st_row a = row ∧ step a b) s s') by auto.
  intros row. revert s. induction n as [|n IH]; intros s Hs; cbn; [intros [= ->]; constructor|].
  destruct (P s); [|done]. intros H. apply bind_Some in H as (s1 & H1 & H).
  eapply steps_cons; [split; [done|by eapply advance_step]|]. apply IH; [|done]. rewrite <-Hs.
  unfold advance in H1. apply bind_Some in H1 as (r & _ & H1). by destruct (rq_phase r) as [[]| |]; simplify_eq.
Qed.

Lemma steps_weaken {S} (R R' : S → S → Prop) s s' : (∀ a b, R a b → R' a b) → steps R s s' → steps R' s s'.
Proof. intros H Hs. induction Hs; eauto with caura. Qed.

(** Process 0 loads the settings for one write; the level is then set to 5; a second write on that
    process goes by the settings it has cached. *)
Definition newcomer : write := Write "newcomer" None false false.
Definition hold_below_5 : overrides := Overrides (QuarantineSection (Some 5) ∅) [].
Definition arrive (i pid : nat) (w : write) (s : state) : state :=
  let p := Running (write_memory w) in put s i (Req pid w p) p.
Definition set_settings (o : overrides) (t : Z) (s : state) : state :=
  State (Some (o, t)) (st_agents s) (st_caches s) (st_memories s) (st_reqs s) ((quarantine o, Some t) :: st_past s).

Definition blank : state := State None ∅ ∅ [] ∅ [(QuarantineSection None ∅, None)].
Definition before_load : state := arrive 0 0 newcomer blank.
Definition loaded : state := default before_load (advance_while (λ _, true) 0 4 before_load).
Definition tightened : state := set_settings hold_below_5 7 loaded.
Definition sent : state := arrive 1 0 newcomer tightened.
Definition done_sent : state := default sent (advance_while (λ s, held_now s newcomer) 1 10 sent).

Lemma is_default {A} (d : A) (o : option A) : (if o then true else false) = true → o = Some (default d o).
Proof. by destruct o. Qed.
Lemma loaded_run : advance_while (λ _, true) 0 4 before_load = Some loaded.
Proof. apply is_default. by vm_compute. Qed.
Lemma done_run : advance_while (λ s, held_now s newcomer) 1 10 sent = Some done_sent.
Proof. apply is_default. by vm_compute. Qed.

Lemma reachable_tightened : reachable step init tightened.
Proof.
  apply (reach_step _ _ loaded); [|apply (step_settings loaded hold_below_5 7)].
  - apply (reachable_steps before_load).
    + apply (reach_step _ _ blank); [apply reach_init; repeat split; reflexivity|by apply (step_arrive _ 0 0 newcomer)].
    + eapply steps_weaken; [|exact (advance_steps _ _ _ _ _ loaded_run)]. by intros ?? [].
  - intros q. vm_compute. set_solver.
Qed.

Lemma sent_run : steps (λ s s', held_now s newcomer = true ∧ step s s') tightened done_sent.
Proof.
  eapply steps_cons; [split; [reflexivity|by apply (step_arrive _ 1 0 newcomer)]|].
  exact (advance_steps _ _ _ _ _ done_run).
Qed.

Definition done_request : request := default (Req 0 newcomer (Finished (Ok tt))) (st_reqs done_sent !! 1%nat).
Lemma done_request_found : st_reqs done_sent !! 1%nat = Some done_request.
Proof. apply is_default. by vm_compute. Qed.
Lemma done_request_ok : rq_write done_request = newcomer ∧ rq_phase done_request = Finished (Ok tt) ∧
  rows_of 1 done_sent = 1%nat ∧ m_hold <$> head (st_memories done_sent) = Some (Some (Hold 0 5)).
Proof. by vm_compute. Qed.
Lemma not_yet_sent : st_reqs tightened !! 1%nat = None.
Proof. by vm_compute. Qed.

Lemma quiet_run : steps (λ s s', st_row s = Some (hold_below_5, 7) ∧ step s s') tightened done_sent.
Proof.
  eapply steps_cons; [split; [reflexivity|by apply (step_arrive _ 1 0 newcomer)]|].
  exact (advance_quiet _ _ _ _ _ done_run).
Qed.

Lemma late_write_is_held_witness :
  m_hold <$> head (st_memories done_sent) = Some (Some (Hold 0 5)) ∧
  ∀ m, m ∈ st_memories done_sent → m_request m = 1%nat → m_hold m ≠ None.
Proof.
  split; [apply done_request_ok|]. intros m.
  exact (late_write_is_held tightened done_sent 1 done_request newcomer m reachable_tightened not_yet_sent sent_run
           done_request_found (proj1 done_request_ok)).
Defined.

Lemma write_stored_once_witness : rq_phase done_request = Finished (Ok tt) ∧ rows_of 1 done_sent = 1%nat.
Proof.
  split; [apply done_request_ok|].
  refine (write_stored_once done_sent 1 done_request (Ok tt) _ done_request_found (proj1 (proj2 done_request_ok))).
  apply (reachable_steps tightened); [exact reachable_tightened|].
  eapply steps_weaken; [|exact sent_run]. by intros ?? [].
Defined.

Lemma undisturbed_write_settles_witness :
  rq_phase done_request = Finished (Ok tt) ∧ rq_phase done_request ≠ Finished (Err settings_changed_503).
Proof.
  split; [apply done_request_ok|].
  exact (undisturbed_write_settles tightened done_sent 1 done_request _ not_yet_sent quiet_run done_request_found).
Defined.
End System.
