(* ===== verification/WriteMetadata.v ===== *)
(** * The platform/caller metadata boundary

    [core-api/.../services/system_metadata.py] and [services/auto_capture.py]: the registry of keys
    only the platform writes, what is stripped of a caller's metadata, how the platform records a
    value (in the [_system] namespace, and mirrored at the top level unless the caller owns the
    key), the read-side views, and the mark of an automatic capture.

    A [dict] is the list of its items. The namespace of a row is a [dict]: a caller's is stripped,
    and only the platform writes it; any other shape raises. *)

From S2P Require Import Prelude PyStr PyVal.

#[local] Open Scope string_scope.
#[local] Open Scope list_scope.

Abbreviation meta := (list (string * pyval)).

Definition SYSTEM_NAMESPACE : string := "_system".

Definition PLATFORM_ONLY_KEYS : list string :=
  ["llm_ms"; "write_latency_ms"; "semantic_dedup_ms"; "near_dup_check_ms"; "dedup_judge_ms";
   "triple_emission_ms";
   "business_relevance"; "contains_pii"; "pii_types"; "pii_flagged_by"; "governance_llm_uncertain";
   "nonbusiness_kept_private";
   "dedup_skipped_reason"; "dedup_candidate_similarity"; "dedup_judge_confidence";
   "dedup_subject_preflight"; "near_dup_skipped_reason"; "near_duplicate_of";
   "near_duplicate_similarity"; "near_duplicate_merge_pending"; "near_duplicate_merged";
   "near_dup_merge_skipped";
   "write_mode"; "enrichment_pending"; "embedding_pending";
   "memory_type_agent_set"; "weight_source"; "parent_memory_id"; "auto_chunked"; "child_count";
   "source_trust"; "retrieval_hint"; "atomic_facts"; "rules_receipt"; "write_gate"].
Definition NONBUSINESS_KEPT_PRIVATE_KEY : string := "nonbusiness_kept_private".
Definition CALLER_OWNABLE_KEYS : list string := ["summary"; "tags"].
Definition PLATFORM_KEYS : list string := PLATFORM_ONLY_KEYS ++ CALLER_OWNABLE_KEYS.
Definition CALLER_OWNED_KEY : string := "caller_owned".

(** ** Writing *)

Definition sanitize_caller_metadata (metadata : option meta) : meta :=
  filter (λ kv, kv.1 ∉ PLATFORM_ONLY_KEYS ∧ kv.1 ≠ SYSTEM_NAMESPACE) (default [] metadata).

Definition not_a_dict {A} : result exn A := Err (PyError "TypeError" SYSTEM_NAMESPACE).

(** [metadata.setdefault(SYSTEM_NAMESPACE, {})[key] = value] *)
Definition set_in_namespace (key : string) (value : pyval) (metadata : meta) : result exn meta :=
  match dict_get SYSTEM_NAMESPACE metadata with
  | None => Ok (dict_set SYSTEM_NAMESPACE (PDict [(key, value)]) metadata)
  | Some (PDict d) => Ok (dict_set SYSTEM_NAMESPACE (PDict (dict_set key value d)) metadata)
  | Some _ => not_a_dict
  end.

Definition set_system_value (key : string) (value : pyval) (caller_keys : list string) (metadata : meta)
  : result exn meta :=
  metadata ← set_in_namespace key value metadata;
  Ok (if bool_decide (key ∈ CALLER_OWNABLE_KEYS) && bool_decide (key ∈ caller_keys) then metadata
      else dict_set key value metadata).

Definition caller_owned_keys (metadata : option meta) : list string :=
  match dict_get SYSTEM_NAMESPACE (default [] metadata) with
  | Some (PDict nested) =>
      match dict_get CALLER_OWNED_KEY nested with
      | Some (PList owned) => filter (λ k, k ∈ omap as_str owned) CALLER_OWNABLE_KEYS
      | _ => []
      end
  | _ => []
  end.

Definition mark_caller_owned (caller_keys existing : list string) (metadata : meta) : result exn meta :=
  match filter (λ k, k ∈ caller_keys ∨ k ∈ existing) CALLER_OWNABLE_KEYS with
  | [] => Ok metadata
  | owned => set_in_namespace CALLER_OWNED_KEY (PList (PStr <$> owned)) metadata
  end.

(** ** Reading *)

(** [metadata.get(SYSTEM_NAMESPACE) or {}] *)
Definition namespace (metadata : meta) : result exn meta :=
  match dict_get SYSTEM_NAMESPACE metadata with
  | Some (PDict d) => Ok d
  | Some v => if truthy v then not_a_dict else Ok []
  | None => Ok []
  end.

Definition strip_platform_metadata (metadata : option meta) : result exn (option meta) :=
  match metadata with
  | None => Ok None
  | Some m =>
      nested ← namespace m;
      Ok (Some (filter (λ kv,
        kv.1 ∉ PLATFORM_ONLY_KEYS ∧ kv.1 ≠ SYSTEM_NAMESPACE ∧
        ¬ (kv.1 ∈ CALLER_OWNABLE_KEYS ∧
           from_option (λ v, py_eqb v kv.2) false (dict_get kv.1 nested) = true)) m))
  end.

Definition extract_system_metadata (metadata : option meta) : result exn (option meta) :=
  match metadata with
  | None | Some [] => Ok None
  | Some m =>
      nested ← namespace m;
      let legacy := filter (λ kv, kv.1 ∈ PLATFORM_KEYS) m in
      Ok (match dict_update legacy nested with [] => None | merged => Some merged end)
  end.

(** ** Automatic captures *)

Definition AUTO_CAPTURE_TAGS : list string := ["auto-ingest"; "auto-turn-summary"; "auto-compaction"].
Definition CAPTURE_KEY : string := "capture".
Definition CAPTURED_VISIBILITY : string := "scope_agent".

Definition capture_trigger (metadata : option meta) : option string :=
  match dict_get "tags" (default [] metadata) with
  | Some (PList tags) => head (filter (λ tag, existsb (λ t, py_eqb t (PStr tag)) tags = true) AUTO_CAPTURE_TAGS)
  | _ => None
  end.

Definition capture_of (metadata : option meta) : result exn (option meta) :=
  nested ← namespace (default [] metadata);
  Ok (match dict_get CAPTURE_KEY nested with Some (PDict record) => Some record | _ => None end).

(** The mark [stamp_capture] leaves, and whether it does; the visibility it sets is
    [CAPTURED_VISIBILITY]. [conversation] is [conversation_of(session_id)]. *)
Definition stamp_capture (conversation : pyval) (metadata : option meta) : result exn (option meta * bool) :=
  match capture_trigger metadata with
  | None => Ok (metadata, false)
  | Some trigger =>
      m ← set_in_namespace CAPTURE_KEY
            (PDict [("source", PStr "plugin"); ("trigger", PStr trigger); ("conversation", conversation)])
            (default [] metadata);
      Ok (Some m, true)
  end.

(** ** What the platform's writes leave *)

Lemma dict_get_filter {V} (P : string → Prop) (Q : string * V → Prop)
    `{HP : ∀ k, Decision (P k)} `{HQ' : ∀ kv, Decision (Q kv)} k (d : list (string * V)) :
  (∀ kv, Q kv ↔ P kv.1) → dict_get k (filter Q d) = if decide (P k) then dict_get k d else None.
Proof.
  intros HQ. induction d as [|[k' v] d IH]; [by case_decide|]. rewrite filter_cons.
  destruct (decide (Q (k', v))) as [Hp|Hp]; rewrite HQ in Hp; cbn [dict_get fst] in *; rewrite IH;
    repeat case_bool_decide; repeat case_decide; subst; done.
Qed.

Lemma dict_get_filter_pair {V} (Q : string * V → Prop) `{HQ : ∀ kv, Decision (Q kv)} k (d : list (string * V)) :
  NoDup (d.*1) →
  dict_get k (filter Q d) = v ← dict_get k d; if decide (Q (k, v)) then Some v else None.
Proof.
  induction d as [|[k' v] d IH]; [done|]. cbn [fmap list_fmap fst]. intros [Hn Hd]%NoDup_cons. specialize (IH Hd).
  rewrite filter_cons. cbn [dict_get]. destruct (bool_decide_reflect (k = k')) as [->|Hk]; cbn [mbind option_bind].
  - case_decide as HQv; [cbn; by rewrite bool_decide_eq_true_2|]. rewrite IH. apply dict_get_None in Hn. by rewrite Hn.
  - case_decide; [cbn; by rewrite bool_decide_eq_false_2|done].
Qed.

Lemma dict_get_update {V} k (d d' : list (string * V)) :
  NoDup (d'.*1) → dict_get k (dict_update d d') = match dict_get k d' with Some v => Some v | None => dict_get k d end.
Proof.
  revert d. induction d' as [|[k' v] d' IH]; intros d; [done|]. cbn [fmap list_fmap fst]. intros [Hn Hd]%NoDup_cons.
  unfold dict_update in *. cbn [foldl fst snd]. rewrite IH by done. cbn [dict_get]. rewrite dict_get_set.
  destruct (bool_decide_reflect (k = k')) as [->|Hk]; [|done]. apply dict_get_None in Hn. by rewrite Hn.
Qed.

Lemma filter_keys {V} (Q : string * V → Prop) `{HQ : ∀ kv, Decision (Q kv)} (d : list (string * V)) :
  NoDup (d.*1) → NoDup ((filter Q d).*1).
Proof.
  induction d as [|[k v] d IH]; [done|]. cbn [fmap list_fmap fst]. intros [Hn Hd]%NoDup_cons. rewrite filter_cons.
  case_decide; [|by apply IH]. apply NoDup_cons. split; [|by apply IH].
  intros (x & Hx & [_ Hin]%list_elem_of_filter)%list_elem_of_fmap. apply Hn, list_elem_of_fmap. eauto.
Qed.

(** The platform writes [ws] in order, for a caller who owns [caller_keys]. *)
Definition platform_writes (caller_keys : list string) (ws : list (string * pyval)) (m : meta) : result exn meta :=
  foldl (λ m w, m ← m; set_system_value w.1 w.2 caller_keys m) (Ok m) ws.

Definition last_written (k : string) (ws : list (string * pyval)) : option pyval := dict_get k (dict_update [] ws).

Definition keeps_mirror (caller_keys : list string) (k : string) : bool :=
  negb (bool_decide (k ∈ CALLER_OWNABLE_KEYS) && bool_decide (k ∈ caller_keys)).

(** What [m] holds after [ws] over [s], which has no namespace: [n] is the namespace. *)
Definition holds_writes (caller_keys : list string) (s : meta) (ws : list (string * pyval)) (m n : meta) : Prop :=
  NoDup (m.*1) ∧ NoDup (n.*1) ∧
  dict_get SYSTEM_NAMESPACE m = (match ws with [] => None | _ => Some (PDict n) end) ∧
  (∀ k, dict_get k n = last_written k ws) ∧
  ∀ k, k ≠ SYSTEM_NAMESPACE →
    dict_get k m = match last_written k ws with
                   | Some v => if keeps_mirror caller_keys k then Some v else dict_get k s
                   | None => dict_get k s
                   end.

Lemma last_written_snoc k ws w :
  last_written k (ws ++ [w]) = if bool_decide (k = w.1) then Some w.2 else last_written k ws.
Proof. unfold last_written, dict_update. rewrite foldl_app. cbn. apply dict_get_set. Qed.

Lemma last_written_Forall (P : string * pyval → Prop) ws :
  Forall P ws → ∀ k v, last_written k ws = Some v → P (k, v).
Proof.
  induction ws as [|w ws IH] using rev_ind; [done|]. intros [Hw Hl]%Forall_app k v. rewrite Forall_singleton in Hl.
  rewrite last_written_snoc. destruct (bool_decide_reflect (k = w.1)) as [->|Hne]; [|by apply IH].
  intros [= <-]. by rewrite <-surjective_pairing.
Qed.

Lemma set_system_value_holds caller_keys s ws m n k v :
  k ≠ SYSTEM_NAMESPACE → holds_writes caller_keys s ws m n →
  ∃ m' n', set_system_value k v caller_keys m = Ok m' ∧ holds_writes caller_keys s (ws ++ [(k, v)]) m' n'.
Proof.
  intros Hk (Hd & Hdn & Hns & Hn & Hm).
  assert (set_in_namespace k v m = Ok (dict_set SYSTEM_NAMESPACE (PDict (dict_set k v n)) m)) as Hset.
  { unfold set_in_namespace. rewrite Hns. destruct ws; [|done].
    assert (n = []) as ->; [|done]. destruct n as [|[k0 v0] n]; [done|].
    specialize (Hn k0). cbn in Hn. by rewrite bool_decide_eq_true_2 in Hn. }
  unfold set_system_value. rewrite Hset. cbn [mbind result_bind].
  eexists _, (dict_set k v n). split; [reflexivity|]. split_and!.
  - by destruct (bool_decide _ && bool_decide _); eauto with caura.
  - by eauto with caura.
  - destruct (ws ++ [(k, v)]) eqn:E; [by destruct ws|].
    destruct (bool_decide _ && bool_decide _); [|rewrite dict_get_set_ne by done]; by rewrite dict_get_set_eq.
  - intros k'. rewrite dict_get_set, last_written_snoc, Hn. done.
  - intros k' Hk'. rewrite last_written_snoc. cbn [fst snd]. unfold keeps_mirror.
    destruct (bool_decide (k ∈ CALLER_OWNABLE_KEYS) && bool_decide (k ∈ caller_keys)) eqn:Eo.
    + rewrite dict_get_set_ne by done. destruct (bool_decide_reflect (k' = k)) as [->|E]; [|by apply Hm].
      rewrite Eo. cbn. rewrite Hm by done. unfold keeps_mirror. rewrite Eo. by destruct (last_written k ws).
    + rewrite dict_get_set. destruct (bool_decide_reflect (k' = k)) as [->|E]; [by rewrite Eo|].
      rewrite dict_get_set_ne by done. by apply Hm.
Qed.

Lemma platform_writes_hold caller_keys s ws :
  NoDup (s.*1) → dict_get SYSTEM_NAMESPACE s = None → SYSTEM_NAMESPACE ∉ ws.*1 →
  ∃ m n, platform_writes caller_keys ws s = Ok m ∧ holds_writes caller_keys s ws m n.
Proof.
  intros Hd Hs. induction ws as [|[k v] ws IH] using rev_ind; intros Hk.
  { exists s, []. split; [done|]. split_and!; [done|constructor|exact Hs|intros k; reflexivity|intros k _; reflexivity]. }
  rewrite fmap_app, not_elem_of_app in Hk. destruct Hk as [Hk Hkv]. destruct (IH Hk) as (m & n & Hm & Hh).
  destruct (set_system_value_holds caller_keys s ws m n k v) as (m' & n' & Hm' & Hh'); [set_solver|done|].
  exists m', n'. split; [|done]. unfold platform_writes in *. rewrite foldl_app, Hm. exact Hm'.
Qed.

Lemma sanitize_get k m :
  dict_get k (sanitize_caller_metadata (Some m)) =
    if decide (k ∉ PLATFORM_ONLY_KEYS ∧ k ≠ SYSTEM_NAMESPACE) then dict_get k m else None.
Proof.
  unfold sanitize_caller_metadata.
  rewrite (dict_get_filter (λ k, k ∉ PLATFORM_ONLY_KEYS ∧ k ≠ SYSTEM_NAMESPACE) (λ kv, kv.1 ∉ PLATFORM_ONLY_KEYS ∧ kv.1 ≠ SYSTEM_NAMESPACE)); done.
Qed.

Lemma sanitize_no_namespace m : dict_get SYSTEM_NAMESPACE (sanitize_caller_metadata (Some m)) = None.
Proof. rewrite sanitize_get. by case_decide as H; [destruct H|]. Qed.


(** [platform_writes_round_trip]: over whatever the platform records, in any order and however
    often, on a sanitised row: no write raises; a caller's own key is never overwritten, the summary
    and tags included; what is recorded last of each key is what the system view shows; and the
    stripped view is the caller's metadata, less a summary or tags equal to the platform's. *)
Theorem platform_writes_round_trip m ws
    (Hm : NoDup (m.*1)) (Hk : Forall (λ w, w.1 ∈ PLATFORM_KEYS) ws)
    (Heq : Forall (λ w, py_eqb w.2 w.2 = true) ws) :
  let s := sanitize_caller_metadata (Some m) in
  ∃ m' e c, platform_writes (s.*1) ws s = Ok m' ∧
    extract_system_metadata (Some m') = Ok e ∧ strip_platform_metadata (Some m') = Ok (Some c) ∧
    (∀ k v, dict_get k s = Some v → dict_get k m' = Some v) ∧
    (∀ k v, last_written k ws = Some v → dict_get k (default [] e) = Some v) ∧
    (∀ k, dict_get k c =
       match dict_get k s with
       | Some v => if bool_decide (k ∈ CALLER_OWNABLE_KEYS) && from_option (λ w, py_eqb w v) false (last_written k ws)
                   then None else Some v
       | None => None
       end).
Proof.
  intros s. assert (NoDup (s.*1)) as Hs by (by apply filter_keys).
  destruct (platform_writes_hold (s.*1) s ws Hs (sanitize_no_namespace m)) as (m' & n & Hw & Hd & Hdn & Hns & Hn & Hg).
  { intros ([k v] & Hns & Hin)%list_elem_of_fmap. rewrite Forall_forall in Hk. specialize (Hk _ Hin).
    rewrite <-Hns in Hk. revert Hk. by apply (bool_decide_eq_false_1 (SYSTEM_NAMESPACE ∈ PLATFORM_KEYS)). }
  assert (∀ k v, dict_get k s = Some v → k ≠ SYSTEM_NAMESPACE ∧ k ∉ PLATFORM_ONLY_KEYS ∧ k ∈ s.*1) as Hcaller.
  { intros k v Hv. split_and!; [| |by apply dict_mem_true; unfold dict_mem; rewrite Hv];
      unfold s in Hv; rewrite sanitize_get in Hv; by case_decide as H; [destruct H|]. }
  assert (∀ k v, last_written k ws = Some v → k ∈ PLATFORM_KEYS) as Hlast by (by apply (last_written_Forall (λ w, w.1 ∈ PLATFORM_KEYS))).
  assert (∀ k v, dict_get k s = Some v → dict_get k m' = Some v) as Hkept.
  { intros k v Hv. destruct (Hcaller _ _ Hv) as (H1 & H2 & H3). rewrite Hg by done.
    destruct (last_written k ws) eqn:E; [|done]. apply Hlast, elem_of_app in E as [E|E]; [done|].
    unfold keeps_mirror. by rewrite !bool_decide_eq_true_2. }
  assert (namespace m' = Ok n) as Hname.
  { unfold namespace. rewrite Hns. destruct ws as [|]; [|done]. destruct n as [|[k0 v0] n]; [done|].
    specialize (Hn k0). cbn in Hn. by rewrite bool_decide_eq_true_2 in Hn. }
  pose (merged := dict_update (filter (λ kv, kv.1 ∈ PLATFORM_KEYS) m') n).
  exists m', (match merged with [] => None | d => Some d end). eexists. split_and!; [done| | |done| |].
  - subst merged. unfold extract_system_metadata. clear -Hname.
    destruct m'; [injection Hname as <-; reflexivity|]. rewrite Hname. cbn [mbind result_bind]. by destruct (dict_update _ _).
  - cbn [strip_platform_metadata]. rewrite Hname. reflexivity.
  - intros k v Hv. assert (dict_get k merged = Some v); [|by destruct merged].
    unfold merged. rewrite dict_get_update by done. by rewrite Hn, Hv.
  - intros k. rewrite dict_get_filter_pair by done. cbn [fst snd].
    destruct (dict_get k s) as [v|] eqn:Es.
    { rewrite (Hkept _ _ Es). cbn [mbind option_bind]. destruct (Hcaller _ _ Es) as (H1 & H2 & _).
      rewrite (Hn k). destruct (bool_decide_reflect (k ∈ CALLER_OWNABLE_KEYS)) as [Ho|Ho]; cbn [andb].
      - destruct (from_option _ _ _) eqn:E; [rewrite decide_False|rewrite decide_True]; naive_solver.
      - rewrite decide_True; naive_solver. }
    destruct (dict_get k m') as [v|] eqn:Em; [|done]. cbn [mbind option_bind]. apply decide_False.
    intros (Hpo & Hne & Hmirror). rewrite Hg, Es in Em by done. destruct (last_written k ws) as [w|] eqn:El; [|done].
    destruct (keeps_mirror (s.*1) k); [|done]. injection Em as ->. apply Hmirror. split.
    { apply Hlast, elem_of_app in El as [?|?]; done. }
    rewrite Hn, El. by apply (last_written_Forall (λ w, py_eqb w.2 w.2 = true)) in El.
Qed.

Lemma platform_writes_round_trip_witness :
  let s := sanitize_caller_metadata (Some [("summary", PStr "mine"); ("write_gate", PNone); ("k", PInt 1)]) in
  ∃ m', platform_writes (s.*1) [("summary", PStr "ours"); ("llm_ms", PInt 3)] s = Ok m' ∧
    dict_get "summary" m' = Some (PStr "mine").
Proof.
  intros s.
  destruct (platform_writes_round_trip [("summary", PStr "mine"); ("write_gate", PNone); ("k", PInt 1)]
              [("summary", PStr "ours"); ("llm_ms", PInt 3)]) as (m' & e & c & Hw & _ & _ & Hk & _).
  - apply (bool_decide_eq_true_1 (NoDup _)). vm_compute. reflexivity.
  - apply (bool_decide_eq_true_1 (Forall _ _)). vm_compute. reflexivity.
  - repeat constructor.
  - exists m'. split; [exact Hw|]. apply Hk. reflexivity.
Defined.
