(* ===== verification/Governance.v ===== *)
(** * The deterministic PII scan and mask

    [common/governance/pii_patterns.py]: the validators behind the pattern rules, [scan] with its
    resolution of overlapping spans, and [mask]. The regular expressions are arguments: a rule is
    given as the spans its pattern's group matches in a text, and what it requires of a value is
    the validator translated here. A text is the list of its characters. *)

From S2P Require Import Prelude PyStr.

#[local] Open Scope nat_scope.
#[local] Open Scope list_scope.

Abbreviation text := (list ascii).

Inductive PIICategory : Type := EMAIL | PHONE | CREDIT_CARD | IBAN | NATIONAL_ID | API_KEY | SECRET.
Inductive Severity : Type := LOW | MEDIUM | HIGH.

#[export] Instance category_eq_dec : EqDecision PIICategory.
Proof. solve_decision. Defined.
#[export] Instance severity_eq_dec : EqDecision Severity.
Proof. solve_decision. Defined.

(** One detected span [start, end), without its text. *)
Record Finding : Type := { category : PIICategory; f_start : nat; f_end : nat; severity : Severity }.

#[export] Instance finding_eq_dec : EqDecision Finding.
Proof. solve_decision. Defined.

(** [text[i:j]] *)
Definition span (t : text) (i j : nat) : text := take (j - i) (drop i t).

(** ** Validators *)

Definition digit_of (c : ascii) : Z := Z.of_N (code c) - 48.
Definition digits (t : text) : list Z := digit_of <$> filter (λ c, is_digit c = true) t.

Definition luhn_term (i : nat) (d : Z) : Z :=
  if Nat.even i then d else let d := (d * 2)%Z in if (9 <? d)%Z then (d - 9)%Z else d.
Fixpoint luhn_total (i : nat) (ds : list Z) : Z :=
  match ds with [] => 0 | d :: ds => luhn_term i d + luhn_total (S i) ds end.

Definition _luhn_ok (value : text) : bool :=
  let ds := digits value in
  if length ds <? 13 then false else (luhn_total 0 (reverse ds) mod 10 =? 0)%Z.

Definition upper_char (c : ascii) : ascii := if is_az c then Ascii.ascii_of_N (code c - 32) else c.

(** Each character of a rearranged IBAN as digits appended to a number; [None] for one that is
    neither a digit nor A to Z. *)
Fixpoint iban_number (acc : Z) (t : text) : option Z :=
  match t with
  | [] => Some acc
  | c :: t =>
      if is_digit c then iban_number (acc * 10 + digit_of c) t
      else if is_AZ c then iban_number (acc * 100 + (Z.of_N (code c) - 55)) t
      else None
  end.

Definition _iban_mod97_ok (value : text) : bool :=
  let s := upper_char <$> filter (λ c, is_space c = false) value in
  if (length s <? 15) || (34 <? length s) then false
  else match iban_number 0 (drop 4 s ++ take 4 s) with
       | Some n => (n mod 97 =? 1)%Z
       | None => false
       end.

Definition _uk_national_length_ok (value : text) : bool :=
  let n := length (filter (λ c, is_digit c = true) value) in (n =? 10) || (n =? 11).

Definition _DNI_LETTERS : text := String.list_ascii_of_string "TRWAGMYFPDXBNJZSQVHLCKE".
Definition number_of (ds : list Z) : Z := foldl (λ n d, n * 10 + d)%Z 0%Z ds.

Definition _dni_letter_ok (value : text) : bool :=
  let ds := take 8 value in
  negb (bool_decide (ds = [])) && forallb is_digit ds &&
  match last value, _DNI_LETTERS !! Z.to_nat (number_of (digit_of <$> ds) mod 23) with
  | Some l, Some c => bool_decide (upper_char l = c)
  | _, _ => false
  end.

(** [_IDENTIFIER_PIECE_RE.fullmatch]: words of two lower-case letters or more after at most one
    capital, or a run of capitals. [low] is how many the current word has, up to two. *)
Fixpoint camel (low : nat) (t : text) : bool :=
  match t with
  | [] => 2 <=? low
  | c :: t =>
      if is_az c then camel (Nat.min 2 (S low)) t
      else if is_AZ c then (2 <=? low) && camel 0 t
      else false
  end.
Definition identifier_piece (t : text) : bool :=
  (match t with c :: t' => if is_AZ c then camel 0 t' else camel 0 t | [] => false end)
  || ((2 <=? length t) && forallb is_AZ t).

(** The pieces between the breaks [[-_0-9]+], the empty ones left out. *)
Definition is_break (c : ascii) : bool := is_digit c || bool_decide (c = "-"%char) || bool_decide (c = "_"%char).
Fixpoint pieces (cur : text) (t : text) : list text :=
  match t with
  | [] => match cur with [] => [] | _ => [cur] end
  | c :: t =>
      if is_break c then match cur with [] => pieces [] t | _ => cur :: pieces [] t end
      else pieces (cur ++ [c]) t
  end.
Definition _reads_as_words (value : text) : bool :=
  match pieces [] value with [] => false | ps => forallb identifier_piece ps end.

Section Entropy.
(** Whether [_shannon_entropy] of a value, a float, is at least 3.0. *)
Context (entropy_at_least_3 : text → bool).

Definition _entropy_ok (value : text) : bool := (16 <=? length value) && entropy_at_least_3 value.

Definition _token_body_ok (value : text) : bool :=
  existsb is_az value && existsb is_AZ value && _entropy_ok value && negb (_reads_as_words value).

Definition removeprefix (p value : text) : text :=
  if bool_decide (take (length p) value = p) then drop (length p) value else value.

Definition _openai_key_ok (value : text) : bool :=
  _token_body_ok (removeprefix (String.list_ascii_of_string "sk-") value).

(** [_CAURA_CREDENTIAL_PREFIX] at the start of a match. *)
Definition credential_prefixes : list text :=
  String.list_ascii_of_string <$> ["mc_"; "mca_"; "mcx_"; "mco_"; "mcrk_"; "mcft_"; "ca_"; "cark_"; "caft_"].
Fixpoint after_version (n : nat) (t : text) : option text :=
  match t with
  | c :: t => if is_digit c then after_version (S n) t
              else if bool_decide (c = "_"%char) && (0 <? n) then Some t else None
  | [] => None
  end.
Definition after_install_prefix (value : text) : option text :=
  if bool_decide (take 5 value = String.list_ascii_of_string "mci_v") || bool_decide (take 5 value = String.list_ascii_of_string "cai_v")
  then after_version 0 (drop 5 value) else None.
Definition credential_body (value : text) : text :=
  match find (λ p, bool_decide (take (length p) value = p)) credential_prefixes with
  | Some p => drop (length p) value
  | None => default value (after_install_prefix value)
  end.
Definition _caura_credential_ok (value : text) : bool := _token_body_ok (credential_body value).
End Entropy.

(** ** Scanning *)

Definition _SEVERITY_RANK (s : Severity) : nat := match s with LOW => 0 | MEDIUM => 1 | HIGH => 2 end.

(** The order of the sort key [(start, -(end - start), -rank)]. *)
Definition stronger_first (f g : Finding) : bool :=
  (f_start f <? f_start g) ||
  ((f_start f =? f_start g) &&
   ((f_end g - f_start g <? f_end f - f_start f) ||
    ((f_end g - f_start g =? f_end f - f_start f) &&
     (_SEVERITY_RANK (severity g) <=? _SEVERITY_RANK (severity f))))).

Fixpoint keep_disjoint (last_end : Z) (fs : list Finding) : list Finding :=
  match fs with
  | [] => []
  | f :: fs =>
      if (last_end <=? Z.of_nat (f_start f))%Z then f :: keep_disjoint (Z.of_nat (f_end f)) fs
      else keep_disjoint last_end fs
  end.

Definition _resolve_overlaps (findings : list Finding) : list Finding :=
  if length findings <=? 1 then findings else keep_disjoint (-1) (py_sorted stronger_first findings).

(** [matches] are [m.span(rule.group)] over [pattern.finditer(text)]. *)
Record _Rule : Type := {
  r_category : PIICategory; r_severity : Severity; matches : text → list (nat * nat);
  validator : option (text → bool)
}.

Definition rule_findings (t : text) (r : _Rule) : list Finding :=
  omap (λ '(i, j),
    if match validator r with Some ok => negb (ok (span t i j)) | None => false end then None
    else if i <? j then Some {| category := r_category r; f_start := i; f_end := j; severity := r_severity r |}
    else None) (matches r t).

(** [bisect_right] on an increasing list. *)
Fixpoint bisect_right (ends : list nat) (x : nat) : nat :=
  match ends with e :: ends => if e <=? x then S (bisect_right ends x) else 0 | [] => 0 end.

Definition separate (passwords : list Finding) (f : Finding) : bool :=
  match passwords !! bisect_right (f_end <$> passwords) (f_start f) with
  | None => true
  | Some p => f_end f <=? f_start p
  end.

Section Scan.
(** [_RULES], and the spans of [_URL_PASSWORD]'s group. *)
Context (_RULES : list _Rule) (_URL_PASSWORD : text → list (nat * nat)).

Definition is_enabled (enabled_categories : option (list PIICategory)) (c : PIICategory) : bool :=
  match enabled_categories with None => true | Some cs => bool_decide (c ∈ cs) end.

Definition url_passwords (enabled_categories : option (list PIICategory)) (t : text) : list Finding :=
  if is_enabled enabled_categories SECRET
  then (λ '(i, j), {| category := SECRET; f_start := i; f_end := j; severity := HIGH |}) <$> _URL_PASSWORD t
  else [].

Definition candidates (enabled_categories : option (list PIICategory)) (t : text) : list Finding :=
  mjoin (rule_findings t <$> filter (λ r, is_enabled enabled_categories (r_category r) = true) _RULES).

Definition scan (enabled_categories : option (list PIICategory)) (t : text) : list Finding :=
  match t with
  | [] => []
  | _ =>
      let findings := candidates enabled_categories t in
      let passwords := url_passwords enabled_categories t in
      _resolve_overlaps (match passwords with
        | [] => findings
        | _ => filter (λ f, separate passwords f = true) findings ++ passwords
        end)
  end.
End Scan.

(** ** Masking *)

(** [«NAME»] *)
Definition redacted (name : string) : text :=
  Ascii.ascii_of_N 171 :: String.list_ascii_of_string name ++ [Ascii.ascii_of_N 187].
Definition _REDACTION (c : PIICategory) : text :=
  redacted (match c with
            | EMAIL => "EMAIL" | PHONE => "PHONE" | CREDIT_CARD => "CARD" | IBAN => "IBAN"
            | NATIONAL_ID => "ID" | API_KEY => "API_KEY" | SECRET => "SECRET"
            end).

Fixpoint mask_parts (t : text) (pos : nat) (fs : list Finding) : text :=
  match fs with
  | [] => drop pos t
  | f :: fs => span t pos (f_start f) ++ _REDACTION (category f) ++ mask_parts t (f_end f) fs
  end.

Definition by_start (f g : Finding) : bool := f_start f <=? f_start g.
Definition mask (t : text) (findings : list Finding) : text :=
  match findings with [] => t | _ => mask_parts t 0 (py_sorted by_start findings) end.

(** ** What a scan finds *)

Definition overlaps (f g : Finding) : Prop := f_start f < f_end g ∧ f_start g < f_end f.
Definition before (f g : Finding) : Prop := f_end f <= f_start g.
Definition proper (t : text) (f : Finding) : Prop := f_start f < f_end f ∧ f_end f <= length t.

Lemma stronger_first_total f g : stronger_first f g = true ∨ stronger_first g f = true.
Proof. unfold stronger_first. rewrite !orb_true_iff, !andb_true_iff, !orb_true_iff, !andb_true_iff, !Nat.ltb_lt, !Nat.eqb_eq, !Nat.leb_le. lia. Qed.
Lemma stronger_first_trans f g h :
  stronger_first f g = true → stronger_first g h = true → stronger_first f h = true.
Proof. unfold stronger_first. rewrite !orb_true_iff, !andb_true_iff, !orb_true_iff, !andb_true_iff, !Nat.ltb_lt, !Nat.eqb_eq, !Nat.leb_le. lia. Qed.
Lemma stronger_first_start f g : stronger_first f g = true → f_start f <= f_start g.
Proof. unfold stronger_first. rewrite !orb_true_iff, !andb_true_iff, !Nat.ltb_lt, !Nat.eqb_eq. lia. Qed.


(** The greedy pass: what is kept is disjoint and in order, what is dropped overlaps what is kept. *)
Lemma keep_disjoint_spec fs last_end :
  Forall (λ f, f_start f < f_end f) fs → StronglySorted (λ f g, stronger_first f g = true) fs →
  let kept := keep_disjoint last_end fs in
  StronglySorted before kept ∧
  (∀ f, f ∈ kept → f ∈ fs ∧ (last_end <= Z.of_nat (f_start f))%Z) ∧
  ∀ f, f ∈ fs → f ∈ kept ∨ (Z.of_nat (f_start f) < last_end)%Z ∨ ∃ k, k ∈ kept ∧ overlaps k f.
Proof.
  revert last_end. induction fs as [|g fs IH]; intros e Hp Hs; cbn.
  { split; [constructor|]. split; intros f Hf; by apply not_elem_of_nil in Hf. }
  apply Forall_cons in Hp as [Hg Hp]. apply StronglySorted_inv in Hs as [Hs Hall].
  rewrite Forall_forall in Hall.
  destruct (Z.leb_spec e (Z.of_nat (f_start g))) as [Hle|Hgt].
  - destruct (IH (Z.of_nat (f_end g)) Hp Hs) as (H1 & H2 & H3). split_and!.
    + constructor; [done|]. apply Forall_forall. intros f Hf. apply H2 in Hf as [_ Hf]. unfold before. lia.
    + intros f [->|Hf]%elem_of_cons; [split; [by left|done]|]. apply H2 in Hf as [Hf Hb]. split; [by right|lia].
    + intros f [->|Hf]%elem_of_cons; [left; by left|].
      destruct (H3 f Hf) as [?|[Hlt|(k & Hk & Ho)]]; [left; by right| |right; right; exists k; split; [by right|done]].
      right. right. exists g. split; [by left|]. pose proof (stronger_first_start _ _ (Hall f Hf)) as Hst.
      rewrite Forall_forall in Hp. specialize (Hp f Hf). split; lia.
  - destruct (IH e Hp Hs) as (H1 & H2 & H3). split_and!; [done| |].
    + intros f Hf. apply H2 in Hf as [Hf Hb]. split; [by right|done].
    + intros f [->|Hf]%elem_of_cons; [right; left; lia|]. by apply H3.
Qed.

Lemma resolve_overlaps_spec fs :
  Forall (λ f, f_start f < f_end f) fs →
  let kept := _resolve_overlaps fs in
  StronglySorted before kept ∧ (∀ f, f ∈ kept → f ∈ fs) ∧
  ∀ f, f ∈ fs → f ∈ kept ∨ ∃ k, k ∈ kept ∧ overlaps k f.
Proof.
  intros Hp. unfold _resolve_overlaps. destruct (Nat.leb_spec (length fs) 1) as [Hl|Hl].
  { cbn. split_and!; [|done|by left]. destruct fs as [|f [|g fs]]; [constructor|repeat constructor|cbn in Hl; lia]. }
  destruct (keep_disjoint_spec (py_sorted stronger_first fs) (-1)) as (H1 & H2 & H3).
  { rewrite Forall_forall in *. intros f. rewrite py_sorted_elem. apply Hp. }
  { apply py_sorted_sorted; [apply stronger_first_total|apply stronger_first_trans]. }
  split_and!; [done| |].
  - intros f [Hf _]%H2. by rewrite py_sorted_elem in Hf.
  - intros f Hf. destruct (H3 f) as [?|[?|?]]; [by rewrite py_sorted_elem|by left|lia|by right].
Qed.

Lemma rule_findings_elem t r f :
  f ∈ rule_findings t r ↔
  category f = r_category r ∧ severity f = r_severity r ∧ (f_start f, f_end f) ∈ matches r t ∧
  f_start f < f_end f ∧ from_option (λ ok, ok (span t (f_start f) (f_end f))) true (validator r) = true.
Proof.
  unfold rule_findings. rewrite list_elem_of_omap. split.
  - intros ([i j] & Hin & H). destruct (match validator r with Some _ => _ | None => _ end) eqn:E; [done|].
    destruct (Nat.ltb_spec i j); [|done]. injection H as <-. cbn. split_and!; try done.
    destruct (validator r); [|done]. by apply negb_false_iff.
  - destruct f as [c i j s]. cbn [category severity f_start f_end]. intros (-> & -> & Hin & Hlt & Hv). exists (i, j). split; [done|].
    destruct (validator r) as [ok|]; cbn [from_option] in Hv; [rewrite Hv; cbn [negb]|];
      by rewrite (proj2 (Nat.ltb_lt _ _) Hlt).
Qed.

(** Past [bisect_right] of increasing ends, nothing ends at or before [x]. *)
Lemma bisect_right_spec ps x :
  StronglySorted before ps → Forall (λ p, f_start p < f_end p) ps →
  ∀ i p, ps !! i = Some p → (i < bisect_right (f_end <$> ps) x → f_end p <= x) ∧
                            (bisect_right (f_end <$> ps) x <= i → x < f_end p).
Proof.
  intros Hs Hp. induction ps as [|q ps IH]; intros i p Hi; [done|]. cbn [fmap list_fmap bisect_right].
  apply StronglySorted_inv in Hs as [Hs Hall]. apply Forall_cons in Hp as [Hq Hp].
  destruct (Nat.leb_spec (f_end q) x) as [Hle|Hgt]; (destruct i as [|i]; cbn in Hi; [injection Hi as ->|]).
  - split; [done|lia].
  - destruct (IH Hs Hp i p Hi) as [H1 H2]. split; intros; [apply H1; lia|apply H2; lia].
  - split; [lia|done].
  - split; [lia|]. intros _. apply list_elem_of_lookup_2 in Hi. rewrite Forall_forall in Hall, Hp.
    specialize (Hall p Hi). specialize (Hp p Hi). unfold before in Hall. lia.
Qed.

(** Of disjoint findings in order, two that overlap are one. *)
Lemma overlapping_are_one ps f g : StronglySorted before ps → f ∈ ps → g ∈ ps → overlaps f g → f = g.
Proof.
  intros Hs [i Hi]%list_elem_of_lookup [j Hj]%list_elem_of_lookup [H1 H2].
  destruct (Nat.lt_trichotomy i j) as [Hij|[->|Hij]]; [|by simplify_eq|].
  - pose proof (StronglySorted_lt before ps i j _ _ Hs Hi Hj Hij) as Hb. unfold before in Hb. lia.
  - pose proof (StronglySorted_lt before ps j i _ _ Hs Hj Hi Hij) as Hb. unfold before in Hb. lia.
Qed.

(** [separate] tells whether a finding is disjoint from every URL password. *)
Lemma separate_spec ps f :
  StronglySorted before ps → Forall (λ p, f_start p < f_end p) ps → f_start f < f_end f →
  (separate ps f = true → ∀ p, p ∈ ps → ¬ overlaps p f) ∧
  (separate ps f = false → ∃ p, p ∈ ps ∧ overlaps p f).
Proof.
  intros Hs Hp Hf. pose proof (bisect_right_spec ps (f_start f) Hs Hp) as Hb. unfold separate.
  set (n := bisect_right (f_end <$> ps) (f_start f)) in *.
  assert (∀ p q i j, ps !! i = Some p → ps !! j = Some q → i < j → f_end p <= f_start q) as Hord.
  { intros p q i j Hi Hj Hlt. by apply (StronglySorted_lt before ps i j). }
  destruct (ps !! n) as [q|] eqn:En; split; intros H; try done.
  - apply Nat.leb_le in H. intros p [i Hi]%list_elem_of_lookup [H1 H2].
    destruct (Nat.lt_ge_cases i n) as [Hlt|Hge]; [apply (Hb i p Hi) in Hlt; lia|].
    apply Nat.le_lteq in Hge as [Hgt|<-]; [|simplify_eq; lia].
    pose proof (Hord q p n i En Hi Hgt). rewrite Forall_forall in Hp.
    pose proof (Hp q ltac:(by eapply list_elem_of_lookup_2)). lia.
  - apply Nat.leb_gt in H. exists q. split; [by eapply list_elem_of_lookup_2|].
    split; [done|]. by apply (Hb n q En).
  - intros p [i Hi]%list_elem_of_lookup [H1 H2].
    destruct (Nat.lt_ge_cases i n) as [Hlt|Hge]; [apply (Hb i p Hi) in Hlt; lia|].
    apply lookup_ge_None in En. apply lookup_lt_Some in Hi. lia.
Qed.

Section ScanSpec.
Context (_RULES : list _Rule) (_URL_PASSWORD : text → list (nat * nat)).
(** What [finditer] gives: spans within the text, those of one pattern in order and disjoint. *)
Context (Hrules : Forall (λ r, ∀ t i j, (i, j) ∈ matches r t → j <= length t) _RULES).
Context (Hpass : ∀ t, StronglySorted (λ p q, p.2 <= q.1) (_URL_PASSWORD t) ∧
                      Forall (λ p, p.1 < p.2 ∧ p.2 <= length t) (_URL_PASSWORD t)).

Lemma url_passwords_ok enabled t :
  let ps := url_passwords _URL_PASSWORD enabled t in
  StronglySorted before ps ∧ Forall (proper t) ps.
Proof using Hpass.
  unfold url_passwords. destruct (is_enabled enabled SECRET); [|by split; constructor].
  destruct (Hpass t) as [Hs Hp]. induction Hs as [|p ps Hs IH Hall]; [by split; constructor|].
  apply Forall_cons in Hp as [Hp Hps]. destruct (IH Hps) as [H1 H2]. destruct p as [i j]. split; (constructor; [done|]); [|done].
  apply Forall_fmap. eapply Forall_impl; [exact Hall|]. by intros [].
Qed.

Lemma candidates_elem enabled t f :
  f ∈ candidates _RULES enabled t ↔ ∃ r, r ∈ _RULES ∧ is_enabled enabled (r_category r) = true ∧ f ∈ rule_findings t r.
Proof.
  unfold candidates. rewrite list_elem_of_join. split.
  - intros (l & Hf & (r & -> & [Hr He]%list_elem_of_filter)%list_elem_of_fmap). eauto.
  - intros (r & Hr & He & Hf). exists (rule_findings t r). split; [done|]. apply list_elem_of_fmap.
    exists r. split; [done|]. by apply list_elem_of_filter.
Qed.

Lemma candidates_proper enabled t f : f ∈ candidates _RULES enabled t → proper t f.
Proof using Hrules.
  intros (r & Hr & _ & (_ & _ & Hin & Hlt & _)%rule_findings_elem)%candidates_elem. rewrite Forall_forall in Hrules.
  split; [done|]. by eapply Hrules.
Qed.

(** A scan's findings are candidates or URL passwords, in order and disjoint; every URL password is
    one, and every candidate shares a character with one. *)
Lemma scan_spec enabled t :
  let fs := scan _RULES _URL_PASSWORD enabled t in
  StronglySorted before fs ∧ Forall (proper t) fs ∧
  (∀ f, f ∈ fs → f ∈ candidates _RULES enabled t ∨ f ∈ url_passwords _URL_PASSWORD enabled t) ∧
  (∀ f, f ∈ url_passwords _URL_PASSWORD enabled t → f ∈ fs) ∧
  (∀ f, f ∈ candidates _RULES enabled t → ∃ k, k ∈ fs ∧ overlaps k f).
Proof using Hrules Hpass.
  destruct (url_passwords_ok enabled t) as [Hps Hpp].
  pose proof (candidates_proper enabled t) as Hc.
  set (ps := url_passwords _URL_PASSWORD enabled t) in *. set (cs := candidates _RULES enabled t) in *.
  set (all := filter (λ f, separate ps f = true) cs ++ ps).
  assert (Hall : ∀ f, f ∈ all → (f ∈ cs ∧ separate ps f = true) ∨ f ∈ ps).
  { intros f [[? ?]%list_elem_of_filter|?]%elem_of_app; auto. }
  assert (Hpos : Forall (λ f, f_start f < f_end f) all).
  { apply Forall_forall. intros f [[Hf _]|Hf]%Hall; [by apply Hc|]. rewrite Forall_forall in Hpp. by apply Hpp. }
  assert (Hppos : Forall (λ p, f_start p < f_end p) ps) by (eapply Forall_impl; [exact Hpp|]; by intros f [? _]).
  cbn zeta. unfold scan. fold ps cs. destruct t as [|c t].
  { assert (ps = []) as ->. { destruct ps as [|p ps']; [done|]. apply Forall_cons in Hpp as [[? H] _]. cbn in H. lia. }
    split_and!; [constructor|constructor|..]; intros f Hf; try by apply not_elem_of_nil in Hf.
    apply Hc in Hf as [? H]. cbn in H. lia. }
  replace (match ps with [] => cs | _ :: _ => filter (λ f, separate ps f = true) cs ++ ps end) with all.
  2: { subst all. destruct ps; [|done]. rewrite app_nil_r. clear. induction cs; [done|]. rewrite filter_cons_True by done. by f_equal. }
  destruct (resolve_overlaps_spec all Hpos) as (H1 & H2 & H3).
  assert (∀ p, p ∈ ps → p ∈ _resolve_overlaps all) as Hkept.
  { intros p Hp. destruct (H3 p) as [?|(k & Hk & Ho)]; [apply elem_of_app; by right|done|].
    destruct (Hall k (H2 k Hk)) as [[Hkc Hsep]|Hkp].
    - exfalso. destruct (separate_spec ps k Hps Hppos) as [Hd _]; [by apply Hc|].
      apply (Hd Hsep p Hp). destruct Ho. by split.
    - by rewrite <-(overlapping_are_one ps k p). }
  split_and!; [done| | |done|].
  - apply Forall_forall. intros f [[Hf _]|Hf]%H2%Hall; [by apply Hc|]. rewrite Forall_forall in Hpp. by apply Hpp.
  - intros f [[Hf _]|Hf]%H2%Hall; auto.
  - intros f Hf. destruct (separate_spec ps f Hps Hppos) as [_ Hnot]; [by apply Hc|].
    destruct (separate ps f) eqn:E.
    + destruct (H3 f) as [?|?]; [apply elem_of_app; left; by apply list_elem_of_filter| |done].
      exists f. split; [done|]. apply Hc in Hf as [? _]. by split.
    + destruct (Hnot eq_refl) as (p & Hp & Ho). exists p. split; [by apply Hkept|done].
Qed.
End ScanSpec.

(** ** What a mask leaves *)

(** The text between the findings, and texts put back between them. *)
Fixpoint gaps (t : text) (pos : nat) (fs : list Finding) : list text :=
  match fs with
  | [] => [drop pos t]
  | f :: fs => span t pos (f_start f) :: gaps t (f_end f) fs
  end.
Fixpoint weave (gs ms : list text) : text :=
  match gs, ms with
  | g :: gs, m :: ms => g ++ m ++ weave gs ms
  | g :: _, [] => g
  | [], _ => []
  end.

Lemma mask_parts_weave t pos fs : mask_parts t pos fs = weave (gaps t pos fs) ((λ f, _REDACTION (category f)) <$> fs).
Proof. revert pos. induction fs as [|f fs IH]; intros pos; [done|]. cbn. by rewrite IH. Qed.

Lemma span_drop t i j : i <= j → span t i j ++ drop j t = drop i t.
Proof.
  intros Hij. unfold span. replace (drop j t) with (drop (j - i) (drop i t)) by (rewrite drop_drop; f_equal; lia).
  apply take_drop.
Qed.

Lemma text_weave t pos fs :
  StronglySorted before fs → Forall (proper t) fs → Forall (λ f, pos <= f_start f) fs →
  drop pos t = weave (gaps t pos fs) ((λ f, span t (f_start f) (f_end f)) <$> fs).
Proof.
  intros Hs Hp Hpos. revert pos Hpos. induction Hs as [|f fs Hs IH Hf]; intros pos Hpos; [done|].
  apply Forall_cons in Hp as [[Hlt _] Hp]. apply Forall_cons in Hpos as [Hle _].
  cbn [gaps fmap list_fmap weave]. fold ((λ f, span t (f_start f) (f_end f)) <$> fs).
  rewrite <-(IH Hp) by exact Hf. rewrite span_drop by lia. by rewrite span_drop.
Qed.

Lemma mask_disjoint t fs :
  StronglySorted before fs → Forall (proper t) fs → mask t fs = mask_parts t 0 fs.
Proof.
  intros Hs Hp. unfold mask. destruct fs as [|f fs]; [done|]. rewrite py_sorted_id; [done|].
  remember (f :: fs) as l. clear -Hs Hp. induction Hs as [|g l Hs IH Hg]; [constructor|].
  apply Forall_cons in Hp as [[Hlt _] Hp]. constructor; [by apply IH|]. eapply Forall_impl; [exact Hg|].
  intros h Hb. unfold by_start, before in *. apply Nat.leb_le. lia.
Qed.


(** A rule for the tests: runs of digits of a given length, as one might write it by hand. *)
Definition at_digits (n : nat) (t : text) : list (nat * nat) :=
  if (n <=? length t) && forallb is_digit (take n t) then [(0, n)] else [].


(** Of two that overlap the one that starts first is kept, a shorter one of lower severity
    included: length and severity only choose among spans that start together. *)
Lemma earlier_start_wins f g :
  f_start f < f_end f → f_start f < f_start g → f_start g < f_end f →
  _resolve_overlaps [g; f] = [f].
Proof.
  intros Hf Hlt Ho. unfold _resolve_overlaps. cbn [length Nat.leb py_sorted sort_insert].
  assert (stronger_first g f = false) as ->.
  { unfold stronger_first. rewrite (proj2 (Nat.ltb_ge _ _)), (proj2 (Nat.eqb_neq _ _)) by lia. done. }
  cbn [keep_disjoint]. rewrite (proj2 (Z.leb_le _ _)) by lia. by rewrite (proj2 (Z.leb_gt _ _)) by lia.
Qed.

(** ** The card checksum *)

Lemma luhn_total_app i a b : luhn_total i (a ++ b) = (luhn_total i a + luhn_total (i + length a) b)%Z.
Proof.
  revert i. induction a as [|d a IH]; intros i; cbn [luhn_total app length]; [by rewrite Nat.add_0_r|].
  rewrite IH. replace (i + S (length a)) with (S i + length a) by lia. lia.
Qed.

Lemma luhn_term_inj i c d :
  (0 <= c <= 9)%Z → (0 <= d <= 9)%Z → (luhn_term i c mod 10 = luhn_term i d mod 10)%Z → c = d.
Proof.
  intros Hc Hd. unfold luhn_term. destruct (Nat.even i).
  - rewrite !Z.mod_small by lia. done.
  - assert (∃ n, c = Z.of_nat n ∧ n < 10) as (n & -> & Hn) by (exists (Z.to_nat c); lia).
    assert (∃ m, d = Z.of_nat m ∧ m < 10) as (m & -> & Hm) by (exists (Z.to_nat d); lia).
    clear Hc Hd. revert n m Hn Hm.
    assert (∀ n, n < 10 → ∀ m, m < 10 → bool_decide (((let d := (Z.of_nat n * 2)%Z in if (9 <? d)%Z then (d - 9)%Z else d) mod 10)%Z =
      ((let d := (Z.of_nat m * 2)%Z in if (9 <? d)%Z then (d - 9)%Z else d) mod 10)%Z) = true → n = m) as H.
    { intros n Hn m Hm. do 10 (destruct n as [|n]; [do 10 (destruct m as [|m]; [done || (vm_compute; done)|]); lia|]). lia. }
    intros n m Hn Hm Heq. f_equal. apply H; [done..|]. by apply bool_decide_eq_true_2.
Qed.

Lemma digits_app a b : digits (a ++ b) = digits a ++ digits b.
Proof. unfold digits. by rewrite filter_app, fmap_app. Qed.

Lemma digit_of_range c : is_digit c = true → (0 <= digit_of c <= 9)%Z.
Proof. unfold is_digit, in_range, digit_of. rewrite andb_true_iff, !N.leb_le. lia. Qed.

(** [luhn_catches_one_digit]: of two values that differ in one digit, wherever it stands and
    whatever separators surround it, at most one passes the card check. *)
Theorem luhn_catches_one_digit a b c d
    (Hc : is_digit c = true) (Hd : is_digit d = true) (Hne : c ≠ d)
    (Hok : _luhn_ok (a ++ c :: b) = true) : _luhn_ok (a ++ d :: b) = false.
Proof.
  assert (∀ x, is_digit x = true → digits (a ++ x :: b) = digits a ++ digit_of x :: digits b) as Hx.
  { intros x E. rewrite digits_app. unfold digits at 2. rewrite filter_cons_True by done. done. }
  unfold _luhn_ok in *. rewrite !Hx in * by done.
  assert (length (digits a ++ digit_of d :: digits b) = length (digits a ++ digit_of c :: digits b)) as -> by (by rewrite !length_app).
  destruct (_ <? 13); [done|]. apply Z.eqb_eq in Hok. apply Z.eqb_neq. intros Hd'. apply Hne.
  rewrite !reverse_app, !reverse_cons, <-!app_assoc, !luhn_total_app in Hok, Hd'.
  cbn [app luhn_total length] in Hok, Hd'.
  set (i := 0 + length (reverse (digits b))) in *. set (l := luhn_total 0 (reverse (digits b))) in *. set (r := luhn_total (i + 1) (reverse (digits a))) in *.
  assert (digit_of c = digit_of d) as Heq.
  { apply (luhn_term_inj i); [by apply digit_of_range..|].
    apply Z.mod_divide in Hok as [p Hp]; [|lia]. apply Z.mod_divide in Hd' as [q Hq]; [|lia].
    replace (luhn_term i (digit_of c)) with (luhn_term i (digit_of d) + (p - q) * 10)%Z by lia.
    apply Z_mod_plus_full. }
  unfold digit_of in Heq. assert (code c = code d) as Hcd by lia.
  unfold code in Hcd. by rewrite <-(Ascii.ascii_N_embedding c), Hcd, Ascii.ascii_N_embedding.
Qed.

Lemma luhn_catches_one_digit_witness :
  _luhn_ok (String.list_ascii_of_string "4111 1111 1111 1112") = false.
Proof.
  apply (luhn_catches_one_digit (String.list_ascii_of_string "4111 1111 1111 111") [] "1"%char "2"%char);
    [reflexivity|reflexivity|discriminate|vm_compute; reflexivity].
Defined.

(** Values the other checks accept and refuse. *)
Example validators_run :
  let ok (f : text → bool) s := f (String.list_ascii_of_string s) in
  ok _iban_mod97_ok "GB82 WEST 1234 5698 7654 32" = true ∧ ok _iban_mod97_ok "GB82 WEST 1234 5698 7654 33" = false ∧
  ok _dni_letter_ok "12345678-Z" = true ∧ ok _dni_letter_ok "12345678A" = false ∧
  ok _uk_national_length_ok "020 7946 0958" = true ∧
  ok _reads_as_words "PlayerInventory-2026-Plan" = true ∧ ok _reads_as_words "aX9kQ" = false ∧
  credential_body (String.list_ascii_of_string "mci_v12_Ab") = String.list_ascii_of_string "Ab".
Proof. vm_compute. repeat split; reflexivity. Qed.
