(* ===== verification/WriteSteps.v ===== *)
(** * The write pipeline's steps

    [core-api/.../pipeline/steps/write/]: each step of a memory write as a program over the pipeline
    context and the storage it shares with every other writer, with [governance_gate.py], the
    storage transactions the steps call, and the settings they read.

    A step is a function of the context [ctx] to what it returns or raises and the context it
    leaves ([M]). Every call to another service takes a tick of a clock; what the service answers
    at each tick, whether the answer is lost, and what the other writers did to the table in the
    meantime is the class [Services], of which nothing is assumed. The context keeps a log of what
    this write has sent out ([effect]). Times, log lines and usage counters are left out, and of the
    fields of a 409's detail only the message is kept.

    A [dict] of the request is a value here: the request's metadata and the row's are one object in
    the code when the caller sent any, and what the code then reads of the request's is its capture
    record, which no step changes. *)

From Stdlib Require Import Floats.SpecFloat.
From S2P Require Import Prelude PyStr PyVal Sha256 Contradiction Governance Pipeline WriteHold WriteMetadata.

#[local] Open Scope string_scope.
#[local] Open Scope list_scope.

(** ** The request, the row, the context *)

(** [MemoryCreate]; [d_other] are the fields no step reads, stored as they come. *)
Record memory_create : Type := MemoryCreate {
  d_tenant_id : string; d_fleet_id : option string; d_agent_id : string; d_content : string;
  d_memory_type : option string; d_weight : option spec_float; d_metadata : option meta;
  d_visibility : option string; d_status : option string; d_persist : bool; d_write_mode : option string;
  d_subject_entity_id : option string; d_predicate : option string; d_object_value : option string;
  d_entity_links : list (string * string);
  d_ts_valid_start : option string; d_ts_valid_end : option string; d_other : list (string * pyval)
}.

Definition set_content (s : string) (d : memory_create) : memory_create :=
  MemoryCreate (d_tenant_id d) (d_fleet_id d) (d_agent_id d) s (d_memory_type d) (d_weight d) (d_metadata d)
    (d_visibility d) (d_status d) (d_persist d) (d_write_mode d) (d_subject_entity_id d) (d_predicate d)
    (d_object_value d) (d_entity_links d) (d_ts_valid_start d) (d_ts_valid_end d) (d_other d).
Definition set_metadata (m : option meta) (d : memory_create) : memory_create :=
  MemoryCreate (d_tenant_id d) (d_fleet_id d) (d_agent_id d) (d_content d) (d_memory_type d) (d_weight d) m
    (d_visibility d) (d_status d) (d_persist d) (d_write_mode d) (d_subject_entity_id d) (d_predicate d)
    (d_object_value d) (d_entity_links d) (d_ts_valid_start d) (d_ts_valid_end d) (d_other d).
Definition set_visibility (v : string) (d : memory_create) : memory_create :=
  MemoryCreate (d_tenant_id d) (d_fleet_id d) (d_agent_id d) (d_content d) (d_memory_type d) (d_weight d)
    (d_metadata d) (Some v) (d_status d) (d_persist d) (d_write_mode d) (d_subject_entity_id d) (d_predicate d)
    (d_object_value d) (d_entity_links d) (d_ts_valid_start d) (d_ts_valid_end d) (d_other d).
Definition set_triple (s : option string) (p o : string) (d : memory_create) : memory_create :=
  MemoryCreate (d_tenant_id d) (d_fleet_id d) (d_agent_id d) (d_content d) (d_memory_type d) (d_weight d)
    (d_metadata d) (d_visibility d) (d_status d) (d_persist d) (d_write_mode d) s (Some p) (Some o)
    (d_entity_links d) (d_ts_valid_start d) (d_ts_valid_end d) (d_other d).

Abbreviation embedding := (list spec_float).

(** [EnrichmentResult] *)
Record enrichment_result : Type := Enrichment {
  e_memory_type : string; e_weight : option spec_float; e_title : string; e_summary : string;
  e_tags : list string; e_llm_ms : Z; e_ts_valid_start : string; e_ts_valid_end : string;
  e_contains_pii : bool; e_pii_types : list string; e_business_relevance : string;
  e_atomic_facts : list pyval
}.

(** [ctx.data["memory_fields"]] *)
Record memory_fields : Type := MemoryFields {
  mf_memory_type : string; mf_weight : spec_float; mf_title : option string; mf_metadata : meta;
  mf_ts_valid_start : option string; mf_ts_valid_end : option string; mf_status : string
}.
Definition with_metadata (m : meta) (f : memory_fields) : memory_fields :=
  MemoryFields (mf_memory_type f) (mf_weight f) (mf_title f) m (mf_ts_valid_start f) (mf_ts_valid_end f) (mf_status f).
Definition with_field_status (s : string) (f : memory_fields) : memory_fields :=
  MemoryFields (mf_memory_type f) (mf_weight f) (mf_title f) (mf_metadata f) (mf_ts_valid_start f) (mf_ts_valid_end f) s.

(** A row of [memories]: the insert's payload, its id and time, its tombstone and its pointer. *)
Record mrow : Type := MRow {
  m_id : string; m_created_at : Z; m_deleted : bool; m_supersedes_id : option string;
  m_tenant_id : string; m_fleet_id : option string; m_agent_id : string; m_memory_type : string;
  m_title : option string; m_content : string; m_embedding : option embedding; m_weight : spec_float;
  m_metadata : meta; m_content_hash : option string; m_subject_entity_id : option string;
  m_predicate : option string; m_object_value : option string; m_ts_valid_start : option string;
  m_ts_valid_end : option string; m_status : string; m_visibility : string; m_is_inferred : bool;
  m_other : list (string * pyval)
}.

(** What a write sends out besides reads. *)
Inductive effect : Type :=
| EAudit (action : string) (detail : meta) (critical : bool)
| EClassify (content : string)
| EEmbed (content : string)
| EEnrich (content : string)
| EJudge (content candidate : string)
| EInsert (r : mrow)                     (* a row this write committed *)
| EEntity (name : string)                (* the request that creates an entity *)
| ELink (memory entity : string)
| ESupersede (new old : string)          (* the pointer landed *)
| ERetire (old : string)                 (* the status write landed *)
| EPatch (memory : string) (fields : meta)
| ETask (name : string)
| EStm (target content : string).

Record ctx : Type := Ctx {
  c_input : memory_create; c_config : option resolved_config; c_mode : option string; c_inferred : bool;
  c_hash : option string; c_cached_embedding : option embedding;
  c_embedding : option embedding; c_enrichment : option enrichment_result;
  c_fields : option memory_fields;
  c_pending : option (string * string * string);   (* name, predicate, object *)
  c_merge : option string; c_row : option mrow;
  c_linked : list (string * string); c_link_failures : list (string * string);
  c_stm_target : option string; c_stm_response : option string;
  c_db : list mrow; c_clock : nat; c_log : list effect
}.

(** Assignments to the context. *)
Definition put_input (x : memory_create) (c : ctx) : ctx := Ctx x (c_config c) (c_mode c) (c_inferred c)
  (c_hash c) (c_cached_embedding c) (c_embedding c) (c_enrichment c) (c_fields c) (c_pending c) (c_merge c)
  (c_row c) (c_linked c) (c_link_failures c) (c_stm_target c) (c_stm_response c) (c_db c) (c_clock c) (c_log
  c).
Definition put_config (x : option resolved_config) (c : ctx) : ctx := Ctx (c_input c) x (c_mode c) (c_inferred
  c) (c_hash c) (c_cached_embedding c) (c_embedding c) (c_enrichment c) (c_fields c) (c_pending c) (c_merge c)
  (c_row c) (c_linked c) (c_link_failures c) (c_stm_target c) (c_stm_response c) (c_db c) (c_clock c) (c_log
  c).
Definition put_hash (x : option string) (c : ctx) : ctx := Ctx (c_input c) (c_config c) (c_mode c) (c_inferred
  c) x (c_cached_embedding c) (c_embedding c) (c_enrichment c) (c_fields c) (c_pending c) (c_merge c) (c_row
  c) (c_linked c) (c_link_failures c) (c_stm_target c) (c_stm_response c) (c_db c) (c_clock c) (c_log c).
Definition put_cached_embedding (x : option embedding) (c : ctx) : ctx := Ctx (c_input c) (c_config c) (c_mode
  c) (c_inferred c) (c_hash c) x (c_embedding c) (c_enrichment c) (c_fields c) (c_pending c) (c_merge c)
  (c_row c) (c_linked c) (c_link_failures c) (c_stm_target c) (c_stm_response c) (c_db c) (c_clock c) (c_log
  c).
Definition put_embedding (x : option embedding) (c : ctx) : ctx := Ctx (c_input c) (c_config c) (c_mode c)
  (c_inferred c) (c_hash c) (c_cached_embedding c) x (c_enrichment c) (c_fields c) (c_pending c) (c_merge c)
  (c_row c) (c_linked c) (c_link_failures c) (c_stm_target c) (c_stm_response c) (c_db c) (c_clock c) (c_log
  c).
Definition put_enrichment (x : option enrichment_result) (c : ctx) : ctx := Ctx (c_input c) (c_config c)
  (c_mode c) (c_inferred c) (c_hash c) (c_cached_embedding c) (c_embedding c) x (c_fields c) (c_pending c)
  (c_merge c) (c_row c) (c_linked c) (c_link_failures c) (c_stm_target c) (c_stm_response c) (c_db c) (c_clock
  c) (c_log c).
Definition put_fields (x : option memory_fields) (c : ctx) : ctx := Ctx (c_input c) (c_config c) (c_mode c)
  (c_inferred c) (c_hash c) (c_cached_embedding c) (c_embedding c) (c_enrichment c) x (c_pending c) (c_merge
  c) (c_row c) (c_linked c) (c_link_failures c) (c_stm_target c) (c_stm_response c) (c_db c) (c_clock c)
  (c_log c).
Definition put_pending (x : option (string * string * string)) (c : ctx) : ctx := Ctx (c_input c) (c_config c)
  (c_mode c) (c_inferred c) (c_hash c) (c_cached_embedding c) (c_embedding c) (c_enrichment c) (c_fields c) x
  (c_merge c) (c_row c) (c_linked c) (c_link_failures c) (c_stm_target c) (c_stm_response c) (c_db c) (c_clock
  c) (c_log c).
Definition put_merge (x : option string) (c : ctx) : ctx := Ctx (c_input c) (c_config c) (c_mode c)
  (c_inferred c) (c_hash c) (c_cached_embedding c) (c_embedding c) (c_enrichment c) (c_fields c) (c_pending c)
  x (c_row c) (c_linked c) (c_link_failures c) (c_stm_target c) (c_stm_response c) (c_db c) (c_clock c) (c_log
  c).
Definition put_row (x : option mrow) (c : ctx) : ctx := Ctx (c_input c) (c_config c) (c_mode c) (c_inferred c)
  (c_hash c) (c_cached_embedding c) (c_embedding c) (c_enrichment c) (c_fields c) (c_pending c) (c_merge c) x
  (c_linked c) (c_link_failures c) (c_stm_target c) (c_stm_response c) (c_db c) (c_clock c) (c_log c).
Definition put_linked (x : list (string * string)) (c : ctx) : ctx := Ctx (c_input c) (c_config c) (c_mode c)
  (c_inferred c) (c_hash c) (c_cached_embedding c) (c_embedding c) (c_enrichment c) (c_fields c) (c_pending c)
  (c_merge c) (c_row c) x (c_link_failures c) (c_stm_target c) (c_stm_response c) (c_db c) (c_clock c) (c_log
  c).
Definition put_link_failures (x : list (string * string)) (c : ctx) : ctx := Ctx (c_input c) (c_config c)
  (c_mode c) (c_inferred c) (c_hash c) (c_cached_embedding c) (c_embedding c) (c_enrichment c) (c_fields c)
  (c_pending c) (c_merge c) (c_row c) (c_linked c) x (c_stm_target c) (c_stm_response c) (c_db c) (c_clock c)
  (c_log c).
Definition put_stm_target (x : option string) (c : ctx) : ctx := Ctx (c_input c) (c_config c) (c_mode c)
  (c_inferred c) (c_hash c) (c_cached_embedding c) (c_embedding c) (c_enrichment c) (c_fields c) (c_pending c)
  (c_merge c) (c_row c) (c_linked c) (c_link_failures c) x (c_stm_response c) (c_db c) (c_clock c) (c_log c).
Definition put_stm_response (x : option string) (c : ctx) : ctx := Ctx (c_input c) (c_config c) (c_mode c)
  (c_inferred c) (c_hash c) (c_cached_embedding c) (c_embedding c) (c_enrichment c) (c_fields c) (c_pending c)
  (c_merge c) (c_row c) (c_linked c) (c_link_failures c) (c_stm_target c) x (c_db c) (c_clock c) (c_log c).
Definition put_db (x : list mrow) (c : ctx) : ctx := Ctx (c_input c) (c_config c) (c_mode c) (c_inferred c)
  (c_hash c) (c_cached_embedding c) (c_embedding c) (c_enrichment c) (c_fields c) (c_pending c) (c_merge c)
  (c_row c) (c_linked c) (c_link_failures c) (c_stm_target c) (c_stm_response c) x (c_clock c) (c_log c).
Definition put_clock (x : nat) (c : ctx) : ctx := Ctx (c_input c) (c_config c) (c_mode c) (c_inferred c)
  (c_hash c) (c_cached_embedding c) (c_embedding c) (c_enrichment c) (c_fields c) (c_pending c) (c_merge c)
  (c_row c) (c_linked c) (c_link_failures c) (c_stm_target c) (c_stm_response c) (c_db c) x (c_log c).
Definition put_log (x : list effect) (c : ctx) : ctx := Ctx (c_input c) (c_config c) (c_mode c) (c_inferred c)
  (c_hash c) (c_cached_embedding c) (c_embedding c) (c_enrichment c) (c_fields c) (c_pending c) (c_merge c)
  (c_row c) (c_linked c) (c_link_failures c) (c_stm_target c) (c_stm_response c) (c_db c) (c_clock c) x.

(** ** What the steps are given *)

(** [core_api.config.settings] *)
Class Settings : Type := {
  use_llm_for_memory_creation : bool; entity_extraction_provider : string;
  inline_embedding : bool; inline_enrichment : bool; use_stm : bool;
  audit_hook : bool;                       (* whether the hooks log a create *)
  reserved_write_refusal : string → option string
}.

(** The pre-gate classifier's answer; no [provider] when no live model judged the text. *)
Record business_verdict : Type := BusinessVerdict {
  bv_business_relevance : string; bv_confidence : spec_float; bv_provider : option string; bv_model : option string
}.

(** Embedding and enrichment together, under one timeout. *)
Inductive gathered : Type :=
| TimedOut
| Raised (e : exn)
| Results (emb : option embedding) (enr : option enrichment_result).

(** The answers of other services at a tick, and what the other writers do before it. *)
Class Services : Type := {
  (* storage: the table as others leave it, a call whose answer is lost (after it ran, or before),
     the id and time of an insert *)
  others : nat → list mrow → list mrow;
  lost : nat → option (bool * string);
  new_id : nat → string;
  now : nat → Z;
  known_entity : nat → string → string → bool;
  settings_row_at : nat → settings_row;
  nearest : nat → embedding → list mrow → nat;
  similarity : embedding → mrow → spec_float;
  (* the settings cache and its reload; the trust of the agent's row *)
  config_at : nat → result exn resolved_config;
  reload_at : nat → result exn resolved_config;
  agent_trust : nat → result exn (option Z);
  tenant_model : resolved_config → option string;
  (* the audit queue, when it is inactive and storage cannot take the event *)
  audit_down : nat → option string;
  (* models *)
  classify_business_personal : nat → string → business_verdict;
  embed_and_enrich : nat → bool → bool → string → gathered;
  (* the judge's JSON, or nothing when no provider answered *)
  judge_json : nat → string → string → result exn (option pyval);
  (* entities *)
  find_entity_by_exact_name : nat → string → result exn (option string);
  upsert_entity : nat → string → result exn string;
  bulk_upsert_entity_links : nat → list (string * string) → result exn (list (nat * option string));
  (* the short-term backend *)
  stm_post : nat → string → result exn bool
}.

(** Pattern tables: which spans of a text the rules match, and what the triple heuristics read in
    it, its white space squeezed: the phrases found (start, end, predicate) in table order, the subject before a position, an
    identifier or a proper noun, and the object in what follows. *)
Class Patterns : Type := {
  _RULES : list _Rule;
  _URL_PASSWORD : text → list (nat * nat);
  _content_is_identifier_bearing : string → bool;
  phrase_matches : string → list (nat * nat * string);
  _infer_subject_token : string → nat → option string;
  _infer_proper_noun_subject : string → nat → option string;
  object_after : string → nat → option string;
  casefold : string → string;
  fromisoformat : string → result exn string;
  round4 : spec_float → spec_float
}.

(** ** Settings *)

(** [self._ts.get(section, {}).get(key)] *)
Definition section_of (cfg : resolved_config) (s : string) : meta :=
  match dict_get s (other_sections (_ts cfg)) with Some (PDict d) => d | _ => [] end.
Definition subsection (s : string) (d : meta) : meta :=
  match dict_get s d with Some (PDict d) => d | _ => [] end.
Definition setting (d : meta) (k : string) : option pyval :=
  match dict_get k d with None | Some PNone => None | Some v => Some v end.
Definition flag (default : bool) (v : option pyval) : bool := from_option truthy default v.
(** [v or x], of a string *)
Definition str_or (x : string) (v : option pyval) : string :=
  match v with Some (PStr s) => if bool_decide (s = "") then x else s | _ => x end.
Definition opt_str_or_none (v : option pyval) : option string :=
  match v with Some (PStr s) => if bool_decide (s = "") then None else Some s | _ => None end.

Record _GovPII : Type := GovPII { pii_enabled : bool; pii_action : string; pii_enabled_categories : option (list PIICategory) }.
Record _GovNB : Type := GovNB { nb_enabled : bool; nb_disposition : string }.
Record _GovNBPregate : Type := GovNBPregate {
  pg_enabled : bool; pg_provider : option string; pg_model : option string;
  pg_min_confidence : option spec_float; pg_fail_closed : bool
}.

Definition PII_CATEGORY_VALUES : list (string * PIICategory) :=
  [("email", EMAIL); ("phone", PHONE); ("credit_card", CREDIT_CARD); ("iban", IBAN);
   ("national_id", NATIONAL_ID); ("api_key", API_KEY); ("secret", SECRET)].
Definition category_value (c : PIICategory) : string :=
  match c with EMAIL => "email" | PHONE => "phone" | CREDIT_CARD => "credit_card" | IBAN => "iban"
  | NATIONAL_ID => "national_id" | API_KEY => "api_key" | SECRET => "secret" end.
Definition severity_value (s : Severity) : string :=
  match s with LOW => "low" | MEDIUM => "medium" | HIGH => "high" end.

Definition governance_pii (cfg : resolved_config) : _GovPII :=
  let g := subsection "pii" (section_of cfg "governance") in
  let selected := omap (λ kv, if truthy kv.2 then snd <$> find (λ c, bool_decide (c.1 = kv.1)) PII_CATEGORY_VALUES else None)
                    (subsection "categories" g) in
  GovPII (flag false (setting g "enabled")) (str_or "flag" (setting g "action"))
    (match selected with [] => None | cs => Some cs end).

Definition governance_non_business (cfg : resolved_config) : _GovNB :=
  let g := subsection "non_business" (section_of cfg "governance") in
  GovNB (flag false (setting g "enabled")) (str_or "store" (setting g "disposition")).

Section Config.
Context {settings : Settings} {services : Services}.

Definition governance_non_business_pregate (cfg : resolved_config) : _GovNBPregate :=
  let g := subsection "pregate" (subsection "non_business" (section_of cfg "governance")) in
  GovNBPregate (flag false (setting g "enabled")) (opt_str_or_none (setting g "provider")) (tenant_model cfg)
    (match setting g "min_confidence" with Some (PFloat f) => Some f | _ => None end)
    (flag false (setting g "fail_closed")).

Definition _remap_vertex (provider : string) : string := if bool_decide (provider = "vertex") then "openai" else provider.
Definition enrichment_provider (cfg : resolved_config) : string :=
  _remap_vertex (str_or entity_extraction_provider (setting (section_of cfg "enrichment") "provider")).
Definition enrichment_enabled (cfg : resolved_config) : bool :=
  flag use_llm_for_memory_creation (setting (section_of cfg "enrichment") "enabled").
Definition entity_extraction_enabled (cfg : resolved_config) : bool :=
  flag (negb (bool_decide (entity_extraction_provider = "none"))) (setting (section_of cfg "entity_extraction") "enabled").
End Config.

Definition semantic_dedup_enabled (cfg : resolved_config) : bool :=
  flag true (setting (section_of cfg "dedup") "semantic_dedup_enabled").
Definition merge_near_duplicates (cfg : resolved_config) : bool :=
  flag false (setting (section_of cfg "dedup") "merge_near_duplicates").
Definition auto_chunk_enabled (cfg : resolved_config) : bool :=
  flag false (setting (section_of cfg "chunking") "auto_chunk_enabled").
Definition triple_emission_enabled (cfg : resolved_config) : bool :=
  flag true (setting (section_of cfg "write") "triple_emission_enabled").
Definition default_write_mode (cfg : resolved_config) : string :=
  match setting (section_of cfg "write") "default_write_mode" with
  | Some (PStr v) => if bool_decide (v = "fast") || bool_decide (v = "strong") then v else "fast"
  | _ => "fast"
  end.

(** ** Storage *)

Section Storage.
Context {services : Services}.

Definition live (r : mrow) : bool := negb (m_deleted r).
(** [COALESCE(fleet_id, '')] on both sides *)
Definition same_fleet (f g : option string) : bool := bool_decide (default "" f = default "" g).

(** The key of [uq_memories_live_content_hash], on the rows it covers. *)
Definition holds_content (tenant : string) (fleet : option string) (agent : string) (hash : option string) (r : mrow) : bool :=
  live r && bool_decide (m_tenant_id r = tenant) && same_fleet (m_fleet_id r) fleet &&
  bool_decide (m_agent_id r = agent) && bool_decide (is_Some hash ∧ m_content_hash r = hash).

Definition older (a b : mrow) : bool :=
  (m_created_at a <? m_created_at b)%Z || ((m_created_at a =? m_created_at b)%Z && str_leb (m_id a) (m_id b)).

Definition memory_find_by_content_hash (tenant : string) (hash : option string) (fleet : option string) (agent : string)
    (db : list mrow) : option mrow :=
  head (py_sorted older (filter (λ r, holds_content tenant fleet agent hash r = true) db)).

Definition memory_find_embedding_by_content_hash (tenant hash : string) (db : list mrow) : option embedding :=
  head (omap m_embedding (filter (λ r, bool_decide (m_tenant_id r = tenant) && bool_decide (m_content_hash r = Some hash) &&
                                       bool_decide (is_Some (m_embedding r)) && live r = true) db)).

Definition float_ge (a b : spec_float) : bool := SFleb b a.

Definition semantic_candidate (tenant : string) (fleet : option string) (visibility : string) (agent : string) (r : mrow) : bool :=
  bool_decide (m_tenant_id r = tenant) && live r &&
  bool_decide (m_status r ∈ ["active"; "confirmed"; "pending"]) && bool_decide (is_Some (m_embedding r)) &&
  same_fleet (m_fleet_id r) fleet && bool_decide (m_visibility r = visibility) && bool_decide (m_agent_id r = agent).

(** The nearest candidate, if it is near enough; which is nearest the index says. *)
Definition memory_find_semantic_duplicate (n : nat) (tenant : string) (fleet : option string) (emb : embedding)
    (visibility : string) (min_similarity : spec_float) (agent : string) (db : list mrow) : option (mrow * spec_float) :=
  let candidates := filter (λ r, semantic_candidate tenant fleet visibility agent r = true) db in
  r ← candidates !! nearest n emb candidates;
  if float_ge (similarity emb r) min_similarity then Some (r, similarity emb r) else None.

Definition exact_message (id : string) : string := "Duplicate memory exists: " +:+ id.
Definition near_message (id : string) : string := "Near-duplicate memory exists: " +:+ id.
Definition NOT_LIVE_MESSAGE : string := "Duplicate memory exists but is no longer live; retry the write".

(** The refusal names the oldest holder, read in a transaction of its own. *)
Definition _describe_content_hash_winner (r : mrow) (db : list mrow) : insert_reply :=
  DuplicateMemoryError
    match memory_find_by_content_hash (m_tenant_id r) (m_content_hash r) (m_fleet_id r) (m_agent_id r) db with
    | None => NOT_LIVE_MESSAGE
    | Some w => exact_message (m_id w)
    end.

Definition conflicts (r : mrow) (db : list mrow) : bool :=
  existsb (holds_content (m_tenant_id r) (m_fleet_id r) (m_agent_id r) (m_content_hash r)) db.

Definition memory_add (n : nat) (claim : option version) (r : mrow) (db : list mrow) : insert_reply * list mrow :=
  let rejected := match m_subject_entity_id r with
  | Some e => if known_entity n (m_tenant_id r) e then None
              else Some (StoragePointerRejectedError "subject_entity_id does not name a row in this tenant")
  | None => None
  end
  in match rejected with
  | Some reply => (reply, db)
  | None =>
      if negb (_assert_settings_unchanged claim (settings_row_at n)) then (StorageSettingsChangedError, db)
      else if conflicts r db then let db := others n db in (_describe_content_hash_winner r db, db)
      else (Inserted, db ++ [r])
  end.
End Storage.

(** ** Programs *)

Definition M (A : Type) : Type := ctx → result exn A * ctx.
#[export] Instance M_ret : MRet M := λ A a c, (Ok a, c).
#[export] Instance M_bind : MBind M := λ A B f m c,
  match m c with (Ok a, c) => f a c | (Err e, c) => (Err e, c) end.

Definition throw {A} (e : exn) : M A := λ c, (Err e, c).
Definition gets {A} (f : ctx → A) : M A := λ c, (Ok (f c), c).
Definition modify (f : ctx → ctx) : M unit := λ c, (Ok tt, f c).
Definition lift {A} (r : result exn A) : M A := λ c, (r, c).
(** [try: ... except Exception as e: ...]: the outcome as a value. *)
Definition attempt {A} (m : M A) : M (result exn A) := λ c, let '(r, c) := m c in (Ok r, c).

(** A tick of the clock, and something sent out. *)
Definition tick : M nat := λ c, (Ok (c_clock c), put_clock (S (c_clock c)) c).
Definition emit (e : effect) : M unit := modify (λ c, put_log (c_log c ++ [e]) c).

Section Steps.
Context {settings : Settings} {services : Services} {patterns : Patterns}.

(** A call to storage: the others' writes first, then the transaction, whose answer may be lost. *)
Definition call {A} (f : nat → list mrow → A * list mrow * list effect) : M A := λ c,
  let n := c_clock c in
  let c := put_clock (S n) (put_db (others n (c_db c)) c) in
  match lost n with
  | Some (false, m) => (Err (PyError "HTTPError" m), c)
  | answer =>
      let '(a, db, es) := f n (c_db c) in
      let c := put_log (c_log c ++ es) (put_db db c) in
      match answer with Some (_, m) => (Err (PyError "HTTPError" m), c) | None => (Ok a, c) end
  end.
Definition query {A} (f : nat → list mrow → A) : M A := call (λ n db, (f n db, db, [])).

Abbreviation step := (M (option step_result)).
Definition success : step := mret None.
Definition skipped : step := mret (Some (StepResult SKIPPED None)).

(** *** [governance_gate.py] *)

Definition _content_sha256 (content : string) : string := hexdigest (sha256 (utf8 content)).
Definition opt_str (o : option string) : pyval := from_option PStr PNone o.
Definition _base_audit_detail (action content : string) (write_mode : option string) : meta :=
  [("action", PStr action); ("content_sha256", PStr (_content_sha256 content)); ("write_mode", opt_str write_mode)].
Definition sorted_set (l : list string) : list string := py_sorted str_leb (remove_dups l).
Definition str_list (l : list string) : pyval := PList (PStr <$> l).

Definition pii_audit_detail (action : string) (findings : list Finding) (content : string) (write_mode : option string) : meta :=
  _base_audit_detail action content write_mode ++
  [("categories", str_list (sorted_set ((category_value ∘ category) <$> findings)));
   ("severities", str_list (sorted_set ((severity_value ∘ severity) <$> findings)));
   ("spans", PList ((λ f, PList [PInt (Z.of_nat (f_start f)); PInt (Z.of_nat (f_end f))]) <$> findings));
   ("finding_count", PInt (Z.of_nat (length findings)))].
Definition llm_pii_audit_detail (action : string) (pii_types : list string) (content : string) (write_mode configured_action : option string) : meta :=
  _base_audit_detail action content write_mode ++
  [("categories", str_list (sorted_set pii_types)); ("source", PStr "llm")] ++
  match configured_action with
  | Some a => if bool_decide (a ≠ action) then [("configured_action", PStr a)] else []
  | None => []
  end.
Definition nonbusiness_audit_detail : string → string → option string → meta := _base_audit_detail.
Definition nonbusiness_pregate_audit_detail (action content : string) (write_mode provider model : option string) (confidence : option spec_float) : meta :=
  _base_audit_detail action content write_mode ++
  [("source", PStr "llm_pregate"); ("provider", opt_str provider); ("model", opt_str model);
   ("confidence", from_option PFloat PNone confidence)].

Definition ACTION_PII_MASK : string := "pii_mask".
Definition ACTION_PII_DROP : string := "pii_drop".
Definition ACTION_PII_FLAG : string := "pii_flag".
Definition ACTION_NB_DROP : string := "nonbusiness_drop".
Definition ACTION_NB_KEEP_PRIVATE : string := "nonbusiness_keep_private".
Definition ACTION_NB_PREGATE_DROP : string := "nonbusiness_pregate_drop".
Definition ACTION_NB_PREGATE_UNAVAILABLE : string := "nonbusiness_pregate_unavailable".

Definition emit_governance_audit (action : string) (detail : meta) (critical : bool) : M unit :=
  n ← tick;
  match audit_down n with
  | Some m => throw (PyError "HTTPError" m)
  | None => emit (EAudit action detail critical)
  end.

Definition mark_pii_flagged (metadata : meta) (findings : list Finding) : result exn meta :=
  metadata ← set_system_value "contains_pii" (PBool true) [] metadata;
  metadata ← set_system_value "pii_types" (str_list (sorted_set ((category_value ∘ category) <$> findings))) [] metadata;
  set_system_value "pii_flagged_by" (PStr "governance.deterministic") [] metadata.

(** *** Before the model calls *)

Definition CRYSTALLIZER_SHORT_CONTENT_CHARS : nat := 10.
Definition TOO_SHORT : exn := HTTPException 422 "Memory content too short (minimum 10 characters).".

Definition CheckContentLength : step :=
  data ← gets c_input;
  if (String.length (strip (d_content data)) <? CRYSTALLIZER_SHORT_CONTENT_CHARS)%nat then throw TOO_SHORT else success.

Definition resolve_tenant_config : M resolved_config := n ← tick; lift (config_at n).
Definition LoadTenantConfig : step :=
  cfg ← resolve_tenant_config; _ ← modify (put_config (Some cfg)); success.

Definition SENSITIVE_DETAIL : string := "Memory rejected by content policy: sensitive data detected".
Definition NON_BUSINESS_DETAIL : string := "Memory rejected by content policy: non-business content".
Definition CLASSIFIER_DETAIL : string := "Content policy classifier unavailable; write rejected (fail-closed)".

Definition CAPTURED_ROW_POLICY : _GovPII := GovPII true "mask" None.

(** The policy a write is scanned under, [None] when it is not scanned. *)
Definition scan_policy (cfg : option resolved_config) (metadata : option meta) : result exn (option _GovPII) :=
  let gov := governance_pii <$> cfg in
  if from_option pii_enabled false gov then Ok gov
  else captured ← capture_of metadata; Ok (match captured with None => None | Some _ => Some CAPTURED_ROW_POLICY end).

Definition scan_content (gov : _GovPII) (content : string) : list Finding :=
  scan _RULES _URL_PASSWORD (pii_enabled_categories gov) (String.list_ascii_of_string content).
Definition mask_content (content : string) (findings : list Finding) : string :=
  String.string_of_list_ascii (mask (String.list_ascii_of_string content) findings).

Definition GovernanceScanContent : step :=
  data ← gets c_input;
  cfg ← gets c_config;
  policy ← lift (scan_policy cfg (d_metadata data));
  match policy with
  | None => skipped
  | Some gov =>
      if bool_decide (d_content data = "") then success
      else
        let findings := scan_content gov (d_content data) in
        match findings with
        | [] => success
        | _ =>
            write_mode ← gets c_mode;
            let audit action critical :=
              emit_governance_audit action (pii_audit_detail action findings (d_content data) write_mode) critical in
            if bool_decide (pii_action gov = "drop") then
              _ ← audit ACTION_PII_DROP true; throw (HTTPException 422 SENSITIVE_DETAIL)
            else if bool_decide (pii_action gov = "mask") then
              _ ← audit ACTION_PII_MASK false;
              _ ← modify (put_input (set_content (mask_content (d_content data) findings) data));
              success
            else
              metadata ← lift (mark_pii_flagged (default [] (d_metadata data)) findings);
              _ ← modify (put_input (set_metadata (Some metadata) data));
              _ ← audit ACTION_PII_FLAG false;
              success
        end
  end.

Definition pregate_applies (cfg : resolved_config) : bool :=
  nb_enabled (governance_non_business cfg) && pg_enabled (governance_non_business_pregate cfg) &&
  bool_decide (nb_disposition (governance_non_business cfg) = "drop").

Definition zero : spec_float := S754_zero false.

Definition enforce_business_personal_pregate (cfg : resolved_config) (content : string) (write_mode : option string) : M unit :=
  if negb (pregate_applies cfg) then mret tt
  else
    let pregate := governance_non_business_pregate cfg in
    let provider := default (enrichment_provider cfg) (pg_provider pregate) in
    n ← tick;
    _ ← emit (EClassify content);
    let result := classify_business_personal n content in
    match bv_provider result with
    | None =>
        if pg_fail_closed pregate then
          _ ← emit_governance_audit ACTION_NB_PREGATE_UNAVAILABLE
                (nonbusiness_pregate_audit_detail ACTION_NB_PREGATE_UNAVAILABLE content write_mode (Some provider)
                   (pg_model pregate) None) true;
          throw (HTTPException 503 CLASSIFIER_DETAIL)
        else mret tt
    | Some p =>
        let threshold := default zero (pg_min_confidence pregate) in
        if bool_decide (bv_business_relevance result = "personal") && float_ge (bv_confidence result) threshold then
          _ ← emit_governance_audit ACTION_NB_PREGATE_DROP
                (nonbusiness_pregate_audit_detail ACTION_NB_PREGATE_DROP content write_mode (Some p) (bv_model result)
                   (Some (bv_confidence result))) true;
          throw (HTTPException 422 NON_BUSINESS_DETAIL)
        else mret tt
    end.

Definition BusinessPersonalPregate : step :=
  cfg ← gets c_config;
  data ← gets c_input;
  match cfg with
  | Some cfg =>
      if negb (pregate_applies cfg) || negb (d_persist data) then skipped
      else
        write_mode ← gets c_mode;
        _ ← enforce_business_personal_pregate cfg (d_content data) write_mode;
        success
  | None => skipped
  end.

Definition _content_hash (tenant_id : string) (fleet_id : option string) (content : string) : string :=
  hexdigest (sha256 (utf8 (tenant_id +:+ ":" +:+ default "" fleet_id +:+ ":" +:+ content))).

Definition ComputeContentHash : step :=
  data ← gets c_input;
  let ch := if d_persist data then Some (_content_hash (d_tenant_id data) (d_fleet_id data) (d_content data)) else None in
  _ ← modify (put_hash ch);
  cached ← match ch with
           | Some ch => if inline_embedding then query (λ _, memory_find_embedding_by_content_hash (d_tenant_id data) ch)
                        else mret None
           | None => mret None
           end;
  _ ← modify (put_cached_embedding cached);
  success.

Definition CheckExactDuplicate : step :=
  data ← gets c_input;
  ch ← gets c_hash;
  match ch with
  | None => skipped
  | Some ch =>
      dup ← query (λ _, memory_find_by_content_hash (d_tenant_id data) (Some ch) (d_fleet_id data) (d_agent_id data));
      match dup with
      | Some dup => throw (HTTPException 409 (exact_message (m_id dup)))
      | None => success
      end
  end.

(** *** The model calls and what they fill *)

Definition TIMED_OUT : exn := HTTPException 504 "Memory write timed out (embedding/enrichment)".

Definition ParallelEmbedEnrich : step :=
  data ← gets c_input;
  cached ← gets c_cached_embedding;
  mode ← gets c_mode;
  cfg ← gets c_config;
  match cfg with
  | None => throw (PyError "AttributeError" "enrichment_enabled")
  | Some cfg =>
      let '(defer_embedding, defer_enrichment) :=
        if bool_decide (mode = Some "strong") then (false, false)
        else if bool_decide (mode = Some "fast") then (negb inline_embedding && bool_decide (cached = None), true)
        else (negb inline_embedding && bool_decide (cached = None), negb inline_enrichment) in
      let embed := bool_decide (cached = None) && negb defer_embedding && d_persist data in
      let enrich := negb defer_enrichment && enrichment_enabled cfg &&
                    negb (bool_decide (enrichment_provider cfg = "none")) in
      _ ← (if embed then emit (EEmbed (d_content data)) else mret tt);
      _ ← (if enrich then emit (EEnrich (d_content data)) else mret tt);
      n ← tick;
      match (if embed || enrich then embed_and_enrich n embed enrich (d_content data) else Results None None) with
      | TimedOut => throw TIMED_OUT
      | Raised e => throw e
      | Results emb enr =>
          _ ← modify (put_embedding (match cached with Some _ => cached | None => if embed then emb else None end));
          _ ← modify (put_enrichment (if enrich then enr else None));
          success
      end
  end.

Definition CLASSIFIER_DEPRECATED_MEMORY_TYPES : list string := ["semantic"; "intention"; "commitment"; "cancellation"].
Definition DEFAULT_MEMORY_TYPE : string := "fact".
Definition DEFAULT_MEMORY_WEIGHT : spec_float := S754_finite false 4503599627370496 (-53).

(** [if c: set_system_value(metadata, k, v, caller_keys=caller_keys)] *)
Definition record_if (c : bool) (k : string) (v : pyval) (caller_keys : list string) (m : meta) : result exn meta :=
  if c then set_system_value k v caller_keys m else Ok m.

(** A date of the enrichment fills a gap. *)
Definition resolve_date (caller : option string) (found : string) : result exn (option string) :=
  match caller with
  | Some d => Ok (Some d)
  | None => if bool_decide (found = "") then Ok None else d ← fromisoformat found; Ok (Some d)
  end.

Definition enrichment_metadata (e : enrichment_result) (caller_keys : list string) (m : meta) : result exn meta :=
  m ← record_if (negb (bool_decide (e_summary e = ""))) "summary" (PStr (e_summary e)) caller_keys m;
  m ← record_if (negb (bool_decide (e_tags e = []))) "tags" (str_list (e_tags e)) caller_keys m;
  m ← record_if (negb (e_llm_ms e =? 0)%Z) "llm_ms" (PInt (e_llm_ms e)) caller_keys m;
  m ← record_if (e_contains_pii e) "contains_pii" (PBool true) caller_keys m;
  m ← record_if (e_contains_pii e && negb (bool_decide (e_pii_types e = []))) "pii_types" (str_list (e_pii_types e)) caller_keys m;
  set_system_value "business_relevance" (PStr (e_business_relevance e)) caller_keys m.

(** The type and the weight a row gets, and who chose the weight. *)
Definition merged_type (data : memory_create) (enr : option enrichment_result) : string :=
  let memory_type := match d_memory_type data with
    | Some t => Some (if bool_decide (t ∈ CLASSIFIER_DEPRECATED_MEMORY_TYPES) then DEFAULT_MEMORY_TYPE else t)
    | None => e_memory_type <$> enr
    end in default DEFAULT_MEMORY_TYPE memory_type.
Definition merged_weight (data : memory_create) (enr : option enrichment_result) : spec_float * string :=
  match d_weight data with
  | Some w => (w, "caller")
  | None => match enr ≫= e_weight with Some w => (w, "llm") | None => (DEFAULT_MEMORY_WEIGHT, "default") end
  end.

Definition merge_enrichment_fields (data : memory_create) (enr : option enrichment_result) (mode : option string)
  : result exn memory_fields :=
  let metadata := default [] (d_metadata data) in
  let caller_keys := metadata.*1 in
  metadata ← mark_caller_owned caller_keys [] metadata;
  metadata ← match enr with Some e => enrichment_metadata e caller_keys metadata | None => Ok metadata end;
  ts_start ← resolve_date (d_ts_valid_start data) (from_option e_ts_valid_start "" enr);
  ts_end ← resolve_date (d_ts_valid_end data) (from_option e_ts_valid_end "" enr);
  metadata ← match mode with
             | Some w => record_if (negb (bool_decide (w = ""))) "write_mode" (PStr w) caller_keys metadata
             | None => Ok metadata
             end;
  metadata ← record_if (bool_decide (mode = Some "fast") && negb (bool_decide (is_Some enr))) "enrichment_pending" (PBool true) caller_keys metadata;
  metadata ← set_system_value "memory_type_agent_set" (PBool (bool_decide (is_Some (d_memory_type data)))) caller_keys metadata;
  metadata ← set_system_value "weight_source" (PStr (merged_weight data enr).2) caller_keys metadata;
  Ok (MemoryFields (merged_type data enr) (merged_weight data enr).1
        (match enr with Some e => if bool_decide (e_title e = "") then None else Some (e_title e) | None => None end)
        metadata ts_start ts_end (match d_status data with Some s => if bool_decide (s = "") then "active" else s | None => "active" end)).

Definition MergeEnrichmentFields : step :=
  data ← gets c_input;
  enr ← gets c_enrichment;
  mode ← gets c_mode;
  fields ← lift (merge_enrichment_fields data enr mode);
  _ ← modify (put_fields (Some fields));
  success.

(** [ctx.data["memory_fields"]], present once the merge has run. *)
Definition get_fields : M memory_fields :=
  f ← gets c_fields; match f with Some f => mret f | None => throw (PyError "KeyError" "memory_fields") end.
Definition get_config : M resolved_config :=
  c ← gets c_config; match c with Some c => mret c | None => throw (PyError "AttributeError" "tenant_config") end.

(** *** The hold *)

Definition HOLD_KEY : string := "hold".

Definition hold_value (h : hold) : pyval :=
  PDict [("reason", PStr "below_trust"); ("trust_level", PInt (h_trust_level h)); ("below_trust", PInt (h_below_trust h))].

(** [hold_for], over the agent's row. *)
Definition hold_of (data : memory_create) (cfg : resolved_config) (is_inferred : bool) : M (option hold) :=
  captured ← lift (capture_of (d_metadata data));
  let w := Write (d_agent_id data) (d_fleet_id data) is_inferred (bool_decide (is_Some captured)) in
  if is_inferred then mret None
  else if (level_for w cfg <=? 0)%Z then mret None
  else n ← tick; agent ← lift (agent_trust n); mret (verdict (level_for w cfg) (default 0%Z agent)).

Definition HoldLowTrustWrite : step :=
  data ← gets c_input;
  cfg ← get_config;
  is_inferred ← gets c_inferred;
  h ← hold_of data cfg is_inferred;
  match h with
  | None => success
  | Some h =>
      fields ← get_fields;
      enr ← gets c_enrichment;
      metadata ← lift (set_in_namespace HOLD_KEY (hold_value h) (mf_metadata fields));
      let metadata := match from_option e_atomic_facts [] enr with
                      | [] => metadata
                      | facts => dict_set "atomic_facts" (PList facts) metadata
                      end in
      _ ← modify (put_fields (Some (with_field_status QUARANTINED_MEMORY_STATUS (with_metadata metadata fields))));
      success
  end.

(** *** The model's verdict (strong mode) *)

Definition put_metadata (m : meta) (f : memory_fields) : M unit := modify (put_fields (Some (with_metadata m f))).

Definition llm_pii_decision (pii : _GovPII) (enr : enrichment_result) : M unit :=
  if pii_enabled pii && e_contains_pii enr then
    data ← gets c_input;
    write_mode ← gets c_mode;
    if bool_decide (pii_action pii = "drop") then
      _ ← emit_governance_audit ACTION_PII_DROP
            (llm_pii_audit_detail ACTION_PII_DROP (e_pii_types enr) (d_content data) write_mode None) true;
      throw (HTTPException 422 SENSITIVE_DETAIL)
    else
      fields ← get_fields;
      let m := dict_set "contains_pii" (PBool true) (mf_metadata fields) in
      let m := match e_pii_types enr with [] => m | l => dict_set "pii_types" (str_list l) m end in
      _ ← put_metadata m fields;
      emit_governance_audit ACTION_PII_FLAG
        (llm_pii_audit_detail ACTION_PII_FLAG (e_pii_types enr) (d_content data) write_mode
           (if bool_decide (pii_action pii = "mask") then Some ACTION_PII_MASK else None)) false
  else mret tt.

Definition non_business_decision (nb : _GovNB) (enr : enrichment_result) : M unit :=
  if nb_enabled nb && bool_decide (e_business_relevance enr = "personal") then
    data ← gets c_input;
    write_mode ← gets c_mode;
    if bool_decide (nb_disposition nb = "drop") then
      _ ← emit_governance_audit ACTION_NB_DROP (nonbusiness_audit_detail ACTION_NB_DROP (d_content data) write_mode) true;
      throw (HTTPException 422 NON_BUSINESS_DETAIL)
    else if bool_decide (nb_disposition nb = "keep_private") then
      _ ← modify (put_input (set_visibility "scope_agent" data));
      fields ← get_fields;
      _ ← put_metadata (dict_set NONBUSINESS_KEPT_PRIVATE_KEY (PBool true) (mf_metadata fields)) fields;
      emit_governance_audit ACTION_NB_KEEP_PRIVATE (nonbusiness_audit_detail ACTION_NB_KEEP_PRIVATE (d_content data) write_mode) false
    else mret tt
  else mret tt.

Definition GovernanceDecision : step :=
  cfg ← gets c_config;
  match cfg with
  | None => skipped
  | Some cfg =>
      let pii := governance_pii cfg in
      let nb := governance_non_business cfg in
      if negb (pii_enabled pii) && negb (nb_enabled nb) then skipped
      else
        enr ← gets c_enrichment;
        match enr with
        | Some enr =>
            if (e_llm_ms enr =? 0)%Z then
              fields ← get_fields;
              _ ← put_metadata (dict_set "governance_llm_uncertain" (PBool true) (mf_metadata fields)) fields; success
            else _ ← llm_pii_decision pii enr; _ ← non_business_decision nb enr; success
        | None =>
            fields ← get_fields;
            _ ← put_metadata (dict_set "governance_llm_uncertain" (PBool true) (mf_metadata fields)) fields; success
        end
  end.

(** *** The triple *)

Definition attempt_skip (m : step) : step :=
  r ← attempt m; match r with Ok r => mret r | Err _ => skipped end.

(** The phrase that ends furthest right, the first of equals, and the one that starts furthest left. *)
Definition furthest_end (ms : list (nat * nat * string)) (m : nat * nat * string) : nat * nat * string :=
  foldl (λ best m, if (best.1.2 <? m.1.2)%nat then m else best) m ms.
Definition furthest_start (ms : list (nat * nat * string)) (m : nat * nat * string) : nat * nat * string :=
  foldl (λ best m, if (m.1.1 <? best.1.1)%nat then m else best) m ms.

Definition emit_triple_for (data : memory_create) (predicate : string) (head_start : nat) (object_value : option string) : step :=
  let subject_links := filter (λ l, lower l.2 = "subject") (d_entity_links data) in
  let found (subject : option string) (o : string) : step :=
    _ ← modify (put_input (set_triple subject predicate o data)); success in
  match subject_links with
  | _ :: _ :: _ => skipped
  | [(entity, _)] => match object_value with Some o => found (Some entity) o | None => skipped end
  | [] =>
      match _infer_subject_token (d_content data) head_start, _infer_proper_noun_subject (d_content data) head_start, object_value with
      | Some token, _, Some o =>
          n ← tick;
          r ← lift (find_entity_by_exact_name n token);
          match r with
          | Some subject => found (Some subject) o
          | None => _ ← modify (put_pending (Some (token, predicate, o))); success
          end
      | None, Some name, Some o =>
          n ← tick;
          r ← lift (find_entity_by_exact_name n name);
          match r with Some subject => found (Some subject) o | None => skipped end
      | _, _, _ => skipped
      end
  end.

Definition EmitMemoryTriple : step :=
  cfg ← gets c_config;
  data ← gets c_input;
  if from_option (λ c, negb (triple_emission_enabled c)) false cfg then skipped
  else if bool_decide (is_Some (d_subject_entity_id data)) || bool_decide (is_Some (d_predicate data)) ||
          bool_decide (is_Some (d_object_value data)) then skipped
  else attempt_skip (
    match phrase_matches (d_content data) with
    | [] => skipped
    | m :: ms =>
        if bool_decide (Forall (λ x, x.2 = m.2) ms) then
          let match_ := furthest_end ms m in
          if bool_decide (match_.2 ∈ SINGLE_VALUE_PREDICATES)
          then emit_triple_for data match_.2 (furthest_start ms m).1.1 (object_after (d_content data) match_.1.2)
          else skipped
        else skipped
    end).

(** *** Near duplicates *)

Definition SEMANTIC_DEDUP_AUTO_THRESHOLD : spec_float := S754_finite false 8736983277098762 (-53).
Definition SEMANTIC_DEDUP_JUDGE_THRESHOLD : spec_float := S754_finite false 7656119366529843 (-53).
Definition DEDUP_JUDGE_CONFIDENCE_THRESHOLD : spec_float := S754_finite false 5404319552844595 (-53).
Definition _CONF_CLEAN : spec_float := S754_finite false 8106479329266893 (-53).
Definition _CONF_FALLBACK : spec_float := S754_finite false 4503599627370496 (-53).

Definition _judge_dedup (raw : pyval) : bool * spec_float :=
  match raw with
  | PDict raw =>
      match dict_get "is_duplicate" raw, dict_get "reason" raw with
      | Some (PBool is_dup), Some (PStr reason) =>
          if bool_decide (strip reason = "") then (false, _CONF_FALLBACK) else (is_dup, _CONF_CLEAN)
      | _, _ => (false, _CONF_FALLBACK)
      end
  | _ => (false, _CONF_FALLBACK)
  end.

(** [s.split()] *)
Fixpoint words (cur : string) (s : string) : list string :=
  match s with
  | "" => if bool_decide (cur = "") then [] else [cur]
  | String c s => if is_space c then (if bool_decide (cur = "") then words "" s else cur :: words "" s)
                  else words (cur +:+ String c "") s
  end.
Definition _fake_dedup_check (new_content old_content : string) : bool :=
  bool_decide (lower (String.concat " " (words "" new_content)) = lower (String.concat " " (words "" old_content))).

Definition _llm_dedup_check (new_content old_content : string) : M (bool * spec_float) :=
  n ← tick;
  _ ← emit (EJudge (str_take 500 new_content) (str_take 500 old_content));
  raw ← lift (judge_json n new_content old_content);
  mret (match raw with
        | Some raw => _judge_dedup raw
        | None => (_fake_dedup_check new_content old_content, _CONF_FALLBACK)
        end).

Definition _subjects_differ_with_certainty (left right : option string) : bool :=
  match left, right with Some l, Some r => negb (bool_decide (l = r)) | _, _ => false end.

Definition _find_semantic_duplicate (data : memory_create) (emb : embedding) (visibility : string) : M (option (mrow * spec_float)) :=
  query (λ n, memory_find_semantic_duplicate n (d_tenant_id data) (d_fleet_id data) emb visibility
                SEMANTIC_DEDUP_JUDGE_THRESHOLD (d_agent_id data)).
Definition visibility_of (data : memory_create) : string :=
  match d_visibility data with Some v => if bool_decide (v = "") then "scope_team" else v | None => "scope_team" end.

Definition near_409 (candidate : mrow) : exn := HTTPException 409 (near_message (m_id candidate)).

Definition CheckSemanticDuplicate : step :=
  data ← gets c_input;
  cfg ← get_config;
  emb ← gets c_embedding;
  fields ← get_fields;
  if negb (semantic_dedup_enabled cfg) then skipped
  else match emb with
  | None =>
      m ← lift (set_system_value "dedup_skipped_reason" (PStr "embedding_unavailable") [] (mf_metadata fields));
      _ ← put_metadata m fields;
      skipped
  | Some emb =>
      if _content_is_identifier_bearing (d_content data) then
        _ ← put_metadata (dict_set "dedup_skipped_reason" (PStr "identifier_prefilter") (mf_metadata fields)) fields;
        skipped
      else
        sem_dup ← _find_semantic_duplicate data emb (visibility_of data);
        match sem_dup with
        | None => success
        | Some (candidate, sim) =>
            if float_ge sim SEMANTIC_DEDUP_AUTO_THRESHOLD then throw (near_409 candidate)
            else
              pending ← gets c_pending;
              let pending_differs := bool_decide (is_Some pending) && bool_decide (is_Some (m_subject_entity_id candidate)) in
              if pending_differs || _subjects_differ_with_certainty (d_subject_entity_id data) (m_subject_entity_id candidate) then
                let m := dict_set "dedup_subject_preflight" (PStr "skipped_judge_subjects_differ") (mf_metadata fields) in
                _ ← put_metadata (dict_set "dedup_candidate_similarity" (PFloat sim) m) fields;
                success
              else
                '(is_dup, confidence) ← _llm_dedup_check (d_content data) (m_content candidate);
                let m := dict_set "dedup_judge_confidence" (PFloat confidence) (mf_metadata fields) in
                _ ← put_metadata (dict_set "dedup_candidate_similarity" (PFloat sim) m) fields;
                if is_dup && float_ge confidence DEDUP_JUDGE_CONFIDENCE_THRESHOLD then throw (near_409 candidate) else success
        end
  end.

(** [str(x or "")] of an optional pointer *)
Definition or_blank : option string → string := default "".

Definition _same_claim (new : memory_create) (candidate : mrow) : bool :=
  match d_subject_entity_id new, d_predicate new with
  | Some new_subject, Some new_predicate =>
      if bool_decide (new_subject = "") || bool_decide (new_predicate = "") then false
      else if negb (bool_decide (new_predicate ∈ SINGLE_VALUE_PREDICATES)) then false
      else if negb (bool_decide (new_subject = or_blank (m_subject_entity_id candidate))) then false
      else if negb (bool_decide (new_predicate = or_blank (m_predicate candidate))) then false
      else match d_object_value new, m_object_value candidate with
           | Some o, Some o' =>
               if bool_decide (o = "") || bool_decide (o' = "") then false
               else negb (bool_decide (casefold (strip o) = casefold (strip o')))
           | _, _ => false
           end
  | _, _ => false
  end.

Definition DetectNearDuplicate : step :=
  data ← gets c_input;
  cfg ← get_config;
  emb ← gets c_embedding;
  fields ← get_fields;
  match emb with
  | Some emb =>
      if negb (semantic_dedup_enabled cfg) then skipped
      else if _content_is_identifier_bearing (d_content data) then
        _ ← put_metadata (dict_set "near_dup_skipped_reason" (PStr "identifier_prefilter") (mf_metadata fields)) fields;
        skipped
      else
        sem_dup ← _find_semantic_duplicate data emb (visibility_of data);
        match sem_dup with
        | None => success
        | Some (candidate, sim) =>
            let m := dict_set "near_duplicate_of" (PStr (m_id candidate)) (mf_metadata fields) in
            let m := dict_set "near_duplicate_similarity" (PFloat (round4 sim)) m in
            if negb (merge_near_duplicates cfg) then _ ← put_metadata m fields; success
            else if negb (bool_decide (m_status candidate ∈ ["active"; "confirmed"])) then
              _ ← put_metadata (dict_set "near_dup_merge_skipped" (PStr "candidate_not_live") m) fields; success
            else if negb (_same_claim data candidate) then
              _ ← put_metadata (dict_set "near_dup_merge_skipped" (PStr "not_same_claim") m) fields; success
            else
              _ ← modify (put_merge (Some (m_id candidate)));
              m ← lift (set_system_value "near_duplicate_merge_pending" (PBool true) [] m);
              _ ← put_metadata m fields;
              success
        end
  | None => skipped
  end.

(** *** The row *)

Definition _LINK_BULK_CHUNK : nat := 500.

(** What the bulk call answers of one link: persisted when it has an entry without an error. *)
Definition link_persisted (results : list (nat * option string)) (idx : nat) : bool :=
  match find (λ r, bool_decide (r.1 = idx)) (reverse results) with
  | Some (_, error) => bool_decide (default "" error = "")
  | None => false
  end.

(** The links of [links], in chunks, with what became of each; [fuel] is the number of links. *)
Fixpoint write_entity_links (fuel : nat) (memory : string) (links : list (string * string))
  : M (list (string * string) * list (string * string)) :=
  match fuel, links with
  | 0%nat, _ | _, [] => mret ([], [])
  | S fuel, _ =>
      let chunk := take _LINK_BULK_CHUNK links in
      n ← tick;
      r ← attempt (lift (bulk_upsert_entity_links n chunk));
      let indexed := zip (seq 0 (length chunk)) chunk in
      let ok (il : nat * (string * string)) : bool := match r with Ok results => link_persisted results il.1 | Err _ => false end in
      let linked := (filter (λ il, ok il = true) indexed).*2 in
      let failed := (filter (λ il, ok il = false) indexed).*2 in
      _ ← modify (λ c, put_log (c_log c ++ ((λ l, ELink memory l.1) <$> linked)) c);
      '(ls, fs) ← write_entity_links fuel memory (drop _LINK_BULK_CHUNK links);
      mret (linked ++ ls, failed ++ fs)
  end.

(** The payload of the insert, and the hold its metadata carries. *)
Definition memory_data (n : nat) (data : memory_create) (f : memory_fields) (emb : option embedding)
    (ch : option string) (is_inferred : bool) : mrow :=
  MRow (new_id n) (now n) false None (d_tenant_id data) (d_fleet_id data) (d_agent_id data) (mf_memory_type f)
    (mf_title f) (d_content data) emb (mf_weight f) (mf_metadata f) ch (d_subject_entity_id data) (d_predicate data)
    (d_object_value data) (mf_ts_valid_start f) (mf_ts_valid_end f) (mf_status f) (visibility_of data) is_inferred
    (d_other data).

(** [HOLD_KEY in (metadata.get("_system") or {})] *)
Definition is_held (m : meta) : bool :=
  match namespace m with Ok nested => dict_mem HOLD_KEY nested | Err _ => false end.
Definition claim_of (m : meta) (cfg : resolved_config) (is_inferred : bool) : option version :=
  p_settings_version (claim_settings (if is_held m then Some (Hold 0 0) else None) cfg is_inferred).

(** One POST of the row as the context has it; a refusal is an answer. *)
Definition post_memory : M (insert_reply * option mrow) :=
  data ← gets c_input;
  fields ← get_fields;
  emb ← gets c_embedding;
  ch ← gets c_hash;
  is_inferred ← gets c_inferred;
  cfg ← get_config;
  let claim := claim_of (mf_metadata fields) cfg is_inferred in
  r ← attempt (call (λ n db,
        let r := memory_data n data fields emb ch is_inferred in
        let '(reply, db) := memory_add n claim r db in
        match reply with Inserted => ((reply, Some r), db, [EInsert r]) | _ => ((reply, None), db, []) end));
  mret (match r with
        | Ok a => a
        | Err (PyError _ m) => (Unreachable m, None)
        | Err (HTTPException _ m) => (Unreachable m, None)
        end).

(** [decide_again]: the hold decided under the settings fresh from storage. *)
Definition decide_hold_again : M unit :=
  n ← tick;
  cfg ← lift (reload_at n);
  _ ← modify (put_config (Some cfg));
  _ ← HoldLowTrustWrite;
  mret tt.

(** [insert_deciding_again], and what [WriteMemoryRow] raises of its answer. *)
Definition insert_row : M mrow :=
  '(reply, row) ← post_memory;
  '(reply, row) ← (match reply with
                   | StorageSettingsChangedError => _ ← decide_hold_again; post_memory
                   | _ => mret (reply, row)
                   end);
  _ ← lift (raised_by reply);
  match row with Some r => mret r | None => throw (PyError "KeyError" "memory") end.

Definition WriteMemoryRow : step :=
  data ← gets c_input;
  emb ← gets c_embedding;
  fields ← get_fields;
  _ ← (match emb with
       | None => m ← lift (set_system_value "embedding_pending" (PBool true) [] (mf_metadata fields)); put_metadata m fields
       | Some _ => mret tt
       end);
  memory ← insert_row;
  '(linked, failures) ← write_entity_links (length (d_entity_links data)) (m_id memory) (d_entity_links data);
  _ ← modify (put_linked linked);
  _ ← modify (put_link_failures failures);
  _ ← (if audit_hook then emit (EAudit "create" [("memory_type", PStr (mf_memory_type fields));
          ("title", opt_str (mf_title fields)); ("content_length", PInt (str_len (d_content data)))] false)
       else mret tt);
  _ ← modify (put_row (Some memory));
  success.

(** *** After the row *)

Definition with_row_status (s : string) (r : mrow) : mrow :=
  MRow (m_id r) (m_created_at r) (m_deleted r) (m_supersedes_id r) (m_tenant_id r) (m_fleet_id r) (m_agent_id r)
    (m_memory_type r) (m_title r) (m_content r) (m_embedding r) (m_weight r) (m_metadata r) (m_content_hash r)
    (m_subject_entity_id r) (m_predicate r) (m_object_value r) (m_ts_valid_start r) (m_ts_valid_end r) s
    (m_visibility r) (m_is_inferred r) (m_other r).
Definition with_row_supersedes (s : option string) (r : mrow) : mrow :=
  MRow (m_id r) (m_created_at r) (m_deleted r) s (m_tenant_id r) (m_fleet_id r) (m_agent_id r)
    (m_memory_type r) (m_title r) (m_content r) (m_embedding r) (m_weight r) (m_metadata r) (m_content_hash r)
    (m_subject_entity_id r) (m_predicate r) (m_object_value r) (m_ts_valid_start r) (m_ts_valid_end r) (m_status r)
    (m_visibility r) (m_is_inferred r) (m_other r).
Definition with_row_triple (e p o : string) (r : mrow) : mrow :=
  MRow (m_id r) (m_created_at r) (m_deleted r) (m_supersedes_id r) (m_tenant_id r) (m_fleet_id r) (m_agent_id r)
    (m_memory_type r) (m_title r) (m_content r) (m_embedding r) (m_weight r) (m_metadata r) (m_content_hash r)
    (Some e) (Some p) (Some o) (m_ts_valid_start r) (m_ts_valid_end r) (m_status r)
    (m_visibility r) (m_is_inferred r) (m_other r).
Definition with_row_metadata (m : meta) (r : mrow) : mrow :=
  MRow (m_id r) (m_created_at r) (m_deleted r) (m_supersedes_id r) (m_tenant_id r) (m_fleet_id r) (m_agent_id r)
    (m_memory_type r) (m_title r) (m_content r) (m_embedding r) (m_weight r) m (m_content_hash r)
    (m_subject_entity_id r) (m_predicate r) (m_object_value r) (m_ts_valid_start r) (m_ts_valid_end r) (m_status r)
    (m_visibility r) (m_is_inferred r) (m_other r).

(** [UPDATE memories SET ... WHERE id = ? AND ...]: the table, and whether a row matched. *)
Definition update_where (p : mrow → bool) (f : mrow → mrow) (db : list mrow) : bool * list mrow :=
  (existsb p db, (λ r, if p r then f r else r) <$> db).
Definition is_row (id tenant : string) (r : mrow) : bool :=
  bool_decide (m_id r = id) && bool_decide (m_tenant_id r = tenant) && live r.
Definition not_held (r : mrow) : bool := negb (bool_decide (m_status r = QUARANTINED_MEMORY_STATUS)).

Definition update_memory (id tenant : string) (fields : meta) (f : mrow → mrow) : M bool :=
  call (λ _ db, let '(found, db) := update_where (is_row id tenant) f db in
                (found, db, if found then [EPatch id fields] else [])).

(** [memory_set_supersedes_if_null] *)
Definition set_supersedes_if_null (id tenant old : string) : M bool :=
  call (λ _ db,
    let target := existsb (λ r, bool_decide (m_id r = old) && bool_decide (m_tenant_id r = tenant)) db in
    let '(found, db) := update_where (λ r, is_row id tenant r && not_held r && bool_decide (m_supersedes_id r = None) && target)
                          (with_row_supersedes (Some old)) db in
    (found, db, if found then [ESupersede id old] else [])).

(** [memory_update_status] with no pointer. *)
Definition retire (id tenant : string) : M bool :=
  call (λ _ db, let '(found, db) := update_where (λ r, is_row id tenant r && not_held r) (with_row_status "outdated") db in
                (found, db, if found then [ERetire id] else [])).

Definition CreatePendingSubject : step :=
  pending ← gets c_pending;
  match pending with
  | None => skipped
  | Some (name, predicate, object_value) =>
      data ← gets c_input;
      row ← gets c_row;
      _ ← emit (EEntity name);
      n ← tick;
      entity ← attempt (lift (upsert_entity n name));
      match entity, row with
      | Ok entity, Some row =>
          let triple := [("subject_entity_id", PStr entity); ("predicate", PStr predicate); ("object_value", PStr object_value)] in
          stored ← attempt (update_memory (m_id row) (d_tenant_id data) triple (with_row_triple entity predicate object_value));
          match stored with
          | Ok true =>
              _ ← modify (put_input (set_triple (Some entity) predicate object_value data));
              _ ← modify (put_row (Some (with_row_triple entity predicate object_value row)));
              success
          | _ => skipped
          end
      | _, _ => skipped
      end
  end.

(** [_record_merge]: the outcome on the row, as far as it can be recorded, and the patch. *)
Definition merge_patch (skipped_reason : option string) : result exn meta :=
  p ← set_system_value "near_duplicate_merge_pending" PNone [] [];
  match skipped_reason with
  | None => set_system_value "near_duplicate_merged" (PBool true) [] p
  | Some reason => set_system_value "near_dup_merge_skipped" (PStr reason) [] p
  end.
(** [_merged_metadata]: the patch over the stored keys, its namespace over the stored one's. *)
Definition _merged_metadata (stored patch : meta) : meta :=
  foldl (λ m kv, if bool_decide (kv.1 = SYSTEM_NAMESPACE)
                 then match dict_get SYSTEM_NAMESPACE m, kv.2 with
                      | Some (PDict old), PDict new => dict_set SYSTEM_NAMESPACE (PDict (dict_update old new)) m
                      | _, v => dict_set SYSTEM_NAMESPACE v m
                      end
                 else dict_set kv.1 kv.2 m) stored patch.
Definition _record_merge (new_id tenant : string) (skipped_reason : option string) : M meta :=
  patch ← lift (merge_patch skipped_reason);
  _ ← attempt (update_memory new_id tenant patch (λ r, with_row_metadata (_merged_metadata (m_metadata r) patch) r));
  mret patch.

Definition _merge_near_duplicate (new_id candidate_id tenant : string) : M meta :=
  linked ← attempt (set_supersedes_if_null new_id tenant candidate_id);
  match linked with
  | Err _ => _record_merge new_id tenant (Some "link_failed")
  | Ok false => _record_merge new_id tenant (Some "not_linked")
  | Ok true =>
      retired ← attempt (retire candidate_id tenant);
      match retired with
      | Ok true => _record_merge new_id tenant None
      | _ => _record_merge new_id tenant (Some "candidate_not_retired")
      end
  end.

Definition enrichment_on (cfg : resolved_config) : bool :=
  enrichment_enabled cfg && negb (bool_decide (enrichment_provider cfg = "none")).
Definition task_if (c : bool) (name : string) : M unit := if c then emit (ETask name) else mret tt.

(** [ctx.data["memory"]], present once the row is written. *)
Definition get_row : M mrow :=
  r ← gets c_row; match r with Some r => mret r | None => throw (PyError "KeyError" "memory") end.

Definition ScheduleBackgroundTasks : step :=
  data ← gets c_input;
  cfg ← get_config;
  memory ← get_row;
  emb ← gets c_embedding;
  enr ← gets c_enrichment;
  mode ← gets c_mode;
  merge ← gets c_merge;
  _ ← (match merge with
       | Some target =>
           if negb (bool_decide (m_status memory = QUARANTINED_MEMORY_STATUS)) then
             patch ← _merge_near_duplicate (m_id memory) target (d_tenant_id data);
             modify (put_row (Some (with_row_metadata (_merged_metadata (m_metadata memory) patch) memory)))
           else mret tt
       | None => mret tt
       end);
  let no_embedding := bool_decide (emb = None) in
  if bool_decide (mode = Some "fast") then
    _ ← task_if (enrichment_on cfg) "background_enrichment";
    _ ← task_if (entity_extraction_enabled cfg) "entity_extraction";
    _ ← task_if (negb no_embedding) "contradiction_detection";
    _ ← task_if no_embedding "embed_or_publish";
    success
  else
    _ ← task_if (negb (bool_decide (is_Some enr)) && negb inline_enrichment && enrichment_on cfg) "enrich_or_publish";
    _ ← task_if (negb (bool_decide (from_option e_atomic_facts [] enr = [])) &&
                 negb (bool_decide (m_status memory = QUARANTINED_MEMORY_STATUS))) "atomic_fact_fanout";
    _ ← task_if (entity_extraction_enabled cfg) "entity_extraction";
    _ ← task_if no_embedding "embed_or_publish";
    _ ← task_if (negb no_embedding) "contradiction_detection";
    success.

(** *** Short-term memory *)

Definition no_fleet_detail (visibility : string) : string :=
  "A " +:+ visibility +:+ " short-term write goes to a fleet bulletin, and neither the request nor the agent names a fleet. " +:+
  "Pass fleet_id, or write with visibility='scope_agent' to keep it in the agent's own notes.".
Definition STM_UNAVAILABLE_DETAIL : string :=
  "Short-term memory is temporarily unavailable and the entry was not stored. Retry shortly; nothing was written.".

Definition ResolveSTMTarget : step :=
  data ← gets c_input;
  let visibility := match d_visibility data with Some v => if bool_decide (v = "") then "scope_agent" else v | None => "scope_agent" end in
  if bool_decide (visibility = "scope_agent") then _ ← modify (put_stm_target (Some "notes")); success
  else if bool_decide (default "" (d_fleet_id data) = "") then throw (HTTPException 422 (no_fleet_detail visibility))
  else _ ← modify (put_stm_target (Some "bulletin")); success.

Definition WriteSTMNote : step :=
  data ← gets c_input;
  target ← gets c_stm_target;
  match target with
  | None => throw (PyError "KeyError" "stm_target")
  | Some target =>
      n ← tick;
      stored ← lift (stm_post n target);
      if negb stored then throw (HTTPException 503 STM_UNAVAILABLE_DETAIL)
      else
        _ ← emit (EStm target (d_content data));
        _ ← modify (put_stm_response (Some (new_id n)));
        success
  end.
End Steps.
