(* ===== verification/WritePipeline.v ===== *)
(** * The write pipeline

    [core-api/.../pipeline/compositions/write.py] and the branch of
    [services/memory_service.py] from [create_memory] to the row: which steps a write runs, in
    which order, and what leaves the write when one raises. The multi-fact branch of a long document
    ([_handle_auto_chunk_from_ctx]) is where the model stops: it is given the context as the
    enrichment steps left it. *)

From Stdlib Require Import Floats.SpecFloat.
From S2P Require Import Prelude PyStr PyVal Governance Pipeline WriteHold WriteMetadata WriteSteps.

#[local] Open Scope string_scope.
#[local] Open Scope list_scope.

(** ** Compositions *)

Section Write.
Context {settings : Settings} {services : Services} {patterns : Patterns}.

Abbreviation step := (M (option step_result)).

Definition build_enrichment_pipeline : list step :=
  [CheckContentLength; LoadTenantConfig; GovernanceScanContent; BusinessPersonalPregate; ComputeContentHash;
   CheckExactDuplicate; ParallelEmbedEnrich; MergeEnrichmentFields; HoldLowTrustWrite].

Definition build_fast_write_pipeline : list step :=
  [CheckContentLength; LoadTenantConfig; GovernanceScanContent; BusinessPersonalPregate; ComputeContentHash;
   CheckExactDuplicate; ParallelEmbedEnrich; MergeEnrichmentFields; HoldLowTrustWrite; EmitMemoryTriple;
   DetectNearDuplicate; WriteMemoryRow; CreatePendingSubject; ScheduleBackgroundTasks].

Definition build_stm_write_pipeline : list step :=
  [CheckContentLength; GovernanceScanContent; ResolveSTMTarget; WriteSTMNote].

Definition build_strong_write_pipeline : list step :=
  [CheckContentLength; LoadTenantConfig; GovernanceScanContent; BusinessPersonalPregate; ComputeContentHash;
   CheckExactDuplicate; ParallelEmbedEnrich; MergeEnrichmentFields; HoldLowTrustWrite; GovernanceDecision;
   EmitMemoryTriple; CheckSemanticDuplicate; WriteMemoryRow; CreatePendingSubject; ScheduleBackgroundTasks].

(** [result = await pipeline.run(ctx)], and a 500 for a failed one. *)
Definition run_pipeline (ss : list step) (failure : string) : M unit := λ c,
  match run ss c with
  | (Ok r, c) => (if failed r then Err (HTTPException 500 failure) else Ok tt, c)
  | (Err e, c) => (Err e, c)
  end.

(** ** One write *)

Definition CHUNKING_THRESHOLD_CHARS : nat := 2000.
Definition _STRONG_TYPES : list string := ["decision"; "commitment"; "cancellation"].
Definition STM_DISABLED_DETAIL : string := "Short-term memory is not available on this deployment.".
Definition WRITE_FAILED : string := "Memory write pipeline failed unexpectedly".
Definition ENRICHMENT_FAILED : string := "Memory enrichment pipeline failed unexpectedly".
Definition STM_FAILED : string := "STM write pipeline failed unexpectedly".

Definition _resolve_write_mode (data : memory_create) (cfg : resolved_config) : string :=
  match d_write_mode data with
  | Some mode =>
      if bool_decide (mode ∈ ["fast"; "strong"; "stm"]) then mode
      else if bool_decide (d_memory_type data ∈ Some <$> _STRONG_TYPES) then "strong" else default_write_mode cfg
  | None => if bool_decide (d_memory_type data ∈ Some <$> _STRONG_TYPES) then "strong" else default_write_mode cfg
  end.

(** A new [PipelineContext] over the same storage. *)
Definition pipeline_context (data : memory_create) (cfg : option resolved_config) (mode : option string) (is_inferred : bool)
    (c : ctx) : ctx :=
  Ctx data cfg mode is_inferred None None None None None None None None [] [] None None (c_db c) (c_clock c) (c_log c).

Inductive write_outcome : Type :=
| Created (memory : mrow) (entity_links : list (string * string))
| Preview (fields : memory_fields)
| AutoChunk (fields : memory_fields)
| StmWritten (id : string).

Definition _run_write_pipeline (data : memory_create) (is_inferred : bool) : M write_outcome :=
  if bool_decide (d_write_mode data = Some "stm") then
    if negb use_stm then throw (HTTPException 422 STM_DISABLED_DETAIL)
    else
      cfg ← resolve_tenant_config;
      _ ← modify (pipeline_context data (Some cfg) None false);
      _ ← run_pipeline build_stm_write_pipeline STM_FAILED;
      id ← gets c_stm_response;
      match id with Some id => mret (StmWritten id) | None => throw (PyError "KeyError" "stm_response") end
  else
    cfg ← resolve_tenant_config;
    if negb (d_persist data) ||
       ((CHUNKING_THRESHOLD_CHARS <? String.length (d_content data))%nat && auto_chunk_enabled cfg) then
      _ ← modify (pipeline_context data None None is_inferred);
      _ ← run_pipeline build_enrichment_pipeline ENRICHMENT_FAILED;
      fields ← get_fields;
      mret (if d_persist data then AutoChunk fields else Preview fields)
    else
      let mode := _resolve_write_mode data cfg in
      _ ← modify (pipeline_context data (Some cfg) (Some mode) is_inferred);
      _ ← run_pipeline (if bool_decide (mode = "fast") then build_fast_write_pipeline else build_strong_write_pipeline)
            WRITE_FAILED;
      memory ← get_row;
      linked ← gets c_linked;
      mret (Created memory linked).

(** The request as the pipeline gets it: metadata sanitised, an automatic capture marked and
    private, the values of an internal writer set. *)
Definition admit_metadata (conversation : pyval) (system_values : list (string * pyval)) (data : memory_create)
  : result exn memory_create :=
  data ← (match d_metadata data with
          | None | Some [] => Ok data
          | m =>
              '(m, captured) ← stamp_capture conversation (Some (sanitize_caller_metadata m));
              let data := set_metadata m data in
              Ok (if captured : bool then set_visibility CAPTURED_VISIBILITY data else data)
          end);
  match system_values with
  | [] => Ok data
  | _ => m ← platform_writes [] system_values (default [] (d_metadata data)); Ok (set_metadata (Some m) data)
  end.

Definition create_memory (data : memory_create) (is_inferred : bool) (conversation : pyval)
    (system_values : list (string * pyval)) : M write_outcome :=
  if bool_decide (d_agent_id data = "") then throw (PyError "ValueError" "agent_id must be resolved before calling create_memory")
  else match reserved_write_refusal (d_agent_id data) with
  | Some detail => throw (HTTPException 409 detail)
  | None =>
      data ← lift (admit_metadata conversation system_values data);
      _run_write_pipeline data is_inferred
  end.
End Write.
