(* ===== verification/WriteExample.v ===== *)
(** * A deployment to try writes on

    Concrete settings, services and patterns for [WriteSteps]: one organization that masks what its
    one rule finds, storage that nobody else writes to and that always answers, models that answer
    the same to everything. The witnesses of the theorems about writes are evaluated on it. *)

From Stdlib Require Import Floats.SpecFloat.
From S2P Require Import Prelude PyStr PyVal Governance Pipeline WriteHold WriteMetadata WriteSteps WritePipeline.

#[local] Open Scope string_scope.
#[local] Open Scope list_scope.

Definition example_settings : Settings := {|
  use_llm_for_memory_creation := true; entity_extraction_provider := "openai";
  inline_embedding := true; inline_enrichment := true; use_stm := true; audit_hook := true;
  reserved_write_refusal := λ _, None
|}.

(** PII is masked; near duplicates are merged. *)
Definition example_config : resolved_config :=
  ResolvedConfig (Overrides (QuarantineSection None ∅)
    [("governance", PDict [("pii", PDict [("enabled", PBool true); ("action", PStr "mask")])]);
     ("dedup", PDict [("merge_near_duplicates", PBool true)])]) (Some NO_SETTINGS).

(** [near] is how similar everything is, and [verdict] what the judge says. *)
Definition example_services_of (near : spec_float) (verdict : option pyval) : Services := {|
  others := λ _ db, db; lost := λ _, None; new_id := λ n, str_of_Z (Z.of_nat n); now := Z.of_nat;
  known_entity := λ _ _ _, true; settings_row_at := λ _, None; nearest := λ _ _ _, 0; similarity := λ _ _, near;
  config_at := λ _, Ok example_config; reload_at := λ _, Ok example_config; agent_trust := λ _, Ok (Some 5%Z);
  tenant_model := λ _, None; audit_down := λ _, None;
  classify_business_personal := λ _ _, BusinessVerdict "business" zero None None;
  embed_and_enrich := λ _ embed _ _, Results (if embed then Some [zero] else None) None;
  judge_json := λ _ _ _, Ok verdict; find_entity_by_exact_name := λ _ _, Ok None; upsert_entity := λ _ s, Ok s;
  bulk_upsert_entity_links := λ _ ls, Ok ((λ i, (i, None)) <$> seq 0 (length ls)); stm_post := λ _ _, Ok true
|}.
Definition example_services : Services := example_services_of (S754_infinity true) None.

(** The only rule finds nine digits in a row. *)
Definition nine_digits (t : text) : list (nat * nat) :=
  omap (λ i, let w := take 9 (drop i t) in
             if (length w =? 9)%nat && forallb is_digit w then Some (i, (i + 9)%nat) else None) (seq 0 (length t)).
Definition example_patterns : Patterns := {|
  _RULES := [{| r_category := NATIONAL_ID; r_severity := HIGH; matches := nine_digits; validator := None |}];
  _URL_PASSWORD := λ _, []; _content_is_identifier_bearing := λ _, false; phrase_matches := λ _, [];
  _infer_subject_token := λ _ _, None; _infer_proper_noun_subject := λ _ _, None; object_after := λ _ _, None;
  casefold := lower; fromisoformat := Ok; round4 := id
|}.

Definition example_request (content : string) (mode : option string) : memory_create :=
  MemoryCreate "acme" None "ada" content None None None None None true mode None None None [("e1", "subject")] None None [].

Definition example_context (d : memory_create) (db : list mrow) : ctx :=
  Ctx d None None false None None None None None None None None [] [] None None db 0 [].

#[local] Existing Instances example_settings example_services example_patterns.

(** A number to be masked, and the row it is stored as. *)
Definition example_number : memory_create := example_request "my number is 123456789, keep it" (Some "strong").
Definition example_row : mrow :=
  Eval vm_compute in default (memory_data 0 example_number (MemoryFields "" zero None [] None None "") None None false)
    (head (omap (λ e, match e with EInsert r => Some r | _ => None end)
       (c_log (create_memory example_number false PNone [] (example_context example_number [])).2))).
