(* ===== verification/WriteLogic.v ===== *)
(** * A logic for write steps

    A Hoare logic over the programs of [WriteSteps] ([triple], [wp]), the invariant of the steps
    before the row ([at_view]: what the write has sent out is of an allowed kind, the table keeps a
    property the other writers keep, and the part of the context that decides the row is as it was),
    and runs of steps ([advances]). *)

From S2P Require Import Prelude PyStr PyVal Sha256 Governance Pipeline WriteHold WriteMetadata WriteSteps WritePipeline.

#[local] Open Scope string_scope.
#[local] Open Scope list_scope.

(** ** Triples *)

(** [m] keeps [I]; what it returns satisfies [Q] and what it raises [E]. *)
Definition triple {A} (I : ctx → Prop) (E : exn → Prop) (m : M A) (Q : A → Prop) : Prop :=
  ∀ c, I c → I (m c).2 ∧ match (m c).1 with Ok a => Q a | Err e => E e end.

Definition anything {A} (a : A) : Prop := True.

Section Triple.
Context (I : ctx → Prop) (E : exn → Prop).

Lemma triple_ret {A} (a : A) (Q : A → Prop) : Q a → triple I E (mret a) Q.
Proof. intros H c Hc. by split. Qed.
Lemma triple_bind {A B} (m : M A) (f : A → M B) Q Q' :
  triple I E m Q → (∀ a, Q a → triple I E (f a) Q') → triple I E (m ≫= f) Q'.
Proof.
  intros Hm Hf c Hc. destruct (Hm c Hc) as [H1 H2]. unfold mbind, M_bind.
  destruct (m c) as [[a|e] c']; cbn in *; [by apply Hf|done].
Qed.
Lemma triple_seq {A B} (m : M A) (f : A → M B) Q' :
  triple I E m anything → (∀ a, triple I E (f a) Q') → triple I E (m ≫= f) Q'.
Proof. intros Hm Hf. by eapply triple_bind. Qed.
Lemma triple_throw {A} e (Q : A → Prop) : E e → triple I E (throw e) Q.
Proof. intros H c Hc. by split. Qed.
Lemma triple_lift {A} (r : result exn A) Q :
  match r with Ok a => Q a | Err e => E e end → triple I E (lift r) Q.
Proof. intros H c Hc. by split. Qed.
Lemma triple_gets {A} (f : ctx → A) Q : (∀ c, I c → Q (f c)) → triple I E (gets f) Q.
Proof. intros H c Hc. split; [done|]. by apply H. Qed.
Lemma triple_modify f (Q : unit → Prop) : (∀ c, I c → I (f c)) → Q tt → triple I E (modify f) Q.
Proof. intros H HQ c Hc. split; [by apply H|done]. Qed.
Lemma triple_weaken {A} (E' : exn → Prop) (m : M A) (Q Q' : A → Prop) :
  (∀ e, E e → E' e) → (∀ a, Q a → Q' a) → triple I E m Q → triple I E' m Q'.
Proof. intros HE HQ H c Hc. destruct (H c Hc) as [H1 H2]. split; [done|]. destruct (m c).1; auto. Qed.
End Triple.

Lemma triple_attempt {A} I (E E' : exn → Prop) (m : M A) Q : triple I E m Q → triple I E' (attempt m) (λ r, match r with Ok a => Q a | Err e => E e end).
Proof. intros H c Hc. destruct (H c Hc) as [H1 H2]. unfold attempt. destruct (m c) as [r c']. by split. Qed.

(** The outcome of [m] from [c] satisfies [Q]. *)
Definition wp {A} (m : M A) (Q : result exn A → ctx → Prop) (c : ctx) : Prop := Q (m c).1 (m c).2.

Section Wp.
Context {A B : Type} (Q : result exn A → ctx → Prop).

Lemma wp_bind (m : M B) (f : B → M A) c :
  wp m (λ r c', match r with Ok b => wp (f b) Q c' | Err e => Q (Err e) c' end) c → wp (m ≫= f) Q c.
Proof. unfold wp, mbind, M_bind. by destruct (m c) as [[b|e] c']. Qed.
Lemma wp_gets (f : ctx → B) (k : B → M A) c : wp (k (f c)) Q c → wp (gets f ≫= k) Q c.
Proof. done. Qed.
Lemma wp_modify (f : ctx → ctx) (k : unit → M A) c : wp (k tt) Q (f c) → wp (modify f ≫= k) Q c.
Proof. done. Qed.
Lemma wp_tick (k : nat → M A) c : wp (k (c_clock c)) Q (put_clock (S (c_clock c)) c) → wp (tick ≫= k) Q c.
Proof. done. Qed.
Lemma wp_lift (r : result exn B) (k : B → M A) c :
  match r with Ok b => wp (k b) Q c | Err e => Q (Err e) c end → wp (lift r ≫= k) Q c.
Proof. by destruct r. Qed.
Lemma wp_ret (a : A) c : Q (Ok a) c → wp (mret a) Q c.
Proof. done. Qed.
Lemma wp_throw e c : Q (Err e) c → wp (throw e) Q c.
Proof. done. Qed.
Lemma wp_triple (I : ctx → Prop) E (m : M A) Q' c :
  triple I E m Q' → I c → (∀ a c', I c' → Q' a → Q (Ok a) c') → (∀ e c', I c' → E e → Q (Err e) c') → wp m Q c.
Proof. intros Hm Hc H1 H2. destruct (Hm c Hc). unfold wp. destruct (m c) as [[] c']; cbn in *; auto. Qed.
Lemma wp_mono (Q' : result exn A → ctx → Prop) (m : M A) c :
  wp m Q' c → (∀ r c', Q' r c' → Q r c') → wp m Q c.
Proof. intros H HQ. by apply HQ. Qed.
End Wp.

#[local] Arguments _content_hash : simpl never.
#[local] Arguments _content_sha256 : simpl never.
#[local] Arguments pii_audit_detail : simpl never.

Definition any_exn (e : exn) : Prop := True.
Definition no_exn (e : exn) : Prop := False.

(** A step succeeds or skips. *)
Definition unfailed (r : option step_result) : Prop := outcome (default (StepResult SUCCESS None) r) ≠ FAILED.

Lemma wp_attempt {A} (m : M A) (Q : result exn (result exn A) → ctx → Prop) c :
  wp m (λ r c', Q (Ok r) c') c → wp (attempt m) Q c.
Proof. unfold wp, attempt. by destruct (m c). Qed.

(** A call of storage: lost before it ran, or it ran, and then its answer may be lost. *)
Lemma wp_call `{services : Services} {A} (f : nat → list mrow → A * list mrow * list effect) (Q : result exn A → ctx → Prop) c :
  let c0 := put_clock (S (c_clock c)) (put_db (others (c_clock c) (c_db c)) c) in
  (∀ m, Q (Err (PyError "HTTPError" m)) c0) →
  (∀ a db es, f (c_clock c) (c_db c0) = (a, db, es) →
     Q (Ok a) (put_log (c_log c ++ es) (put_db db c0)) ∧
     ∀ m, Q (Err (PyError "HTTPError" m)) (put_log (c_log c ++ es) (put_db db c0))) →
  wp (call f) Q c.
Proof.
  intros c0 H1 H2. unfold wp, call. fold c0. cbv zeta. change (c_log c0) with (c_log c).
  destruct (f (c_clock c) (c_db c0)) as [[a db] es]. destruct (H2 _ _ _ eq_refl).
  destruct (lost (c_clock c)) as [[[] m]|]; cbn; auto.
Qed.

(** ** Before the row *)

(** What of the context decides the row besides the merged fields. *)
Record view : Type := View {
  v_tenant : string; v_fleet : option string; v_agent : string; v_persist : bool; v_content : string;
  v_metadata : option meta; v_config : option resolved_config; v_hash : option string; v_inferred : bool;
  v_row : option mrow
}.
Definition view_of (c : ctx) : view :=
  let d := c_input c in
  View (d_tenant_id d) (d_fleet_id d) (d_agent_id d) (d_persist d) (d_content d) (d_metadata d) (c_config c) (c_hash c)
    (c_inferred c) (c_row c).
Definition seen_in (v : view) (d : memory_create) : Prop :=
  v_tenant v = d_tenant_id d ∧ v_fleet v = d_fleet_id d ∧ v_agent v = d_agent_id d ∧ v_persist v = d_persist d ∧
  v_content v = d_content d ∧ v_metadata v = d_metadata d.

(** The log is [log] and then only what [A] allows; the table satisfies [D]. *)
Section Before.
Context {settings : Settings} {services : Services} {patterns : Patterns}.
Context (log : list effect) (A : effect → Prop) (D : list mrow → Prop).
Context (D_others : ∀ n db, D db → D (others n db)).

Definition extended (c : ctx) : Prop := ∃ es, c_log c = log ++ es ∧ Forall A es.
Definition at_view (v : view) (c : ctx) : Prop := extended c ∧ D (c_db c) ∧ view_of c = v.

Lemma triple_tick v E Q : (∀ n, Q n) → triple (at_view v) E tick Q.
Proof. intros HQ c (H1 & H2 & H3). split; [by split_and!|]. apply HQ. Qed.
Lemma triple_emit v E e (Q : unit → Prop) : A e → Q tt → triple (at_view v) E (emit e) Q.
Proof.
  intros He HQ. apply triple_modify; [|done]. intros c ((es & Hl & Hes) & H2 & H3). split_and!; [|done|done].
  exists (es ++ [e]). cbn. rewrite Hl, <-app_assoc. split; [done|]. apply Forall_app. by repeat constructor.
Qed.
Lemma triple_query {B} v (E : exn → Prop) (f : nat → list mrow → B) (Q : B → Prop) :
  (∀ n db, D db → Q (f n db)) → (∀ m, E (PyError "HTTPError" m)) → triple (at_view v) E (query f) Q.
Proof using D_others.
  intros HQ HE c (H1 & H2 & H3). unfold query, call. cbn. assert (D (others (c_clock c) (c_db c))) as HD by auto.
  assert (∀ c', c' = put_log (c_log c ++ []) (put_db (others (c_clock c) (c_db c)) (put_clock (S (c_clock c)) (put_db (others (c_clock c) (c_db c)) c))) → at_view v c') as Hc.
  { intros c' ->. split_and!; [|done|done]. destruct H1 as (es & -> & ?). exists es. by rewrite app_nil_r. }
  destruct (lost (c_clock c)) as [[[] m]|]; cbn; (split; [|by auto]); [by apply Hc|by split_and!|by apply Hc].
Qed.

Lemma gets_input v E : triple (at_view v) E (gets c_input) (seen_in v).
Proof. apply triple_gets. intros c (_ & _ & <-). by split_and!. Qed.
Lemma gets_config v E : triple (at_view v) E (gets c_config) (λ x, v_config v = x).
Proof. apply triple_gets. by intros c (_ & _ & <-). Qed.
Lemma gets_hash v E : triple (at_view v) E (gets c_hash) (λ x, v_hash v = x).
Proof. apply triple_gets. by intros c (_ & _ & <-). Qed.
Lemma gets_any {B} v E (f : ctx → B) : triple (at_view v) E (gets f) anything.
Proof. by apply triple_gets. Qed.

(** An assignment to what the view does not show. *)
Lemma at_view_put v (f : ctx → ctx) :
  (∀ c, c_log (f c) = c_log c ∧ c_db (f c) = c_db c ∧ view_of (f c) = view_of c) →
  triple (at_view v) any_exn (modify f) anything.
Proof.
  intros H. apply triple_modify; [|done]. intros c (H1 & H2 & H3). destruct (H c) as (Hl & Hd & Hv).
  split_and!; [|by rewrite Hd|by rewrite Hv]. unfold extended. by rewrite Hl.
Qed.
(** An assignment to the request that keeps what the view shows of it. *)
Lemma at_view_input v d :
  seen_in v d → triple (at_view v) any_exn (modify (put_input d)) anything.
Proof.
  intros (E1 & E2 & E3 & E4 & E5 & E6). apply triple_modify; [|done]. intros c (H1 & H2 & <-). cbn in *. subst.
  split_and!; [done|done|]. unfold view_of. cbn. congruence.
Qed.
End Before.

(** Symbolic execution of a step before the row. *)
Ltac at_view_step :=
  lazymatch goal with
  | |- triple _ _ (mbind _ (gets c_input)) _ => eapply triple_bind; [apply gets_input|intros ? ?]
  | |- triple _ _ (mbind _ (gets c_config)) _ => eapply triple_bind; [apply gets_config|intros ? ?]
  | |- triple _ _ (mbind _ (gets c_hash)) _ => eapply triple_bind; [apply gets_hash|intros ? ?]
  | |- triple _ _ (mbind _ _) _ => eapply triple_seq; [|intros ?]
  | |- triple _ _ (mret _) _ => apply triple_ret; try done
  | |- triple _ _ (throw _) _ => apply triple_throw; try done
  | |- triple _ _ (lift _) _ => apply triple_lift; destruct_match_result
  | |- triple _ _ (gets _) _ => apply gets_any
  | |- triple _ _ tick _ => by apply triple_tick
  | |- triple _ _ (emit _) _ => apply triple_emit; [auto|done]
  | |- triple _ _ (modify (put_input _)) _ => apply at_view_input
  | |- triple _ _ (modify _) _ => apply at_view_put; intros ?; split_and!; reflexivity
  | |- triple _ _ (query _) _ => apply triple_query; [done|done|done]
  | |- triple _ _ (let _ := _ in _) _ => cbv zeta
  | |- triple _ _ (match ?x with _ => _ end) _ => destruct x
  | |- triple _ _ (if ?x then _ else _) _ => destruct x
  end
with destruct_match_result := lazymatch goal with |- match ?r with Ok _ => _ | Err _ => _ end => destruct r; done end.
Create HintDb at_view discriminated.
Ltac run_at_view := repeat first [solve [auto with at_view nocore] | at_view_step].

Section StepsBefore.
Context {settings : Settings} {services : Services} {patterns : Patterns}.
Context (log : list effect) (A : effect → Prop) (D : list mrow → Prop).
Context (D_others : ∀ n db, D db → D (others n db)).
Context (A_audit : ∀ a d b, A (EAudit a d b)) (A_classify : ∀ s, A (EClassify s)).

#[local] Abbreviation stable m Q := (∀ v, triple (at_view log A D v) any_exn m Q).
Hint Resolve A_audit A_classify : core.

Lemma audit_stable a d b : stable (emit_governance_audit a d b) anything.
Proof using A_audit. intros v. unfold emit_governance_audit. run_at_view. Qed.
Hint Resolve audit_stable : at_view.

Lemma get_fields_stable : stable get_fields anything.
Proof using. intros v. unfold get_fields. run_at_view. Qed.
Lemma get_config_stable : stable get_config anything.
Proof using. intros v. unfold get_config. run_at_view. Qed.
Lemma put_metadata_stable m f : stable (put_metadata m f) anything.
Proof using. intros v. unfold put_metadata. run_at_view. Qed.
Lemma tick_stable : stable tick anything.
Proof using. intros v. by apply triple_tick. Qed.
Hint Resolve get_fields_stable get_config_stable put_metadata_stable tick_stable : at_view.

Lemma check_length_stable : stable CheckContentLength unfailed.
Proof using. intros v. unfold CheckContentLength, success. run_at_view. Qed.

Lemma enforce_pregate_stable cfg s w : stable (enforce_business_personal_pregate cfg s w) anything.
Proof using A_audit A_classify. intros v. unfold enforce_business_personal_pregate. run_at_view. Qed.
Hint Resolve enforce_pregate_stable : at_view.
Lemma pregate_stable : stable BusinessPersonalPregate unfailed.
Proof using A_audit A_classify. intros v. unfold BusinessPersonalPregate, success, skipped. run_at_view. Qed.

Lemma exact_stable : stable CheckExactDuplicate unfailed.
Proof using D_others. intros v. unfold CheckExactDuplicate, success, skipped. run_at_view. Qed.

Lemma hold_of_stable d cfg i : stable (hold_of d cfg i) anything.
Proof using. intros v. unfold hold_of. run_at_view. Qed.
Hint Resolve hold_of_stable : at_view.
Lemma hold_stable : stable HoldLowTrustWrite unfailed.
Proof using. intros v. unfold HoldLowTrustWrite, success. run_at_view. Qed.

Lemma merge_stable : stable MergeEnrichmentFields unfailed.
Proof using. intros v. unfold MergeEnrichmentFields, success. run_at_view. Qed.

Lemma llm_pii_stable g e : stable (llm_pii_decision g e) anything.
Proof using A_audit. intros v. unfold llm_pii_decision. run_at_view. Qed.
Lemma non_business_stable g e : stable (non_business_decision g e) anything.
Proof using A_audit. intros v. unfold non_business_decision. run_at_view. Qed.
Hint Resolve llm_pii_stable non_business_stable : at_view.
Lemma decision_stable : stable GovernanceDecision unfailed.
Proof using A_audit. intros v. unfold GovernanceDecision, success, skipped. run_at_view. Qed.

Lemma find_duplicate_stable d emb w : stable (_find_semantic_duplicate d emb w) anything.
Proof using D_others. intros v. unfold _find_semantic_duplicate. run_at_view. Qed.
Hint Resolve find_duplicate_stable : at_view.
Lemma near_stable : stable DetectNearDuplicate unfailed.
Proof using D_others. intros v. unfold DetectNearDuplicate, success, skipped. run_at_view. Qed.

Lemma triple_for_stable v d p n o :
  seen_in v d → triple (at_view log A D v) any_exn (emit_triple_for d p n o) unfailed.
Proof using. intros Hd. unfold emit_triple_for, success, skipped. run_at_view. Qed.
Lemma emit_triple_stable : stable EmitMemoryTriple unfailed.
Proof using.
  intros v. unfold EmitMemoryTriple, success, skipped, attempt_skip.
  eapply triple_bind; [apply gets_config|intros cfg _]. eapply triple_bind; [apply gets_input|intros d Hd].
  do 2 (destruct (_ : bool); [by apply triple_ret|]).
  eapply triple_bind; [apply triple_attempt with (Q := unfailed) (E := any_exn)|intros [r|e] H; by apply triple_ret].
  destruct (phrase_matches _) as [|m ms]; [by apply triple_ret|]. cbv zeta.
  do 2 (destruct (bool_decide _); [|by apply triple_ret]). by apply triple_for_stable.
Qed.

Section Models.
Context (A_embed : ∀ s, A (EEmbed s)) (A_enrich : ∀ s, A (EEnrich s)) (A_judge : ∀ s t, A (EJudge s t)).
Hint Resolve A_embed A_enrich A_judge : core.

Lemma embed_stable : stable ParallelEmbedEnrich unfailed.
Proof using A_embed A_enrich. intros v. unfold ParallelEmbedEnrich, success. run_at_view. Qed.

Lemma judge_stable s t : stable (_llm_dedup_check s t) anything.
Proof using A_judge. intros v. unfold _llm_dedup_check. run_at_view. Qed.
Hint Resolve judge_stable : at_view.
Lemma semantic_stable : stable CheckSemanticDuplicate unfailed.
Proof using A_judge D_others. intros v. unfold CheckSemanticDuplicate, success, skipped. run_at_view. Qed.
End Models.
End StepsBefore.

(** ** Runs of steps *)

Section Advances.
Context {settings : Settings} {services : Services} {patterns : Patterns}.

(** From [P] the step returns with [Q] or raises with [H]. *)
Definition step_to (P Q : ctx → Prop) (H : exn → ctx → Prop) (m : M (option step_result)) : Prop :=
  ∀ c, P c → wp m (λ r c', match r with Ok r => unfailed r ∧ Q c' | Err e => H e c' end) c.

(** From [P] the steps run through to [Q], or one raises [e] with [H e]. *)
Definition advances (P Q : ctx → Prop) (H : exn → ctx → Prop) (ss : list (M (option step_result))) : Prop :=
  ∀ c p rest, P c →
    (∃ c1 p1, run_from (ss ++ rest) c p = run_from rest c1 p1 ∧ Q c1 ∧ failed p1 = failed p) ∨
    ∃ e c1 p1, run_from (ss ++ rest) c p = (if is_http e then Err e else Ok (abort_step e p1), c1) ∧ H e c1.

Lemma advances_nil (P : ctx → Prop) H : advances P P H [].
Proof. intros c p rest Hc. left. by exists c, p. Qed.

Lemma advances_cons P Q R H m ss : step_to P Q H m → advances Q R H ss → advances P R H (m :: ss).
Proof.
  intros Hm Hss c p rest Hc. specialize (Hm c Hc). unfold wp in Hm. cbn. destruct (m c) as [[r|e] c'].
  - destruct Hm as [Hr HQ]. destruct (Hss c' (count_step (default (StepResult SUCCESS None) r) p) rest HQ)
      as [(c1 & p1 & Hrun & HR & Hf)|(e & c1 & p1 & Hrun & He)].
    + left. exists c1, p1. split_and!; [done|done|]. rewrite Hf. cbn. by rewrite bool_decide_eq_false_2.
    + right. by exists e, c1, p1.
  - right. exists e, c', p. split; [|done]. by destruct (is_http e).
Qed.

Lemma advances_app P Q R H ss1 ss2 : advances P Q H ss1 → advances Q R H ss2 → advances P R H (ss1 ++ ss2).
Proof.
  intros H1 H2 c p rest Hc. rewrite <-app_assoc.
  destruct (H1 c p (ss2 ++ rest) Hc) as [(c1 & p1 & -> & HQ & Hf)|?]; [|by right].
  rewrite <-Hf. by apply H2.
Qed.

Lemma advances_weaken P P' Q Q' (H H' : exn → ctx → Prop) ss :
  (∀ c, P' c → P c) → (∀ c, Q c → Q' c) → (∀ e c, H e c → H' e c) → advances P Q H ss → advances P' Q' H' ss.
Proof.
  intros HP HQ HH Hs c p rest Hc. destruct (Hs c p rest (HP _ Hc)) as [(c1 & p1 & ? & ? & ?)|(e & c1 & p1 & ? & ?)].
  - left. exists c1, p1. auto.
  - right. exists e, c1, p1. auto.
Qed.

(** Steps that all keep [P]. *)
Lemma advances_stable P H ss : Forall (step_to P P H) ss → advances P P H ss.
Proof. induction 1; [apply advances_nil|by eapply advances_cons]. Qed.

Lemma run_pipeline_advances P Q H ss failure c :
  advances P Q H ss → P c →
  match run_pipeline ss failure c with
  | (Ok _, c') => Q c'
  | (Err e', c') => ∃ e, H e c' ∧ e' = if is_http e then e else HTTPException 500 failure
  end.
Proof.
  intros Hs Hc. unfold run_pipeline, run. rewrite <-(app_nil_r ss).
  destruct (Hs c (PipelineResult [] 0 0 false) [] Hc) as [(c1 & p1 & -> & HQ & Hf)|(e & c1 & p1 & -> & He)].
  - cbn. by rewrite Hf.
  - destruct (is_http e) eqn:E; exists e; by rewrite E.
Qed.

Lemma step_to_triple P (m : M (option step_result)) (H : exn → ctx → Prop) :
  triple P any_exn m unfailed → (∀ e c, P c → H e c) → step_to P P H m.
Proof. intros Hm HH c Hc. destruct (Hm c Hc) as [H1 H2]. unfold wp. destruct (m c) as [[r|e] c']; cbn in *; auto. Qed.
End Advances.

(** ** The steps that change what decides the row *)

Definition with_config (cfg : resolved_config) (v : view) : view :=
  View (v_tenant v) (v_fleet v) (v_agent v) (v_persist v) (v_content v) (v_metadata v) (Some cfg) (v_hash v) (v_inferred v) (v_row v).
Definition with_content (s : string) (m : option meta) (v : view) : view :=
  View (v_tenant v) (v_fleet v) (v_agent v) (v_persist v) s m (v_config v) (v_hash v) (v_inferred v) (v_row v).
Definition with_hash (h : option string) (v : view) : view :=
  View (v_tenant v) (v_fleet v) (v_agent v) (v_persist v) (v_content v) (v_metadata v) (v_config v) h (v_inferred v) (v_row v).

Section Changing.
Context {settings : Settings} {services : Services} {patterns : Patterns}.
Context (log : list effect) (A : effect → Prop) (D : list mrow → Prop).
Context (D_others : ∀ n db, D db → D (others n db)).
Context (A_audit : ∀ a d b, A (EAudit a d b)).

(** What is stored of a content under the settings: [None] when it is refused. *)
Definition governed (cfg : option resolved_config) (metadata : option meta) (content : string) : option string :=
  match scan_policy cfg metadata with
  | Ok (Some gov) =>
      if bool_decide (content = "") then Some content
      else match scan_content gov content with
           | [] => Some content
           | fs => if bool_decide (pii_action gov = "drop") then None
                   else Some (if bool_decide (pii_action gov = "mask") then mask_content content fs else content)
           end
  | Ok None => Some content
  | Err _ => None
  end.

#[local] Abbreviation at_ := (at_view log A D).
Definition sent_only (e : exn) (c : ctx) : Prop := extended log A c ∧ D (c_db c).

Lemma at_sent v e c : at_ v c → sent_only e c.
Proof using. by intros (H1 & H2 & _). Qed.

Lemma load_config_to v :
  step_to (at_ v) (λ c, ∃ n cfg, config_at n = Ok cfg ∧ at_ (with_config cfg v) c) sent_only LoadTenantConfig.
Proof using.
  intros c (H1 & H2 & <-). unfold LoadTenantConfig, resolve_tenant_config. apply wp_bind, wp_bind.
  cbn. destruct (config_at (c_clock c)) as [cfg|e] eqn:E; [|by split].
  apply wp_modify, wp_ret. split; [done|]. exists (c_clock c), cfg. by split_and!.
Qed.

Lemma wp_audit v a d b (k : unit → M (option step_result)) Q c :
  at_ v c → (∀ c', at_ v c' → wp (k tt) Q c') → (∀ e c', at_ v c' → Q (Err e) c') →
  wp (emit_governance_audit a d b ≫= k) Q c.
Proof using A_audit.
  intros Hc H1 H2. apply wp_bind. eapply wp_triple; [by apply (audit_stable log A D A_audit a d b v)|done| |by auto].
  intros [] c' Hc' _. by apply H1.
Qed.

Lemma scan_to v :
  step_to (at_ v)
    (λ c, ∃ s m, governed (v_config v) (v_metadata v) (v_content v) = Some s ∧ at_ (with_content s m v) c)
    sent_only GovernanceScanContent.
Proof using A_audit.
  intros c (H1 & H2 & <-). unfold GovernanceScanContent, governed. cbn [v_config v_metadata v_content view_of].
  set (d := c_input c). set (v := view_of c). assert (at_ v c) as Hc by by split_and!.
  assert (at_ (with_content (d_content d) (d_metadata d) v) c) as Hc' by by split_and!.
  apply wp_gets, wp_gets, wp_lift. fold d. destruct (scan_policy _ _) as [[gov|]|e]; [| |by split].
  2: { apply wp_ret. split; [done|]. eauto. }
  destruct (bool_decide (d_content d = "")); [apply wp_ret; split; [done|]; by eauto|].
  cbv zeta. destruct (scan_content gov _) as [|f fs]; [apply wp_ret; split; [done|]; by eauto|]. apply wp_gets.
  destruct (bool_decide (pii_action gov = "drop")).
  { apply (wp_audit v); [done|intros c1 H; by eapply at_sent|intros e c1 H; by eapply at_sent]. }
  destruct (bool_decide (pii_action gov = "mask")).
  - apply (wp_audit v); [done| |intros e c1 H; by eapply at_sent]. intros c1 (Ha1 & Ha2 & Ha3).
    apply wp_modify, wp_ret. split; [done|]. eexists _, _. split; [reflexivity|]. split_and!; [done|done|].
    injection Ha3 as ? ? ? ? ? ? E1 E2 E3 E4. unfold view_of, with_content. cbn. by rewrite E1, E2, E3, E4.
  - apply wp_lift. destruct (mark_pii_flagged _ _) as [m|e]; [|by split]. apply wp_modify.
    apply (wp_audit (with_content (d_content d) (Some m) v)); [by split_and!| |intros e c1 H; by eapply at_sent].
    intros c1 H. apply wp_ret. split; [done|]. by eauto.
Qed.

Lemma hash_to v :
  step_to (at_ v)
    (at_ (with_hash (if v_persist v then Some (_content_hash (v_tenant v) (v_fleet v) (v_content v)) else None) v))
    sent_only ComputeContentHash.
Proof using D_others.
  intros c (H1 & H2 & <-). unfold ComputeContentHash. apply wp_gets. cbv zeta.
  cbn [view_of v_persist v_tenant v_fleet v_content]. set (h := if d_persist _ then _ else _). apply wp_modify.
  apply (wp_triple _ (at_ (with_hash h (view_of c))) any_exn _ unfailed);
    [|by split_and!|intros r c' Hc' Hr; by split; [exact Hr|]|intros e c' Hc' _; by eapply at_sent].
  clearbody h. unfold success. run_at_view.
Qed.
End Changing.

(** ** Admission: the steps up to the hash *)

Section Admission.
Context {settings : Settings} {services : Services} {patterns : Patterns}.
Context (log : list effect) (A : effect → Prop) (D : list mrow → Prop).
Context (D_others : ∀ n db, D db → D (others n db)).
Context (A_audit : ∀ a d b, A (EAudit a d b)) (A_classify : ∀ s, A (EClassify s)).

#[local] Abbreviation at_ := (at_view log A D).
#[local] Abbreviation sent := (sent_only log A D).

Definition admission : list (M (option step_result)) :=
  [CheckContentLength; LoadTenantConfig; GovernanceScanContent; BusinessPersonalPregate; ComputeContentHash].

(** The view after admission: under settings [cfg] the content became [s]. *)
Definition admitted_view (cfg : resolved_config) (s : string) (m : option meta) (v : view) : view :=
  with_hash (if v_persist v then Some (_content_hash (v_tenant v) (v_fleet v) s) else None)
    (with_content s m (with_config cfg v)).
Definition admitted (v : view) (c : ctx) : Prop :=
  ∃ n cfg s m, config_at n = Ok cfg ∧ governed (Some cfg) (v_metadata v) (v_content v) = Some s ∧
    at_ (admitted_view cfg s m v) c.

Lemma step_to_ex {X} (P : X → ctx → Prop) Q H (m : M (option step_result)) :
  (∀ x, step_to (P x) Q H m) → step_to (λ c, ∃ x, P x c) Q H m.
Proof using. intros Hm c [x Hc]. by apply (Hm x). Qed.
Lemma step_to_and (X : Prop) (P : ctx → Prop) Q H (m : M (option step_result)) :
  (X → step_to P Q H m) → step_to (λ c, X ∧ P c) Q H m.
Proof using. intros Hm c [HX Hc]. by apply (Hm HX). Qed.
Lemma step_to_post (P Q Q' : ctx → Prop) H (m : M (option step_result)) :
  (∀ c, Q c → Q' c) → step_to P Q H m → step_to P Q' H m.
Proof using. intros HQ Hm c Hc. apply (wp_mono _ _ m c (Hm c Hc)). intros [r|e] c'; [intros [? ?]; auto|done]. Qed.

Lemma stable_step v (m : M (option step_result)) :
  triple (at_ v) any_exn m unfailed → step_to (at_ v) (at_ v) sent m.
Proof using. intros Hm. apply step_to_triple; [done|]. intros e c. apply at_sent. Qed.

Lemma admission_advances v : advances (at_ v) (admitted v) sent admission.
Proof using D_others A_audit A_classify.
  eapply advances_cons; [apply stable_step, check_length_stable|].
  eapply advances_cons; [apply load_config_to|].
  eapply (advances_cons _ (λ c, ∃ n cfg s m, config_at n = Ok cfg ∧ governed (Some cfg) (v_metadata v) (v_content v) = Some s ∧
                                 at_ (with_content s m (with_config cfg v)) c)).
  { do 2 (apply step_to_ex; intros ?). apply step_to_and. intros Hcfg. eapply step_to_post; [|by apply scan_to].
    intros c (s & m & Hs & Hc). naive_solver. }
  eapply (advances_cons _ (λ c, ∃ n cfg s m, config_at n = Ok cfg ∧ governed (Some cfg) (v_metadata v) (v_content v) = Some s ∧
                                 at_ (with_content s m (with_config cfg v)) c)).
  { do 4 (apply step_to_ex; intros ?). do 2 (apply step_to_and; intros ?).
    eapply step_to_post; [|by apply stable_step, pregate_stable]. naive_solver. }
  eapply advances_cons; [|apply advances_nil].
  do 4 (apply step_to_ex; intros ?). do 2 (apply step_to_and; intros ?).
  eapply step_to_post; [|by apply hash_to]. intros c Hc. eexists _, _, _, _. split_and!; [done|done|exact Hc].
Qed.
End Admission.
