(* ===== verification/WriteSafety.v ===== *)
(** * What a write leaves behind

    The theorems about [WritePipeline], in the logic of [WriteLogic]: the invariant of the steps
    after the row, what every outcome of a write may have sent out, and what is stored. *)

From S2P Require Import Prelude PyStr PyVal Sha256 Governance Pipeline WriteHold WriteMetadata WriteSteps WritePipeline WriteExample WriteLogic.

#[local] Open Scope string_scope.
#[local] Open Scope list_scope.
#[local] Arguments _content_hash : simpl never.
#[local] Arguments _content_sha256 : simpl never.
#[local] Arguments pii_audit_detail : simpl never.

(** ** The row and after *)

(** What may be sent before the row: audits and calls to models. *)
Definition harmless (e : effect) : Prop :=
  match e with EAudit _ _ _ | EClassify _ | EEmbed _ | EEnrich _ | EJudge _ _ => True | _ => False end.

(** What may be sent after the row [r]: about [r] alone, and a held row retires nothing. *)
Definition on_row (r : mrow) (e : effect) : Prop :=
  match e with
  | EAudit _ _ _ | EEntity _ => True
  | ELink m _ | EPatch m _ => m = m_id r
  | ESupersede n _ => n = m_id r ∧ m_status r ≠ Contradiction.QUARANTINED_MEMORY_STATUS
  | ERetire _ => m_status r ≠ Contradiction.QUARANTINED_MEMORY_STATUS
  | ETask t => m_status r = Contradiction.QUARANTINED_MEMORY_STATUS → t ≠ "atomic_fact_fanout"
  | _ => False
  end.
(** A row is retired only once the new one points at it. *)
Definition linked_first (r : mrow) (post : list effect) : Prop :=
  ∀ a old b, post = a ++ ERetire old :: b → ESupersede (m_id r) old ∈ a.

Definition matches_view (v : view) (r : mrow) : Prop :=
  m_tenant_id r = v_tenant v ∧ m_fleet_id r = v_fleet v ∧ m_agent_id r = v_agent v ∧ m_content r = v_content v ∧
  m_content_hash r = v_hash v ∧ m_is_inferred r = v_inferred v ∧ m_deleted r = false ∧ m_supersedes_id r = None.

Section Row.
Context {settings : Settings} {services : Services} {patterns : Patterns}.
Context (log : list effect).

Definition any_table (db : list mrow) : Prop := True.
#[local] Abbreviation at_ := (at_view log harmless any_table).

(** The row [r] is in, and what was sent since is [post]. *)
Definition after_post (r : mrow) (post : list effect) (c : ctx) : Prop :=
  ∃ pre, c_log c = log ++ pre ++ EInsert r :: post ∧ Forall harmless pre ∧ Forall (on_row r) post ∧
    linked_first r post ∧ is_Some (c_config c).
Definition after (r : mrow) (c : ctx) : Prop := ∃ post, after_post r post c.
Definition inserted (r : mrow) (c : ctx) : Prop :=
  ∃ pre, c_log c = log ++ pre ++ [EInsert r] ∧ Forall harmless pre ∧ is_Some (c_config c).

Lemma inserted_after r c : inserted r c → after r c.
Proof using. intros (pre & Hl & Hp & Hc). exists [], pre. split_and!; try done. by intros [] ? ?. Qed.

Definition posted (v : view) (a : insert_reply * option mrow) (c : ctx) : Prop :=
  match a with
  | (Inserted, Some r) => matches_view v r ∧ inserted r c
  | (Unreachable _, _) => at_ v c ∨ ∃ r, matches_view v r ∧ inserted r c
  | (_, None) => at_ v c
  | _ => False
  end.

Lemma post_memory_posts v c :
  at_ v c → is_Some (v_config v) →
  wp post_memory (λ a c', match a with Ok a => posted v a c' | Err e => at_ v c' ∧ is_http e = false end) c.
Proof using.
  intros Hc Hcfg. unfold post_memory. apply wp_gets. unfold get_fields. apply wp_bind, wp_gets.
  destruct (c_fields c) as [fields|]; [|by apply wp_throw]. apply wp_ret. do 3 apply wp_gets. unfold get_config. apply wp_bind, wp_gets.
  destruct (c_config c) as [cfg|] eqn:Ecfg; [|by apply wp_throw]. apply wp_ret. cbv zeta.
  set (claim := claim_of _ _ _). set (row := λ n, memory_data n (c_input c) fields (c_embedding c) (c_hash c) (c_inferred c)).
  destruct Hc as ((es & Hl & Hes) & _ & Hv).
  assert (∀ n, matches_view v (row n)) as Hrow by (intros n; subst v; by split_and!).
  apply wp_bind, wp_attempt, wp_call.
  { intros m. apply wp_ret. left. split_and!; [by exists es|done|done]. }
  intros a db' l Ha. fold (row (c_clock c)) in Ha. revert Ha.
  destruct (memory_add _ _ _ _) as [reply db]. intros Ha. set (c1 := put_log _ _).
  assert (l = [] → at_ v c1) as H0.
  { intros ->. split_and!; [exists es; cbn; by rewrite app_nil_r|done|done]. }
  assert (l = [EInsert (row (c_clock c))] → inserted (row (c_clock c)) c1) as H1.
  { intros ->. exists es. cbn. rewrite Hl, <-app_assoc. split_and!; [done|done|]. by rewrite Ecfg. }
  destruct reply; injection Ha as <- <- <-; (split; [|intros m']; apply wp_ret; cbn [posted]); auto.
  right. exists (row (c_clock c)). auto.
Qed.

(** What a failed insert leaves: nothing, unless the answer was lost. *)
Definition not_stored (v : view) (e : exn) (c : ctx) : Prop :=
  sent_only log harmless any_table e c ∨ (is_http e = false ∧ ∃ r, matches_view v r ∧ inserted r c).

Lemma at_not_stored v v' e c : at_ v c → not_stored v' e c.
Proof using. intros (H1 & H2 & _). left. by split. Qed.

Lemma raised_posts v reply row c :
  posted v (reply, row) c → reply ≠ StorageSettingsChangedError →
  wp (_ ← lift (raised_by reply); match row with Some r => mret r | None => throw (PyError "KeyError" "memory") end)
    (λ a c', match a with Ok r => matches_view v r ∧ inserted r c' | Err e => not_stored v e c' end) c.
Proof using.
  intros Hp Hne. apply wp_lift. destruct reply as [| |m|m|m]; cbn [raised_by]; [|done| | |].
  - destruct row as [r|]; [by apply wp_ret|]. by eapply at_not_stored.
  - destruct row; [done|]. by eapply at_not_stored.
  - destruct row; [done|]. by eapply at_not_stored.
  - assert (at_ v c ∨ ∃ r, matches_view v r ∧ inserted r c) as [H|H] by by destruct row.
    + by eapply at_not_stored.
    + by right.
Qed.

Lemma matches_config v cfg r : matches_view (with_config cfg v) r ↔ matches_view v r.
Proof using. done. Qed.
#[local] Instance insert_reply_eq_dec : EqDecision insert_reply.
Proof using. solve_decision. Defined.

Lemma insert_row_stores v c :
  at_ v c → is_Some (v_config v) →
  wp insert_row (λ a c', match a with Ok r => matches_view v r ∧ inserted r c' | Err e => not_stored v e c' end) c.
Proof using.
  intros Hc Hcfg. unfold insert_row. apply wp_bind. eapply wp_mono; [by apply (post_memory_posts v)|].
  intros [[reply row]|e] c1; [|intros [H _]; by eapply at_not_stored]. intros Hp. apply wp_bind.
  destruct (decide (reply = StorageSettingsChangedError)) as [->|Hne].
  2: { destruct reply; try done; apply wp_ret; by apply raised_posts. }
  assert (at_ v c1) as H1 by by destruct row. clear Hp c Hc. apply wp_bind. unfold decide_hold_again.
  apply wp_tick, wp_lift. destruct (reload_at (c_clock c1)) as [cfg|e]; [|by eapply at_not_stored].
  apply wp_modify, wp_bind.
  set (c2 := put_config (Some cfg) (put_clock (S (c_clock c1)) c1)). assert (at_ (with_config cfg v) c2) as H2.
  { destruct H1 as (Ha & Hb & <-). by split_and!. }
  eapply wp_triple; [apply (hold_stable log harmless any_table (with_config cfg v))|exact H2| |intros e c3 H3 _; by eapply at_not_stored].
  intros _ c3 H3 _. apply wp_ret.
  eapply wp_mono; [apply (post_memory_posts (with_config cfg v)); [done|by exists cfg]|].
  intros [[reply row']|e] c4; [|intros [H _]; by eapply at_not_stored]. intros Hp.
  destruct (decide (reply = StorageSettingsChangedError)) as [->|Hne].
  { apply wp_lift. cbn. destruct row'; [done|]. by eapply at_not_stored. }
  eapply wp_mono; [by apply (raised_posts (with_config cfg v))|]. by intros [r|e] c5.
Qed.

(** *** After the row *)

Definition row_is (r : mrow) (o : option mrow) : Prop := ∃ r', o = Some r' ∧ m_id r' = m_id r ∧ m_status r' = m_status r.

Lemma linked_first_snoc r post e :
  linked_first r post → (∀ old, e = ERetire old → ESupersede (m_id r) old ∈ post) → linked_first r (post ++ [e]).
Proof using.
  intros Hlf He a old b Heq. destruct b as [|e' b _] using rev_ind.
  - apply app_inj_tail in Heq as [-> ->]. by apply He.
  - rewrite app_comm_cons, app_assoc in Heq. apply app_inj_tail in Heq as [-> _]. by eapply Hlf.
Qed.

(** Something more is sent. *)
Lemma after_snoc r post c c' e :
  after_post r post c → c_log c' = c_log c ++ [e] → c_config c' = c_config c → on_row r e →
  (∀ old, e = ERetire old → ESupersede (m_id r) old ∈ post) → after_post r (post ++ [e]) c'.
Proof using.
  intros (pre & Hl & Hpre & Hpost & Hlf & Hc) Hl' Hc' He Hr. exists pre.
  split_and!; [by rewrite Hl', Hl, <-!app_assoc|done|apply Forall_app; by repeat constructor|by apply linked_first_snoc|by rewrite Hc'].
Qed.
Lemma after_same r post c c' : after_post r post c → c_log c' = c_log c → c_config c' = c_config c → after_post r post c'.
Proof using. intros (pre & H) Hl Hc. exists pre. by rewrite Hl, Hc. Qed.

(** The effects that need nothing before them. *)
Definition free (r : mrow) (e : effect) : Prop := on_row r e ∧ ∀ old, e ≠ ERetire old.

Lemma after_app r c c' es :
  after r c → c_log c' = c_log c ++ es → c_config c' = c_config c → Forall (free r) es → after r c'.
Proof using.
  intros Ha Hl Hc Hes. revert c' Hl Hc. induction es as [|e es IH] using rev_ind; intros c' Hl Hc.
  - destruct Ha as [post Ha]. exists post. eapply after_same; [done| |done]. by rewrite app_nil_r in Hl.
  - apply Forall_app in Hes as [Hes He]. rewrite Forall_singleton in He. destruct He as [He Hf].
    destruct (IH Hes (put_log (c_log c ++ es) c)) as [post Hp]; [done|done|].
    exists (post ++ [e]). eapply after_snoc; [exact Hp|cbn; by rewrite Hl, app_assoc|done|done|]. intros old ->. by destruct (Hf old).
Qed.

(** [K] is what is known of [ctx.data["memory"]]. *)
Section Stored.
Context (K : option mrow → Prop).
#[local] Abbreviation stored r := (λ c, after r c ∧ K (c_row c)).

Lemma stored_modify r f :
  (∀ c, c_log (f c) = c_log c ∧ c_config (f c) = c_config c ∧ c_row (f c) = c_row c) →
  triple (stored r) no_exn (modify f) anything.
Proof using.
  intros Hf. apply triple_modify; [|done]. intros c [[post Ha] Hr]. destruct (Hf c) as (H1 & H2 & H3). split.
  - exists post. by eapply after_same.
  - by rewrite H3.
Qed.
Lemma stored_gets {A} r (f : ctx → A) : triple (stored r) no_exn (gets f) anything.
Proof using. by apply triple_gets. Qed.
Lemma stored_tick r : triple (stored r) no_exn tick anything.
Proof using. intros c [[post Ha] Hr]. split; [|done]. split; [|done]. exists post. by eapply after_same. Qed.
Lemma stored_emit r e : free r e → triple (stored r) no_exn (emit e) anything.
Proof using.
  intros He. apply triple_modify; [|done]. intros c [Ha Hr]. split; [|done].
  eapply after_app; [done|reflexivity|done|by constructor].
Qed.
Lemma stored_task r b t : (b = true → free r (ETask t)) → triple (stored r) no_exn (task_if b t) anything.
Proof using. intros H. destruct b; [apply stored_emit; auto|by apply triple_ret]. Qed.
Lemma stored_attempt {A} r (m : M A) :
  triple (stored r) any_exn m anything → triple (stored r) no_exn (attempt m) anything.
Proof using. intros H c Hc. destruct (H c Hc) as [H1 _]. unfold attempt. destruct (m c). by split. Qed.
Lemma stored_call {A} r (f : nat → list mrow → A * list mrow * list effect) :
  (∀ n db a db' es, f n db = (a, db', es) → Forall (free r) es) → triple (stored r) any_exn (call f) anything.
Proof using.
  intros Hf c [Ha Hr].
  assert (wp (call f) (λ _ c', stored r c') c) as H.
  { apply wp_call.
    - intros _. split; [|done]. destruct Ha as [post Ha]. exists post. by eapply after_same.
    - intros a db es He%Hf. assert (stored r (put_log (c_log c ++ es) (put_db db (put_clock (S (c_clock c)) (put_db (others (c_clock c) (c_db c)) c))))); [|done].
      split; [|done]. by eapply after_app. }
  split; [exact H|]. by destruct (call f c).1.
Qed.

Lemma links_stored r fuel links :
  triple (stored r) no_exn (write_entity_links fuel (m_id r) links) anything.
Proof using.
  revert links. induction fuel as [|fuel IH]; intros links; [by apply triple_ret|].
  cbn [write_entity_links]. destruct links as [|l links]; [by apply triple_ret|]. cbv zeta.
  eapply triple_seq; [apply stored_tick|intros n].
  eapply triple_seq; [apply stored_attempt; by apply triple_lift; destruct (bulk_upsert_entity_links _ _)|intros res].
  eapply triple_seq.
  { apply triple_modify; [|done]. intros c [Ha Hr]. split; [|done]. eapply after_app; [done|reflexivity|done|].
    apply Forall_fmap, Forall_forall. intros x _. by split. }
  intros _. eapply triple_seq; [apply IH|]. intros [ls fs]. by apply triple_ret.
Qed.
End Stored.

#[local] Abbreviation stored r := (λ c, after r c ∧ row_is r (c_row c)).
Definition stored_as (v : view) (c : ctx) : Prop := ∃ r, matches_view v r ∧ stored r c.

Lemma write_row_to v : is_Some (v_config v) → step_to (at_ v) (stored_as v) (not_stored v) WriteMemoryRow.
Proof using.
  intros Hcfg c Hc. unfold WriteMemoryRow. do 2 apply wp_gets. apply wp_bind.
  eapply wp_triple; [apply get_fields_stable|exact Hc| |intros e c' H _; by eapply at_not_stored].
  intros fields c1 H1 _. apply wp_bind.
  apply (wp_triple _ (at_ v) any_exn _ anything); [|exact H1| |intros e c' H _; by eapply at_not_stored].
  { destruct (c_embedding c); [by apply triple_ret|]. eapply triple_seq; [apply triple_lift; by destruct (set_system_value _ _ _ _)|].
    intros m. apply put_metadata_stable. }
  intros _ c2 H2 _. apply wp_bind. eapply wp_mono; [by apply (insert_row_stores v)|].
  intros [r|e] c3; [|done]. intros [Hm Hi%inserted_after].
  apply wp_bind. apply (wp_triple _ (λ c, after r c ∧ True) no_exn _ anything); [apply (links_stored (λ _, True))|done| |by intros e c' _ []].
  intros [linked failures] c4 H4 _. do 2 apply wp_modify. apply wp_bind.
  apply (wp_triple _ (λ c, after r c ∧ True) no_exn _ anything); [| | |by intros e c' _ []].
  { destruct audit_hook; [by apply (stored_emit (λ _, True))|by apply triple_ret]. }
  { destruct H4 as [[post Ha] _]. split; [|done]. exists post. by eapply after_same. }
  intros _ c5 [[post Ha] _] _. apply wp_modify, wp_ret. split; [done|]. exists r. split; [done|].
  split; [exists post; by eapply after_same|]. by exists r.
Qed.

Lemma update_stored r id tenant fields f :
  id = m_id r → triple (stored r) any_exn (update_memory id tenant fields f) anything.
Proof using.
  intros ->. apply stored_call. intros n db a db' es. cbn.
  destruct (existsb _ _); intros [= <- <- <-]; [|constructor]. by apply Forall_singleton.
Qed.

Lemma pending_to r : step_to (stored r) (stored r) (λ _ _, False) CreatePendingSubject.
Proof using.
  intros c Hc. unfold CreatePendingSubject. apply wp_gets. destruct (c_pending c) as [[[name p] o]|]; [|by apply wp_ret].
  do 2 apply wp_gets. destruct Hc as [Ha (row & Hrow & Hid & Hst)]. rewrite Hrow.
  apply (wp_triple _ (stored r) no_exn _ unfailed); [|split; [done|by exists row]|done|by intros e c' _ []].
  eapply triple_seq; [by apply stored_emit|intros _]. eapply triple_seq; [apply stored_tick|intros n].
  eapply triple_seq; [apply stored_attempt; by apply triple_lift; destruct (upsert_entity _ _)|intros [entity|e]; [|by apply triple_ret]].
  cbv zeta. eapply triple_seq; [|intros [[]|e]; try by apply triple_ret].
  { by apply stored_attempt, update_stored. }
  eapply triple_seq; [by apply stored_modify|intros _]. eapply triple_seq; [|intros _; by apply triple_ret].
  apply triple_modify; [|done]. intros c' [[post Ha'] _]. split; [exists post; by eapply after_same|].
  by eexists.
Qed.

Lemma record_merge_stored r tenant reason :
  triple (stored r) no_exn (_record_merge (m_id r) tenant reason) anything.
Proof using.
  unfold _record_merge. destruct (merge_patch reason) as [patch|e] eqn:E; [|by destruct reason].
  eapply triple_seq; [by apply triple_lift|intros p]. eapply triple_seq; [|intros _; by apply triple_ret].
  by apply stored_attempt, update_stored.
Qed.

Lemma merge_stored r old tenant :
  m_status r ≠ Contradiction.QUARANTINED_MEMORY_STATUS →
  triple (stored r) no_exn (_merge_near_duplicate (m_id r) old tenant) anything.
Proof using.
  intros Hst c Hc. assert (wp (_merge_near_duplicate (m_id r) old tenant) (λ a c', stored r c' ∧ match a with Ok _ => True | Err _ => False end) c) as H.
  2: { destruct H as [H1 H2]. split; [done|]. by destruct (_ c).1. }
  assert (∀ reason c', stored r c' → wp (_record_merge (m_id r) tenant reason) (λ a c', stored r c' ∧ match a with Ok _ => True | Err _ => False end) c') as Hrec.
  { intros reason c' Hc'. eapply wp_triple; [apply record_merge_stored|exact Hc'|done|done]. }
  destruct Hc as [[post Ha] Hr]. unfold _merge_near_duplicate. apply wp_bind, wp_attempt, wp_call.
  { intros _. apply Hrec. split; [|done]. exists post. by eapply after_same. }
  intros a db es Hf. set (c1 := put_log (c_log c ++ es) _).
  assert (after r c1 ∧ (a = true → ∃ post', after_post r post' c1 ∧ ESupersede (m_id r) old ∈ post')) as [H1 H1'].
  { cbn in Hf. destruct (existsb (λ r0, is_row _ _ r0 && _ && _ && _) _); injection Hf as <- <- <-.
    - assert (after_post r (post ++ [ESupersede (m_id r) old]) c1) as Hp by by eapply after_snoc.
      split; [by eexists|]. intros _. eexists. split; [exact Hp|]. set_solver.
    - split; [|done]. exists post. eapply after_same; [done|cbn; by rewrite app_nil_r|done]. }
  split; [|intros _; by apply Hrec]. destruct a; [|by apply Hrec].
  destruct (H1' eq_refl) as (post' & Hp & Hin). apply wp_bind, wp_attempt, wp_call.
  { intros _. apply Hrec. split; [|done]. exists post'. by eapply after_same. }
  intros a db2 es2 Hf2. set (c2 := put_log (c_log c1 ++ es2) _).
  assert (stored r c2) as H2.
  { split; [|done]. cbn in Hf2. destruct (existsb (λ r0, is_row _ _ r0 && _) _); injection Hf2 as <- <- <-.
    - exists (post' ++ [ERetire old]). eapply after_snoc; [exact Hp|done|done|done|]. by intros ? [= ->].
    - exists post'. eapply after_same; [exact Hp|cbn; by rewrite app_nil_r|done]. }
  split; [|intros _; by apply Hrec]. destruct a; by apply Hrec.
Qed.

Lemma schedule_to r : step_to (stored r) (stored r) (λ _ _, False) ScheduleBackgroundTasks.
Proof using.
  intros c [Ha (row & Hrow & Hid & Hst)]. unfold ScheduleBackgroundTasks. apply wp_gets.
  destruct Ha as [post Ha]. pose proof Ha as (_ & _ & _ & _ & _ & [cfg Hcfg]).
  unfold get_config, get_row. apply wp_bind, wp_gets. rewrite Hcfg. apply wp_ret. apply wp_bind, wp_gets. rewrite Hrow. apply wp_ret.
  do 4 apply wp_gets.
  apply (wp_triple _ (stored r) no_exn _ unfailed); [|split; [by exists post|by exists row]|done|by intros e c' _ []].
  eapply triple_seq; [|intros _].
  { destruct (c_merge c) as [target|]; [|by apply triple_ret]. rewrite Hst, Hid.
    destruct (negb (bool_decide _)) eqn:E; [|by apply triple_ret]. apply negb_true_iff, bool_decide_eq_false in E.
    eapply triple_seq; [by apply merge_stored|intros patch]. apply triple_modify; [|done].
    intros c' [[post' Ha'] _]. split; [exists post'; by eapply after_same|]. by eexists. }
  cbv zeta. destruct (bool_decide (c_mode c = _)).
  - do 4 (eapply triple_seq; [apply stored_task; intros _; by split|intros _]). by apply triple_ret.
  - eapply triple_seq; [apply stored_task; intros _; by split|intros _].
    eapply triple_seq; [apply stored_task; intros [_ Hn%negb_true_iff%bool_decide_eq_false]%andb_prop|intros _].
    { split; [|done]. cbn. rewrite <-Hst. done. }
    do 3 (eapply triple_seq; [apply stored_task; intros _; by split|intros _]). by apply triple_ret.
Qed.
End Row.

(** ** A whole write *)

Section Whole.
Context {settings : Settings} {services : Services} {patterns : Patterns}.
Context (log : list effect).

#[local] Abbreviation at_ := (at_view log harmless any_table).
#[local] Abbreviation sent := (sent_only log harmless any_table).

(** A row the view [v] may become: under settings some read gave, of the content they leave. *)
Definition admits (v : view) (r : mrow) : Prop :=
  ∃ n cfg s m, config_at n = Ok cfg ∧ governed (Some cfg) (v_metadata v) (v_content v) = Some s ∧
    matches_view (admitted_view cfg s m v) r.
Definition created (v : view) (c : ctx) : Prop := ∃ r, admits v r ∧ after log r c ∧ row_is r (c_row c).
Definition failed_write (v : view) (e : exn) (c : ctx) : Prop :=
  sent e c ∨ (is_http e = false ∧ ∃ r, admits v r ∧ inserted log r c).

#[local] Abbreviation admitted_ v := (admitted log harmless any_table v).

Lemma admitted_step v m :
  (∀ v', triple (at_ v') any_exn m unfailed) → step_to (admitted_ v) (admitted_ v) sent m.
Proof using.
  intros Hm. do 4 (apply step_to_ex; intros ?). do 2 (apply step_to_and; intros ?).
  eapply step_to_post; [|by apply stable_step, Hm]. intros c Hc. eexists _, _, _, _. split_and!; [done|done|exact Hc].
Qed.

Lemma harmless_admission v : advances (at_ v) (admitted_ v) sent admission.
Proof using. by apply admission_advances. Qed.

Ltac stable_by_step :=
  first [apply exact_stable|apply embed_stable|apply merge_stable|apply hold_stable|apply decision_stable
        |apply emit_triple_stable|apply semantic_stable|apply near_stable]; done.

Lemma enrichment_advances v : advances (at_ v) (admitted_ v) sent build_enrichment_pipeline.
Proof using.
  change build_enrichment_pipeline with (admission ++ [CheckExactDuplicate; ParallelEmbedEnrich; MergeEnrichmentFields; HoldLowTrustWrite]).
  eapply advances_app; [apply harmless_admission|]. apply advances_stable.
  repeat (apply Forall_cons; split); [..|constructor]; apply admitted_step; intros v'; stable_by_step.
Qed.

Lemma sent_failed v e c : sent e c → failed_write v e c.
Proof using. by left. Qed.

Lemma persist_advances v :
  advances (admitted_ v) (created v) (failed_write v) [WriteMemoryRow; CreatePendingSubject; ScheduleBackgroundTasks].
Proof using.
  eapply (advances_cons _ (created v)).
  { do 4 (apply step_to_ex; intros ?). do 2 (apply step_to_and; intros ?).
    intros c Hc. eapply wp_mono; [eapply (write_row_to log); [|exact Hc]; by eexists|].
    intros [r|e] c1; [intros [Hr (row & Hm & Ha & Hrow)]|intros [Hs|(He & row & Hm & Hi)]].
    - split; [done|]. exists row. split; [|by split]. by eexists _, _, _, _.
    - by left.
    - right. split; [done|]. exists row. split; [|done]. by eexists _, _, _, _. }
  eapply (advances_cons _ (created v)).
  { apply step_to_ex; intros row. apply step_to_and; intros Hrow. intros c Hc.
    eapply wp_mono; [by apply (pending_to log row)|]. intros [r|e] c1; [|done]. intros [Hr Hs]. split; [done|]. by exists row. }
  eapply advances_cons; [|apply advances_nil].
  apply step_to_ex; intros row. apply step_to_and; intros Hrow. intros c Hc.
  eapply wp_mono; [by apply (schedule_to log row)|]. intros [r|e] c1; [|done]. intros [Hr Hs]. split; [done|]. by exists row.
Qed.

Lemma write_advances v (strong : bool) :
  advances (at_ v) (created v) (failed_write v) (if strong then build_strong_write_pipeline else build_fast_write_pipeline).
Proof using.
  assert (∀ ms, Forall (λ m, ∀ v', triple (at_ v') any_exn m unfailed) ms →
    advances (at_ v) (created v) (failed_write v) (admission ++ ms ++ [WriteMemoryRow; CreatePendingSubject; ScheduleBackgroundTasks])) as H.
  { intros ms Hms. eapply advances_app.
    { eapply advances_weaken; [done|done|apply sent_failed|apply harmless_admission]. }
    eapply advances_app; [|apply persist_advances].
    eapply advances_weaken; [done|done|apply sent_failed|]. apply advances_stable.
    eapply Forall_impl; [exact Hms|]. intros m Hm. by apply admitted_step. }
  destruct strong.
  - apply (H [CheckExactDuplicate; ParallelEmbedEnrich; MergeEnrichmentFields; HoldLowTrustWrite; GovernanceDecision;
              EmitMemoryTriple; CheckSemanticDuplicate]).
    repeat (apply Forall_cons; split); [..|constructor]; intros v'; stable_by_step.
  - apply (H [CheckExactDuplicate; ParallelEmbedEnrich; MergeEnrichmentFields; HoldLowTrustWrite; EmitMemoryTriple; DetectNearDuplicate]).
    repeat (apply Forall_cons; split); [..|constructor]; intros v'; stable_by_step.
Qed.

Lemma write_advances_mode v (fast : bool) :
  advances (at_ v) (created v) (failed_write v) (if fast then build_fast_write_pipeline else build_strong_write_pipeline).
Proof using. destruct fast; [apply (write_advances v false)|apply (write_advances v true)]. Qed.

(** *** Short-term memory *)

Definition stm_written (v : view) (c : ctx) : Prop :=
  is_Some (c_stm_response c) ∧ ∃ pre t s, c_log c = log ++ pre ++ [EStm t s] ∧ Forall harmless pre ∧
    governed (v_config v) (v_metadata v) (v_content v) = Some s.

Lemma stm_advances v : advances (at_ v) (stm_written v) sent build_stm_write_pipeline.
Proof using.
  eapply advances_cons; [apply stable_step, check_length_stable|].
  eapply advances_cons; [by apply scan_to|].
  eapply (advances_cons _ (λ c, ∃ s m, governed (v_config v) (v_metadata v) (v_content v) = Some s ∧ at_ (with_content s m v) c)).
  { do 2 (apply step_to_ex; intros ?). apply step_to_and; intros Hs. eapply step_to_post; [|apply stable_step].
    - intros c Hc. eexists _, _. split; [exact Hs|exact Hc].
    - unfold ResolveSTMTarget, success. run_at_view. }
  eapply advances_cons; [|apply advances_nil].
  do 2 (apply step_to_ex; intros ?). apply step_to_and; intros Hs. intros c ((es & Hl & Hes) & _ & Hv).
  unfold WriteSTMNote. do 2 apply wp_gets. assert (sent (PyError "" "") c) as Hsent by by (split; [exists es|]).
  destruct (c_stm_target c) as [t|]; [|by apply wp_throw]. apply wp_tick, wp_lift.
  destruct (stm_post _ _) as [[]|e]; [|by apply wp_throw|done]. apply wp_modify, wp_modify, wp_ret. split; [done|]. split; [by eexists|].
  exists es, t, (d_content (c_input c)). cbn. rewrite Hl, <-app_assoc. split_and!; [done|done|].
  rewrite Hs. f_equal. by apply (f_equal v_content) in Hv.
Qed.
End Whole.

(** What may have happened when a write ends as [res] with the log [es]. *)
Definition accounted `{Settings, Services, Patterns} (v : option resolved_config → view) (res : result exn write_outcome)
    (es : list effect) : Prop :=
  match res with
  | Ok (Created m _) => ∃ pre r post, es = pre ++ EInsert r :: post ∧ Forall harmless pre ∧ Forall (on_row r) post ∧
      linked_first r post ∧ m_id m = m_id r ∧ m_status m = m_status r ∧ ∃ cfg, admits (v cfg) r ∧ v_persist (v cfg) = true
  | Ok (StmWritten _) => ∃ pre t s n cfg, es = pre ++ [EStm t s] ∧ Forall harmless pre ∧ config_at n = Ok cfg ∧
      governed (Some cfg) (v_metadata (v None)) (v_content (v None)) = Some s
  | Err e => Forall harmless es ∨ exn_status e = Some 500%Z ∧ ∃ pre r, es = pre ++ [EInsert r] ∧ Forall harmless pre ∧
      ∃ cfg, admits (v cfg) r ∧ v_persist (v cfg) = true
  | _ => Forall harmless es
  end.

Section Create.
Context {settings : Settings} {services : Services} {patterns : Patterns}.

Definition request_view (d : memory_create) (inf : bool) (cfg : option resolved_config) : view :=
  View (d_tenant_id d) (d_fleet_id d) (d_agent_id d) (d_persist d) (d_content d) (d_metadata d) cfg None inf None.

Lemma wp_resolve {B} (k : resolved_config → M B) Q c :
  match config_at (c_clock c) with
  | Ok cfg => wp (k cfg) Q (put_clock (S (c_clock c)) c)
  | Err e => Q (Err e) (put_clock (S (c_clock c)) c)
  end → wp (resolve_tenant_config ≫= k) Q c.
Proof using. intros H. apply wp_bind. unfold resolve_tenant_config. apply wp_tick. by destruct (config_at _). Qed.

Lemma wp_run ss failure {B} (k : unit → M B) P Q' H Q c :
  advances P Q' H ss → P c → (∀ c', Q' c' → wp (k tt) Q c') →
  (∀ e c', H e c' → Q (Err (if is_http e then e else HTTPException 500 failure)) c') →
  wp (run_pipeline ss failure ≫= k) Q c.
Proof using.
  intros Hs Hc H1 H2. apply wp_bind. pose proof (run_pipeline_advances P Q' H ss failure c Hs Hc) as Hr.
  unfold wp. destruct (run_pipeline ss failure c) as [[[]|e] c']; [by apply H1|]. destruct Hr as (e0 & He & ->). by apply H2.
Qed.

Lemma context_view d cfg mode inf c :
  c_log c = [] → at_view [] harmless any_table (request_view d inf cfg) (pipeline_context d cfg mode inf c).
Proof using. intros Hl. split_and!; [by exists []|done|done]. Qed.

Lemma run_accounted d inf c :
  c_log c = [] →
  wp (_run_write_pipeline d inf)
    (λ res c', accounted (request_view d (if bool_decide (d_write_mode d = Some "stm") then false else inf)) res (c_log c')) c.
Proof using.
  intros Hlog. unfold _run_write_pipeline. destruct (bool_decide (d_write_mode d = Some "stm")).
  { destruct (negb use_stm); [apply wp_throw; left; by rewrite Hlog|].
    apply wp_resolve. destruct (config_at (c_clock c)) as [cfg|e] eqn:Ecfg; [|left; cbn; by rewrite Hlog].
    apply wp_modify. set (c1 := pipeline_context _ _ _ _ _).
    assert (at_view [] harmless any_table (request_view d false (Some cfg)) c1) as H1 by by apply context_view.
    eapply wp_run; [apply (stm_advances [])|exact H1| |].
    - intros c2 ([id Hid] & pre & t & s & Hl & Hpre & Hg). apply wp_gets. rewrite Hid. apply wp_ret.
      cbn. by eexists pre, t, s, _, cfg.
    - intros e c2 [(es & Hl & Hes) _]. left. by rewrite Hl. }
  apply wp_resolve. destruct (config_at (c_clock c)) as [cfg|e] eqn:Ecfg; [|left; cbn; by rewrite Hlog].
  destruct (negb (d_persist d) || _) eqn:Ep.
  - apply wp_modify. set (c1 := pipeline_context _ _ _ _ _).
    assert (at_view [] harmless any_table (request_view d inf None) c1) as H1 by by apply context_view.
    eapply wp_run; [apply (enrichment_advances [])|exact H1| |].
    + intros c2 (n & cfg' & s & m & _ & _ & H2). apply wp_bind.
      eapply wp_triple; [apply get_fields_stable|exact H2| |].
      * intros f c3 ((es & Hl & Hes) & _) _. apply wp_ret. destruct (d_persist d); cbn; by rewrite Hl.
      * intros e c3 ((es & Hl & Hes) & _) _. left. by rewrite Hl.
    + intros e c2 [(es & Hl & Hes) _]. left. by rewrite Hl.
  - apply orb_false_iff in Ep as [Ep%negb_false_iff _]. cbv zeta. apply wp_modify. set (c1 := pipeline_context _ _ _ _ _).
    assert (at_view [] harmless any_table (request_view d inf (Some cfg)) c1) as H1 by by apply context_view.
    set (v := request_view d inf (Some cfg)) in *.
    eapply wp_run; [apply (write_advances_mode [] v)|exact H1| |].
    + intros c2 (r & Hr & (post & pre & Hl & Hpre & Hpost & Hlf & _) & row & Hrow & Hid & Hst).
      unfold get_row. apply wp_bind, wp_gets. rewrite Hrow. apply wp_ret, wp_gets, wp_ret.
      exists pre, r, post. split_and!; try done. by exists (Some cfg).
    + intros e c2 [[(es & Hl & Hes) _]|(He & r & Hr & pre & Hl & Hpre & _)]; [left; by rewrite Hl|].
      right. rewrite He. split; [done|]. exists pre, r. split_and!; [done|done|]. by exists (Some cfg).
Qed.

(** What admission does to the request: its metadata and its visibility, nothing else. *)
Lemma admit_metadata_keeps conv system d data :
  admit_metadata conv system d = Ok data →
  d_tenant_id data = d_tenant_id d ∧ d_fleet_id data = d_fleet_id d ∧ d_agent_id data = d_agent_id d ∧
  d_content data = d_content d ∧ d_persist data = d_persist d ∧ d_write_mode data = d_write_mode d.
Proof using.
  unfold admit_metadata. intros H.
  destruct (match d_metadata d with None | Some [] => Ok d | m => _ end) as [d1|e] eqn:E1; [|done].
  assert (∃ m v, d1 = set_metadata m (from_option set_visibility id v d)) as (m & v & ->).
  { destruct (d_metadata d) as [[|kv m]|] eqn:Em.
    - exists (Some []), None. injection E1 as <-. rewrite <-Em. by destruct d.
    - cbn in E1. destruct (stamp_capture _ _) as [[m' cap]|]; [|done]. destruct cap; injection E1 as <-.
      + by exists m', (Some CAPTURED_VISIBILITY).
      + by exists m', None.
    - exists None, None. injection E1 as <-. rewrite <-Em. by destruct d. }
  cbn in H. destruct system; [injection H as <-; by destruct v|].
  destruct (platform_writes _ _ _); [|done]. injection H as <-. by destruct v.
Qed.

Lemma wp_create d inf conv system Q c :
  (∀ e, Q (Err e) c) → (∀ data, admit_metadata conv system d = Ok data → wp (_run_write_pipeline data inf) Q c) →
  wp (create_memory d inf conv system) Q c.
Proof using.
  intros He Hr. unfold create_memory. destruct (bool_decide _); [by apply wp_throw|].
  destruct (reserved_write_refusal _); [by apply wp_throw|]. apply wp_lift. destruct (admit_metadata _ _ _) eqn:E; [by apply Hr|by apply He].
Qed.

(** C4: whatever a write ends with, what it has sent out is accounted for. A memory is returned
    only after exactly one row was committed; before the row nothing but audits and calls to models
    went out, and everything after it concerns that row alone: links and patches carry its id, another
    row is retired only once the new row points at it, and a held row neither supersedes, nor retires,
    nor fans out anything. A refusal (any status but 500) has stored nothing. *)
Theorem write_effects_follow_the_row d inf conv system c :
  c_log c = [] →
  match create_memory d inf conv system c with
  | (Ok (Created m _), c') => ∃ pre r post, c_log c' = pre ++ EInsert r :: post ∧ Forall harmless pre ∧
      Forall (on_row r) post ∧ linked_first r post ∧ m_id m = m_id r ∧ m_status m = m_status r
  | (Ok (StmWritten _), c') => ∃ pre t s, c_log c' = pre ++ [EStm t s] ∧ Forall harmless pre
  | (Ok _, c') => Forall harmless (c_log c')
  | (Err e, c') => Forall harmless (c_log c') ∨
      exn_status e = Some 500%Z ∧ ∃ pre r, c_log c' = pre ++ [EInsert r] ∧ Forall harmless pre
  end.
Proof using.
  intros Hl. pose proof (wp_create d inf conv system (λ res c', ∃ v, accounted v res (c_log c')) c) as H.
  unfold wp in H. destruct (create_memory _ _ _ _ _) as [res c']. destruct H as [v H].
  { intros e. exists (request_view d inf). left. by rewrite Hl. }
  { intros data _. eexists. by apply run_accounted. }
  destruct res as [[]|]; naive_solver.
Qed.

(** What is stored is what the tenant's policy, as one read of the settings gave it, makes of the
    content sent; nothing is said of what stores nothing. *)
Definition as_governed (conv : pyval) (system : list (string * pyval)) (d : memory_create) (e : effect) : Prop :=
  match e with
  | EInsert r => ∃ data n cfg, admit_metadata conv system d = Ok data ∧ config_at n = Ok cfg ∧
      governed (Some cfg) (d_metadata data) (d_content d) = Some (m_content r) ∧
      m_content_hash r = Some (_content_hash (d_tenant_id d) (d_fleet_id d) (m_content r)) ∧
      m_tenant_id r = d_tenant_id d ∧ m_fleet_id r = d_fleet_id d ∧ m_agent_id r = d_agent_id d
  | EStm _ s => ∃ data n cfg, admit_metadata conv system d = Ok data ∧ config_at n = Ok cfg ∧
      governed (Some cfg) (d_metadata data) (d_content d) = Some s
  | _ => True
  end.
Lemma as_governed_harmless conv system d pre e : Forall harmless pre → e ∈ pre → as_governed conv system d e.
Proof using. intros Hp Hin. rewrite Forall_forall in Hp. specialize (Hp _ Hin). by destruct e. Qed.
Lemma as_governed_row conv system d data inf cfg r :
  admit_metadata conv system d = Ok data → admits (request_view data inf cfg) r → d_persist data = true →
  as_governed conv system d (EInsert r).
Proof using.
  intros Hd (n & cfg' & s & m & Hc & Hg & M1 & M2 & M3 & M4 & M5 & _) Hp. cbn in *. rewrite Hp in M5. subst s.
  destruct (admit_metadata_keeps _ _ _ _ Hd) as (E1 & E2 & E3 & E4 & E5 & E6).
  exists data, n, cfg'. rewrite E4 in Hg. rewrite E1, E2 in M5. split_and!; congruence.
Qed.

End Create.

#[local] Existing Instances example_settings example_services example_patterns.

Lemma write_effects_follow_the_row_witness :
  let c := example_context example_number [] in
  ∃ m links c' pre r post, create_memory example_number false PNone [] c = (Ok (Created m links), c') ∧
    c_log c' = pre ++ EInsert r :: post ∧ Forall harmless pre ∧ Forall (on_row r) post.
Proof.
  intros c. pose proof (write_effects_follow_the_row example_number false PNone [] c eq_refl) as H.
  destruct (create_memory example_number false PNone [] c) as [res c'] eqn:E.
  destruct res as [[m links| | |]|]; [|exfalso; revert E; vm_compute; discriminate ..].
  destruct H as (pre & r & post & H1 & H2 & H3 & _). exists m, links, c', pre, r, post. repeat split; assumption.
Defined.

