(* ===== verification/WriteUnique.v ===== *)
(** * One live row per content

    What the writes keep of the table they share: no two live rows hold the same content of the same
    agent ([unique_live_keys]), whatever the other writers do that keeps it, and whichever answers
    are lost; and what a repeated write meets: a refusal before any model is asked. *)

From Stdlib Require Import Floats.SpecFloat.
From S2P Require Import Prelude PyStr PyVal Governance Pipeline WriteHold WriteMetadata WriteSteps WritePipeline WriteExample WriteLogic WriteSafety.

#[local] Open Scope string_scope.
#[local] Open Scope list_scope.
#[local] Arguments _content_hash : simpl never.
#[local] Arguments _content_sha256 : simpl never.
#[local] Arguments pii_audit_detail : simpl never.

(** ** The key of a live row *)

(** The columns of [uq_memories_live_content_hash], of the rows it covers. *)
Definition live_key (r : mrow) : option (string * string * string * string) :=
  if live r then (λ h, (m_tenant_id r, default "" (m_fleet_id r), m_agent_id r, h)) <$> m_content_hash r else None.
Definition unique_live_keys (db : list mrow) : Prop := NoDup (omap live_key db).

Lemma holds_live_key a b :
  live a = true →
  holds_content (m_tenant_id a) (m_fleet_id a) (m_agent_id a) (m_content_hash a) b = true ↔
  is_Some (live_key a) ∧ live_key b = live_key a.
Proof.
  intros Ha. unfold holds_content, live_key, same_fleet. rewrite Ha, !andb_true_iff, !bool_decide_eq_true.
  split.
  - intros [[[[Hb Ht] Hf] Hg] [[h Hh] He]]. rewrite Hb, He, Hh, Ht, Hf, Hg. by split; [eexists|].
  - intros [[k Hk] He]. rewrite Hk in He. destruct (m_content_hash a) as [h|]; [|done]. injection Hk as <-.
    destruct (live b); [|done]. destruct (m_content_hash b) as [h'|]; [|done]. injection He as E1 E2 E3 E4.
    rewrite E4. by split_and!; [..|eexists|].
Qed.

Lemma unique_add n claim r db reply db' `{Services} :
  (∀ n db, unique_live_keys db → unique_live_keys (others n db)) →
  unique_live_keys db → live r = true → memory_add n claim r db = (reply, db') → unique_live_keys db'.
Proof.
  intros Ho Hu Hr. unfold memory_add. destruct (match m_subject_entity_id r with Some _ => _ | None => _ end); [by intros [= <- <-]|].
  destruct (negb _); [by intros [= <- <-]|]. destruct (conflicts r db) eqn:E; intros [= <- <-]; [by apply Ho|].
  unfold unique_live_keys. rewrite omap_app. cbn. destruct (live_key r) as [k|] eqn:Ek; [|by rewrite app_nil_r].
  apply NoDup_app. split_and!; [done| |apply NoDup_singleton]. intros k' (b & Hb & Hbk)%list_elem_of_omap ->%list_elem_of_singleton.
  assert (conflicts r db = true); [|congruence]. unfold conflicts. apply existsb_exists. exists b. split; [by apply list_elem_of_In|].
  apply holds_live_key; [done|]. rewrite Ek. by split.
Qed.

(** An update of what the key does not read. *)
Lemma unique_update p f db :
  (∀ r, live_key (f r) = live_key r) → unique_live_keys db → unique_live_keys (update_where p f db).2.
Proof.
  intros Hf Hu. unfold unique_live_keys in *. cbn.
  assert (omap live_key ((λ r, if p r then f r else r) <$> db) = omap live_key db) as ->; [|done].
  clear Hu. induction db as [|r db IH]; [done|]. cbn. rewrite IH. by destruct (p r); rewrite ?Hf.
Qed.

(** ** Every step keeps the table's keys unique *)

Section Kept.
Context {settings : Settings} {services : Services} {patterns : Patterns}.
Context (unique_others : ∀ n db, unique_live_keys db → unique_live_keys (others n db)).

#[local] Abbreviation kept m := (triple (λ c, unique_live_keys (c_db c)) any_exn m anything).

Lemma kept_modify f : (∀ c, c_db (f c) = c_db c) → kept (modify f).
Proof using. intros H. apply triple_modify; [|done]. intros c. by rewrite H. Qed.
Lemma kept_call {A} (f : nat → list mrow → A * list mrow * list effect) :
  (∀ n db, unique_live_keys db → unique_live_keys (f n db).1.2) → kept (call f).
Proof using unique_others.
  intros Hf c Hc. apply (wp_call f (λ r c', unique_live_keys (c_db c') ∧ match r with Ok _ => anything tt | Err e => any_exn e end)).
  - intros m. split; [|done]. by apply unique_others.
  - intros a db es He. assert (unique_live_keys db); [|done].
    specialize (Hf (c_clock c) _ (unique_others (c_clock c) _ Hc)). cbn in He. by rewrite He in Hf.
Qed.
Lemma kept_query {A} (f : nat → list mrow → A) : kept (query f).
Proof using unique_others. by apply kept_call. Qed.
Lemma kept_attempt {A} (m : M A) : kept m → kept (attempt m).
Proof using. intros H c Hc. destruct (H c Hc) as [H1 _]. unfold attempt. destruct (m c). by split. Qed.
Lemma kept_tick : kept tick.
Proof using. intros c Hc. by split. Qed.
Lemma kept_emit e : kept (emit e).
Proof using. by apply kept_modify. Qed.
End Kept.

Create HintDb kept discriminated.
(** Symbolic execution of a program that keeps the keys. *)
Ltac kept_step :=
  lazymatch goal with
  | |- triple _ _ (mbind _ _) _ => eapply triple_seq; [|intros ?]
  | |- triple _ _ (mret _) _ => by apply triple_ret
  | |- triple _ _ (throw _) _ => by apply triple_throw
  | |- triple _ _ (lift ?r) _ => apply triple_lift; by destruct r
  | |- triple _ _ (gets _) _ => by apply triple_gets
  | |- triple _ _ tick _ => apply kept_tick
  | |- triple _ _ (emit _) _ => apply kept_emit
  | |- triple _ _ (modify _) _ => by apply kept_modify
  | |- triple _ _ (query _) _ => by apply kept_query
  | |- triple _ _ (attempt _) _ => apply kept_attempt
  | |- triple _ _ (let _ := _ in _) _ => cbv zeta
  | |- triple _ _ (match ?x with _ => _ end) _ => destruct x
  end.
Ltac run_kept := repeat first [solve [auto with kept nocore] | kept_step].

Section KeptSteps.
Context {settings : Settings} {services : Services} {patterns : Patterns}.
Context (unique_others : ∀ n db, unique_live_keys db → unique_live_keys (others n db)).

#[local] Abbreviation kept m := (triple (λ c, unique_live_keys (c_db c)) any_exn m anything).

Lemma kept_get_fields : kept get_fields.
Proof using. unfold get_fields. run_kept. Qed.
Lemma kept_get_config : kept get_config.
Proof using. unfold get_config. run_kept. Qed.
Lemma kept_get_row : kept get_row.
Proof using. unfold get_row. run_kept. Qed.
Lemma kept_put_metadata m f : kept (put_metadata m f).
Proof using. unfold put_metadata. run_kept. Qed.
Lemma kept_audit a d b : kept (emit_governance_audit a d b).
Proof using. unfold emit_governance_audit. run_kept. Qed.
Hint Resolve kept_get_fields kept_get_config kept_get_row kept_put_metadata kept_audit : kept.

Lemma kept_admission : Forall (λ m, kept m) admission.
Proof using unique_others.
  unfold admission. repeat (apply Forall_cons; split); [..|constructor].
  - unfold CheckContentLength, success. run_kept.
  - unfold LoadTenantConfig, resolve_tenant_config, success. run_kept.
  - unfold GovernanceScanContent, success, skipped. run_kept.
  - unfold BusinessPersonalPregate, enforce_business_personal_pregate, success, skipped. run_kept.
  - unfold ComputeContentHash, success. run_kept.
Qed.
Lemma kept_exact : kept CheckExactDuplicate.
Proof using unique_others. unfold CheckExactDuplicate, success, skipped. run_kept. Qed.
Lemma kept_embed : kept ParallelEmbedEnrich.
Proof using. unfold ParallelEmbedEnrich, success. run_kept. Qed.
Lemma kept_merge_fields : kept MergeEnrichmentFields.
Proof using. unfold MergeEnrichmentFields, success. run_kept. Qed.
Lemma kept_hold : kept HoldLowTrustWrite.
Proof using. unfold HoldLowTrustWrite, hold_of, success. run_kept. Qed.
Lemma kept_decision : kept GovernanceDecision.
Proof using. unfold GovernanceDecision, llm_pii_decision, non_business_decision, success, skipped. run_kept. Qed.
Lemma kept_triple : kept EmitMemoryTriple.
Proof using. unfold EmitMemoryTriple, attempt_skip, emit_triple_for, success, skipped. run_kept. Qed.
Lemma kept_semantic : kept CheckSemanticDuplicate.
Proof using unique_others.
  unfold CheckSemanticDuplicate, _find_semantic_duplicate, _llm_dedup_check, success, skipped. run_kept.
Qed.
Lemma kept_near : kept DetectNearDuplicate.
Proof using unique_others. unfold DetectNearDuplicate, _find_semantic_duplicate, success, skipped. run_kept. Qed.
Hint Resolve kept_exact kept_embed kept_merge_fields kept_hold kept_decision kept_triple kept_semantic kept_near : kept.

Lemma kept_post : kept post_memory.
Proof using unique_others.
  unfold post_memory. run_kept. apply kept_call; [done|]. intros n db Hu. cbv zeta.
  destruct (memory_add _ _ _ _) as [reply db'] eqn:E. eapply unique_add in E; [|done..]. by destruct reply.
Qed.
Hint Resolve kept_post : kept.
Lemma kept_insert : kept insert_row.
Proof using unique_others. unfold insert_row, decide_hold_again. run_kept. Qed.
Lemma kept_links fuel memory links : kept (write_entity_links fuel memory links).
Proof using.
  revert links. induction fuel as [|fuel IH]; intros links; [by apply triple_ret|]. cbn [write_entity_links].
  destruct links; [by apply triple_ret|]. run_kept.
Qed.
Hint Resolve kept_insert kept_links : kept.
Lemma kept_write_row : kept WriteMemoryRow.
Proof using unique_others. unfold WriteMemoryRow, success. run_kept. Qed.

Lemma kept_update id tenant fields f : (∀ r, live_key (f r) = live_key r) → kept (update_memory id tenant fields f).
Proof using unique_others.
  intros Hf. apply kept_call; [done|]. intros n db Hu. pose proof (unique_update (is_row id tenant) f db Hf Hu) as H.
  by destruct (update_where _ _ _).
Qed.
Lemma kept_pending : kept CreatePendingSubject.
Proof using unique_others. unfold CreatePendingSubject, success, skipped. run_kept. by apply kept_update. Qed.
Lemma kept_supersede id tenant old : kept (set_supersedes_if_null id tenant old).
Proof using unique_others.
  apply kept_call; [done|]. intros n db Hu. cbv zeta. set (p := λ r, _ && _).
  pose proof (unique_update p (with_row_supersedes (Some old)) db (λ _, eq_refl) Hu) as H. by destruct (update_where _ _ _).
Qed.
Lemma kept_retire id tenant : kept (retire id tenant).
Proof using unique_others.
  apply kept_call; [done|]. intros n db Hu. pose proof (unique_update (λ r, is_row id tenant r && not_held r) (with_row_status "outdated") db (λ _, eq_refl) Hu) as H.
  by destruct (update_where _ _ _).
Qed.
Hint Resolve kept_write_row kept_pending kept_supersede kept_retire : kept.
Lemma kept_record id tenant reason : kept (_record_merge id tenant reason).
Proof using unique_others. unfold _record_merge. run_kept. by apply kept_update. Qed.
Hint Resolve kept_record : kept.
Lemma kept_merge id candidate tenant : kept (_merge_near_duplicate id candidate tenant).
Proof using unique_others. unfold _merge_near_duplicate. run_kept. Qed.
Hint Resolve kept_merge : kept.
Lemma kept_task b t : kept (task_if b t).
Proof using. unfold task_if. run_kept. Qed.
Hint Resolve kept_task : kept.
Lemma kept_schedule : kept ScheduleBackgroundTasks.
Proof using unique_others. unfold ScheduleBackgroundTasks, success. run_kept. Qed.
Lemma kept_target : kept ResolveSTMTarget.
Proof using. unfold ResolveSTMTarget, success. run_kept. Qed.
Lemma kept_note : kept WriteSTMNote.
Proof using. unfold WriteSTMNote, success. run_kept. Qed.
Hint Resolve kept_schedule kept_target kept_note : kept.

Lemma kept_run ss failure : Forall (λ m, kept m) ss → kept (run_pipeline ss failure).
Proof using.
  intros Hss c Hc. unfold run_pipeline, run. generalize (PipelineResult [] 0 0 false). intros p. revert c p Hc.
  induction Hss as [|m ss Hm Hss IH]; intros c p Hc; [by cbn; destruct (failed p)|].
  cbn. destruct (Hm c Hc) as [H1 _]. destruct (m c) as [[r|e] c']; [by apply IH|].
  cbn in H1. by destruct (is_http e).
Qed.
Lemma kept_pipelines : Forall (λ ss, Forall (λ m, kept m) ss)
  [build_enrichment_pipeline; build_fast_write_pipeline; build_stm_write_pipeline; build_strong_write_pipeline].
Proof using unique_others.
  pose proof kept_admission as Ha. unfold admission in Ha. decompose_Forall_hyps.
  repeat first [apply Forall_nil_2|apply Forall_cons_2]; by auto with kept.
Qed.

End KeptSteps.

(** ** A repeated write *)

Definition audit_or_classify (e : effect) : Prop :=
  match e with EAudit _ _ _ | EClassify _ => True | _ => False end.

(** Somebody live holds [content]. *)
Definition holder_of (d : memory_create) (content : string) (db : list mrow) : Prop :=
  ∃ r, r ∈ db ∧ holds_content (d_tenant_id d) (d_fleet_id d) (d_agent_id d)
    (Some (_content_hash (d_tenant_id d) (d_fleet_id d) content)) r = true.

Lemma holder_found d content db :
  holder_of d content db →
  is_Some (memory_find_by_content_hash (d_tenant_id d) (Some (_content_hash (d_tenant_id d) (d_fleet_id d) content))
             (d_fleet_id d) (d_agent_id d) db).
Proof.
  intros (r & Hr & Hh). unfold memory_find_by_content_hash.
  assert (r ∈ py_sorted older (filter (λ r, holds_content (d_tenant_id d) (d_fleet_id d) (d_agent_id d)
    (Some (_content_hash (d_tenant_id d) (d_fleet_id d) content)) r = true) db)) as H.
  { apply py_sorted_elem, list_elem_of_filter. by split. }
  destruct (py_sorted _ _); [by apply not_elem_of_nil in H|by eexists].
Qed.

Section Repeat.
Context {settings : Settings} {services : Services} {patterns : Patterns}.
Context (d : memory_create) (content : string).
Context (holder_stays : ∀ n db, holder_of d content db → holder_of d content (others n db)).

#[local] Abbreviation at_ := (at_view [] audit_or_classify (holder_of d content)).
#[local] Abbreviation sent := (sent_only [] audit_or_classify (holder_of d content)).

Lemma exact_refuses v :
  v_tenant v = d_tenant_id d → v_fleet v = d_fleet_id d → v_agent v = d_agent_id d →
  v_hash v = Some (_content_hash (d_tenant_id d) (d_fleet_id d) content) →
  step_to (at_ v) (λ _, False) sent CheckExactDuplicate.
Proof using holder_stays.
  intros Ht Hf Hg Hh c Hc. unfold CheckExactDuplicate. do 2 apply wp_gets.
  assert (c_hash c = v_hash v) as -> by (destruct Hc as (_ & _ & <-); done). rewrite Hh.
  assert (d_tenant_id (c_input c) = d_tenant_id d ∧ d_fleet_id (c_input c) = d_fleet_id d ∧ d_agent_id (c_input c) = d_agent_id d) as (-> & -> & ->).
  { destruct Hc as (_ & _ & <-). by split_and!. }
  apply wp_bind. apply (wp_triple _ (at_ v) any_exn _ is_Some); [|done| |].
  - apply triple_query; [done|by intros n db; apply holder_found|done].
  - intros dup c' Hc' [r ->]. apply wp_throw. by eapply at_sent.
  - intros e c' Hc' _. by eapply at_sent.
Qed.

Lemma repeat_advances v ss :
  v_tenant v = d_tenant_id d → v_fleet v = d_fleet_id d → v_agent v = d_agent_id d → v_persist v = true →
  (∀ n cfg s, config_at n = Ok cfg → governed (Some cfg) (v_metadata v) (v_content v) = Some s → s = content) →
  advances (at_ v) (λ _, False) sent (admission ++ CheckExactDuplicate :: ss).
Proof using holder_stays.
  intros Ht Hf Hg Hp Hs. eapply advances_app; [by apply admission_advances|].
  eapply (advances_cons _ (λ _, False)); [|by intros c p rest []].
  apply step_to_ex; intros n. apply step_to_ex; intros cfg. apply step_to_ex; intros s. apply step_to_ex; intros m.
  apply step_to_and; intros Hc. apply step_to_and; intros Hgov. apply exact_refuses; [done..|].
  cbn. rewrite Hp, Ht, Hf. by rewrite (Hs _ _ _ Hc Hgov).
Qed.

Lemma write_refused data cfg mode inf c ss failure :
  d_tenant_id data = d_tenant_id d → d_fleet_id data = d_fleet_id d → d_agent_id data = d_agent_id d → d_persist data = true →
  (∀ n cfg s, config_at n = Ok cfg → governed (Some cfg) (d_metadata data) (d_content data) = Some s → s = content) →
  c_log c = [] → holder_of d content (c_db c) →
  ∀ B (k : unit → M B) (Q : result exn B → ctx → Prop),
  (∀ e c', Forall audit_or_classify (c_log c') → Q (Err e) c') →
  wp (run_pipeline (admission ++ CheckExactDuplicate :: ss) failure ≫= k) Q (pipeline_context data cfg mode inf c).
Proof using holder_stays.
  intros Ht Hf Hg Hp Hs Hl Hh B k Q HQ. set (c1 := pipeline_context _ _ _ _ _).
  assert (at_ (view_of c1) c1) as H1 by (split_and!; [by exists []|done|done]).
  apply wp_bind. pose proof (run_pipeline_advances _ _ _ _ failure c1 (repeat_advances (view_of c1) ss Ht Hf Hg Hp Hs) H1) as Hr.
  unfold wp. destruct (run_pipeline _ _ c1) as [[[]|e] c2]; [done|]. destruct Hr as (e' & [(es & Hl2 & Hes) _] & _).
  apply HQ. cbn in *. by rewrite Hl2.
Qed.

(** A write whose content a live row of the same agent already holds is refused before anything
    is spent on it, whichever mode it asks for and whether or not it would have been split: no
    embedding, no enrichment, no judgement, no row, nothing but audits of the content policy and its
    classifier. The holder is only asked to stay: the other writers may do anything else. *)
Theorem repeat_reaches_no_model inf conv system c :
  c_log c = [] → d_persist d = true → d_write_mode d ≠ Some "stm" →
  (∀ data n cfg s, admit_metadata conv system d = Ok data → config_at n = Ok cfg →
     governed (Some cfg) (d_metadata data) (d_content d) = Some s → s = content) →
  holder_of d content (c_db c) →
  ∃ e c', create_memory d inf conv system c = (Err e, c') ∧ Forall audit_or_classify (c_log c').
Proof using holder_stays.
  intros Hl Hp Hm Hs Hh.
  assert (wp (create_memory d inf conv system) (λ res c', is_Some (match res with Err e => Some e | Ok _ => None end) ∧
    Forall audit_or_classify (c_log c')) c) as H.
  { apply wp_create; [intros e; split; [by eexists|by rewrite Hl]|]. intros data Hd.
    destruct (admit_metadata_keeps _ _ _ _ Hd) as (E1 & E2 & E3 & E4 & E5 & E6).
    unfold _run_write_pipeline. rewrite E6. destruct (bool_decide_reflect (d_write_mode d = Some "stm")) as [|_]; [done|].
    apply wp_resolve. destruct (config_at (c_clock c)); [|split; [by eexists|cbn; by rewrite Hl]].
    assert (∀ n cfg s, config_at n = Ok cfg → governed (Some cfg) (d_metadata data) (d_content data) = Some s → s = content) as Hs'.
    { intros n cfg s Hc. rewrite E4. by eapply Hs. }
    destruct (negb _ || _); cbv zeta; apply wp_modify; [|destruct (bool_decide _)].
    all: eapply (write_refused data); [done..|congruence|exact Hs'|done|done|]; intros e c'; split; [by eexists|done]. }
  unfold wp in H. destruct (create_memory _ _ _ _ _) as [[|e] c']; cbn in H; [by destruct H as [[] _]|].
  exists e, c'. by destruct H.
Qed.
End Repeat.

(** ** Near duplicates *)

Section Near.
Context {settings : Settings} {services : Services} {patterns : Patterns}.

(** The judge's clear verdict: a JSON object that says so and gives a reason. *)
Definition judged_duplicate (raw : pyval) : Prop :=
  ∃ kv reason, raw = PDict kv ∧ dict_get "is_duplicate" kv = Some (PBool true) ∧ dict_get "reason" kv = Some (PStr reason) ∧
    strip reason ≠ "".

Lemma confident_verdict raw b conf :
  _judge_dedup raw = (b, conf) → b && float_ge conf DEDUP_JUDGE_CONFIDENCE_THRESHOLD = true → judged_duplicate raw.
Proof using.
  intros Hj Hb. destruct raw as [| | | | | |kv]; try (injection Hj as <- <-; done).
  cbn in Hj. destruct (dict_get "is_duplicate" kv) as [[|is_dup| | | | |]|] eqn:Ed; try (injection Hj as <- <-; done).
  destruct (dict_get "reason" kv) as [[| | | |reason| |]|] eqn:Er; try (injection Hj as <- <-; done).
  destruct (bool_decide_reflect (strip reason = "")); [by injection Hj as <- <-|]. injection Hj as <- <-.
  apply andb_prop in Hb as [-> _]. by exists kv, reason.
Qed.

(** What earns a near-duplicate refusal of the write in [c], naming [r]. *)
Definition near_enough (c : ctx) (r : mrow) : Prop :=
  let d := c_input c in
  ∃ emb, c_embedding c = Some emb ∧ r ∈ others (c_clock c) (c_db c) ∧
    semantic_candidate (d_tenant_id d) (d_fleet_id d) (visibility_of d) (d_agent_id d) r = true ∧
    float_ge (similarity emb r) SEMANTIC_DEDUP_JUDGE_THRESHOLD = true ∧
    (float_ge (similarity emb r) SEMANTIC_DEDUP_AUTO_THRESHOLD = true ∨
     _subjects_differ_with_certainty (d_subject_entity_id d) (m_subject_entity_id r) = false ∧
     ∃ n raw, judge_json n (d_content d) (m_content r) = Ok (Some raw) ∧ judged_duplicate raw).

Lemma found_candidate n tenant fleet emb visibility least agent db r sim :
  memory_find_semantic_duplicate n tenant fleet emb visibility least agent db = Some (r, sim) →
  r ∈ db ∧ semantic_candidate tenant fleet visibility agent r = true ∧ sim = similarity emb r ∧ float_ge sim least = true.
Proof using.
  unfold memory_find_semantic_duplicate. intros H. destruct (filter _ db !! _) as [r0|] eqn:E; [|done]. cbn in H.
  destruct (float_ge _ _) eqn:Eg; [|done]. injection H as -> <-.
  apply list_elem_of_lookup_2, list_elem_of_filter in E as [Hs Hin]. by split_and!.
Qed.

(** A strong write is refused as a near duplicate only of a live, embedded row of the same
    tenant, fleet, agent and visibility that is at least as similar as the judging threshold, and
    then only when it is nearly identical or the judge, asked of two texts whose subjects may be the
    same, clearly said so. A judge that is not there, answers badly or gives no reason blocks
    nothing, and so does a failing check before it. *)
Theorem near_refusal_is_earned c m
    (judge_fails : ∀ n s t e, judge_json n s t = Err e → is_http e = false) :
  (CheckSemanticDuplicate c).1 = Err (HTTPException 409 m) → ∃ r, m = near_message (m_id r) ∧ near_enough c r.
Proof using.
  enough (wp CheckSemanticDuplicate (λ res _, ∀ m, res = Err (HTTPException 409 m) → ∃ r, m = near_message (m_id r) ∧ near_enough c r) c) as H
    by (intros Hm; by apply H).
  unfold CheckSemanticDuplicate, get_config, get_fields. apply wp_gets, wp_bind, wp_gets.
  destruct (c_config c) as [cfg|]; [|by apply wp_throw]. apply wp_ret, wp_gets, wp_bind, wp_gets.
  destruct (c_fields c) as [fields|]; [|by apply wp_throw]. apply wp_ret.
  destruct (negb _); [by apply wp_ret|]. destruct (c_embedding c) as [emb|] eqn:Eemb.
  2: { apply wp_lift. destruct (set_system_value _ _ _ _) as [m'|e] eqn:E; [by apply wp_modify, wp_ret|].
       intros m0 [= ->]. unfold set_system_value, set_in_namespace in E. by repeat case_match. }
  destruct (_content_is_identifier_bearing _); [by apply wp_modify, wp_ret|].
  unfold _find_semantic_duplicate, query. apply wp_bind, wp_call; [done|].
  intros found db es [= <- <- <-]. split; [|done].
  destruct (memory_find_semantic_duplicate _ _ _ _ _ _ _ _) as [[r sim]|] eqn:Ef; [|by apply wp_ret].
  apply found_candidate in Ef as (Hin & Hs & -> & Hge).
  destruct (float_ge _ SEMANTIC_DEDUP_AUTO_THRESHOLD) eqn:Ea.
  { apply wp_throw. intros m0 [= <-]. exists r. split; [done|]. exists emb. split_and!; try done. by left. }
  apply wp_gets. destruct (bool_decide (is_Some (c_pending _)) && _ || _) eqn:Ed; [by apply wp_modify, wp_ret|].
  apply orb_false_iff in Ed as [_ Ed]. unfold _llm_dedup_check. apply wp_bind, wp_tick, wp_modify, wp_lift.
  destruct (judge_json _ _ _) as [raw|e] eqn:Ej; [|intros m0 [= ->]; by apply judge_fails in Ej].
  apply wp_ret. destruct (match raw with Some raw => _ | None => _ end) as [b conf] eqn:Ev. apply wp_modify.
  destruct (b && _) eqn:Eb; [|by apply wp_ret]. apply wp_throw. intros m0 [= <-]. exists r. split; [done|].
  exists emb. split_and!; try done. right. split; [done|]. destruct raw as [raw|].
  - eexists _, raw. split; [exact Ej|]. by eapply confident_verdict.
  - injection Ev as <- <-. by rewrite andb_false_r in Eb.
Qed.
End Near.

#[local] Existing Instances example_settings example_services example_patterns.


(** The same number again, by the same agent: refused, with nothing sent but the audit of its mask. *)
Lemma repeat_reaches_no_model_witness :
  let c := example_context example_number [example_row] in
  holder_of example_number (m_content example_row) (c_db c) ∧
  ∃ e c', create_memory example_number false PNone [] c = (Err e, c') ∧ Forall audit_or_classify (c_log c').
Proof.
  intros c. assert (holder_of example_number (m_content example_row) (c_db c)) as H.
  { exists example_row. split; [by left|]. vm_compute. reflexivity. }
  split; [exact H|].
  apply (repeat_reaches_no_model (services := example_services) example_number (m_content example_row) (λ n db Hh, Hh)).
  - reflexivity.
  - reflexivity.
  - discriminate.
  - intros data n cfg s [= <-] [= <-]. vm_compute. by intros [= <-].
  - exact H.
Defined.

(** The judge says so of a row nine tenths similar. *)
Lemma near_refusal_is_earned_witness :
  let services := example_services_of (S754_finite false 8106479329266893 (-53))
    (Some (PDict [("is_duplicate", PBool true); ("reason", PStr "the same number")])) in
  let c := put_fields (Some (MemoryFields "fact" zero None [] None None "active")) (put_embedding (Some [zero])
    (put_config (Some example_config) (example_context example_number [example_row]))) in
  let m := near_message (m_id example_row) in
  (CheckSemanticDuplicate (services := services) c).1 = Err (HTTPException 409 m) ∧
  ∃ r, m = near_message (m_id r) ∧ near_enough (services := services) c r.
Proof.
  intros services c m.
  assert ((CheckSemanticDuplicate (services := services) c).1 = Err (HTTPException 409 m)) as H by (vm_compute; reflexivity).
  split; [exact H|]. apply (near_refusal_is_earned (services := services) c m); [discriminate|exact H].
Defined.
