(* ===== verification/ReadScope.v ===== *)
(** * Which rows a read shows

    The row predicates of storage's searches ([core-storage-api/.../services/postgres_service.py]):
    the fleet and visibility clauses every read builds, the filters of the scored search with their
    explanation, the by-id load and the lookup of successors.

    A [WHERE] is three-valued, as SQL's is: a comparison with NULL is neither true nor false, and a
    row is kept when the whole is true. What the text index matches is the class [TextSearch]. Times
    are microseconds. *)

From Stdlib Require Import Floats.SpecFloat.
From S2P Require Import Prelude PyStr PyVal AgentRegistry MemoryAccess Contradiction.

#[local] Open Scope string_scope.
#[local] Open Scope list_scope.
#[local] Open Scope Z_scope.

(** ** Rows *)

Record stored_memory : Type := StoredMemory {
  q_id : string; q_tenant_id : string; q_fleet_id : option string; q_agent_id : string;
  q_memory_type : string; q_visibility : string; q_status : string; q_deleted_at : option Z;
  q_created_at : option Z; q_weight : option spec_float; q_run_id : option string;
  q_baton_id : option string;              (* the text of [metadata ->> 'baton_id'] *)
  q_title : option string; q_verification_status : string; q_embedded : bool;
  q_ts_valid_start : option Z; q_expires_at : option Z; q_recall_count : Z;
  q_supersedes_id : option string; q_subject_entity_id : option string
}.

(** A row of [memory_conflicts], an edge of [memory_entity_links]. *)
Record conflict_record : Type := ConflictRecord {
  k_tenant_id : string; k_old_memory_id : string; k_new_memory_id : string; k_review_status : string
}.
Record entity_link : Type := EntityLink { l_memory_id : string; l_entity_id : string }.

(** ** Three-valued conditions *)

Abbreviation sql_bool := (option bool).
Definition sql_and (a b : sql_bool) : sql_bool :=
  match a, b with
  | Some false, _ | _, Some false => Some false
  | Some true, Some true => Some true
  | _, _ => None
  end.
Definition sql_or (a b : sql_bool) : sql_bool :=
  match a, b with
  | Some true, _ | _, Some true => Some true
  | Some false, Some false => Some false
  | _, _ => None
  end.
Definition and_ (l : list sql_bool) : sql_bool := foldr sql_and (Some true) l.
Definition or_ (l : list sql_bool) : sql_bool := foldr sql_or (Some false) l.

(** A row is kept when the condition is true. *)
Definition holds (p : sql_bool) : bool := default false p.

(** [col = v], [col IN (...)] (an empty list is false of any value), [col IS NULL] *)
Definition col_is {A} `{EqDecision A} (c : option A) (v : A) : sql_bool := (λ x, bool_decide (x = v)) <$> c.
Definition col_in (c : option string) (l : list string) : sql_bool :=
  match l with [] => Some false | _ => (λ x, bool_decide (x ∈ l)) <$> c end.
Definition text_is (c v : string) : sql_bool := Some (bool_decide (c = v)).
Definition text_in (c : string) (l : list string) : sql_bool := Some (bool_decide (c ∈ l)).
Definition is_null {A} (c : option A) : sql_bool := Some (match c with None => true | Some _ => false end).

(** [if x: ...where(...)]: a clause that an unset argument leaves out. *)
Definition where_set (x : option string) (f : string → sql_bool) : list sql_bool :=
  match x with Some v => if bool_decide (v = "") then [] else [f v] | None => [] end.
Definition where_given {A} (x : option A) (f : A → sql_bool) : list sql_bool :=
  match x with Some v => [f v] | None => [] end.
Definition where_if (b : bool) (p : sql_bool) : list sql_bool := if b then [p] else [].

(** ** The clauses *)

Definition _fleet_scope_clause (fleet_ids : list string) (strict include_org_visibility : bool) (m : stored_memory) : sql_bool :=
  or_ ([col_in (q_fleet_id m) fleet_ids] ++ where_if (negb strict) (is_null (q_fleet_id m)) ++
       where_if include_org_visibility (text_is (q_visibility m) "scope_org")).

Definition _SHARED_VISIBILITIES : list string := ["scope_team"; "scope_org"].

Definition _visibility_scope_clause (caller_agent_id caller_tenant_id : option string) (m : stored_memory) : sql_bool :=
  match caller_agent_id with
  | Some c =>
      if bool_decide (c = "") then text_in (q_visibility m) _SHARED_VISIBILITIES
      else or_ [text_is (q_visibility m) "scope_org"; text_is (q_visibility m) "scope_team";
                and_ ([text_is (q_visibility m) "scope_agent"; text_is (q_agent_id m) c] ++
                      where_set caller_tenant_id (text_is (q_tenant_id m)))]
  | None => text_in (q_visibility m) _SHARED_VISIBILITIES
  end.

(** The UTC day of a time. *)
Definition _utc_day (t : Z) : Z := t / 86400000000.
Definition _started_by (valid_at : Z) (m : stored_memory) : sql_bool :=
  or_ [is_null (q_ts_valid_start m); (λ t, _utc_day t <=? _utc_day valid_at) <$> q_ts_valid_start m].

Definition VERIFIED_STATUSES : list string := ["tool_observed"; "corroborated"; "human_verified"].
Definition _verified_clause (m : stored_memory) : sql_bool := text_in (q_verification_status m) VERIFIED_STATUSES.
Definition _baton_clause (baton : string) (m : stored_memory) : sql_bool := col_is (q_baton_id m) baton.

(** The tenants a read covers: the readable ones where it was given some, else its own. *)
Definition read_tenants (tenant_id : string) (readable : list string) : list string :=
  match readable with [] => [tenant_id] | ts => ts end.
Definition tenant_scope (tenant_id : string) (readable_tenant_ids : list string) (m : stored_memory) : sql_bool :=
  text_in (q_tenant_id m) (read_tenants tenant_id readable_tenant_ids).
Definition not_deleted (m : stored_memory) : sql_bool := is_null (q_deleted_at m).
Definition not_quarantined (m : stored_memory) : sql_bool := Some (negb (bool_decide (q_status m = QUARANTINED_MEMORY_STATUS))).

(** ** The scored search *)

(** [search_vector @@ plainto_tsquery(q)] *)
Class TextSearch : Type := ts_match : string → stored_memory → sql_bool.

Record search_args : Type := SearchArgs {
  a_tenant_id : string; a_query : string; a_fleet_ids : list string; a_caller_agent_id : option string;
  a_caller_tenant_id : option string; a_filter_agent_id : option string; a_memory_type_filter : option string;
  a_status_filter : option string; a_valid_at : option Z; a_readable_tenant_ids : list string;
  a_history_query : bool; a_strict_fleet_scoping : bool; a_verified_only : bool; a_baton_id : option string
}.

Section Search.
Context {text_search : TextSearch}.

Definition _fts_guard_clause (query : string) (m : stored_memory) : sql_bool :=
  if bool_decide (strip query = "") then Some false else ts_match query m.

Definition caller_tenant (a : search_args) : option string := py_or (a_caller_tenant_id a) (Some (a_tenant_id a)).

(** The filters by name, of a row. *)
Definition _scored_search_row_filters (a : search_args) (m : stored_memory) : list (string * sql_bool) :=
  let fts_guard := _fts_guard_clause (a_query a) m in
  let named (name : string) : list sql_bool → list (string * sql_bool) := fmap (pair name) in
  [("tenant_scope", tenant_scope (a_tenant_id a) (a_readable_tenant_ids a) m);
   ("deleted", not_deleted m);
   ("held", not_quarantined m);
   ("embedding_missing", or_ [Some (q_embedded m); fts_guard])] ++
  named "fleet_scope" (where_if (negb (bool_decide (a_fleet_ids a = [])))
    (_fleet_scope_clause (a_fleet_ids a) (a_strict_fleet_scoping a) true m)) ++
  [("visibility_scope", _visibility_scope_clause (a_caller_agent_id a) (caller_tenant a) m)] ++
  named "agent_filter" (where_set (a_filter_agent_id a) (text_is (q_agent_id m))) ++
  named "memory_type_filter" (where_set (a_memory_type_filter a) (text_is (q_memory_type m))) ++
  named "verified_only" (where_if (a_verified_only a) (_verified_clause m)) ++
  named "baton_id" (where_set (a_baton_id a) (λ b, _baton_clause b m)) ++
  (if nonempty (a_status_filter a) then named "status_filter" (where_set (a_status_filter a) (text_is (q_status m)))
   else if a_history_query a then []
   else [("status_superseded",
          or_ [Some (negb (bool_decide (q_status m ∈ ["outdated"; "conflicted"])));
               and_ [text_is (q_status m) "conflicted"; fts_guard]])]) ++
  named "temporal_valid_at" (where_given (a_valid_at a) (λ t, _started_by t m)).

(** The rows [memory_scored_search] scores. *)
Definition scored_row (a : search_args) (m : stored_memory) : bool :=
  holds (and_ (snd <$> _scored_search_row_filters a m)).

(** [exists] and [checks]. *)
Definition memory_explain_filters (memory_id : string) (a : search_args) (db : list stored_memory)
  : bool * list (string * bool) :=
  match find (λ m, bool_decide (q_id m = memory_id)) db with
  | None => (false, [])
  | Some m => (true, (λ f, (f.1, holds f.2)) <$> _scored_search_row_filters a m)
  end.

(** ** The by-id load and the successors *)

Definition loaded_row (a : search_args) (m : stored_memory) : bool :=
  holds (and_ (
    [tenant_scope (a_tenant_id a) (a_readable_tenant_ids a) m; not_deleted m; not_quarantined m] ++
    where_if (negb (bool_decide (a_fleet_ids a = []))) (_fleet_scope_clause (a_fleet_ids a) (a_strict_fleet_scoping a) true m) ++
    [_visibility_scope_clause (a_caller_agent_id a) (caller_tenant a) m] ++
    where_set (a_filter_agent_id a) (text_is (q_agent_id m)) ++
    where_set (a_memory_type_filter a) (text_is (q_memory_type m)) ++
    where_if (a_verified_only a) (_verified_clause m) ++
    where_set (a_baton_id a) (λ b, _baton_clause b m) ++
    (if nonempty (a_status_filter a) then where_set (a_status_filter a) (text_is (q_status m))
     else [Some (negb (bool_decide (q_status m = "outdated")))]) ++
    where_given (a_valid_at a) (λ t, _started_by t m))).

Definition memory_load_by_ids (memory_ids : list string) (a : search_args) (db : list stored_memory) : list stored_memory :=
  match memory_ids with
  | [] => []
  | _ => filter (λ m, (bool_decide (q_id m ∈ memory_ids) && loaded_row a m)%bool = true) db
  end.

Definition successor_scope (a : search_args) (m : stored_memory) : bool :=
  holds (and_ (
    [tenant_scope (a_tenant_id a) (a_readable_tenant_ids a) m; text_in (q_status m) ["active"; "confirmed"]; not_deleted m;
     _visibility_scope_clause (a_caller_agent_id a) (caller_tenant a) m] ++
    where_if (negb (bool_decide (a_fleet_ids a = []))) (_fleet_scope_clause (a_fleet_ids a) (a_strict_fleet_scoping a) true m) ++
    where_set (a_filter_agent_id a) (text_is (q_agent_id m)) ++
    where_set (a_memory_type_filter a) (text_is (q_memory_type m)) ++
    where_if (a_verified_only a) (_verified_clause m) ++
    where_set (a_baton_id a) (λ b, _baton_clause b m) ++
    where_given (a_valid_at a) (λ t, _started_by t m))).
End Search.

Definition CONTRADICTED_STATUSES : list string := ["outdated"; "conflicted"].

(** The newer of two rows: created later, or on a tie the greater id. *)
Definition newer (w l : stored_memory) : bool :=
  match q_created_at w, q_created_at l with
  | Some tw, Some tl => (tl <? tw) || ((tw =? tl) && str_ltb (q_id l) (q_id w))
  | _, _ => false
  end.

(** [_recorded_winners]: the winners the records of the losers name, on one side of them. *)
Definition _recorded_winners (loser_side winner_side : conflict_record → string) (loser_ids : list string)
    (tenant_id : string) (readable : list string) (scope : stored_memory → bool)
    (records : list conflict_record) (db : list stored_memory) : list (stored_memory * string) :=
  w ← filter (λ m, scope m = true) db;
  k ← filter (λ k, winner_side k = q_id w ∧ k_review_status k ≠ "dismissed" ∧ loser_side k ∈ loser_ids ∧
                   k_tenant_id k ∈ read_tenants tenant_id readable) records;
  l ← filter (λ l, q_id l = loser_side k ∧ q_tenant_id l = k_tenant_id k ∧ q_deleted_at l = None ∧
                   q_status l ∈ CONTRADICTED_STATUSES ∧ newer w l = true ∧ q_supersedes_id w ≠ Some (q_id l)) db;
  mret (w, q_id l).

(** The successors of the given memories, each with the one it replaced. *)
Definition memory_find_successors `{TextSearch} (supersedes_ids : list string) (a : search_args)
    (records : list conflict_record) (db : list stored_memory) : list (stored_memory * string) :=
  (m ← filter (λ m, successor_scope a m = true) db;
   match q_supersedes_id m with
   | Some old => if bool_decide (old ∈ supersedes_ids) then [(m, old)] else []
   | None => []
   end) ++
  _recorded_winners k_old_memory_id k_new_memory_id supersedes_ids (a_tenant_id a) (a_readable_tenant_ids a)
    (successor_scope a) records db ++
  _recorded_winners k_new_memory_id k_old_memory_id supersedes_ids (a_tenant_id a) (a_readable_tenant_ids a)
    (successor_scope a) records db.

(** ** Facts *)

Lemma holds_and l : holds (and_ l) = forallb holds l.
Proof.
  induction l as [|p l IH]; [done|]. cbn [and_ foldr forallb]. rewrite <-IH.
  unfold and_. destruct p as [[]|], (foldr sql_and (Some true) l) as [[]|]; done.
Qed.
Lemma holds_or l : holds (or_ l) = existsb holds l.
Proof.
  induction l as [|p l IH]; [done|]. cbn [or_ foldr existsb]. rewrite <-IH.
  unfold or_. destruct p as [[]|], (foldr sql_or (Some false) l) as [[]|]; done.
Qed.
Lemma holds_and_iff l : holds (and_ l) = true ↔ Forall (λ p, holds p = true) l.
Proof. rewrite holds_and, forallb_forall, Forall_forall. by setoid_rewrite list_elem_of_In. Qed.
Lemma holds_or_iff l : holds (or_ l) = true ↔ Exists (λ p, holds p = true) l.
Proof.
  rewrite holds_or, existsb_exists, Exists_exists. by setoid_rewrite list_elem_of_In.
Qed.

Lemma holds_Some b : holds (Some b) = b.
Proof. done. Qed.
Lemma holds_text_is c v : holds (text_is c v) = true ↔ c = v.
Proof. apply bool_decide_eq_true. Qed.
Lemma holds_text_in c l : holds (text_in c l) = true ↔ c ∈ l.
Proof. apply bool_decide_eq_true. Qed.
Lemma holds_is_null {A} (c : option A) : holds (is_null c) = true ↔ c = None.
Proof. by destruct c. Qed.
Lemma holds_col_in c l : holds (col_in c l) = true ↔ ∃ v, c = Some v ∧ v ∈ l.
Proof.
  destruct l as [|x l]; cbn; [split; [done|by intros (? & _ & ?%elem_of_nil)]|].
  destruct c as [v|]; cbn; [|naive_solver]. rewrite bool_decide_eq_true. naive_solver.
Qed.
Lemma holds_col_is {A} `{EqDecision A} (c : option A) v : holds (col_is c v) = true ↔ c = Some v.
Proof. destruct c; cbn; [rewrite bool_decide_eq_true|]; naive_solver. Qed.
Create HintDb sql.
#[export] Hint Rewrite holds_and_iff holds_or_iff holds_text_is holds_text_in @holds_is_null holds_col_in
  @holds_col_is : sql.

Lemma where_set_Forall P x f : Forall P (where_set x f) ↔ ∀ v, x = Some v → v ≠ "" → P (f v).
Proof.
  unfold where_set. destruct x as [v|]; [|naive_solver]. case_bool_decide; [naive_solver|].
  rewrite Forall_singleton. naive_solver.
Qed.
Lemma where_given_Forall {A} P (x : option A) f : Forall P (where_given x f) ↔ ∀ v, x = Some v → P (f v).
Proof. destruct x; cbn; rewrite ?Forall_singleton; naive_solver. Qed.
Lemma where_if_Forall P b p : Forall P (where_if b p) ↔ (b = true → P p).
Proof. destruct b; cbn; rewrite ?Forall_singleton; naive_solver. Qed.
Lemma where_if_Exists P b p : Exists P (where_if b p) ↔ b = true ∧ P p.
Proof. destruct b; cbn; rewrite ?Exists_cons, ?Exists_nil; naive_solver. Qed.
#[export] Hint Rewrite @Forall_app @Forall_cons @Forall_nil @Exists_app @Exists_cons @Exists_nil where_set_Forall
  @where_given_Forall where_if_Forall where_if_Exists : sql.

(** A row of the teams or the organization, or the caller's own in its home tenant. *)
Definition shared_or_own (caller home : option string) (m : stored_memory) : Prop :=
  q_visibility m ∈ _SHARED_VISIBILITIES ∨
  q_visibility m = "scope_agent" ∧ caller = Some (q_agent_id m) ∧ q_agent_id m ≠ "" ∧
  ∀ h, home = Some h → h ≠ "" → q_tenant_id m = h.

(** A row of one of the fleets, of none where that is allowed, or the organization's. *)
Definition in_fleets (fleets : list string) (strict org : bool) (m : stored_memory) : Prop :=
  (∃ f, q_fleet_id m = Some f ∧ f ∈ fleets) ∨ strict = false ∧ q_fleet_id m = None ∨
  org = true ∧ q_visibility m = "scope_org".

Lemma holds_visibility c h m : holds (_visibility_scope_clause c h m) = true ↔ shared_or_own c h m.
Proof.
  unfold _visibility_scope_clause, shared_or_own, _SHARED_VISIBILITIES. destruct c as [c|]; [case_bool_decide|];
    autorewrite with sql; [set_solver| |set_solver].
  setoid_rewrite holds_text_is. rewrite !elem_of_cons, elem_of_nil. naive_solver.
Qed.
Lemma holds_fleets fs strict org m : holds (_fleet_scope_clause fs strict org m) = true ↔ in_fleets fs strict org m.
Proof.
  unfold _fleet_scope_clause, in_fleets. autorewrite with sql. rewrite negb_true_iff. naive_solver.
Qed.
#[export] Hint Rewrite holds_visibility holds_fleets : sql.

(** ** What a search may show *)

(** What the caller's reach and the filters of its search ask of a row. *)
Record in_reach (a : search_args) (m : stored_memory) : Prop := InReach {
  reach_tenant : q_tenant_id m ∈ read_tenants (a_tenant_id a) (a_readable_tenant_ids a);
  reach_live : q_deleted_at m = None;
  reach_not_held : q_status m ≠ QUARANTINED_MEMORY_STATUS;
  reach_visible : shared_or_own (a_caller_agent_id a) (caller_tenant a) m;
  reach_fleets : a_fleet_ids a = [] ∨ in_fleets (a_fleet_ids a) (a_strict_fleet_scoping a) true m;
  reach_agent : ∀ v, a_filter_agent_id a = Some v → v ≠ "" → q_agent_id m = v;
  reach_type : ∀ v, a_memory_type_filter a = Some v → v ≠ "" → q_memory_type m = v;
  reach_verified : a_verified_only a = true → q_verification_status m ∈ VERIFIED_STATUSES;
  reach_baton : ∀ v, a_baton_id a = Some v → v ≠ "" → q_baton_id m = Some v;
  reach_started : ∀ t, a_valid_at a = Some t → holds (_started_by t m) = true
}.

Lemma holds_not_held m : holds (not_quarantined m) = true ↔ q_status m ≠ QUARANTINED_MEMORY_STATUS.
Proof. cbn. rewrite negb_true_iff. apply bool_decide_eq_false. Qed.
Lemma holds_not_deleted m : holds (not_deleted m) = true ↔ q_deleted_at m = None.
Proof. apply holds_is_null. Qed.
Lemma holds_tenant t rs m : holds (tenant_scope t rs m) = true ↔ q_tenant_id m ∈ read_tenants t rs.
Proof. apply holds_text_in. Qed.
Lemma holds_verified m : holds (_verified_clause m) = true ↔ q_verification_status m ∈ VERIFIED_STATUSES.
Proof. apply holds_text_in. Qed.
Lemma holds_baton b m : holds (_baton_clause b m) = true ↔ q_baton_id m = Some b.
Proof. apply holds_col_is. Qed.
#[export] Hint Rewrite holds_not_held holds_not_deleted holds_tenant holds_verified holds_baton : sql.

Lemma fleets_given (fs : list string) (P : Prop) : (negb (bool_decide (fs = [])) = true → P) ↔ fs = [] ∨ P.
Proof. rewrite negb_true_iff, bool_decide_eq_false. destruct (decide (fs = [])); naive_solver. Qed.
#[export] Hint Rewrite fleets_given : sql.

Lemma in_reach_iff a m :
  in_reach a m ↔
  q_tenant_id m ∈ read_tenants (a_tenant_id a) (a_readable_tenant_ids a) ∧ q_deleted_at m = None ∧
  q_status m ≠ QUARANTINED_MEMORY_STATUS ∧ shared_or_own (a_caller_agent_id a) (caller_tenant a) m ∧
  (a_fleet_ids a = [] ∨ in_fleets (a_fleet_ids a) (a_strict_fleet_scoping a) true m) ∧
  (∀ v, a_filter_agent_id a = Some v → v ≠ "" → q_agent_id m = v) ∧
  (∀ v, a_memory_type_filter a = Some v → v ≠ "" → q_memory_type m = v) ∧
  (a_verified_only a = true → q_verification_status m ∈ VERIFIED_STATUSES) ∧
  (∀ v, a_baton_id a = Some v → v ≠ "" → q_baton_id m = Some v) ∧
  (∀ t, a_valid_at a = Some t → holds (_started_by t m) = true).
Proof. split; [by intros []|]. intros (? & ? & ? & ? & ? & ? & ? & ? & ? & ?). by constructor. Qed.

(** A status asked for by name. *)
Lemma status_asked f m :
  nonempty f = true → (∀ v, f = Some v → v ≠ "" → q_status m = v) ↔ f = Some (q_status m).
Proof.
  destruct f as [s|]; [|done]. cbn. rewrite negb_true_iff, bool_decide_eq_false. naive_solver.
Qed.

Section SearchFacts.
Context {text_search : TextSearch}.

(** The clauses a search and a by-id load share, for what each keeps of the statuses. *)
Lemma loaded_row_iff a m :
  loaded_row a m = true ↔
  in_reach a m ∧
  if nonempty (a_status_filter a) then a_status_filter a = Some (q_status m) else q_status m ≠ "outdated".
Proof.
  unfold loaded_row. autorewrite with sql. setoid_rewrite holds_text_is. setoid_rewrite holds_baton.
  rewrite in_reach_iff. destruct (nonempty _) eqn:E.
  - autorewrite with sql. setoid_rewrite holds_text_is. rewrite status_asked by done. tauto.
  - autorewrite with sql. rewrite holds_Some, negb_true_iff, bool_decide_eq_false. tauto.
Qed.

(** What the scored search keeps beyond that: of the statuses, and of the rows not embedded yet. *)
Definition current_for (a : search_args) (m : stored_memory) : Prop :=
  if nonempty (a_status_filter a) then a_status_filter a = Some (q_status m)
  else a_history_query a = true ∨ q_status m ∉ ["outdated"; "conflicted"] ∨
       q_status m = "conflicted" ∧ holds (_fts_guard_clause (a_query a) m) = true.

Lemma scored_clauses a m :
  snd <$> _scored_search_row_filters a m =
  [tenant_scope (a_tenant_id a) (a_readable_tenant_ids a) m; not_deleted m; not_quarantined m;
   or_ [Some (q_embedded m); _fts_guard_clause (a_query a) m]] ++
  where_if (negb (bool_decide (a_fleet_ids a = []))) (_fleet_scope_clause (a_fleet_ids a) (a_strict_fleet_scoping a) true m) ++
  [_visibility_scope_clause (a_caller_agent_id a) (caller_tenant a) m] ++
  where_set (a_filter_agent_id a) (text_is (q_agent_id m)) ++
  where_set (a_memory_type_filter a) (text_is (q_memory_type m)) ++
  where_if (a_verified_only a) (_verified_clause m) ++
  where_set (a_baton_id a) (λ b, _baton_clause b m) ++
  (if nonempty (a_status_filter a) then where_set (a_status_filter a) (text_is (q_status m))
   else if a_history_query a then []
   else [or_ [Some (negb (bool_decide (q_status m ∈ ["outdated"; "conflicted"])));
              and_ [text_is (q_status m) "conflicted"; _fts_guard_clause (a_query a) m]]]) ++
  where_given (a_valid_at a) (λ t, _started_by t m).
Proof.
  unfold _scored_search_row_filters. rewrite !fmap_app, <-!list_fmap_compose.
  assert (∀ (n : string) (l : list sql_bool), compose snd (pair n) <$> l = l) as E by (intros; apply list_fmap_id).
  rewrite !E. do 8 f_equal. destruct (nonempty _); [by rewrite <-list_fmap_compose, E|]. by destruct (a_history_query a).
Qed.

Lemma scored_row_iff a m :
  scored_row a m = true ↔
  in_reach a m ∧ (q_embedded m = true ∨ holds (_fts_guard_clause (a_query a) m) = true) ∧ current_for a m.
Proof.
  unfold scored_row, current_for. rewrite scored_clauses. autorewrite with sql.
  setoid_rewrite holds_text_is. setoid_rewrite holds_baton. rewrite holds_Some, in_reach_iff.
  destruct (nonempty _) eqn:E.
  - autorewrite with sql. setoid_rewrite holds_text_is. rewrite status_asked by done. tauto.
  - destruct (a_history_query a); autorewrite with sql; rewrite ?holds_Some, ?negb_true_iff, ?bool_decide_eq_false; [tauto|].
    assert (false = true ↔ False) as -> by done. tauto.
Qed.

Lemma successor_scope_iff a m :
  successor_scope a m = true ↔ in_reach a m ∧ q_status m ∈ ["active"; "confirmed"].
Proof.
  unfold successor_scope. autorewrite with sql. setoid_rewrite holds_text_is. setoid_rewrite holds_baton.
  rewrite in_reach_iff.
  assert (q_status m ∈ ["active"; "confirmed"] → q_status m ≠ QUARANTINED_MEMORY_STATUS) as Hq.
  { rewrite !elem_of_cons, elem_of_nil. intros [->|[->|[]]]; done. }
  tauto.
Qed.

(** [m] replaced the memory [old]: it names it, or a record that stands names both and [m] is the newer. *)
Definition replaced (records : list conflict_record) (db : list stored_memory) (m : stored_memory) (old : string) : Prop :=
  q_supersedes_id m = Some old ∨
  ∃ k l, k ∈ records ∧ l ∈ db ∧ q_id l = old ∧ k_review_status k ≠ "dismissed" ∧
         (k_old_memory_id k = old ∧ k_new_memory_id k = q_id m ∨ k_new_memory_id k = old ∧ k_old_memory_id k = q_id m) ∧
         q_tenant_id l = k_tenant_id k ∧ q_deleted_at l = None ∧ q_status l ∈ CONTRADICTED_STATUSES ∧ newer m l = true.

Lemma recorded_winner ls ws ids t rs scope records db m old :
  (m, old) ∈ _recorded_winners ls ws ids t rs scope records db →
  m ∈ db ∧ scope m = true ∧ old ∈ ids ∧
  ∃ k l, k ∈ records ∧ l ∈ db ∧ q_id l = old ∧ k_review_status k ≠ "dismissed" ∧ ls k = old ∧ ws k = q_id m ∧
         k_tenant_id k ∈ read_tenants t rs ∧
         q_tenant_id l = k_tenant_id k ∧ q_deleted_at l = None ∧ q_status l ∈ CONTRADICTED_STATUSES ∧ newer m l = true.
Proof.
  unfold _recorded_winners. intros (w & Hb & (Hw & Hin)%list_elem_of_filter)%list_elem_of_bind.
  apply list_elem_of_bind in Hb as (k & Hb & ((? & ? & ? & ?) & ?)%list_elem_of_filter).
  apply list_elem_of_bind in Hb as (l & [= -> ->]%list_elem_of_singleton & ((? & ? & ? & ? & ? & ?) & ?)%list_elem_of_filter).
  split_and!; [done..|congruence|]. eexists k, l. split_and!; done || congruence.
Qed.

(** C23: every memory a search scores, a by-id load returns or a correction adds is in the caller's
    reach: of a tenant it reads, live and not held, shared or the caller's own in its home tenant,
    in its fleets, and within each filter it set. *)
Theorem searches_stay_in_reach a ids records db m :
  m ∈ filter (λ m, scored_row a m = true) db ∨ m ∈ memory_load_by_ids ids a db ∨
  m ∈ (memory_find_successors ids a records db).*1 →
  m ∈ db ∧ in_reach a m.
Proof.
  intros [[Hm ?]%list_elem_of_filter|[Hm|((w & old) & -> & Hm)%list_elem_of_fmap]].
  - by apply scored_row_iff in Hm as [].
  - destruct ids as [|i ids]; [by apply elem_of_nil in Hm|].
    apply list_elem_of_filter in Hm as [[_ Hm]%andb_true_iff ?]. by apply loaded_row_iff in Hm as [].
  - unfold memory_find_successors in Hm. rewrite !elem_of_app in Hm. destruct Hm as [Hm|[Hm|Hm]].
    + apply list_elem_of_bind in Hm as (x & Hx & [Hs ?]%list_elem_of_filter).
      destruct (q_supersedes_id x) as [o|]; [case_bool_decide|]; try by apply elem_of_nil in Hx.
      apply list_elem_of_singleton in Hx as [= -> ->]. by apply successor_scope_iff in Hs as [].
    + apply recorded_winner in Hm as (? & Hs & _). by apply successor_scope_iff in Hs as [].
    + apply recorded_winner in Hm as (? & Hs & _). by apply successor_scope_iff in Hs as [].
Qed.

(** Every correction a search adds replaced one of the memories found: it is active or confirmed,
    and it supersedes that memory, or a record that was not dismissed sets it against that one,
    which still counts as contradicted, and it is the newer of the two. *)
Theorem corrections_are_earned a ids records db m old :
  (m, old) ∈ memory_find_successors ids a records db →
  old ∈ ids ∧ q_status m ∈ ["active"; "confirmed"] ∧ replaced records db m old.
Proof.
  unfold memory_find_successors. rewrite !elem_of_app. intros [Hm|[Hm|Hm]].
  - apply list_elem_of_bind in Hm as (x & Hx & [Hs ?]%list_elem_of_filter).
    destruct (q_supersedes_id x) as [o|] eqn:E; [case_bool_decide|]; try by apply elem_of_nil in Hx.
    apply list_elem_of_singleton in Hx as [= -> ->]. apply successor_scope_iff in Hs as [_ ?].
    split_and!; [done..|by left].
  - apply recorded_winner in Hm as (? & Hs & ? & k & l & ?). apply successor_scope_iff in Hs as [_ ?].
    split_and!; [done..|right]. exists k, l. naive_solver.
  - apply recorded_winner in Hm as (? & Hs & ? & k & l & ?). apply successor_scope_iff in Hs as [_ ?].
    split_and!; [done..|right]. exists k, l. naive_solver.
Qed.

(** The explanation of a memory passes every check exactly when the search would score it. *)
Theorem explanation_agrees_with_search a i db :
  NoDup (q_id <$> db) →
  (let '(found, checks) := memory_explain_filters i a db in found = true ∧ Forall (λ c, c.2 = true) checks)
  ↔ ∃ m, m ∈ db ∧ q_id m = i ∧ scored_row a m = true.
Proof.
  intros Hnd. unfold memory_explain_filters. destruct (find _ db) as [m|] eqn:E.
  - apply find_some in E as [Hm%list_elem_of_In Hi]. apply bool_decide_eq_true in Hi.
    assert (Forall (λ c, c.2 = true) ((λ f, (f.1, holds f.2)) <$> _scored_search_row_filters a m) ↔ scored_row a m = true)
      as ->.
    { unfold scored_row. rewrite holds_and_iff, !Forall_fmap. done. }
    split; [intros []; by exists m|]. intros (m' & Hm' & Hi' & ?). split; [done|].
    apply list_elem_of_lookup in Hm as [x Hx], Hm' as [y Hy].
    assert (x = y) as ->; [|congruence].
    eapply NoDup_lookup; [done|rewrite list_lookup_fmap, Hx; cbn; by rewrite Hi|rewrite list_lookup_fmap, Hy; cbn; by rewrite Hi'].
  - split; [by intros []|]. intros (m & Hm & Hi & _). exfalso.
    eapply find_none in E; [|by apply list_elem_of_In]. by rewrite bool_decide_true in E.
Qed.

(** The by-id load returns every row the scored search would, but for a question about the past:
    that search keeps the outdated rows, which the load leaves out. *)
Theorem load_covers_the_search a ids db m :
  m ∈ db → q_id m ∈ ids → scored_row a m = true →
  m ∈ memory_load_by_ids ids a db ∨ a_history_query a = true ∧ q_status m = "outdated".
Proof.
  intros Hm Hi [Hr [_ Hc]]%scored_row_iff.
  destruct (decide (loaded_row a m = true)) as [Hl|Hl].
  - left. unfold memory_load_by_ids. destruct ids; [by apply elem_of_nil in Hi|].
    apply list_elem_of_filter. split; [|done]. apply andb_true_iff. split; [by apply bool_decide_eq_true|done].
  - right. rewrite loaded_row_iff in Hl. unfold current_for in Hc. destruct (nonempty _); [tauto|].
    assert (q_status m = "outdated") as Hs. { destruct (decide (q_status m = "outdated")); tauto. }
    split; [|done]. rewrite Hs in Hc. destruct Hc as [?|[[]%not_elem_of_cons|[]]]; done.
Qed.
End SearchFacts.

(** ** Witnesses *)

Definition sample_memory (i fleet agent visibility status : string) (created : Z) (old : option string) : stored_memory :=
  StoredMemory i "acme" (Some fleet) agent "fact" visibility status None (Some created) None None None (Some "deploy notes")
    "corroborated" true None None 0 old None.
Definition sample_memories : list stored_memory :=
  [sample_memory "m1" "north" "scout" "scope_team" "outdated" 10 None;
   sample_memory "m2" "north" "peer" "scope_team" "active" 20 (Some "m1");
   sample_memory "m3" "north" "peer" "scope_agent" "active" 30 None;
   sample_memory "m4" "south" "peer" "scope_org" "conflicted" 40 None;
   sample_memory "m5" "north" "scout" "scope_agent" "active" 50 None].
Definition sample_records : list conflict_record := [ConflictRecord "acme" "m4" "m5" "open"].
Definition sample_text : TextSearch := λ query m, startswith query <$> q_title m.
Definition sample_search (history : bool) : search_args :=
  SearchArgs "acme" "deploy" ["north"] (Some "scout") (Some "acme") None None None (Some 90) [] history true false None.

Lemma searches_stay_in_reach_witness :
  let text := sample_text in
  (q_id <$> filter (λ m, scored_row (sample_search false) m = true) sample_memories) = ["m2"; "m4"; "m5"] ∧
  Forall (λ m, in_reach (sample_search false) m)
    (filter (λ m, scored_row (sample_search false) m = true) sample_memories).
Proof.
  intros text. split; [by vm_compute|]. apply Forall_forall. intros m Hm.
  eapply (searches_stay_in_reach (sample_search false) [] [] sample_memories m). left. exact Hm.
Defined.

Lemma corrections_are_earned_witness :
  let text := sample_text in
  let found := memory_find_successors ["m1"; "m4"] (sample_search false) sample_records sample_memories in
  ((λ f, (q_id f.1, f.2)) <$> found) = [("m2", "m1"); ("m5", "m4")] ∧
  Forall (λ f, replaced sample_records sample_memories f.1 f.2) found.
Proof.
  intros text found. split; [by vm_compute|]. apply Forall_forall. intros [m old] Hm.
  by destruct (corrections_are_earned (sample_search false) ["m1"; "m4"] sample_records sample_memories m old Hm)
    as (_ & _ & ?).
Defined.

Lemma explanation_agrees_with_search_witness :
  let text := sample_text in
  memory_explain_filters "m3" (sample_search false) sample_memories
  = (true, [("tenant_scope", true); ("deleted", true); ("held", true); ("embedding_missing", true);
            ("fleet_scope", true); ("visibility_scope", false); ("status_superseded", true);
            ("temporal_valid_at", true)]) ∧
  ¬ ∃ m, m ∈ sample_memories ∧ q_id m = "m3" ∧ scored_row (sample_search false) m = true.
Proof.
  intros text. split; [by vm_compute|]. intros Hm.
  apply (explanation_agrees_with_search (sample_search false) "m3" sample_memories) in Hm; [|by_compute].
  vm_compute in Hm. destruct Hm as [_ Hm]. by repeat (apply Forall_cons in Hm as [? Hm]).
Defined.

(** Of a question about the past, the load leaves out the outdated row the search would score. *)
Lemma load_covers_the_search_witness :
  let text := sample_text in
  (q_id <$> filter (λ m, scored_row (sample_search true) m = true) sample_memories) = ["m1"; "m2"; "m4"; "m5"] ∧
  (q_id <$> memory_load_by_ids ["m1"; "m2"; "m3"; "m4"; "m5"] (sample_search true) sample_memories) = ["m2"; "m4"; "m5"] ∧
  Forall (λ m, m ∈ memory_load_by_ids ["m1"; "m2"; "m3"; "m4"; "m5"] (sample_search true) sample_memories ∨
               q_status m = "outdated")
    (filter (λ m, scored_row (sample_search true) m = true) sample_memories).
Proof.
  intros text. split_and!; [by vm_compute..|]. apply Forall_forall. intros m [Hs Hm]%list_elem_of_filter.
  destruct (load_covers_the_search (sample_search true) ["m1"; "m2"; "m3"; "m4"; "m5"] sample_memories m Hm) as [?|[_ ?]];
    [|exact Hs|by left|by right].
  clear Hs. revert m Hm. apply Forall_forall. by_compute.
Defined.
