(* ===== verification/ListScope.v ===== *)
(** * The rows storage lists and counts

    The list queries of [core-storage-api/.../services/postgres_service.py] with their filters,
    order, cursor and page, the counts that summarise them (live count, stats breakdown, fleets,
    days), the rows of the map, and the [/list] and [/admin-list] handlers of
    [core-storage-api/.../routers/memories.py], over the rows and clauses of [ReadScope].

    An [ORDER BY] puts NULL above every value, and breaks ties by id in the same direction. How the
    database orders the text of a column is the class [Collation]; ids are UUIDs in lower case,
    whose order is that of their text. The columns a row is returned with, the author's display
    name and the map's entities and embeddings, and the pending-work counts of the stats, are left
    out. *)

From Stdlib Require Import Floats.SpecFloat.
From S2P Require Import Prelude PyStr PyVal AgentRegistry MemoryAccess Contradiction ReadScope.

#[local] Open Scope string_scope.
#[local] Open Scope list_scope.
#[local] Open Scope Z_scope.

Record list_args : Type := ListArgs {
  f_tenant_id : string; f_caller_agent_id : option string; f_caller_tenant_id : option string;
  f_fleet_id : option string; f_written_by : option string; f_memory_type : option string;
  f_exclude_memory_types : list string; f_status : option string; f_run_id : option string;
  f_baton_id : option string; f_weight_min : option spec_float; f_weight_max : option spec_float;
  f_created_after : option Z; f_created_before : option Z; f_include_deleted : bool; f_sort : string;
  f_order : string; f_limit : Z; f_offset : Z; f_cursor_ts : option Z; f_cursor_id : option string;
  f_readable_tenant_ids : list string; f_visibility : option string; f_include_scope_agent : bool
}.

(** ** Values and their order *)

(** PostgreSQL's order of [float8]: a NaN equals itself and is above every number. *)
Definition float_compare (x y : spec_float) : comparison :=
  match SFcompare x y with
  | Some c => c
  | None => match x, y with S754_nan, S754_nan => Eq | S754_nan, _ => Gt | _, _ => Lt end
  end.
Definition float_leb (x y : spec_float) : bool := match float_compare x y with Gt => false | _ => true end.

Class Collation : Type := collate : string → string → comparison.

Definition nulls_greatest {A} (cmp : A → A → comparison) (x y : option A) : comparison :=
  match x, y with
  | Some x, Some y => cmp x y
  | None, None => Eq
  | None, Some _ => Gt
  | Some _, None => Lt
  end.

Definition _ADMIN_LIST_SORTABLE : list string :=
  ["created_at"; "weight"; "memory_type"; "agent_id"; "status"; "recall_count"; "fleet_id"; "tenant_id";
   "expires_at"; "deleted_at"].

(** [getattr(Memory, sort)] of the allow-list, compared. *)
Definition column_compare `{Collation} (sort : string) (m n : stored_memory) : comparison :=
  let time (c : stored_memory → option Z) := nulls_greatest Z.compare (c m) (c n) in
  if bool_decide (sort ∉ _ADMIN_LIST_SORTABLE) || bool_decide (sort = "created_at") then time q_created_at
  else if bool_decide (sort = "weight") then nulls_greatest float_compare (q_weight m) (q_weight n)
  else if bool_decide (sort = "memory_type") then collate (q_memory_type m) (q_memory_type n)
  else if bool_decide (sort = "agent_id") then collate (q_agent_id m) (q_agent_id n)
  else if bool_decide (sort = "status") then collate (q_status m) (q_status n)
  else if bool_decide (sort = "recall_count") then Z.compare (q_recall_count m) (q_recall_count n)
  else if bool_decide (sort = "fleet_id") then nulls_greatest collate (q_fleet_id m) (q_fleet_id n)
  else if bool_decide (sort = "tenant_id") then collate (q_tenant_id m) (q_tenant_id n)
  else if bool_decide (sort = "expires_at") then time q_expires_at
  else time q_deleted_at.

Definition row_compare `{Collation} (sort : string) (m n : stored_memory) : comparison :=
  match column_compare sort m n with Eq => String.compare (q_id m) (q_id n) | c => c end.

(** [ORDER BY col, id], both ascending or both descending. *)
Definition row_leb `{Collation} (sort order : string) (m n : stored_memory) : bool :=
  match (if bool_decide (order = "desc") then row_compare sort n m else row_compare sort m n) with
  | Gt => false
  | _ => true
  end.

(** [(created_at, id) < (cursor_ts, cursor_id)], or [>] on an ascending page. *)
Definition cursor_clause (order : string) (cursor : option Z * option string) (m : stored_memory) : list sql_bool :=
  match cursor with
  | (Some ts, Some cid) =>
      [(λ t, if bool_decide (order = "desc") then (t <? ts) || ((t =? ts) && str_ltb (q_id m) cid)
             else (ts <? t) || ((t =? ts) && str_ltb cid (q_id m))) <$> q_created_at m]
  | _ => []
  end.

(** [LIMIT limit OFFSET offset] *)
Definition sql_page {A} (offset limit : Z) (l : list A) : list A := take (Z.to_nat limit) (drop (Z.to_nat offset) l).

Definition text_not_in (c : string) (l : list string) : sql_bool := Some (negb (bool_decide (c ∈ l))).
Definition nonempty_list {A} (l : list A) : bool := match l with [] => false | _ => true end.

(** ** The lists *)

(** The visibility of a read that a person may widen to every row. *)
Definition visible_unless (include_scope_agent : bool) (caller_agent_id caller_tenant_id : option string)
    (tenant_id : string) (m : stored_memory) : list sql_bool :=
  where_if (nonempty caller_agent_id || negb include_scope_agent)
    (_visibility_scope_clause caller_agent_id (py_or caller_tenant_id (Some tenant_id)) m).

(** The fleet of a list: strict, and blind to what the organization shares. *)
Definition fleet_pin (fleet_id : option string) (m : stored_memory) : list sql_bool :=
  where_set fleet_id (λ f, _fleet_scope_clause [f] true false m).

(** The [WHERE] of [memory_list_by_filters] before its cursor. *)
Definition list_filters (a : list_args) (m : stored_memory) : list sql_bool :=
  [tenant_scope (f_tenant_id a) (f_readable_tenant_ids a) m] ++
  visible_unless (f_include_scope_agent a) (f_caller_agent_id a) (f_caller_tenant_id a) (f_tenant_id a) m ++
  fleet_pin (f_fleet_id a) m ++
  where_set (f_written_by a) (text_is (q_agent_id m)) ++
  where_set (f_memory_type a) (text_is (q_memory_type m)) ++
  where_if (nonempty_list (f_exclude_memory_types a)) (text_not_in (q_memory_type m) (f_exclude_memory_types a)) ++
  where_set (f_status a) (text_is (q_status m)) ++
  where_given (f_run_id a) (col_is (q_run_id m)) ++
  where_set (f_baton_id a) (λ b, _baton_clause b m) ++
  where_set (f_visibility a) (text_is (q_visibility m)) ++
  where_given (f_weight_min a) (λ x, (λ w, float_leb x w) <$> q_weight m) ++
  where_given (f_weight_max a) (λ x, (λ w, float_leb w x) <$> q_weight m) ++
  where_given (f_created_after a) (λ x, (λ t, x <=? t) <$> q_created_at m) ++
  where_given (f_created_before a) (λ x, (λ t, t <=? x) <$> q_created_at m) ++
  where_if (negb (f_include_deleted a)) (not_deleted m) ++
  [not_quarantined m].

Definition listed_row (a : list_args) (m : stored_memory) : bool := holds (and_ (list_filters a m)).
Definition past_cursor (order : string) (cursor : option Z * option string) (m : stored_memory) : bool :=
  holds (and_ (cursor_clause order cursor m)).

Section Lists.
Context {collation : Collation}.

Definition memory_list_by_filters (a : list_args) (db : list stored_memory) : list stored_memory :=
  let cursor := (f_cursor_ts a, f_cursor_id a) in
  sql_page (match f_cursor_ts a with None => f_offset a | Some _ => 0 end) (f_limit a + 1)
    (py_sorted (row_leb (f_sort a) (f_order a))
       (filter (λ m, (listed_row a m && past_cursor (f_order a) cursor m)%bool = true) db)).

(** The admin list: any tenant, any visibility. *)
Definition admin_filters (tenant_id fleet_id agent_id memory_type status : option string) (include_deleted : bool)
    (m : stored_memory) : list sql_bool :=
  where_set tenant_id (text_is (q_tenant_id m)) ++ where_set fleet_id (col_is (q_fleet_id m)) ++
  where_if (negb include_deleted) (not_deleted m) ++ [not_quarantined m] ++
  where_set agent_id (text_is (q_agent_id m)) ++ where_set memory_type (text_is (q_memory_type m)) ++
  where_set status (text_is (q_status m)).

Definition memory_admin_list (tenant_id fleet_id agent_id memory_type status : option string)
    (include_deleted : bool) (sort order : string) (offset limit : Z) (cursor_ts : option Z)
    (cursor_id : option string) (db : list stored_memory) : list stored_memory :=
  let using_cursor := bool_decide (is_Some cursor_ts) && bool_decide (is_Some cursor_id) in
  sql_page (if using_cursor then 0 else offset) limit
    (py_sorted (row_leb sort order)
       (filter (λ m, holds (and_ (admin_filters tenant_id fleet_id agent_id memory_type status include_deleted m ++
                                  cursor_clause order (cursor_ts, cursor_id) m)) = true) db)).

(** [_bounded_int] *)
Definition _bounded_int (key : string) (value maximum minimum : Z) : result exn Z :=
  raise_if (value <? minimum) (HTTPException 422 ("'" +:+ key +:+ "' must be an integer >= " +:+ str_of_Z minimum));;
  raise_if (maximum <? value) (HTTPException 422 ("'" +:+ key +:+ "' must be <= " +:+ str_of_Z maximum));;
  Ok value.

Definition _refuse_cursor_off_created_at (sort : string) (cursor_ts : option Z) (cursor_id : option string) : result exn unit :=
  let sort := if bool_decide (sort = "") then "created_at" else sort in
  raise_if (bool_decide (is_Some cursor_ts) && bool_decide (is_Some cursor_id) && negb (bool_decide (sort = "created_at")))
    (HTTPException 422 "a cursor pages by created_at; use offset for another sort").

(** [POST /list]: the page size is clamped, the offset refused out of bounds. *)
Definition list_by_filters (a : list_args) (db : list stored_memory) : result exn (list stored_memory) :=
  raise_if (bool_decide (f_tenant_id a = "")) (HTTPException 422 "tenant_id is required");;
  let limit := Z.max 1 (Z.min (f_limit a) 5000) in
  _refuse_cursor_off_created_at (f_sort a) (f_cursor_ts a) (f_cursor_id a);;
  raise_if (match f_memory_type a with
            | Some t => negb (bool_decide (t = "")) && bool_decide (t ∈ f_exclude_memory_types a)
            | None => false
            end) (HTTPException 422 "memory_type cannot also appear in exclude_memory_types");;
  offset ← _bounded_int "offset" (f_offset a) 10000 0;
  Ok (memory_list_by_filters
        (ListArgs (f_tenant_id a) (f_caller_agent_id a) (f_caller_tenant_id a) (f_fleet_id a) (f_written_by a)
           (f_memory_type a) (f_exclude_memory_types a) (f_status a) (f_run_id a) (f_baton_id a) (f_weight_min a)
           (f_weight_max a) (f_created_after a) (f_created_before a) (f_include_deleted a) (f_sort a) (f_order a)
           limit offset (f_cursor_ts a) (f_cursor_id a) (f_readable_tenant_ids a) (f_visibility a)
           (f_include_scope_agent a)) db).

(** [POST /admin-list] *)
Definition admin_list (tenant_id fleet_id agent_id memory_type status : option string) (include_deleted : bool)
    (sort order : string) (offset limit : Z) (cursor_ts : option Z) (cursor_id : option string)
    (db : list stored_memory) : result exn (list stored_memory) :=
  _refuse_cursor_off_created_at sort cursor_ts cursor_id;;
  offset ← _bounded_int "offset" offset 10000 0;
  limit ← _bounded_int "limit" limit 5000 1;
  Ok (memory_admin_list tenant_id fleet_id agent_id memory_type status include_deleted sort order offset limit
        cursor_ts cursor_id db).
End Lists.

(** ** The map *)

Record field_args : Type := FieldArgs {
  d_tenant_id : string; d_caller_agent_id : option string; d_caller_tenant_id : option string;
  d_fleet_id : option string; d_include_scope_agent : bool
}.

Definition _field_scope_filters (a : field_args) (m : stored_memory) : list sql_bool :=
  [text_is (q_tenant_id m) (d_tenant_id a)] ++
  visible_unless (d_include_scope_agent a) (d_caller_agent_id a) (d_caller_tenant_id a) (d_tenant_id a) m ++
  fleet_pin (d_fleet_id a) m ++ [not_deleted m; not_quarantined m].
Definition field_row (a : field_args) (m : stored_memory) : bool := holds (and_ (_field_scope_filters a m)).

(** The counts of [memory_field_signature]: the rows of the map, and those that are embedded. *)
Definition field_counts (a : field_args) (db : list stored_memory) : nat * nat :=
  let rows := filter (λ m, field_row a m = true) db in
  (length rows, length (filter (λ m, q_embedded m = true) rows)).

(** One page, newest first, and the cursor after it: there may be more when the page is full. A
    last row with no creation time has no [isoformat]. *)
Definition memory_field_page `{Collation} (a : field_args) (limit : Z) (cursor : option Z * option string)
    (db : list stored_memory) : result exn (list stored_memory * option (Z * string)) :=
  let rows := sql_page 0 limit (py_sorted (row_leb "created_at" "desc")
                (filter (λ m, holds (and_ (_field_scope_filters a m ++ cursor_clause "desc" cursor m)) = true) db)) in
  match last rows with
  | Some l =>
      if bool_decide (Z.of_nat (length rows) = limit) then
        match q_created_at l with
        | Some t => Ok (rows, Some (t, q_id l))
        | None => Err (PyError "AttributeError" "'NoneType' object has no attribute 'isoformat'")
        end
      else Ok (rows, None)
  | None => Ok (rows, None)
  end.

(** [POST /field-page]: the page size is clamped. *)
Definition field_page `{Collation} (a : field_args) (limit : Z) (cursor : option Z * option string)
    (db : list stored_memory) : result exn (list stored_memory * option (Z * string)) :=
  raise_if (bool_decide (d_tenant_id a = "")) (HTTPException 422 "'tenant_id' is required");;
  memory_field_page a (Z.max 1 (Z.min limit 2000)) cursor db.

Definition FIELD_PAGE_SIZE : Z := 2000.
Definition FIELD_MAX_LIMIT : Z := 50000.

(** The paging loop of [memory_field._build]: the rows until [limit], a short page, or none. *)
Fixpoint _build_rows `{Collation} (fuel : nat) (a : field_args) (limit : Z) (rows : list stored_memory)
    (cursor : option Z * option string) (db : list stored_memory) : option (result exn (list stored_memory)) :=
  if Z.of_nat (length rows) <? limit then
    match fuel with
    | O => None
    | S fuel =>
        match field_page a (Z.min FIELD_PAGE_SIZE (limit - Z.of_nat (length rows))) cursor db with
        | Err e => Some (Err e)
        | Ok (page_rows, next) =>
            match next with
            | Some (ts, i) =>
                if nonempty_list page_rows
                then _build_rows fuel a limit (rows ++ page_rows) (Some ts, Some i) db
                else Some (Ok (rows ++ page_rows))
            | None => Some (Ok (rows ++ page_rows))
            end
        end
    end
  else Some (Ok rows).

(** ** Counts *)

Record count_args : Type := CountArgs {
  n_tenant_id : string; n_fleet_id : option string; n_status : option string; n_exclude_scope_agent : bool;
  n_caller_agent_id : option string; n_caller_tenant_id : option string
}.
Definition counted_row (a : count_args) (m : stored_memory) : bool :=
  holds (and_ (
    [text_is (q_tenant_id m) (n_tenant_id a);
     match n_status a with Some s => text_is (q_status m) s | None => text_in (q_status m) LIVE_MEMORY_STATUSES end;
     not_deleted m; not_quarantined m] ++
    where_set (n_fleet_id a) (col_is (q_fleet_id m)) ++
    where_if (n_exclude_scope_agent a)
      (_visibility_scope_clause (n_caller_agent_id a) (py_or (n_caller_tenant_id a) (Some (n_tenant_id a))) m))).
Definition memory_count_active (a : count_args) (db : list stored_memory) : nat :=
  length (filter (λ m, counted_row a m = true) db).

(** [GROUP BY]: the rows of each key that satisfy [P]; a key of no such row counts 0. *)
Definition group_count (key : stored_memory → string) (P : stored_memory → bool) (rows : list stored_memory) : gmap string nat :=
  foldr (λ m g, partial_alter (λ n, Some (default 0 n + if P m then 1 else 0)%nat) (key m) g) ∅ rows.

Record breakdown : Type := Breakdown {
  total : nat; by_type : gmap string nat; by_agent : gmap string nat; by_status : gmap string nat;
  by_tenant : option (gmap string nat); deleted_total : option nat
}.

Definition is_alive (m : stored_memory) : bool := bool_decide (q_deleted_at m = None).
Definition count_if (P : stored_memory → bool) (rows : list stored_memory) : nat := length (filter (λ m, P m = true) rows).

(** The grouping sets over the rows of the scope. *)
Definition grouped (by_tenant include_deleted : bool) (rows : list stored_memory) : breakdown :=
  Breakdown (count_if is_alive rows) (group_count q_memory_type is_alive rows) (group_count q_agent_id is_alive rows)
    (group_count q_status is_alive rows)
    (if by_tenant then Some (group_count q_tenant_id is_alive rows) else None)
    (if include_deleted then Some (count_if (negb ∘ is_alive) rows) else None).

Definition memory_admin_stats (tenant_id fleet_id : option string) (db : list stored_memory) : breakdown :=
  grouped false false
    (filter (λ m, holds (and_ ([not_deleted m; not_quarantined m] ++ where_given tenant_id (text_is (q_tenant_id m)) ++
                               where_given fleet_id (col_is (q_fleet_id m)))) = true) db).

Record stats_args : Type := StatsArgs {
  t_tenant_id : option string; t_fleet_id : option string; t_agent_id : option string; t_memory_type : option string;
  t_status : option string; t_run_id : option string; t_created_after : option Z; t_created_before : option Z;
  t_exclude_memory_types : list string; t_exclude_agent_ids : list string; t_exclude_title_regex : option string;
  t_include_deleted : bool; t_include_scope_agent : bool; t_readable_tenant_ids : list string;
  t_caller_tenant_id : option string; t_caller_agent_id : option string
}.

(** [title ~* pattern] *)
Class TitlePattern : Type := title_matches : string → string → bool.

Section Stats.
Context {titles : TitlePattern}.

(** The clauses that leave out the noise of a report. *)
Definition report_clauses (types agents : list string) (pattern : option string) (m : stored_memory) : list sql_bool :=
  where_if (nonempty_list types) (text_not_in (q_memory_type m) types) ++
  where_if (nonempty_list agents) (text_not_in (q_agent_id m) agents) ++
  where_set pattern (λ p, Some (negb (title_matches p (default "" (q_title m))))).

Definition scope_filters (a : stats_args) (m : stored_memory) : list sql_bool :=
  let visible_to := py_or (t_caller_agent_id a) (t_agent_id a) in
  [match t_readable_tenant_ids a, t_tenant_id a with
   | [], Some t => text_is (q_tenant_id m) t
   | [], None => Some false
   | ts, _ => text_in (q_tenant_id m) ts
   end] ++
  fleet_pin (t_fleet_id a) m ++
  where_set (t_agent_id a) (text_is (q_agent_id m)) ++
  (if nonempty visible_to then [_visibility_scope_clause visible_to (py_or (t_caller_tenant_id a) (t_tenant_id a)) m]
   else where_if (negb (t_include_scope_agent a)) (_visibility_scope_clause None None m)) ++
  where_set (t_memory_type a) (text_is (q_memory_type m)) ++
  where_set (t_status a) (text_is (q_status m)) ++
  where_set (t_run_id a) (col_is (q_run_id m)) ++
  where_given (t_created_after a) (λ x, (λ t, x <=? t) <$> q_created_at m) ++
  where_given (t_created_before a) (λ x, (λ t, t <? x) <$> q_created_at m) ++
  report_clauses (t_exclude_memory_types a) (t_exclude_agent_ids a) (t_exclude_title_regex a) m.

Definition stats_row (a : stats_args) (m : stored_memory) : bool :=
  holds (and_ (where_if (negb (t_include_deleted a)) (not_deleted m) ++ [not_quarantined m] ++ scope_filters a m)).
Definition memory_stats_breakdown (a : stats_args) (db : list stored_memory) : breakdown :=
  grouped (1 <? Z.of_nat (length (t_readable_tenant_ids a))) (t_include_deleted a) (filter (λ m, stats_row a m = true) db).

(** The count of each UTC day since a time, by day. *)
Definition memory_daily_durable_counts (tenant_id : string) (since : Z) (fleet_id : option string)
    (types agents : list string) (pattern : option string) (include_scope_agent : bool) (readable : list string)
    (db : list stored_memory) : list (Z * nat) :=
  let rows := filter (λ m, holds (and_ (
    [not_deleted m; not_quarantined m; (λ t, since <=? t) <$> q_created_at m] ++
    where_if (negb include_scope_agent) (Some (negb (bool_decide (q_visibility m = "scope_agent")))) ++
    [tenant_scope tenant_id readable m] ++ where_set fleet_id (col_is (q_fleet_id m)) ++
    report_clauses types agents pattern m)) = true) db in
  let days := omap (λ m, _utc_day <$> q_created_at m) rows in
  (λ d, (d, length (filter (λ d', d' = d) days))) <$> py_sorted Z.leb (remove_dups days).
End Stats.

(** Each fleet with its memories and its distinct authors, the largest first. *)
Definition fleet_rows (tenant_id : option string) (exclude_scope_agent : bool) (db : list stored_memory) : list stored_memory :=
  filter (λ m, holds (and_ (
    [not_deleted m; not_quarantined m; Some (bool_decide (is_Some (q_fleet_id m)))] ++
    where_if exclude_scope_agent (Some (negb (bool_decide (q_visibility m = "scope_agent")))) ++
    where_given tenant_id (text_is (q_tenant_id m)))) = true) db.
Definition memory_fleet_distribution (tenant_id : option string) (exclude_scope_agent : bool) (db : list stored_memory) :
    list (string * nat * nat) :=
  let rows := fleet_rows tenant_id exclude_scope_agent db in
  let of_fleet f := filter (λ m, q_fleet_id m = Some f) rows in
  py_sorted (λ x y, (y.1.2 <=? x.1.2)%nat)
    ((λ f, (f, length (of_fleet f), length (remove_dups (q_agent_id <$> of_fleet f)))) <$> remove_dups (omap q_fleet_id rows)).

(** ** Facts *)

Lemma holds_text_not_in c l : holds (text_not_in c l) = true ↔ c ∉ l.
Proof. unfold text_not_in. rewrite holds_Some, negb_true_iff. apply bool_decide_eq_false. Qed.
#[export] Hint Rewrite holds_text_not_in : sql.

Lemma filter_agree {A} (P Q : A → Prop) `{∀ x, Decision (P x)} `{∀ x, Decision (Q x)} (l : list A) :
  (∀ x, x ∈ l → P x ↔ Q x) → filter P l = filter Q l.
Proof.
  induction l as [|x l IH]; [done|]. intros Hl. rewrite !filter_cons, IH by (intros; apply Hl; by right).
  specialize (Hl x (list_elem_of_here _ _)). repeat case_decide; tauto.
Qed.

Lemma holds_and_app l1 l2 : holds (and_ (l1 ++ l2)) = holds (and_ l1) && holds (and_ l2).
Proof. rewrite !holds_and. apply forallb_app. Qed.

(** *** The order of a list by creation *)

(** [(created_at, id)] of a row is at most that of another. *)
Definition key_leb (x y : option Z * string) : bool :=
  match nulls_greatest Z.compare x.1 y.1 with Lt => true | Gt => false | Eq => str_leb x.2 y.2 end.
Definition key_of (m : stored_memory) : option Z * string := (q_created_at m, q_id m).

Lemma key_leb_total x y : key_leb x y = true ∨ key_leb y x = true.
Proof.
  destruct x as [[x|] i], y as [[y|] j]; unfold key_leb; cbn; auto using str_leb_total.
  destruct (Z.compare_spec x y), (Z.compare_spec y x); try lia; auto using str_leb_total.
Qed.
Lemma key_leb_trans x y z : key_leb x y = true → key_leb y z = true → key_leb x z = true.
Proof.
  destruct x as [[x|] i], y as [[y|] j], z as [[z|] k]; unfold key_leb; cbn; try done; eauto using str_leb_trans.
  destruct (Z.compare_spec x y), (Z.compare_spec y z), (Z.compare_spec x z); try lia; try done; eauto using str_leb_trans.
Qed.
Lemma key_leb_antisym x y : key_leb x y = true → key_leb y x = true → x = y.
Proof.
  destruct x as [[x|] i], y as [[y|] j]; unfold key_leb; cbn; try done.
  - destruct (Z.compare_spec x y), (Z.compare_spec y x); try lia; try done. subst. intros. f_equal. by apply str_leb_antisym.
  - intros. f_equal. by apply str_leb_antisym.
Qed.

Section Order.
Context {collation : Collation}.

(** By creation, or by a column that is not allowed, which falls back to it. *)
Definition by_creation (sort : string) : Prop := sort ∉ _ADMIN_LIST_SORTABLE ∨ sort = "created_at".

Lemma row_leb_key sort order m n :
  by_creation sort →
  row_leb sort order m n =
  if bool_decide (order = "desc") then key_leb (key_of n) (key_of m) else key_leb (key_of m) (key_of n).
Proof.
  intros Hs. unfold row_leb, row_compare, column_compare, key_leb, key_of. cbn.
  assert (bool_decide (sort ∉ _ADMIN_LIST_SORTABLE) || bool_decide (sort = "created_at") = true) as ->.
  { apply orb_true_iff. rewrite !bool_decide_eq_true. done. }
  unfold str_leb, String.leb. case_bool_decide; by destruct (nulls_greatest _ _ _).
Qed.

Context (sort order : string) (Hsort : by_creation sort).

Lemma row_leb_total m n : row_leb sort order m n = true ∨ row_leb sort order n m = true.
Proof. rewrite !row_leb_key by done. case_bool_decide; apply key_leb_total. Qed.
Lemma row_leb_trans m n p :
  row_leb sort order m n = true → row_leb sort order n p = true → row_leb sort order m p = true.
Proof. rewrite !row_leb_key by done. case_bool_decide; eauto using key_leb_trans. Qed.
Lemma row_leb_antisym m n : row_leb sort order m n = true → row_leb sort order n m = true → q_id m = q_id n.
Proof.
  rewrite !row_leb_key by done. intros H1 H2. assert (key_of m = key_of n) as [= _ ?]; [|done].
  case_bool_decide; by apply key_leb_antisym.
Qed.

(** A page after a row: what a filter keeps of the sorted rows is what sorting the filtered gives. *)
Lemma sorted_filter (P : stored_memory → Prop) `{∀ m, Decision (P m)} db :
  NoDup (q_id <$> db) → py_sorted (row_leb sort order) (filter P db) = filter P (py_sorted (row_leb sort order) db).
Proof.
  intros Hnd. eapply sorted_perm_unique; [|apply py_sorted_sorted|apply StronglySorted_filter, py_sorted_sorted|];
    eauto using row_leb_total, row_leb_trans.
  - intros x y Hx Hy Hxy Hyx. rewrite py_sorted_elem in Hx, Hy.
    apply list_elem_of_filter in Hx as [_ [i Hi]%list_elem_of_lookup], Hy as [_ [j Hj]%list_elem_of_lookup].
    assert (i = j) as ->; [|congruence]. eapply (NoDup_lookup (q_id <$> db)); [done|..].
    + by rewrite list_lookup_fmap, Hi.
    + rewrite list_lookup_fmap, Hj. cbn. f_equal. symmetry. by eapply row_leb_antisym.
  - by rewrite !py_sorted_perm.
Qed.

(** A row with a creation time is past another's cursor when it does not come before it. *)
Lemma past_cursor_leb t x m :
  q_created_at x = Some t → is_Some (q_created_at m) →
  past_cursor order (Some t, Some (q_id x)) m = negb (row_leb sort order m x).
Proof.
  intros Hx [u Hu]. rewrite row_leb_key by done. unfold past_cursor, cursor_clause, key_leb, key_of.
  rewrite holds_and. cbn. rewrite Hu, Hx, andb_true_r. cbn. unfold str_ltb.
  case_bool_decide.
  - destruct (Z.compare_spec t u), (Z.ltb_spec u t), (Z.eqb_spec u t); try lia; done.
  - destruct (Z.compare_spec u t), (Z.ltb_spec t u), (Z.eqb_spec u t); try lia; done.
Qed.

(** A cursor at the [k]-th of the rows in order leaves the rows after it. *)
Lemma past_cursor_drop l k x t :
  StronglySorted (λ m n, row_leb sort order m n = true) l → NoDup (q_id <$> l) →
  Forall (λ m, is_Some (q_created_at m)) l → l !! k = Some x → q_created_at x = Some t →
  filter (λ m, past_cursor order (Some t, Some (q_id x)) m = true) l = drop (S k) l.
Proof.
  intros Hs Hnd Hc Hk Ht. rewrite Forall_forall in Hc.
  assert (∀ i y, l !! i = Some y → past_cursor order (Some t, Some (q_id x)) y = true ↔ k < i)%nat as Hpast.
  { intros i y Hi. rewrite past_cursor_leb by (done || by eapply Hc, list_elem_of_lookup_2).
    rewrite negb_true_iff, <-not_true_iff_false. destruct (lt_eq_lt_dec i k) as [[Hlt|Heq]|Hgt].
    - split; [|lia]. intros []. exact (StronglySorted_lt _ _ _ _ _ _ Hs Hi Hk Hlt).
    - assert (y = x) as -> by congruence. split; [|lia]. intros []. by destruct (row_leb_total x x).
    - split; [done|]. intros _ Hyx.
      assert (row_leb sort order x y = true) as Hxy by exact (StronglySorted_lt _ _ _ _ _ _ Hs Hk Hi Hgt).
      assert (k = i); [|lia]. eapply (NoDup_lookup (q_id <$> l)); [done|rewrite list_lookup_fmap, Hk; done|].
      rewrite list_lookup_fmap, Hi. cbn. f_equal. by apply row_leb_antisym. }
  rewrite <-(take_drop (S k) l) at 1. rewrite filter_app.
  rewrite (filter_keeps_none _ (take (S k) l)), filter_keeps_all; [done|..].
  - apply Forall_lookup. intros i y. rewrite lookup_drop. intros Hi. apply Hpast in Hi. apply Hi. lia.
  - apply Forall_lookup. intros i y [Hi ?]%lookup_take_Some. rewrite Hpast by done. lia.
Qed.

(** The cursor stands after the first [j] of the rows in order. *)
Inductive cursor_at (l : list stored_memory) : option Z * option string → nat → Prop :=
| at_start : cursor_at l (None, None) 0
| at_row k x t : l !! k = Some x → q_created_at x = Some t → cursor_at l (Some t, Some (q_id x)) (S k).

(** A page is cut from the rows in order, at its cursor. *)
Lemma page_at (P : stored_memory → bool) c j limit db :
  let l := py_sorted (row_leb sort order) (filter (λ m, P m = true) db) in
  NoDup (q_id <$> db) → Forall (λ m, P m = true → is_Some (q_created_at m)) db → cursor_at l c j →
  sql_page 0 limit
    (py_sorted (row_leb sort order) (filter (λ m, (P m && past_cursor order c m)%bool = true) db))
  = take (Z.to_nat limit) (drop j l).
Proof.
  intros l Hnd Hc Hat. unfold sql_page. rewrite drop_0. f_equal.
  assert (NoDup (q_id <$> filter (λ m, P m = true) db)) as Hnd'.
  { by apply NoDup_fmap_filter. }
  assert (filter (λ m, (P m && past_cursor order c m)%bool = true) db
          = filter (λ m, past_cursor order c m = true) (filter (λ m, P m = true) db)) as ->.
  { rewrite list_filter_filter. apply list_filter_iff. intros m. rewrite andb_true_iff. tauto. }
  rewrite sorted_filter by done. fold l. destruct Hat as [|k x t Hk Ht].
  - by apply filter_keeps_all, Forall_true.
  - eapply past_cursor_drop; [apply py_sorted_sorted; eauto using row_leb_total, row_leb_trans| |..|done|done].
    + unfold l. by rewrite py_sorted_perm.
    + rewrite Forall_forall in Hc |- *. intros m. unfold l. rewrite py_sorted_elem. intros [? ?]%list_elem_of_filter. auto.
Qed.
End Order.

(** What [/list] answers a request it does not refuse. *)
Lemma list_by_filters_at `{Collation} a db :
  f_tenant_id a ≠ "" → (f_cursor_ts a = None ∨ f_sort a = "created_at") → 0 ≤ f_offset a ≤ 10000 →
  (∀ t, f_memory_type a = Some t → t ∉ f_exclude_memory_types a) →
  list_by_filters a db =
  Ok (sql_page (match f_cursor_ts a with None => f_offset a | Some _ => 0 end) (Z.max 1 (Z.min (f_limit a) 5000) + 1)
        (py_sorted (row_leb (f_sort a) (f_order a))
           (filter (λ m, (listed_row a m && past_cursor (f_order a) (f_cursor_ts a, f_cursor_id a) m)%bool = true) db))).
Proof.
  intros Ht Hc Ho Htypes. unfold list_by_filters. rewrite bool_decide_false by done. cbn [raise_if mbind result_bind].
  assert (_refuse_cursor_off_created_at (f_sort a) (f_cursor_ts a) (f_cursor_id a) = Ok tt) as ->.
  { unfold _refuse_cursor_off_created_at. destruct Hc as [->| ->]; [done|]. by rewrite !andb_false_r. }
  cbn [mbind result_bind].
  assert (match f_memory_type a with
          | Some t => negb (bool_decide (t = "")) && bool_decide (t ∈ f_exclude_memory_types a)
          | None => false
          end = false) as ->.
  { destruct (f_memory_type a) as [t|]; [|done]. rewrite (bool_decide_false (t ∈ _)) by auto. apply andb_false_r. }
  cbn [raise_if mbind result_bind]. unfold _bounded_int.
  destruct (Z.ltb_spec (f_offset a) 0), (Z.ltb_spec 10000 (f_offset a)); try lia. done.
Qed.

(** *** The map *)

Section Map.
Context {collation : Collation} (a : field_args) (db : list stored_memory).

Definition field_order : list stored_memory :=
  py_sorted (row_leb "created_at" "desc") (filter (λ m, field_row a m = true) db).

Context (Hids : NoDup (q_id <$> db)) (Hcreated : Forall (λ m, field_row a m = true → is_Some (q_created_at m)) db)
  (Htenant : d_tenant_id a ≠ "").

Lemma field_page_at limit c j :
  1 ≤ limit ≤ 2000 → cursor_at field_order c j →
  let rows := take (Z.to_nat limit) (drop j field_order) in
  ∃ next, field_page a limit c db = Ok (rows, next) ∧
    match next with
    | None => length rows < Z.to_nat limit
    | Some (ts, i) => length rows = Z.to_nat limit ∧ cursor_at field_order (Some ts, Some i) (j + Z.to_nat limit)
    end%nat.
Proof.
  intros Hl Hat rows. unfold field_page. rewrite bool_decide_false by done. cbn [raise_if mbind result_bind].
  replace (Z.max 1 (Z.min limit 2000)) with limit by lia. unfold memory_field_page.
  assert (sql_page 0 limit (py_sorted (row_leb "created_at" "desc")
            (filter (λ m, holds (and_ (_field_scope_filters a m ++ cursor_clause "desc" c m)) = true) db)) = rows) as ->.
  { unfold rows, field_order. rewrite <-(page_at "created_at" "desc" (or_intror eq_refl) (field_row a) c j limit db) by done.
    do 2 f_equal. apply list_filter_iff. intros m. by rewrite holds_and_app. }
  destruct (last rows) as [x|] eqn:Hlast.
  - rewrite last_lookup in Hlast. case_bool_decide as Hfull.
    + assert (length rows = Z.to_nat limit) as Hlen by lia.
      assert (field_order !! (j + pred (length rows))%nat = Some x) as Hx.
      { unfold rows in Hlast at 1. apply lookup_take_Some in Hlast as [Hlast _]. by rewrite lookup_drop in Hlast. }
      assert (is_Some (q_created_at x)) as [t Ht].
      { rewrite Forall_forall in Hcreated. apply list_elem_of_lookup_2 in Hx. unfold field_order in Hx.
        rewrite py_sorted_elem in Hx. apply list_elem_of_filter in Hx as []. auto. }
      rewrite Ht. eexists. split; [done|]. split; [done|].
      replace (j + Z.to_nat limit)%nat with (S (j + pred (length rows))) by lia. by econstructor.
    + eexists. split; [done|]. cbn. unfold rows in *. rewrite length_take in *. lia.
  - apply last_None in Hlast. eexists. split; [done|]. cbn. rewrite Hlast. cbn. lia.
Qed.

(** The map's paging loop ends, and has collected the newest [limit] of the rows it may show, each once. *)
Lemma build_rows_from fuel limit c j :
  (length field_order < j + fuel)%nat → (j ≤ length field_order)%nat → cursor_at field_order c j → Z.of_nat j ≤ limit →
  _build_rows fuel a limit (take j field_order) c db = Some (Ok (take (Z.to_nat limit) field_order)).
Proof.
  revert c j. induction fuel as [|fuel IH]; intros c j Hf Hj Hat Hlim; [lia|]. cbn [_build_rows].
  rewrite length_take, Nat.min_l by done. destruct (Z.ltb_spec (Z.of_nat j) limit) as [Hlt|Hge].
  - destruct (field_page_at (Z.min FIELD_PAGE_SIZE (limit - Z.of_nat j)) c j) as (next & -> & Hn);
      [unfold FIELD_PAGE_SIZE; lia|done|]. set (n := Z.to_nat (Z.min FIELD_PAGE_SIZE (limit - Z.of_nat j))) in *.
    assert (1 ≤ n)%nat by (unfold n, FIELD_PAGE_SIZE; lia).
    rewrite take_take_drop. destruct next as [[ts i]|].
    + destruct Hn as [Hn Hat']. rewrite length_take, length_drop in Hn.
      assert (nonempty_list (take n (drop j field_order)) = true) as ->.
      { destruct (take n (drop j field_order)) eqn:E; [|done]. apply (f_equal length) in E.
        rewrite length_take, length_drop in E. cbn in E. lia. }
      apply IH; [lia..|done|unfold n; lia].
    + rewrite length_take, length_drop in Hn. rewrite !take_ge; [done|..]; unfold n in *; lia.
  - assert (Z.to_nat limit = j) as -> by lia. done.
Qed.
End Map.

(** The map's paging loop ends, and has collected the newest [limit] of the rows the caller may see,
    each once, newest first. *)
Theorem map_collects_the_newest `{Collation} a limit db fuel :
  NoDup (q_id <$> db) → Forall (λ m, field_row a m = true → is_Some (q_created_at m)) db → d_tenant_id a ≠ "" →
  0 ≤ limit → (length (field_order a db) < fuel)%nat →
  _build_rows fuel a limit [] (None, None) db = Some (Ok (take (Z.to_nat limit) (field_order a db))).
Proof. intros. apply (build_rows_from a db) with (j := 0%nat); done || lia || constructor. Qed.

(** *** Counts *)

Lemma count_if_split P rows : (count_if P rows + count_if (negb ∘ P) rows = length rows)%nat.
Proof.
  unfold count_if. induction rows as [|m rows IH]; [done|]. rewrite !filter_cons.
  change ((negb ∘ P) m) with (negb (P m)). destruct (P m); repeat case_decide; done || (cbn [length]; lia).
Qed.

(** ** Witness *)

Definition sample_collation : Collation := String.compare.
Definition sample_field : field_args := FieldArgs "acme" (Some "scout") (Some "acme") None false.

Lemma map_collects_the_newest_witness :
  let col := sample_collation in
  let rows := [sample_memory "m4" "south" "peer" "scope_org" "conflicted" 40 None;
               sample_memory "m5" "north" "scout" "scope_agent" "active" 50 None;
               sample_memory "m3" "north" "peer" "scope_agent" "active" 30 None;
               sample_memory "m2" "north" "peer" "scope_team" "active" 40 None] in
  (q_id <$> field_order sample_field rows) = ["m5"; "m4"; "m2"] ∧
  _build_rows 4 sample_field 2 [] (None, None) rows = Some (Ok (take 2 (field_order sample_field rows))).
Proof.
  intros col rows. split; [by vm_compute|].
  apply (map_collects_the_newest sample_field 2 rows 4); [by_compute| |done|done|vm_compute; lia].
  by repeat (apply Forall_cons; split; [eauto|]).
Defined.
