(* ===== verification/MemoryList.v ===== *)
(** * Listing and counting memories over HTTP

    The read routes of [core-api/.../routes/memories.py]: [GET /memories], [/memories/stats],
    [/memories/count], the rows of [/memories/field] and [/fleets], with the gates they share
    ([_gate_fleet_read], [_effective_include_deleted], [_resolve_scoped_read]) and
    [caller_identity.enforce_named_agent_ownership], over storage's queries ([ListScope]), the
    credential ([AuthContext]) and the agents' trust ([MemoryAccess]).

    A cursor is the position it encodes, or none where it does not decode. The rate limit and the
    tenant's slot (of [TenantSlots]) are left out, as is the pending-work block of the stats, and a row is served as it is stored. *)

From Stdlib Require Import Floats.SpecFloat.
From S2P Require Import Prelude PyStr PyVal AgentRegistry MemoryAccess Suppression Contradiction ReadScope ListScope AuthContext.

#[local] Open Scope string_scope.
#[local] Open Scope list_scope.
#[local] Open Scope Z_scope.

Record list_query : Type := ListQuery {
  v_tenant_id : option string; v_fleet_id : option string; v_agent_id : option string; v_scope : option string;
  v_written_by : option string; v_memory_type : option string; v_exclude_memory_types : list string;
  v_created_after : option Z; v_created_before : option Z; v_status : option string; v_visibility : option string;
  v_run_id : option string; v_baton_id : option string; v_weight_min : option spec_float; v_weight_max : option spec_float;
  v_cursor : option (option (Z * string)); v_sort : string; v_order : string; v_offset : Z; v_limit : Z;
  v_include_deleted : bool
}.

Definition MAX_LIST_LIMIT : Z := 500.

(** The bounds and patterns of the route's parameters. *)
Definition weight_bounds (w : option spec_float) : bool :=
  match w with
  | Some x => SFleb (S754_zero false) x && SFleb x (S754_finite false 4503599627370496 (-52))
  | None => true
  end.
Definition valid_query (q : list_query) : bool :=
  match v_scope q with Some s => bool_decide (s ∈ ["agent"; "fleet"; "all"]) | None => true end &&
  match v_baton_id q with Some b => str_len b <=? 128 | None => true end &&
  weight_bounds (v_weight_min q) && weight_bounds (v_weight_max q) &&
  bool_decide (v_sort q ∈ _ADMIN_LIST_SORTABLE) && bool_decide (v_order q ∈ ["asc"; "desc"]) &&
  (0 <=? v_offset q) && (v_offset q <=? 10000) && (1 <=? v_limit q) && (v_limit q <=? MAX_LIST_LIMIT).

Definition bad_request {A} (detail : string) : result exn A := Err (HTTPException 400 detail).

Section Routes.
Context {rows : Rows} (ctx : auth_context).

(** ** The gates *)

(** The tenant of a read: the one named, which must be readable, or the credential's own. *)
Definition read_tenant (tenant : option string) : result exn string :=
  if nonempty tenant then
    match tenant with Some t => enforce_readable_tenant ctx t;; Ok t | None => bad_request "tenant_id is required" end
  else if is_admin ctx then bad_request "tenant_id is required"
  else match tenant_id ctx with
       | Some t => if bool_decide (t = "") then bad_request "tenant_id is required" else Ok t
       | None => bad_request "tenant_id is required"
       end.

Definition enforce_named_agent_ownership (named : option string) : result exn unit :=
  match named, tenant_id ctx with
  | Some a, Some t =>
      if is_install_credential ctx && nonempty (tenant_id ctx)
      then enforce_broker_agent_ownership t a (install_uuid ctx) else Ok tt
  | _, _ => Ok tt
  end.

Definition _gate_fleet_read (tenant : string) (caller fleet : option string) : result exn unit :=
  match caller with
  | Some c =>
      if negb (nonempty (tenant_id ctx) && negb (bool_decide (tenant = "")) && nonempty caller) then Ok tt
      else if is_person ctx && negb (nonempty fleet) then Ok tt
      else
        let a := lookup tenant c false in
        (if is_person ctx then Ok tt else refuse_restricted_reader a);;
        match a with
        | Some _ => if nonempty fleet then enforce_fleet_read_many tenant c [fleet] a else Ok tt
        | None => Ok tt
        end
  | None => Ok tt
  end.

Definition _effective_include_deleted (include_deleted : bool) : bool :=
  match agent ctx, tenant_id ctx with
  | Some a, Some t =>
      if negb include_deleted || negb (nonempty (agent ctx)) || negb (nonempty (tenant_id ctx)) then include_deleted
      else match lookup t a true with Some r => 3 <=? trust_level r | None => false end
  | _, _ => include_deleted
  end.

(** The author filter and the fleet of a scoped read. *)
Definition _resolve_scoped_read (scope : string) (tenant : string) (caller fleet written_by : option string) :
    result exn (option string * option string) :=
  author ← (if bool_decide (scope = "agent") then
              if negb (nonempty caller) then bad_request "scope='agent' requires an agent identity"
              else if bool_decide (is_Some written_by) && negb (bool_decide (written_by = caller))
              then bad_request "written_by must be omitted or match your own agent_id when scope='agent'."
              else Ok caller
            else Ok written_by);
  match caller with
  | Some c =>
      if nonempty (tenant_id ctx) && negb (bool_decide (tenant = "")) && nonempty caller then
        let '(min_level, fleet) := resolve_read_fleet_gate tenant c scope fleet in
        match error_str (require_trust tenant c min_level) with
        | Some _ => deny "AGENT_TRUST_TOO_LOW"
        | None => Ok (author, fleet)
        end
      else Ok (author, fleet)
  | None => Ok (author, fleet)
  end.

(** ** [GET /memories] *)

Definition cursor_sortable (sort order : string) : bool := bool_decide (sort = "created_at") && bool_decide (order = "desc").

(** The readable tenants, where the read covers them all. *)
Definition widened (tenant scope : option string) : bool :=
  is_cross_tenant_read ctx && negb (nonempty tenant) && negb (bool_decide (scope = Some "agent")).
Definition widened_tenants (tenant scope : option string) : list string :=
  if widened tenant scope then readable_tenant_ids ctx else [].

(** The author filter and the fleet of a read that may name a scope. *)
Definition scoped (q : list_query) (tenant : string) (caller agent_id written_by : option string) :
    result exn (option string * option string) :=
  match v_scope q with
  | Some s => _resolve_scoped_read s tenant caller (v_fleet_id q) written_by
  | None => Ok (match written_by with Some w => Some w | None => agent_id end, v_fleet_id q)
  end.

Definition list_payload (q : list_query) (tenant : string) (caller author fleet : option string)
    (cursor : option (Z * string)) : list_args :=
  ListArgs tenant (if is_person ctx then None else caller) (tenant_id ctx) fleet author (v_memory_type q)
    (v_exclude_memory_types q) (v_status q) (v_run_id q) (v_baton_id q) (v_weight_min q) (v_weight_max q)
    (v_created_after q) (v_created_before q) (_effective_include_deleted (v_include_deleted q)) (v_sort q) (v_order q)
    (v_limit q) (v_offset q) (fst <$> cursor) (snd <$> cursor) (widened_tenants (v_tenant_id q) (v_scope q))
    (v_visibility q) (is_person ctx).

(** What the route checks before it asks storage, and what it asks. *)
Definition list_request (q : list_query) : result exn list_args :=
  raise_if (negb (valid_query q)) (HTTPException 422 "validation error");;
  tenant ← read_tenant (v_tenant_id q);
  let agent_id := canonical_service_agent_id <$> v_agent_id q in
  let written_by := canonical_service_agent_id <$> v_written_by q in
  let caller := effective_agent_id ctx agent_id in
  enforce_named_agent_ownership caller;;
  '(author, fleet) ← scoped q tenant caller agent_id written_by;
  _gate_fleet_read tenant caller fleet;;
  raise_if (match v_weight_min q, v_weight_max q with Some lo, Some hi => SFltb hi lo | _, _ => false end)
    (HTTPException 422 "weight_min must not exceed weight_max.");;
  raise_if (bool_decide (is_Some (v_cursor q)) && negb (cursor_sortable (v_sort q) (v_order q)))
    (HTTPException 400 "Cursor pagination is only supported with sort=created_at and order=desc");;
  cursor ← match v_cursor q with
           | None => Ok None
           | Some None => bad_request "Invalid cursor"
           | Some (Some c) => Ok (Some c)
           end;
  Ok (list_payload q tenant caller author fleet cursor).

(** A refusal by storage: the client raises its status as an error nothing in the route catches. *)
Definition storage_answer {A} (r : result exn A) : result exn A :=
  match r with
  | Err (HTTPException s d) => Err (PyError "HTTPStatusError" d)
  | r => r
  end.

Record list_answer : Type := ListAnswer {
  items : list stored_memory; next_cursor : option (Z * string); cross_tenant_read : option (list string * gmap string nat)
}.

Definition list_memories `{Collation} (q : list_query) (db : list stored_memory) : result exn list_answer :=
  a ← list_request q;
  found ← storage_answer (list_by_filters a db);
  let limit := Z.to_nat (v_limit q) in
  let shown := take limit found in
  next ← (if (limit <? length found)%nat && nonempty_list shown && cursor_sortable (v_sort q) (v_order q) then
            match found !! pred limit with
            | Some l => match q_created_at l with
                        | Some t => Ok (Some (t, q_id l))
                        | None => Err (PyError "TypeError" "fromisoformat: argument must be str")
                        end
            | None => Err (PyError "IndexError" "list index out of range")
            end
          else Ok None);
  let sources := source_tenants_for_audit ctx in
  Ok (ListAnswer shown next
        (if nonempty_list sources && widened (v_tenant_id q) (v_scope q)
         then Some (sources, group_count q_tenant_id (λ _, true) (filter (λ m, q_tenant_id m ≠ "") shown)) else None)).

(** ** [GET /memories/stats], [/count], [/field] and [/fleets] *)

Record stats_query : Type := StatsQuery {
  u_tenant_id : option string; u_fleet_id : option string; u_agent_id : option string; u_scope : option string;
  u_memory_type : option string; u_status : option string; u_run_id : option string; u_exclude_memory_types : list string;
  u_created_after : option Z; u_created_before : option Z; u_include_deleted : bool
}.

(** The author filter and the fleet of the stats. *)
Definition stats_scoped (u : stats_query) (tenant : string) (caller agent_id : option string) :
    result exn (option string * option string) :=
  match u_scope u with
  | Some s =>
      '(_, fleet) ← _resolve_scoped_read s tenant caller (u_fleet_id u) None;
      Ok (if bool_decide (s = "agent") then caller else None, fleet)
  | None => Ok (agent_id, u_fleet_id u)
  end.

Definition memory_stats `{TitlePattern} (u : stats_query) (db : list stored_memory) : result exn breakdown :=
  raise_if (match u_scope u with Some s => negb (bool_decide (s ∈ ["agent"; "fleet"; "all"])) | None => false end)
    (HTTPException 422 "validation error");;
  tenant ← read_tenant (u_tenant_id u);
  enforce_self_agent ctx (u_agent_id u);;
  let agent_id := canonical_service_agent_id <$> u_agent_id u in
  let caller := effective_agent_id ctx agent_id in
  enforce_named_agent_ownership caller;;
  '(author, fleet) ← stats_scoped u tenant caller agent_id;
  _gate_fleet_read tenant caller fleet;;
  Ok (memory_stats_breakdown
        (StatsArgs (Some tenant) fleet author (u_memory_type u) (u_status u) (u_run_id u) (u_created_after u)
           (u_created_before u) (u_exclude_memory_types u) [] None (_effective_include_deleted (u_include_deleted u))
           (is_person ctx) (widened_tenants (u_tenant_id u) (u_scope u)) (tenant_id ctx)
           (if is_person ctx then None else caller)) db).

Definition memory_count (tenant fleet status : option string) (db : list stored_memory) : result exn nat :=
  t ← read_tenant tenant;
  let caller := effective_agent_id ctx None in
  _gate_fleet_read t caller fleet;;
  Ok (memory_count_active (CountArgs t fleet status (negb (is_person ctx)) caller (tenant_id ctx)) db).

(** What [memory_field] asks the map for. *)
Definition memory_field (tenant : string) (fleet agent : option string) : result exn field_args :=
  raise_if (bool_decide (tenant = "")) (HTTPException 422 "validation error");;
  enforce_readable_tenant ctx tenant;;
  let caller := effective_agent_id ctx (canonical_service_agent_id <$> agent) in
  enforce_named_agent_ownership caller;;
  _gate_fleet_read tenant caller fleet;;
  Ok (FieldArgs tenant (if is_person ctx then None else caller) (tenant_id ctx) fleet (is_person ctx)).

(** An administrator that names no tenant sees the fleets of all of them. *)
Definition list_fleets (tenant : option string) (db : list stored_memory) : result exn (list (string * nat * nat)) :=
  t ← (if nonempty tenant || negb (is_admin ctx) then Some <$> read_tenant tenant else Ok tenant);
  Ok (memory_fleet_distribution t (negb (is_person ctx)) db).
End Routes.

(** Following [next_cursor] from a page, to the last. *)
Fixpoint follow {A} (fuel : nat) (page : option (Z * string) → result exn (list A * option (Z * string)))
    (cursor : option (Z * string)) : option (result exn (list A)) :=
  match fuel with
  | O => None
  | S fuel =>
      match page cursor with
      | Err e => Some (Err e)
      | Ok (rows, None) => Some (Ok rows)
      | Ok (rows, Some c) =>
          match follow fuel page (Some c) with
          | Some (Ok rest) => Some (Ok (rows ++ rest))
          | r => r
          end
      end
  end.

(** ** Facts *)

Lemma nonempty_spec o : nonempty o = true ↔ ∃ s, o = Some s ∧ s ≠ "".
Proof. destruct o as [s|]; cbn; [rewrite negb_true_iff, bool_decide_eq_false|]; naive_solver. Qed.
Lemma canonical_nonempty a : a ≠ "" → canonical_service_agent_id a ≠ "".
Proof.
  destruct (decide (a = "memclaw-insighter")) as [->|H1]; [done|].
  destruct (decide (a = "memclaw-doc-indexer")) as [->|H2]; [done|]. by rewrite canonical_fixed.
Qed.

(** What the filters of a list keep. *)
Lemma listed_row_ok a m :
  listed_row a m = true →
  q_tenant_id m ∈ read_tenants (f_tenant_id a) (f_readable_tenant_ids a) ∧
  (f_include_scope_agent a = true ∧ nonempty (f_caller_agent_id a) = false ∨
   shared_or_own (f_caller_agent_id a) (py_or (f_caller_tenant_id a) (Some (f_tenant_id a))) m) ∧
  (∀ f, f_fleet_id a = Some f → f ≠ "" → q_fleet_id m = Some f) ∧
  (∀ w, f_written_by a = Some w → w ≠ "" → q_agent_id m = w) ∧
  (q_deleted_at m = None ∨ f_include_deleted a = true) ∧ q_status m ≠ QUARANTINED_MEMORY_STATUS.
Proof.
  unfold listed_row, list_filters, visible_unless, fleet_pin. autorewrite with sql.
  setoid_rewrite holds_fleets. setoid_rewrite holds_text_is.
  intros ((Ht & _) & Hv & Hf & Hw & _ & _ & _ & _ & _ & _ & _ & _ & _ & _ & Hd & Hq & _).
  split_and!; [done| | |done| |done].
  - destruct (nonempty (f_caller_agent_id a)), (f_include_scope_agent a); cbn in Hv; auto.
  - intros f Hfl Hne. destruct (Hf f Hfl Hne) as [(g & -> & ->%list_elem_of_singleton)|[[]|[]]]; done.
  - destruct (f_include_deleted a); [by right|left; by apply Hd].
Qed.

Section Served.
Context {rows : Rows} (ctx : auth_context).

(** The tenant a read resolves to, and the row of the agent it reads as. *)
Definition target (tenant : option string) : string := default "" (py_or tenant (tenant_id ctx)).
Definition reading_agent (q : list_query) : option string :=
  effective_agent_id ctx (canonical_service_agent_id <$> v_agent_id q).
Definition reader (q : list_query) : option AgentRegistry.agent :=
  match reading_agent q with
  | Some c => if nonempty (tenant_id ctx) && nonempty (reading_agent q) then lookup (target (v_tenant_id q)) c false else None
  | None => None
  end.

Lemma read_tenant_ok t x :
  read_tenant ctx t = Ok x →
  x = target t ∧ x ≠ "" ∧ (tenant_id ctx = Some x ∨ x ∈ readable_tenant_ids ctx ∨ is_admin ctx = true ∧ t = Some x).
Proof.
  unfold read_tenant, target, py_or. destruct (nonempty t) eqn:Hn.
  - apply nonempty_spec in Hn as (s & -> & Hs). intros (u & Hr & [= <-])%bind_ok. split_and!; [done..|right].
    unfold enforce_readable_tenant in Hr. destruct (is_admin ctx); [by right|left].
    apply raise_if_ok in Hr. by apply negb_false_iff, bool_decide_eq_true in Hr.
  - destruct (is_admin ctx); [done|]. destruct (tenant_id ctx) as [s|]; [|done].
    case_bool_decide; [done|]. intros [= <-]. auto.
Qed.

(** What a list may serve to its caller. *)
Record served (q : list_query) (m : stored_memory) : Prop := Served {
  served_tenant : tenant_id ctx = Some (q_tenant_id m) ∨ q_tenant_id m ∈ readable_tenant_ids ctx ∨
                  is_admin ctx = true ∧ v_tenant_id q = Some (q_tenant_id m);
  served_not_held : q_status m ≠ QUARANTINED_MEMORY_STATUS;
  served_live : q_deleted_at m = None ∨
                v_include_deleted q = true ∧
                ∀ a t, agent ctx = Some a → a ≠ "" → tenant_id ctx = Some t → t ≠ "" →
                       ∃ r, lookup t a true = Some r ∧ 3 ≤ trust_level r;
  served_visible : is_person ctx = true ∨ shared_or_own (reading_agent q) (tenant_id ctx) m;
  served_trusted : is_person ctx = false → ∀ r, reader q = Some r → 1 ≤ trust_level r;
  served_fleet : nonempty (v_fleet_id q) = true →
                 q_fleet_id m = v_fleet_id q ∧ ∀ r, reader q = Some r → AgentRegistry.fleet_id r = v_fleet_id q ∨ 2 ≤ trust_level r
}.

Lemma include_deleted_ok b :
  _effective_include_deleted ctx b = true →
  b = true ∧ ∀ a t, agent ctx = Some a → a ≠ "" → tenant_id ctx = Some t → t ≠ "" →
                    ∃ r, lookup t a true = Some r ∧ 3 ≤ trust_level r.
Proof.
  unfold _effective_include_deleted. destruct (agent ctx) as [a|], (tenant_id ctx) as [t|]; try (by split).
  destruct b; cbn [negb orb]; [|done]. cbn [nonempty].
  destruct (bool_decide (a = "")) eqn:Ea, (bool_decide (t = "")) eqn:Et; cbn [negb orb]; bool_to_prop; try (split; naive_solver).
  intros H. split; [done|]. intros ? ? [= <-] _ [= <-] _. destruct (lookup t a true) as [r|]; [|done].
  apply Z.leb_le in H. eauto.
Qed.

Lemma gate_fleet_ok q fleet :
  target (v_tenant_id q) ≠ "" →
  _gate_fleet_read ctx (target (v_tenant_id q)) (reading_agent q) fleet = Ok tt →
  ∀ r, reader q = Some r →
  (is_person ctx = false → 1 ≤ trust_level r) ∧
  (nonempty fleet = true → AgentRegistry.fleet_id r = fleet ∨ 2 ≤ trust_level r).
Proof.
  unfold _gate_fleet_read, reader. intros Ht Hg r Hr. destruct (reading_agent q) as [c|]; [|done].
  destruct (nonempty (tenant_id ctx) && nonempty (Some c)) eqn:Hn; [|done]. apply andb_true_iff in Hn as [Hn Hc].
  rewrite Hn, Hc, bool_decide_false in Hg by done. cbn [negb andb] in Hg. rewrite Hr in Hg.
  assert (∀ x : option string, nonempty x = true → enforce_fleet_read_many (target (v_tenant_id q)) c [x] (Some r) = Ok tt →
          AgentRegistry.fleet_id r = x ∨ 2 ≤ trust_level r) as Hmany.
  { intros x Hx. unfold enforce_fleet_read_many. cbn [fleets_readable].
    rewrite (bool_decide_false (x = None)) by (by intros ->). cbn [orb]. case_bool_decide; [by left|].
    destruct (Z.ltb_spec (trust_level r) 2); [done|by right]. }
  destruct (is_person ctx); cbn [andb] in Hg.
  - split; [done|]. intros Hf. rewrite Hf in Hg. cbn in Hg. by apply Hmany.
  - apply bind_ok in Hg as (u & Hres & Hg). unfold refuse_restricted_reader in Hres.
    destruct (Z.ltb_spec (trust_level r) 1); [done|]. split; [done|]. intros Hf. rewrite Hf in Hg. by apply Hmany.
Qed.

Lemma scoped_fleet q tenant caller agent_id written_by author fleet :
  scoped ctx q tenant caller agent_id written_by = Ok (author, fleet) →
  nonempty (v_fleet_id q) = true → fleet = v_fleet_id q.
Proof.
  unfold scoped, _resolve_scoped_read. intros Hs Hf. destruct (v_scope q) as [s|]; [|by simplify_eq].
  apply bind_ok in Hs as (u & _ & Hs). destruct caller as [c|]; [|by simplify_eq].
  destruct (_ && _ && _); [|by simplify_eq]. unfold resolve_read_fleet_gate in Hs. rewrite Hf in Hs. cbn [andb negb] in Hs.
  repeat (case_bool_decide || case_match); by simplify_eq.
Qed.

(** A request that is let through has passed the gates, and asks storage for its payload. *)
Lemma list_request_ok q a :
  list_request ctx q = Ok a →
  ∃ author fleet cursor,
    let tenant := target (v_tenant_id q) in
    a = list_payload ctx q tenant (reading_agent q) author fleet cursor ∧ valid_query q = true ∧
    tenant ≠ "" ∧
    (tenant_id ctx = Some tenant ∨ tenant ∈ readable_tenant_ids ctx ∨ is_admin ctx = true ∧ v_tenant_id q = Some tenant) ∧
    scoped ctx q tenant (reading_agent q) (canonical_service_agent_id <$> v_agent_id q)
      (canonical_service_agent_id <$> v_written_by q) = Ok (author, fleet) ∧
    _gate_fleet_read ctx tenant (reading_agent q) fleet = Ok tt ∧
    v_cursor q = Some <$> cursor ∧ (cursor = None ∨ cursor_sortable (v_sort q) (v_order q) = true).
Proof.
  unfold list_request. intros H. apply bind_ok in H as (_ & Hv%raise_if_ok%negb_false_iff & H).
  apply bind_ok in H as (tenant & (-> & Ht & Hr)%read_tenant_ok & H). fold (reading_agent q) in H.
  apply bind_ok in H as (_ & _ & H). apply bind_ok in H as ([author fleet] & Hs & H).
  apply bind_ok in H as ([] & Hg & H). apply bind_ok in H as (_ & _ & H).
  apply bind_ok in H as (_ & Hc%raise_if_ok & H). apply bind_ok in H as (cursor & Hcur & H).
  exists author, fleet, cursor. simplify_eq. split_and!; try done.
  - destruct (v_cursor q) as [[c|]|]; by simplify_eq.
  - destruct (v_cursor q) as [c|]; [right|left; by simplify_eq]. cbn in Hc. by apply negb_false_iff in Hc.
Qed.

Lemma list_memories_ok `{Collation} q db ans :
  list_memories ctx q db = Ok ans →
  ∃ a, list_request ctx q = Ok a ∧ ∀ m, m ∈ items ans → m ∈ db ∧ listed_row a m = true.
Proof.
  unfold list_memories. intros H'. apply bind_ok in H' as (a & Ha & H'). apply bind_ok in H' as (found & Hfound & H').
  apply bind_ok in H' as (next & _ & [= <-]). exists a. split; [done|]. cbn [items]. intros m Hm.
  apply elem_of_take in Hm as (i & Hi & _). apply list_elem_of_lookup_2 in Hi.
  destruct (list_by_filters a db) as [l|[]] eqn:Hl; [|done..]. cbn in Hfound. simplify_eq.
  unfold list_by_filters in Hl. apply bind_ok in Hl as (_ & _ & Hl). apply bind_ok in Hl as (_ & _ & Hl).
  apply bind_ok in Hl as (_ & _ & Hl). apply bind_ok in Hl as (off & _ & [= <-]).
  unfold memory_list_by_filters, sql_page in Hi. apply elem_of_take in Hi as (j & Hi & _).
  rewrite lookup_drop in Hi. apply list_elem_of_lookup_2 in Hi. rewrite py_sorted_elem in Hi.
  apply list_elem_of_filter in Hi as [[Hi _]%andb_true_iff ?]. done.
Qed.

Lemma home_of_own caller home t m :
  shared_or_own caller (py_or home (Some t)) m → shared_or_own caller home m.
Proof.
  intros [?|(? & ? & ? & Hh)]; [by left|right]. split_and!; [done..|]. intros h -> Hne. apply Hh; [|done].
  unfold py_or. cbn. by rewrite bool_decide_false.
Qed.

(** A memory the list serves is one it may serve. *)
Lemma listed_is_served `{Collation} q db ans m :
  list_memories ctx q db = Ok ans → m ∈ items ans → m ∈ db ∧ served q m.
Proof.
  intros (a & Ha & Hall)%list_memories_ok Hm. destruct (Hall m Hm) as [Hdb Hrow]. split; [done|].
  apply list_request_ok in Ha as (author & fleet & cursor & -> & Hv & Hne & Ht & Hs & Hg & _).
  apply listed_row_ok in Hrow as (Hten & Hvis & Hfl & Hw & Hd & Hq). cbn in Hten, Hvis, Hfl, Hw, Hd.
  constructor.
  - unfold widened_tenants in Hten. destruct (widened _ _ _) eqn:Hwid.
    + right. left. unfold read_tenants in Hten. destruct (readable_tenant_ids ctx) eqn:E; [|done].
      unfold widened, is_cross_tenant_read in Hwid. by rewrite E in Hwid.
    + apply list_elem_of_singleton in Hten. by rewrite Hten.
  - done.
  - destruct Hd as [?|Hd]; [by left|right]. by apply include_deleted_ok.
  - destruct (is_person ctx); [by left|right]. destruct Hvis as [[]|Hvis]; [done|]. by eapply home_of_own.
  - intros Hp r Hr. by eapply gate_fleet_ok.
  - intros Hf. assert (fleet = v_fleet_id q) as -> by by eapply scoped_fleet. split.
    + apply nonempty_spec in Hf as (f & Hf & ?). rewrite Hf. by apply Hfl.
    + intros r Hr. eapply gate_fleet_ok; done.
Qed.

(** C8: every memory a list serves is one its caller may see: of its tenant, of one it may read, or of the
    one an administrator named; never held; deleted only where the caller may ask for those, which an
    agent may at trust 3; shared, or the caller's own in its home tenant, unless a person is signed in;
    to no agent of trust 0; and where a fleet was named, of that fleet, which is the agent's own or the
    agent has trust 2. *)
Theorem listed_memories_are_readable `{Collation} q db ans m :
  list_memories ctx q db = Ok ans → m ∈ items ans → m ∈ db ∧ served q m.
Proof. apply listed_is_served. Qed.

(** The row as the check of a read by id sees it. *)
Definition by_id (m : stored_memory) : memory_row := MemoryRow (Some (q_visibility m)) (Some (q_agent_id m)) (q_fleet_id m).

Lemma require_trust_ok t c level :
  error_str (require_trust t c level) = None →
  match lookup t c false with Some r => level ≤ trust_level r | None => level ≤ DEFAULT_TRUST_LEVEL end.
Proof.
  unfold require_trust. destruct (lookup t c false) as [r|].
  - by destruct (Z.ltb_spec (trust_level r) level).
  - by destruct (Z.leb_spec level DEFAULT_TRUST_LEVEL).
Qed.

(** The fleets a scoped read that got through can reach: every one with trust 2, or the agent's own. *)
Lemma gate_reach t c scope fleet level fleet' r :
  scope = "fleet" ∨ scope = "all" →
  lookup t c true = lookup t c false → lookup t c false = Some r →
  resolve_read_fleet_gate t c scope fleet = (level, fleet') → level ≤ trust_level r →
  2 ≤ trust_level r ∨ nonempty fleet' = true ∧ fleet' = AgentRegistry.fleet_id r.
Proof.
  intros Hscope Hlag Hr. unfold resolve_read_fleet_gate. rewrite Hlag, Hr. cbn [mbind option_bind].
  rewrite (bool_decide_false (scope = "agent")) by (by destruct Hscope as [->| ->]).
  case_bool_decide; [intros [= <- <-]; by left|].
  destruct (nonempty fleet) eqn:Hf; cbn [andb negb].
  - destruct (nonempty (AgentRegistry.fleet_id r)) eqn:Hh; cbn [negb orb]; [|intros [= <- <-]; by left].
    case_bool_decide as He; cbn [negb]; intros [= <- <-]; [right|by left]. by rewrite Hf.
  - destruct (Z.ltb_spec (trust_level r) 2); cbn [andb]; [|intros [= <- <-]; by left].
    destruct (nonempty (AgentRegistry.fleet_id r)) eqn:Hh; [intros [= <- <-]; by right|].
    intros [= <- <-]. by left.
Qed.

Lemma trusted_opens t c r m :
  lookup t c false = Some r → 1 ≤ trust_level r → nonempty (tenant_id ctx) = true → c ≠ "" → canonical_service_agent_id c = c →
  shared_or_own (Some c) (tenant_id ctx) m →
  2 ≤ trust_level r ∨ q_fleet_id m = AgentRegistry.fleet_id r →
  memory_access_allowed_for_agent (Some r) c (by_id m) (q_tenant_id m) (tenant_id ctx) false = true.
Proof.
  intros Hr H1 Hhome Hc Hcan Hv Hreach. unfold memory_access_allowed_for_agent. cbn [by_id MemoryAccess.visibility owner_agent_id row_fleet_id].
  destruct (Z.ltb_spec (trust_level r) 1); [lia|]. destruct Hv as [Hv|(-> & Hown & _ & Hten)].
  - rewrite bool_decide_false by (intros [= Hx]; rewrite Hx in Hv; set_solver). case_bool_decide; [done|].
    destruct Hreach as [|Hfl]; [|by rewrite (bool_decide_true (q_fleet_id m = AgentRegistry.fleet_id r)), orb_true_r].
    destruct (_ || _); [done|]. by apply Z.leb_le.
  - rewrite bool_decide_true by done. apply nonempty_spec in Hhome as (h & Hh & Hne). rewrite Hh. cbn [nonempty].
    rewrite (bool_decide_false (h = "")), (Hten h), (bool_decide_true (Some h = Some h)) by done. cbn [negb andb].
    simplify_eq. rewrite Hcan, bool_decide_false by done. by rewrite bool_decide_true.
Qed.

(** A list that names the scope [fleet] or [all] serves an agent no memory of the tenant that the read
    by id would refuse it: the two enumerate and open by one rule. *)
Theorem scoped_list_opens_by_id `{Collation} q db ans m c s :
  list_memories ctx q db = Ok ans → m ∈ items ans → q_tenant_id m = target (v_tenant_id q) →
  v_scope q = Some s → s = "fleet" ∨ s = "all" →
  is_person ctx = false → nonempty (tenant_id ctx) = true → reading_agent q = Some c → c ≠ "" →
  lookup (target (v_tenant_id q)) c true = lookup (target (v_tenant_id q)) c false →
  is_Some (lookup (target (v_tenant_id q)) c false) →
  memory_access_allowed_for_agent (lookup (q_tenant_id m) c false) c (by_id m) (q_tenant_id m) (tenant_id ctx) false = true.
Proof.
  intros Hans Hm Hmt Hscope Hs Hp Hhome Hc Hne Hlag [r Hr].
  destruct (listed_is_served q db ans m Hans Hm) as [_ Hserved].
  apply list_memories_ok in Hans as (a & Ha & Hall). destruct (Hall m Hm) as [_ Hrow].
  apply list_request_ok in Ha as (author & fleet & cursor & -> & Hv & Htne & Ht & Hsc & Hg & _).
  apply listed_row_ok in Hrow as (_ & _ & Hfl & _). cbn in Hfl.
  assert (nonempty (Some c) = true) as Hcn by (apply nonempty_spec; by exists c).
  assert (lookup (q_tenant_id m) c false = Some r) as -> by (by rewrite Hmt). eapply trusted_opens; [done| |done|done|..].
  - eapply served_trusted; [done|done|]. unfold reader. by rewrite Hc, Hhome, Hcn.
  - unfold reading_agent, effective_agent_id in Hc. destruct (py_or _ _); [|done]. simplify_eq/=. apply canonical_idem.
  - destruct (served_visible _ _ Hserved) as [|Hvis]; [congruence|]. by rewrite Hc in Hvis.
  - unfold scoped in Hsc. rewrite Hscope in Hsc. unfold _resolve_scoped_read in Hsc.
    apply bind_ok in Hsc as (u & _ & Hsc). rewrite Hc, Hhome, Hcn, bool_decide_false in Hsc by done. cbn [negb andb] in Hsc.
    destruct (resolve_read_fleet_gate _ _ _ _) as [level fleet'] eqn:Hres.
    destruct (error_str _) eqn:Hterr; [done|]. simplify_eq. apply require_trust_ok in Hterr. rewrite Hr in Hterr.
    destruct (gate_reach _ _ _ _ _ _ _ Hs Hlag Hr Hres Hterr) as [|[Hn Hf]]; [by left|right].
    apply nonempty_spec in Hn as (f & -> & Hfne). rewrite <-Hf. by apply Hfl.
Qed.
End Served.

(** ** Pages *)

Definition with_cursor (q : list_query) (c : option (Z * string)) : list_query :=
  ListQuery (v_tenant_id q) (v_fleet_id q) (v_agent_id q) (v_scope q) (v_written_by q) (v_memory_type q)
    (v_exclude_memory_types q) (v_created_after q) (v_created_before q) (v_status q) (v_visibility q) (v_run_id q)
    (v_baton_id q) (v_weight_min q) (v_weight_max q) (Some <$> c) (v_sort q) (v_order q) (v_offset q) (v_limit q)
    (v_include_deleted q).

Section Pages.
Context {rows : Rows} {collation : Collation} (ctx : auth_context) (q : list_query) (a : list_args) (db : list stored_memory).

Definition list_page (c : option (Z * string)) : result exn (list stored_memory * option (Z * string)) :=
  (λ ans, (items ans, next_cursor ans)) <$> list_memories ctx (with_cursor q c) db.

(** The rows the query matches, in its order. *)
Definition list_order : list stored_memory :=
  py_sorted (row_leb (v_sort q) (v_order q)) (filter (λ m, listed_row a m = true) db).

Context (Hreq : list_request ctx q = Ok a) (Hfirst : v_cursor q = None)
  (Hsort : cursor_sortable (v_sort q) (v_order q) = true) (Hoffset : v_offset q = 0)
  (Hids : NoDup (q_id <$> db)) (Hcreated : Forall (λ m, listed_row a m = true → is_Some (q_created_at m)) db)
  (Htypes : ∀ t, v_memory_type q = Some t → t ∉ v_exclude_memory_types q).

Lemma request_at_cursor c :
  ∃ tenant caller author fleet,
    tenant ≠ "" ∧ a = list_payload ctx q tenant caller author fleet None ∧
    list_request ctx (with_cursor q c) = Ok (list_payload ctx (with_cursor q c) tenant caller author fleet c).
Proof.
  pose proof Hreq as H. unfold list_request in H |- *. apply bind_ok in H as (u & Hv & H).
  apply bind_ok in H as (tenant & Ht & H). apply bind_ok in H as (u' & Ho & H).
  apply bind_ok in H as ([author fleet] & Hs & H). apply bind_ok in H as ([] & Hg & H).
  apply bind_ok in H as (u'' & Hw & H). apply bind_ok in H as (_ & _ & H). rewrite Hfirst in H. cbn in H. simplify_eq.
  eexists tenant, _, author, fleet. split; [by apply read_tenant_ok in Ht as (_ & ? & _)|]. split; [done|].
  change (valid_query (with_cursor q c)) with (valid_query q). change (scoped ctx (with_cursor q c)) with (scoped ctx q).
  rewrite Hv. cbn [mbind result_bind with_cursor v_tenant_id v_agent_id v_written_by v_weight_min v_weight_max v_cursor v_sort v_order].
  rewrite Ht. cbn [mbind result_bind]. rewrite Ho. cbn [mbind result_bind]. rewrite Hs. cbn [mbind result_bind].
  rewrite Hg. cbn [mbind result_bind]. rewrite Hw. cbn [mbind result_bind]. rewrite Hsort, andb_false_r. by destruct c.
Qed.

Lemma storage_at tenant caller author fleet c j :
  tenant ≠ "" → a = list_payload ctx q tenant caller author fleet None → 1 ≤ v_limit q ≤ MAX_LIST_LIMIT →
  cursor_at list_order (fst <$> c, snd <$> c) j →
  list_by_filters (list_payload ctx (with_cursor q c) tenant caller author fleet c) db
  = Ok (take (Z.to_nat (v_limit q + 1)) (drop j list_order)).
Proof.
  intros Ht Ha Hlim Hat. pose proof Hsort as [Hs%bool_decide_eq_true Ho%bool_decide_eq_true]%andb_true_iff.
  rewrite list_by_filters_at; cbn [list_payload with_cursor f_tenant_id f_cursor_ts f_cursor_id f_sort f_order f_offset f_limit
    f_memory_type f_exclude_memory_types v_sort v_order v_offset v_limit v_memory_type v_exclude_memory_types];
    [|done|by right|rewrite Hoffset; lia|done].
  f_equal. unfold MAX_LIST_LIMIT in Hlim. replace (Z.max 1 (Z.min (v_limit q) 5000)) with (v_limit q) by lia.
  rewrite Hoffset. replace (match fst <$> c with None => 0 | Some _ => 0 end) with 0 by (by destruct c).
  assert (∀ m, listed_row (list_payload ctx (with_cursor q c) tenant caller author fleet c) m = listed_row a m) as Hrow by (by rewrite Ha).
  unfold list_order. rewrite <-(page_at (v_sort q) (v_order q) (or_intror Hs) (listed_row a) _ _ _ _ Hids Hcreated Hat).
  do 2 f_equal. apply list_filter_iff. intros m. by rewrite <-Hrow.
Qed.

(** One page: the rows after the cursor, to the limit, and the place of the last where more follow. *)
Lemma list_page_at c j :
  1 ≤ v_limit q ≤ MAX_LIST_LIMIT → cursor_at list_order (fst <$> c, snd <$> c) j →
  let n := Z.to_nat (v_limit q) in
  ∃ next, list_page c = Ok (take n (drop j list_order), next) ∧
    match next with
    | None => (length list_order ≤ j + n)%nat
    | Some p => (j + n < length list_order)%nat ∧ cursor_at list_order (Some p.1, Some p.2) (j + n)
    end.
Proof.
  intros Hlim Hat n. destruct (request_at_cursor c) as (tenant & caller & author & fleet & Ht & Ha & Hr).
  unfold list_page, list_memories. rewrite Hr. cbn [mbind result_bind].
  rewrite (storage_at _ _ _ _ _ _ Ht Ha Hlim Hat). cbn [storage_answer mbind result_bind with_cursor v_limit v_sort v_order].
  fold n. assert (Z.to_nat (v_limit q + 1) = S n) as -> by lia. rewrite take_take, Nat.min_l by lia.
  rewrite Hsort, andb_true_r, length_take, length_drop. assert (1 ≤ n)%nat by lia.
  destruct (Nat.ltb_spec n (Nat.min (S n) (length list_order - j))) as [Hmore|Hlast]; cbn [andb].
  - assert (nonempty_list (take n (drop j list_order)) = true) as ->.
    { destruct (take n (drop j list_order)) eqn:E; [|done]. apply (f_equal length) in E.
      rewrite length_take, length_drop in E. cbn in E. lia. }
    rewrite lookup_take, lookup_drop by lia. destruct (lookup_lt_is_Some_2 list_order (j + pred n)) as [x Hx]; [lia|].
    rewrite decide_True by lia. rewrite Hx. assert (is_Some (q_created_at x)) as [t Hxt].
    { rewrite Forall_forall in Hcreated. apply list_elem_of_lookup_2 in Hx. unfold list_order in Hx.
      rewrite py_sorted_elem in Hx. apply list_elem_of_filter in Hx as []. auto. }
    rewrite Hxt. eexists. split; [done|]. split; [lia|]. cbn.
    replace (j + n)%nat with (S (j + pred n)) by lia. by econstructor.
  - eexists. split; [done|]. cbn. lia.
Qed.

Lemma follow_from fuel c j :
  1 ≤ v_limit q ≤ MAX_LIST_LIMIT → (length list_order < j + fuel)%nat → cursor_at list_order (fst <$> c, snd <$> c) j →
  follow fuel list_page c = Some (Ok (drop j list_order)).
Proof.
  intros Hlim. revert c j. induction fuel as [|fuel IH]; intros c j Hf Hat.
  - exfalso. destruct Hat as [|k x t Hk _]; [lia|]. apply lookup_lt_Some in Hk. lia.
  - cbn [follow]. destruct (list_page_at c j Hlim Hat) as (next & -> & Hn).
    destruct next as [[t i]|].
    + destruct Hn as [Hn Hat']. rewrite (IH (Some (t, i)) (j + Z.to_nat (v_limit q))%nat); [|lia|done].
      rewrite <-drop_drop. by rewrite take_drop.
    + by rewrite take_ge by (rewrite length_drop; lia).
Qed.
End Pages.

(** C12: following [next_cursor] over an unchanged table ends, and has served every memory the list matches,
    each once and newest first, whatever the size of a page. *)
Theorem pages_list_every_memory_once `{Rows, Collation} ctx q a db fuel :
  list_request ctx q = Ok a → v_cursor q = None → cursor_sortable (v_sort q) (v_order q) = true → v_offset q = 0 →
  (∀ t, v_memory_type q = Some t → t ∉ v_exclude_memory_types q) →
  NoDup (q_id <$> db) → Forall (λ m, listed_row a m = true → is_Some (q_created_at m)) db →
  (length (list_order q a db) < fuel)%nat →
  follow fuel (list_page ctx q db) None = Some (Ok (list_order q a db)).
Proof.
  intros Ha Hcur Hsort Hoff Htypes Hids Hcr Hf. rewrite (follow_from ctx q a db) with (j := 0%nat); try done.
  - pose proof (list_request_ok ctx q a Ha) as (author & fleet & cursor & _ & Hv & _). unfold valid_query in Hv.
    apply andb_true_iff in Hv as [[Hv H1]%andb_true_iff H2]. apply Z.leb_le in H1, H2. done.
  - constructor.
Qed.

(** ** The counts beside the list *)

(** The list a query of the stats summarises. *)
Definition as_list (u : stats_query) : list_query :=
  ListQuery (u_tenant_id u) (u_fleet_id u) (u_agent_id u) (u_scope u) None (u_memory_type u) (u_exclude_memory_types u)
    (u_created_after u) (u_created_before u) (u_status u) None (u_run_id u) None None None None "created_at" "desc" 0 50
    (u_include_deleted u).
Definition tenant_list (tenant fleet : option string) : list_query :=
  as_list (StatsQuery tenant fleet None None None None None [] None None false).

Lemma valid_as_list u :
  match u_scope u with Some s => negb (bool_decide (s ∈ ["agent"; "fleet"; "all"])) | None => false end = false →
  valid_query (as_list u) = true.
Proof. unfold valid_query, as_list. cbn [v_scope]. destruct (u_scope u); [intros ->%negb_false_iff|]; done. Qed.

Lemma grouped_length tenants deleted rows :
  (deleted = false → Forall (λ m, q_deleted_at m = None) rows) →
  let b := grouped tenants deleted rows in (total b + default 0 (deleted_total b))%nat = length rows.
Proof.
  intros Hd. cbn. rewrite <-(count_if_split is_alive rows). destruct deleted; [done|]. cbn. f_equal.
  unfold count_if. rewrite filter_keeps_none; [done|]. eapply Forall_impl; [by apply Hd|]. cbn.
  intros m Hm. unfold compose, is_alive. by rewrite bool_decide_true.
Qed.

(** One row, counted and listed by the same filters. *)
Lemma stats_row_listed `{TitlePattern, Rows} ctx u tenant caller author fleet readable deleted m :
  (is_person ctx = true ∨ nonempty caller = false → nonempty author = false) →
  u_run_id u ≠ Some "" → (∀ t, u_created_before u = Some t → q_created_at m ≠ Some t) →
  stats_row
    (StatsArgs (Some tenant) fleet author (u_memory_type u) (u_status u) (u_run_id u) (u_created_after u)
       (u_created_before u) (u_exclude_memory_types u) [] None deleted (is_person ctx) readable (tenant_id ctx)
       (if is_person ctx then None else caller)) m
  = listed_row
      (ListArgs tenant (if is_person ctx then None else caller) (tenant_id ctx) fleet author (u_memory_type u)
         (u_exclude_memory_types u) (u_status u) (u_run_id u) None None None (u_created_after u) (u_created_before u)
         deleted "created_at" "desc" 50 0 None None readable None (is_person ctx)) m.
Proof.
  intros Hauthor Hrun Hbefore. unfold stats_row, scope_filters, listed_row, list_filters, report_clauses.
  cbn [t_tenant_id t_fleet_id t_agent_id t_memory_type t_status t_run_id t_created_after t_created_before
    t_exclude_memory_types t_exclude_agent_ids t_exclude_title_regex t_include_deleted t_include_scope_agent
    t_readable_tenant_ids t_caller_tenant_id t_caller_agent_id f_tenant_id f_caller_agent_id f_caller_tenant_id f_fleet_id
    f_written_by f_memory_type f_exclude_memory_types f_status f_run_id f_baton_id f_weight_min f_weight_max
    f_created_after f_created_before f_include_deleted f_readable_tenant_ids f_visibility f_include_scope_agent].
  assert (where_set (u_run_id u) (col_is (q_run_id m)) = where_given (u_run_id u) (col_is (q_run_id m))) as ->.
  { destruct (u_run_id u) as [r|]; [|done]. cbn. rewrite bool_decide_false; [done|]. by intros ->. }
  assert (where_given (u_created_before u) (λ x, (λ t, t <? x) <$> q_created_at m)
          = where_given (u_created_before u) (λ x, (λ t, t <=? x) <$> q_created_at m)) as ->.
  { destruct (u_created_before u) as [x|]; [|done]. cbn. destruct (q_created_at m) as [t|] eqn:E; [|done]. cbn.
    do 2 f_equal. assert (t ≠ x) by (intros ->; by eapply Hbefore). destruct (Z.ltb_spec t x), (Z.leb_spec t x); done || lia. }
  assert (holds (match readable with
                 | [] => text_is (q_tenant_id m) tenant
                 | t :: ts => text_in (q_tenant_id m) (t :: ts)
                 end) = holds (tenant_scope tenant readable m)) as Hten.
  { unfold tenant_scope, read_tenants. destruct readable; [|done]. apply eq_iff_eq_true.
    rewrite holds_text_is, holds_text_in. by rewrite list_elem_of_singleton. }
  set (visible := visible_unless _ _ _ _ _).
  assert ((if nonempty (py_or (if is_person ctx then None else caller) author)
           then [_visibility_scope_clause (py_or (if is_person ctx then None else caller) author)
                   (py_or (tenant_id ctx) (Some tenant)) m]
           else where_if (negb (is_person ctx)) (_visibility_scope_clause None None m)) = visible) as ->.
  { unfold visible, visible_unless. destruct (is_person ctx).
    - change (py_or None author) with author. rewrite Hauthor by auto. done.
    - cbn [negb]. rewrite orb_true_r. cbn [where_if]. unfold py_or at 1 2. destruct (nonempty caller) eqn:Hc.
      + by rewrite Hc.
      + rewrite Hauthor by auto. f_equal. unfold _visibility_scope_clause. destruct caller as [c|]; [|done].
        cbn in Hc. by rewrite negb_false_iff in Hc; rewrite Hc. }
  rewrite !holds_and_app. rewrite !(holds_and [_]). cbn [forallb where_if where_set where_given nonempty_list].
  rewrite Hten. cbn [and_ foldr holds default]. rewrite !andb_true_r.
  apply eq_iff_eq_true. rewrite !andb_true_iff. tauto.
Qed.

Lemma stats_rows_live `{TitlePattern} a db :
  t_include_deleted a = false → Forall (λ m, q_deleted_at m = None) (filter (λ m, stats_row a m = true) db).
Proof.
  intros Hd. apply Forall_forall. intros m [Hm _]%list_elem_of_filter. unfold stats_row in Hm. rewrite Hd in Hm.
  rewrite !holds_and_app, !andb_true_iff in Hm. destruct Hm as [Hm _]. cbn [negb where_if] in Hm. autorewrite with sql in Hm.
  tauto.
Qed.

(** A scoped read hands back the author filter its scope asks for. *)
Lemma scoped_author `{Rows} ctx s tenant caller fleet author fleet' :
  _resolve_scoped_read ctx s tenant caller fleet None = Ok (author, fleet') →
  author = (if bool_decide (s = "agent") then caller else None) ∧ (s = "agent" → nonempty caller = true).
Proof.
  unfold _resolve_scoped_read. intros Hs. apply bind_ok in Hs as (w & Hw & Hs).
  assert (author = w) as ->.
  { destruct caller as [c|]; [|by simplify_eq]. destruct (_ && _ && _); [|by simplify_eq].
    destruct (resolve_read_fleet_gate _ _ _ _). destruct (error_str _); by simplify_eq. }
  clear Hs. case_bool_decide; [|split; [by simplify_eq|done]].
  destruct (nonempty caller); cbn in Hw; [|done]. by simplify_eq.
Qed.

Lemma canonical_empty a : canonical_service_agent_id a = "" → a = "".
Proof. intros H. destruct (decide (a = "")); [done|]. by apply canonical_nonempty in H. Qed.

(** The stats filter by the author the list would, and by none where no agent reads. *)
Lemma stats_scoped_list `{Rows} ctx u tenant author fleet :
  let agent_id := canonical_service_agent_id <$> u_agent_id u in
  let caller := effective_agent_id ctx agent_id in
  stats_scoped ctx u tenant caller agent_id = Ok (author, fleet) →
  scoped ctx (as_list u) tenant caller agent_id None = Ok (author, fleet) ∧ (nonempty caller = false → nonempty author = false).
Proof.
  intros agent_id caller. unfold stats_scoped, scoped. cbn [as_list v_scope v_fleet_id].
  destruct (u_scope u) as [s|].
  - intros Hs. apply bind_ok in Hs as ([w fleet'] & Hs & [= <- <-]). rewrite Hs.
    apply scoped_author in Hs as [-> Hc]. split; [done|]. case_bool_decide; [|done]. by rewrite Hc.
  - intros [= <- <-]. split; [done|]. unfold caller, effective_agent_id, py_or, agent_id.
    destruct (nonempty (agent ctx)) eqn:Ha.
    + apply nonempty_spec in Ha as (x & -> & Hx). cbn. by rewrite bool_decide_false by (by apply canonical_nonempty).
    + destruct (u_agent_id u) as [x|]; [|done]. cbn -[canonical_service_agent_id]. by rewrite canonical_idem.
Qed.

(** The stats of a caller count exactly the memories its list shows for the same query, deleted ones
    included where it may ask for them: whoever the stats answer, the list answers too. The exceptions
    are a person's query for one author, an empty run id, and a row created at the very end of the
    window. *)
Theorem stats_count_the_list `{TitlePattern, Rows} ctx u db b :
  memory_stats ctx u db = Ok b →
  (is_person ctx = true → reading_agent ctx (as_list u) = None) → u_run_id u ≠ Some "" →
  (∀ m t, m ∈ db → u_created_before u = Some t → q_created_at m ≠ Some t) →
  ∃ a, list_request ctx (as_list u) = Ok a ∧
       (total b + default 0 (deleted_total b))%nat = length (filter (λ m, listed_row a m = true) db).
Proof.
  unfold memory_stats. intros Hb Hperson Hrun Hbefore. apply bind_ok in Hb as (_ & Hv%raise_if_ok & Hb).
  apply bind_ok in Hb as (tenant & Ht & Hb). apply bind_ok in Hb as (_ & _ & Hb). apply bind_ok in Hb as ([] & Ho & Hb).
  apply bind_ok in Hb as ([author fleet] & Hs & Hb). apply bind_ok in Hb as ([] & Hg & [= <-]).
  set (caller := effective_agent_id ctx (canonical_service_agent_id <$> u_agent_id u)) in *.
  change (reading_agent ctx (as_list u)) with caller in Hperson.
  apply stats_scoped_list in Hs as [Hs Hauthor]. fold caller in Hs, Hauthor.
  exists (list_payload ctx (as_list u) tenant caller author fleet None). split.
  - unfold list_request. rewrite valid_as_list by done. cbn [negb raise_if mbind result_bind]. fold (reading_agent ctx (as_list u)).
    change (reading_agent ctx (as_list u)) with caller. change (v_tenant_id (as_list u)) with (u_tenant_id u).
    change (canonical_service_agent_id <$> v_agent_id (as_list u)) with (canonical_service_agent_id <$> u_agent_id u).
    change (canonical_service_agent_id <$> v_written_by (as_list u)) with (@None string).
    rewrite Ht. cbn [mbind result_bind]. rewrite Ho. cbn [mbind result_bind]. rewrite Hs. cbn [mbind result_bind]. by rewrite Hg.
  - unfold memory_stats_breakdown. rewrite grouped_length; [|intros Hd; by apply stats_rows_live]. f_equal. apply filter_agree. intros m Hm.
    rewrite (stats_row_listed ctx u tenant caller author fleet); [done| |done|by eauto].
    intros [Hp|]; [|by auto]. apply Hauthor. by rewrite Hperson.
Qed.

(** The list of a tenant, or of a fleet of it, that names no agent. *)
Lemma tenant_list_request `{Rows} ctx t f tenant :
  read_tenant ctx t = Ok tenant → (is_install_credential ctx = true → agent ctx = None) →
  _gate_fleet_read ctx tenant (effective_agent_id ctx None) f = Ok tt →
  list_request ctx (tenant_list t f) = Ok (list_payload ctx (tenant_list t f) tenant (effective_agent_id ctx None) None f None).
Proof.
  intros Ht Hinstall Hg. unfold list_request. change (valid_query (tenant_list t f)) with true. cbn [negb raise_if mbind result_bind].
  change (v_tenant_id (tenant_list t f)) with t. rewrite Ht. cbn [mbind result_bind].
  change (canonical_service_agent_id <$> v_agent_id (tenant_list t f)) with (@None string).
  assert (enforce_named_agent_ownership ctx (effective_agent_id ctx None) = Ok tt) as ->.
  { unfold enforce_named_agent_ownership, effective_agent_id. destruct (is_install_credential ctx) eqn:Hi.
    - by rewrite (Hinstall eq_refl).
    - by destruct (canonical_service_agent_id <$> _), (tenant_id ctx). }
  assert (scoped ctx (tenant_list t f) tenant (effective_agent_id ctx None) None
            (canonical_service_agent_id <$> v_written_by (tenant_list t f)) = Ok (None, f)) as -> by done.
  cbn [mbind result_bind]. by rewrite Hg.
Qed.

(** A read that does not widen, of the rows that are live. *)
Lemma not_widened ctx t : nonempty t = true ∨ is_cross_tenant_read ctx = false → widened_tenants ctx t None = [].
Proof. unfold widened_tenants, widened. intros [-> | ->]; [by rewrite andb_false_r|done]. Qed.
Lemma no_deleted `{Rows} ctx : _effective_include_deleted ctx false = false.
Proof. unfold _effective_include_deleted. by destruct (agent ctx), (tenant_id ctx). Qed.

(** What a list of a tenant or a fleet keeps. *)
Lemma tenant_list_row `{Rows} ctx t f tenant caller m :
  nonempty t = true ∨ is_cross_tenant_read ctx = false →
  listed_row (list_payload ctx (tenant_list t f) tenant caller None f None) m
  = bool_decide (q_tenant_id m = tenant) &&
    holds (and_ (visible_unless (is_person ctx) (if is_person ctx then None else caller) (tenant_id ctx) tenant m)) &&
    holds (and_ (fleet_pin f m)) && holds (not_deleted m) && holds (not_quarantined m).
Proof.
  intros Hw. unfold listed_row, list_filters. cbn [list_payload f_tenant_id f_caller_agent_id f_caller_tenant_id f_fleet_id
    f_written_by f_memory_type f_exclude_memory_types f_status f_run_id f_baton_id f_weight_min f_weight_max f_created_after
    f_created_before f_include_deleted f_readable_tenant_ids f_visibility f_include_scope_agent].
  change (widened_tenants ctx (v_tenant_id (tenant_list t f)) (v_scope (tenant_list t f))) with (widened_tenants ctx t None).
  change (v_include_deleted (tenant_list t f)) with false. rewrite not_widened, no_deleted by done.
  rewrite !holds_and_app. cbn [tenant_list as_list]. rewrite !(holds_and [_]). cbn [forallb where_if where_set where_given negb].
  apply eq_iff_eq_true. rewrite !andb_true_iff, bool_decide_eq_true. unfold tenant_scope. rewrite holds_text_in.
  cbn [read_tenants]. rewrite list_elem_of_singleton. rewrite !(holds_and [_]). cbn [forallb]. rewrite !andb_true_iff. tauto.
Qed.

(** Which statuses the count of a status, or of the live ones, takes in. *)
Definition status_counted (status : option string) (m : stored_memory) : bool :=
  match status with Some s => bool_decide (q_status m = s) | None => bool_decide (q_status m ∈ LIVE_MEMORY_STATUSES) end.

(** A caller that is told how many memories a tenant or a fleet has is told of those its own list shows,
    and of no other: a count reveals no private row the list withholds, and misses none it shows. *)
Theorem count_is_of_the_list `{Rows} ctx t f status db n :
  memory_count ctx t f status db = Ok n →
  nonempty t = true ∨ is_cross_tenant_read ctx = false → (is_install_credential ctx = true → agent ctx = None) →
  ∃ a, list_request ctx (tenant_list t f) = Ok a ∧
       n = length (filter (λ m, (listed_row a m && status_counted status m)%bool = true) db).
Proof.
  unfold memory_count. intros Hn Hwide Hinstall. apply bind_ok in Hn as (tenant & Ht & Hn).
  apply bind_ok in Hn as ([] & Hg & [= <-]). eexists. split; [by apply tenant_list_request|].
  unfold memory_count_active. f_equal. apply filter_agree. intros m _. rewrite tenant_list_row by done.
  unfold counted_row. cbn [n_tenant_id n_fleet_id n_status n_exclude_scope_agent n_caller_agent_id n_caller_tenant_id].
  assert (visible_unless (is_person ctx) (if is_person ctx then None else effective_agent_id ctx None) (tenant_id ctx) tenant m
          = where_if (negb (is_person ctx))
              (_visibility_scope_clause (effective_agent_id ctx None) (py_or (tenant_id ctx) (Some tenant)) m)) as ->.
  { unfold visible_unless. destruct (is_person ctx); [done|]. by rewrite orb_true_r. }
  assert (holds (and_ (fleet_pin f m)) = holds (and_ (where_set f (col_is (q_fleet_id m))))) as ->.
  { rewrite !holds_and. unfold fleet_pin, where_set. destruct f as [f|]; [|done]. case_bool_decide; [done|]. cbn [forallb].
    f_equal. apply eq_iff_eq_true. rewrite holds_fleets, holds_col_is. unfold in_fleets. set_solver. }
  assert (holds (match status with Some s => text_is (q_status m) s | None => text_in (q_status m) LIVE_MEMORY_STATUSES end)
          = status_counted status m) as Hst by (by destruct status).
  rewrite !holds_and_app, (holds_and [_; _; _; _]). cbn [forallb]. rewrite Hst. change (holds (text_is (q_tenant_id m) tenant))
    with (bool_decide (q_tenant_id m = tenant)). rewrite !andb_true_iff. tauto.
Qed.

(** The map shows a caller that names no agent the memories its own list would, and no other. *)
Theorem map_is_of_the_list `{Rows} ctx t f d :
  memory_field ctx t f None = Ok d → (is_install_credential ctx = true → agent ctx = None) →
  ∃ a, list_request ctx (tenant_list (Some t) f) = Ok a ∧ ∀ m, field_row d m = listed_row a m.
Proof.
  unfold memory_field. intros Hd Hinstall. apply bind_ok in Hd as (_ & Ht%raise_if_ok%bool_decide_eq_false & Hd).
  apply bind_ok in Hd as ([] & Hr & Hd). apply bind_ok in Hd as ([] & _ & Hd). apply bind_ok in Hd as ([] & Hg & [= <-]).
  assert (nonempty (Some t) = true) as Hn by (apply nonempty_spec; eauto). eexists. split.
  { apply tenant_list_request; [|done|done]. unfold read_tenant. by rewrite Hn, Hr. }
  intros m. rewrite tenant_list_row by auto. unfold field_row, _field_scope_filters.
  cbn [d_tenant_id d_caller_agent_id d_caller_tenant_id d_fleet_id d_include_scope_agent].
  rewrite !holds_and_app, (holds_and [_; _]), (holds_and [_]). cbn [forallb].
  change (holds (text_is (q_tenant_id m) t)) with (bool_decide (q_tenant_id m = t)). change (canonical_service_agent_id <$> None) with (@None string).
  apply eq_iff_eq_true. rewrite !andb_true_iff. tauto.
Qed.

(** ** Witnesses, and what the counts do not share with the list *)

Definition reader_context (tenant : string) (named : option string) (person : bool) (readable : list string) : auth_context :=
  AuthContext (Some tenant) false false None None named true false None false None readable None person None None.
Definition reader_rows (trust : Z) : Rows := same_rows (row "north" trust None).
Definition scoped_query (scope : option string) : list_query :=
  as_list (StatsQuery None None None scope None None None [] None None false).
Definition small_pages (q : list_query) : list_query :=
  ListQuery (v_tenant_id q) (v_fleet_id q) (v_agent_id q) (v_scope q) (v_written_by q) (v_memory_type q)
    (v_exclude_memory_types q) (v_created_after q) (v_created_before q) (v_status q) (v_visibility q) (v_run_id q)
    (v_baton_id q) (v_weight_min q) (v_weight_max q) (v_cursor q) (v_sort q) (v_order q) (v_offset q) 1 (v_include_deleted q).
Definition shown_ids (r : result exn list_answer) : list string :=
  match r with Ok ans => q_id <$> items ans | Err _ => [] end.

(** An agent of trust 1 sees what is shared and its own, of every fleet where it names no scope. *)
Lemma listed_memories_are_readable_witness :
  let col := sample_collation in let rs := reader_rows 1 in let ctx := reader_context "acme" (Some "scout") false ["acme"] in
  shown_ids (list_memories ctx (scoped_query None) sample_memories) = ["m5"; "m4"; "m2"; "m1"] ∧
  Forall (λ m, served ctx (scoped_query None) m)
    match list_memories ctx (scoped_query None) sample_memories with Ok ans => items ans | Err _ => [] end.
Proof.
  intros col rs ctx. split; [by vm_compute|].
  destruct (list_memories ctx (scoped_query None) sample_memories) as [ans|e] eqn:E; [|constructor].
  apply Forall_forall. intros m Hm.
  by destruct (listed_memories_are_readable ctx (scoped_query None) sample_memories ans m E Hm).
Defined.

(** With the scope [fleet] it is held to its own, and opens all it is shown. *)
Lemma scoped_list_opens_by_id_witness :
  let col := sample_collation in let rs := reader_rows 1 in let ctx := reader_context "acme" (Some "scout") false ["acme"] in
  shown_ids (list_memories ctx (scoped_query (Some "fleet")) sample_memories) = ["m5"; "m2"; "m1"] ∧
  Forall (λ m, memory_access_allowed_for_agent (lookup (q_tenant_id m) "scout" false) "scout" (by_id m) (q_tenant_id m)
                 (tenant_id ctx) false = true)
    match list_memories ctx (scoped_query (Some "fleet")) sample_memories with Ok ans => items ans | Err _ => [] end.
Proof.
  intros col rs ctx. split; [by vm_compute|].
  destruct (list_memories ctx (scoped_query (Some "fleet")) sample_memories) as [ans|e] eqn:E; [|constructor].
  apply Forall_forall. intros m Hm.
  apply (scoped_list_opens_by_id ctx (scoped_query (Some "fleet")) sample_memories ans m "scout" "fleet");
    [done|done| |reflexivity|by left|reflexivity|reflexivity|reflexivity|done|reflexivity|by eexists].
  destruct (listed_is_served ctx (scoped_query (Some "fleet")) sample_memories ans m E Hm) as [Hdb _].
  clear E Hm. revert m Hdb. apply Forall_forall. by_compute.
Defined.

Lemma pages_list_every_memory_once_witness :
  let col := sample_collation in let rs := reader_rows 1 in let ctx := reader_context "acme" (Some "scout") false ["acme"] in
  ∃ a, list_request ctx (small_pages (scoped_query None)) = Ok a ∧
    (q_id <$> list_order (small_pages (scoped_query None)) a sample_memories) = ["m5"; "m4"; "m2"; "m1"] ∧
    follow 5 (list_page ctx (small_pages (scoped_query None)) sample_memories) None
    = Some (Ok (list_order (small_pages (scoped_query None)) a sample_memories)).
Proof.
  intros col rs ctx. eexists. split; [reflexivity|]. split; [by vm_compute|].
  apply (pages_list_every_memory_once ctx (small_pages (scoped_query None)) _ sample_memories 5);
    [reflexivity|done|done|done|done|by_compute| |vm_compute; lia].
  by repeat (apply Forall_cons; split; [eauto|]).
Defined.

Definition no_titles : TitlePattern := λ _ _, false.

Lemma stats_count_the_list_witness :
  let rs := reader_rows 1 in let pat := no_titles in let ctx := reader_context "acme" (Some "scout") false ["acme"] in
  let u := StatsQuery None None None None None None None [] None (Some 45) false in
  ∃ b, memory_stats ctx u sample_memories = Ok b ∧ total b = 3%nat ∧
  ∃ a, list_request ctx (as_list u) = Ok a ∧
       (total b + default 0 (deleted_total b))%nat = length (filter (λ m, listed_row a m = true) sample_memories).
Proof.
  intros rs pat ctx u. eexists. split; [reflexivity|]. split; [by vm_compute|].
  apply (stats_count_the_list ctx u sample_memories); [reflexivity|done|done|].
  intros m t Hm [= <-]. revert m Hm. apply Forall_forall. by_compute.
Defined.

Lemma count_is_of_the_list_witness :
  let rs := reader_rows 1 in let ctx := reader_context "acme" (Some "scout") false ["acme"] in
  memory_count ctx None (Some "north") None sample_memories = Ok 2%nat ∧
  ∃ a, list_request ctx (tenant_list None (Some "north")) = Ok a ∧
       2%nat = length (filter (λ m, (listed_row a m && status_counted None m)%bool = true) sample_memories).
Proof.
  intros rs ctx. split; [by vm_compute|].
  apply (count_is_of_the_list ctx None (Some "north") None sample_memories 2); [by vm_compute|by right|done].
Defined.

Lemma map_is_of_the_list_witness :
  let rs := reader_rows 1 in let ctx := reader_context "acme" (Some "scout") false ["acme"] in
  ∃ d, memory_field ctx "acme" None None = Ok d ∧
  ∃ a, list_request ctx (tenant_list (Some "acme") None) = Ok a ∧ ∀ m, field_row d m = listed_row a m.
Proof.
  intros rs ctx. eexists. split; [reflexivity|]. by apply (map_is_of_the_list ctx "acme" None).
Defined.

(** A person's stats of one author in a tenant other than their own leave out that author's private
    memories, which their list shows. *)
Example person_stats_miss_private_rows :
  let rs := reader_rows 1 in let pat := no_titles in let col := sample_collation in
  let ctx := reader_context "home" None true ["home"; "acme"] in
  let u := StatsQuery (Some "acme") None (Some "peer") None None None None [] None None false in
  shown_ids (list_memories ctx (as_list u) sample_memories) = ["m4"; "m3"; "m2"] ∧
  (total <$> memory_stats ctx u sample_memories) = Ok 2%nat.
Proof. by vm_compute. Qed.

(** A type asked for and excluded at once: storage answers 422, which the route lets out as an error
    nothing handles. *)
Example excluded_type_is_not_refused :
  let rs := reader_rows 1 in let col := sample_collation in let ctx := reader_context "acme" None false ["acme"] in
  list_memories ctx (as_list (StatsQuery None None None None (Some "fact") None None ["fact"] None None false)) sample_memories
  = Err (PyError "HTTPStatusError" "memory_type cannot also appear in exclude_memory_types").
Proof. by vm_compute. Qed.

(** A memory of no known visibility is counted by the fleets, and listed for none of its readers. *)
Example fleets_count_what_no_list_shows :
  let rs := reader_rows 1 in let col := sample_collation in let ctx := reader_context "acme" None false ["acme"] in
  let db := [sample_memory "m1" "north" "scout" "scope_other" "active" 10 None] in
  list_fleets ctx None db = Ok [("north", 1, 1)]%nat ∧
  shown_ids (list_memories ctx (tenant_list None (Some "north")) db) = [].
Proof. by vm_compute. Qed.
