(* ===== verification/RowLife.v ===== *)
(** * The life of a memory row in storage

    The statements of [core-storage-api/.../services/postgres_service.py] that move a stored
    memory between live, held, superseded and deleted: the status update with its release of a
    hold, the rollback of a broker session, the soft deletes, the governance drop, the changes a
    parent's edit carries to the rows derived from it, the reassignment of memories, the expiry
    and staleness sweeps and the insight generations, with the review queue and its counts.

    A row is the columns its reads filter on ([ReadScope]) and those its life needs. The text of a
    top-level metadata key ([metadata ->> 'key']) and of a [_system] key is a map. A statement reads
    the table as it finds it and rewrites the rows its condition holds of; [RETURNING] is those rows.
    A [LIMIT] without an order takes the first of the rows in an order the scan chooses
    ([ScanOrder]); [lower] on a text is the database's ([SqlLower]). *)

From Stdlib Require Import Floats.SpecFloat.
From S2P Require Import Prelude PyStr MemoryAccess Contradiction ReadScope ListScope.

#[local] Open Scope string_scope.
#[local] Open Scope list_scope.
#[local] Open Scope Z_scope.

(** ** Rows and tables *)

Record life_row : Type := LifeRow {
  r_mem : stored_memory;
  r_content : string; r_content_hash : option string; r_embedded_content_hash : option string;
  r_predicate : option string; r_object_value : option string;
  r_metadata : gmap string string; r_system : gmap string string;
  r_hold_reason : option string;           (* [metadata #>> '{_system,hold,reason}'] *)
  r_source_uri : option string; r_tool_call_id : option string; r_verified_by : option string;
  r_status_changed_at : option Z; r_ts_valid_end : option Z
}.

(** The parent record of an ingest batch, and any other document. *)
Record ingest_document : Type := IngestDocument {
  g_tenant_id : string; g_collection : string; g_doc_id : string; g_summary : option string;
  g_embedded : bool; g_updated_at : Z
}.

Record life_db : Type := LifeDb {
  db_rows : list life_row; db_docs : list ingest_document; db_conflicts : list conflict_record
}.

Definition row_id (r : life_row) : string := q_id (r_mem r).
Definition parent_memory_id (r : life_row) : option string := r_metadata r !! "parent_memory_id".
Definition session_id_of (r : life_row) : option string := r_metadata r !! "session_id".

(** Assignments to columns. *)
Definition set_mem (f : stored_memory → stored_memory) (r : life_row) : life_row :=
  LifeRow (f (r_mem r)) (r_content r) (r_content_hash r) (r_embedded_content_hash r) (r_predicate r) (r_object_value r)
    (r_metadata r) (r_system r) (r_hold_reason r) (r_source_uri r) (r_tool_call_id r) (r_verified_by r)
    (r_status_changed_at r) (r_ts_valid_end r).
Definition set_changed_at (t : Z) (r : life_row) : life_row :=
  LifeRow (r_mem r) (r_content r) (r_content_hash r) (r_embedded_content_hash r) (r_predicate r) (r_object_value r)
    (r_metadata r) (r_system r) (r_hold_reason r) (r_source_uri r) (r_tool_call_id r) (r_verified_by r)
    (Some t) (r_ts_valid_end r).
Definition col_status (s : string) (m : stored_memory) : stored_memory :=
  StoredMemory (q_id m) (q_tenant_id m) (q_fleet_id m) (q_agent_id m) (q_memory_type m) (q_visibility m) s
    (q_deleted_at m) (q_created_at m) (q_weight m) (q_run_id m) (q_baton_id m) (q_title m) (q_verification_status m)
    (q_embedded m) (q_ts_valid_start m) (q_expires_at m) (q_recall_count m) (q_supersedes_id m) (q_subject_entity_id m).
Definition col_deleted_at (t : option Z) (m : stored_memory) : stored_memory :=
  StoredMemory (q_id m) (q_tenant_id m) (q_fleet_id m) (q_agent_id m) (q_memory_type m) (q_visibility m) (q_status m)
    t (q_created_at m) (q_weight m) (q_run_id m) (q_baton_id m) (q_title m) (q_verification_status m)
    (q_embedded m) (q_ts_valid_start m) (q_expires_at m) (q_recall_count m) (q_supersedes_id m) (q_subject_entity_id m).
Definition col_verification (v : string) (m : stored_memory) : stored_memory :=
  StoredMemory (q_id m) (q_tenant_id m) (q_fleet_id m) (q_agent_id m) (q_memory_type m) (q_visibility m) (q_status m)
    (q_deleted_at m) (q_created_at m) (q_weight m) (q_run_id m) (q_baton_id m) (q_title m) v
    (q_embedded m) (q_ts_valid_start m) (q_expires_at m) (q_recall_count m) (q_supersedes_id m) (q_subject_entity_id m).
Definition col_supersedes (s : option string) (m : stored_memory) : stored_memory :=
  StoredMemory (q_id m) (q_tenant_id m) (q_fleet_id m) (q_agent_id m) (q_memory_type m) (q_visibility m) (q_status m)
    (q_deleted_at m) (q_created_at m) (q_weight m) (q_run_id m) (q_baton_id m) (q_title m) (q_verification_status m)
    (q_embedded m) (q_ts_valid_start m) (q_expires_at m) (q_recall_count m) s (q_subject_entity_id m).
Definition col_owner (agent visibility : string) (m : stored_memory) : stored_memory :=
  StoredMemory (q_id m) (q_tenant_id m) (q_fleet_id m) agent (q_memory_type m) visibility (q_status m)
    (q_deleted_at m) (q_created_at m) (q_weight m) (q_run_id m) (q_baton_id m) (q_title m) (q_verification_status m)
    (q_embedded m) (q_ts_valid_start m) (q_expires_at m) (q_recall_count m) (q_supersedes_id m) (q_subject_entity_id m).
Definition col_expires_at (t : option Z) (m : stored_memory) : stored_memory :=
  StoredMemory (q_id m) (q_tenant_id m) (q_fleet_id m) (q_agent_id m) (q_memory_type m) (q_visibility m) (q_status m)
    (q_deleted_at m) (q_created_at m) (q_weight m) (q_run_id m) (q_baton_id m) (q_title m) (q_verification_status m)
    (q_embedded m) (q_ts_valid_start m) t (q_recall_count m) (q_supersedes_id m) (q_subject_entity_id m).
Definition col_untitled (m : stored_memory) : stored_memory :=
  StoredMemory (q_id m) (q_tenant_id m) (q_fleet_id m) (q_agent_id m) (q_memory_type m) (q_visibility m) (q_status m)
    (q_deleted_at m) (q_created_at m) (q_weight m) (q_run_id m) (q_baton_id m) None (q_verification_status m)
    false (q_ts_valid_start m) (q_expires_at m) (q_recall_count m) (q_supersedes_id m) (q_subject_entity_id m).

(** [UPDATE memories SET values WHERE where], and the rows it [RETURNING]s, as it found them. *)
Definition sql_update (cond : life_row → bool) (values : life_row → life_row) (db : list life_row) : list life_row :=
  (λ r, if cond r then values r else r) <$> db.
Definition matching (cond : life_row → bool) (db : list life_row) : list life_row := filter (λ r, cond r = true) db.

(** [SET status = s, status_changed_at = now], with [deleted_at = now] on a delete. *)
Definition set_status (s : string) (now : Z) (r : life_row) : life_row := set_changed_at now (set_mem (col_status s) r).
Definition set_status_deleted (s : string) (now : Z) (r : life_row) : life_row :=
  set_mem (col_deleted_at (Some now)) (set_status s now r).

(** ** Shared conditions *)

Definition QUARANTINE_REJECTED : string := "cancelled".
Definition QUARANTINE_EXITS : list string := ["active"; QUARANTINE_REJECTED].

Definition meta_is (key value : string) (r : life_row) : sql_bool := col_is (r_metadata r !! key) value.
Definition derived_rows_where (tenant_id : string) (parent_ids : list string) (r : life_row) : list sql_bool :=
  [text_is (q_tenant_id (r_mem r)) tenant_id; not_deleted (r_mem r); col_in (parent_memory_id r) parent_ids].
Definition session_rows_where (tenant_id session_id : string) (r : life_row) : list sql_bool :=
  [text_is (q_tenant_id (r_mem r)) tenant_id; not_deleted (r_mem r); meta_is "session_id" session_id r].
Definition is_held_status (r : life_row) : sql_bool := text_is (q_status (r_mem r)) QUARANTINED_MEMORY_STATUS.
Definition held_rows_where (tenant_id : string) (r : life_row) : list sql_bool :=
  [text_is (q_tenant_id (r_mem r)) tenant_id; not_deleted (r_mem r); is_held_status r; is_null (parent_memory_id r)].
Definition live_status (r : life_row) : sql_bool := text_in (q_status (r_mem r)) LIVE_MEMORY_STATUSES.

Definition on_row (tenant_id memory_id : string) (r : life_row) : list sql_bool :=
  [text_is (row_id r) memory_id; text_is (q_tenant_id (r_mem r)) tenant_id].

(** ** What a status says of the verification *)

Class SqlLower : Type := sql_lower : string → string.
Class ScanOrder : Type := ScanOf { scan : list life_row → list life_row; scan_perm : ∀ rows, scan rows ≡ₚ rows }.

Definition NON_EVIDENCE_SOURCE_URIS : list string :=
  ["text-input"; "longmemeval:"; "locomo:"; "stale:"; "clbench:"; "test:"; "lme:"; "bench:"; "seed:"; "benchmark:"].
Definition DEFAULT_VERIFICATION_STATUS : string := "unverified".
Definition _VERIFICATION_RESTORING_STATUSES : list string := ["active"; "pending"; "confirmed"].
Definition _DISPUTING_STATUS : string := "conflicted".

Definition btrim : string → string := strip_of (λ c, Ascii.eqb c " ").

Section Verification.
Context {lower : SqlLower}.

Definition _non_evidence_source_uri_sql (uri : string) : bool :=
  existsb (λ v, if bool_decide (after_last ":" v = Some "") then String.prefix v uri else bool_decide (uri = v))
    NON_EVIDENCE_SOURCE_URIS.
Definition _real_source_uri_sql (source_uri : option string) : bool :=
  let uri := sql_lower (btrim (default "" source_uri)) in
  negb (bool_decide (uri = "")) && negb (_non_evidence_source_uri_sql uri).
Definition automatic_verification_sql (r : life_row) : string :=
  let has_tool := match r_tool_call_id r with Some t => negb (bool_decide (btrim t = "")) | None => false end in
  if has_tool || _real_source_uri_sql (r_source_uri r) then "tool_observed" else DEFAULT_VERIFICATION_STATUS.
Definition _undisputed_verification_sql (r : life_row) : string :=
  match r_verified_by r with Some _ => "human_verified" | None => automatic_verification_sql r end.

(** The [verification_status] a move to a status writes. *)
Definition verification_on_status_change (status : string) (r : life_row) : string :=
  let v := q_verification_status (r_mem r) in
  if bool_decide (status = _DISPUTING_STATUS) then "disputed"
  else if bool_decide (status ∈ _VERIFICATION_RESTORING_STATUSES)
  then if bool_decide (v = "disputed") then _undisputed_verification_sql r else v
  else v.

(** ** The status update *)

Definition _assert_pointers_in_tenant (tenant_id : string) (pointer : option string) (rows : list life_row) : result exn unit :=
  match pointer with
  | None => Ok tt
  | Some p =>
      raise_if (negb (existsb (λ r, holds (and_ (on_row tenant_id p r))) rows))
        (PyError "PointerNotInTenantError" "supersedes_id does not name a row in this tenant")
  end.

Definition updatable (tenant_id memory_id : string) (expected_supersedes_id : option string) (release_hold : bool) (r : life_row) : bool :=
  holds (and_ (on_row tenant_id memory_id r ++
    [not_deleted (r_mem r); if release_hold then is_held_status r else not_quarantined (r_mem r)] ++
    where_given expected_supersedes_id (col_is (q_supersedes_id (r_mem r))))).

Definition held_chunk (tenant_id : string) (parents : list string) (r : life_row) : bool :=
  holds (and_ (derived_rows_where tenant_id parents r ++ [is_held_status r])).

(** What the update writes: a reject also deletes. *)
Definition exit_values (rejected : bool) (status : string) (now : Z) : life_row → life_row :=
  if rejected then set_status_deleted status now else set_status status now.
Definition status_values (rejected unset_supersedes : bool) (supersedes_id : option string) (status : string) (now : Z)
    (r : life_row) : life_row :=
  set_mem (λ m,
    let m := col_verification (verification_on_status_change status r) m in
    if unset_supersedes then col_supersedes None m
    else match supersedes_id with Some s => col_supersedes (Some s) m | None => m end)
    (exit_values rejected status now r).

Definition memory_update_status (memory_id status tenant_id : string) (supersedes_id : option string) (unset_supersedes : bool)
    (expected_supersedes_id : option string) (release_hold : bool) (now : Z) (rows : list life_row) :
    result exn (bool * list life_row) :=
  raise_if (bool_decide (status = QUARANTINED_MEMORY_STATUS))
    (PyError "ValueError" "a memory is held when it is written, never by a status update");;
  raise_if (release_hold && negb (bool_decide (status ∈ QUARANTINE_EXITS)))
    (PyError "ValueError" "a held memory becomes one of active, cancelled");;
  let rejected := release_hold && bool_decide (status = QUARANTINE_REJECTED) in
  _assert_pointers_in_tenant tenant_id (if unset_supersedes then None else supersedes_id) rows;;
  let here := updatable tenant_id memory_id expected_supersedes_id release_hold in
  let moved := existsb here rows in
  let rows := sql_update here (status_values rejected unset_supersedes supersedes_id status now) rows in
  Ok (moved,
      if moved && release_hold then sql_update (held_chunk tenant_id [memory_id]) (exit_values rejected status now) rows else rows).
End Verification.

(** The first detection to land owns the chain. *)
Definition memory_set_supersedes_if_null (memory_id supersedes_id tenant_id : string) (rows : list life_row) : bool * list life_row :=
  let here (r : life_row) :=
    holds (and_ (on_row tenant_id memory_id r ++
      [not_deleted (r_mem r); not_quarantined (r_mem r); is_null (q_supersedes_id (r_mem r));
       Some (existsb (λ x, holds (and_ (on_row tenant_id supersedes_id x))) rows)])) in
  (existsb here rows, sql_update here (set_mem (col_supersedes (Some supersedes_id))) rows).

(** ** The review queue *)

Section Held.
Context {coll : Collation}.

Definition held_in_session (tenant_id : string) (session_id : option string) (r : life_row) : list sql_bool :=
  held_rows_where tenant_id r ++ where_given session_id (λ s, meta_is "session_id" s r).

Definition memory_list_held (tenant_id : string) (session_id : option string) (limit : Z) (cursor : option Z * option string)
    (rows : list life_row) : list stored_memory * nat :=
  let queue := matching (λ r, holds (and_ (held_in_session tenant_id session_id r))) rows in
  let page := filter (λ m, holds (and_ (cursor_clause "desc" cursor m)) = true) (r_mem <$> queue) in
  (sql_page 0 limit (py_sorted (row_leb "created_at" "desc") page), length queue).
End Held.

(** ** The rollback of a session *)

Record rollback : Type := Rollback { rb_outdated : list string; rb_restored : list string; rb_cancelled : list string }.

(** [move]: the ids of the rows moved, and the table after. *)
Definition move (cond : life_row → bool) (status : string) (delete : bool) (now : Z) (rows : list life_row) :
    list string * list life_row :=
  (row_id <$> matching cond rows,
   sql_update cond (if delete then set_status_deleted status now else set_status status now) rows).

Definition session_live (tenant_id session_id : string) (r : life_row) : bool :=
  holds (and_ (session_rows_where tenant_id session_id r ++ [live_status r])).
Definition session_held (tenant_id session_id : string) (r : life_row) : bool :=
  holds (and_ (session_rows_where tenant_id session_id r ++ [is_held_status r])).
Definition derived_live (tenant_id : string) (parents : list string) (r : life_row) : bool :=
  holds (and_ (derived_rows_where tenant_id parents r ++ [live_status r])).

(** The live rows derived from a list of rows, pass after pass until one takes none. *)
Fixpoint outdate_derived (fuel : nat) (tenant_id : string) (parents : list string) (now : Z) (rows : list life_row) :
    option (list string * list life_row) :=
  match parents with
  | [] => Some ([], rows)
  | _ =>
      match fuel with
      | O => None
      | S fuel =>
          let '(taken, rows) := move (derived_live tenant_id parents) "outdated" false now rows in
          '(further, rows) ← outdate_derived fuel tenant_id taken now rows;
          Some (taken ++ further, rows)
      end
  end.

(** A live row of the tenant that supersedes a row, one that a standing conflict record says beat it. *)
Definition standing (tenant_id id : string) (rows : list life_row) : bool :=
  existsb (λ s, holds (and_ [text_is (q_tenant_id (r_mem s)) tenant_id; col_is (q_supersedes_id (r_mem s)) id;
                             not_deleted (r_mem s); live_status s])) rows.
Definition standing_winner (tenant_id id : string) (conflicts : list conflict_record) (rows : list life_row) : bool :=
  existsb (λ c, holds (and_ [text_is (k_tenant_id c) tenant_id; text_is (k_old_memory_id c) id]) &&
    existsb (λ w, holds (and_ [text_is (row_id w) (k_new_memory_id c); not_deleted (r_mem w); live_status w])) rows) conflicts.

(** What the rolled-back rows had held down. *)
Definition held_down (tenant_id : string) (rolled_back : list string) (conflicts : list conflict_record)
    (rows : list life_row) (id : string) : bool :=
  existsb (λ s, holds (and_ [text_is (q_tenant_id (r_mem s)) tenant_id; text_in (row_id s) rolled_back;
                             col_is (q_supersedes_id (r_mem s)) id])) rows ||
  existsb (λ c, holds (and_ [text_is (k_tenant_id c) tenant_id; text_in (k_new_memory_id c) rolled_back;
                             text_is (k_old_memory_id c) id])) conflicts.

Definition restorable (tenant_id session_id : string) (rolled_back : list string) (conflicts : list conflict_record)
    (rows : list life_row) (r : life_row) : bool :=
  holds (and_ [
    text_is (q_tenant_id (r_mem r)) tenant_id; not_deleted (r_mem r); text_in (q_status (r_mem r)) CONTRADICTED_STATUSES;
    Some (held_down tenant_id rolled_back conflicts rows (row_id r));
    Some (negb (bool_decide (row_id r ∈ rolled_back)));
    Some (negb (bool_decide (session_id_of r = Some session_id)));
    Some (negb (standing tenant_id (row_id r) rows)); Some (negb (standing_winner tenant_id (row_id r) conflicts rows))]).

Definition restore_pass (tenant_id session_id : string) (outdated : list string) (conflicts : list conflict_record) (now : Z)
    (rows : list life_row) : list string * list life_row :=
  match outdated with
  | [] => ([], rows)
  | _ => move (restorable tenant_id session_id outdated conflicts rows) "active" false now rows
  end.
(** The auto-chunks held with the rejected writes. *)
Definition reject_chunks (tenant_id : string) (cancelled : list string) (now : Z) (rows : list life_row) :
    list string * list life_row :=
  match cancelled with
  | [] => ([], rows)
  | _ => move (held_chunk tenant_id cancelled) QUARANTINE_REJECTED true now rows
  end.

Definition memory_rollback_session (fuel : nat) (tenant_id session_id : string) (now : Z) (db : life_db) :
    option (rollback * life_db) :=
  let '(first, rows) := move (session_live tenant_id session_id) "outdated" false now (db_rows db) in
  '(derived, rows) ← outdate_derived fuel tenant_id first now rows;
  let outdated := first ++ derived in
  let '(restored, rows) := restore_pass tenant_id session_id outdated (db_conflicts db) now rows in
  let '(cancelled, rows) := move (session_held tenant_id session_id) QUARANTINE_REJECTED true now rows in
  let '(chunks, rows) := reject_chunks tenant_id cancelled now rows in
  Some (Rollback outdated restored (cancelled ++ chunks), LifeDb rows (db_docs db) (db_conflicts db)).

(** ** Deletes *)

Definition INGEST_DOCUMENTS_COLLECTION : string := "ingest-sources".

Definition _clear_ingest_summaries (tenant_id : string) (run_ids : list (option string)) (now : Z) (docs : list ingest_document) :
    list ingest_document :=
  let doc_ids := filter (λ i, i ≠ "") (omap (λ i, i) run_ids) in
  (λ d, if bool_decide (g_tenant_id d = tenant_id) && bool_decide (g_collection d = INGEST_DOCUMENTS_COLLECTION) &&
           bool_decide (g_doc_id d ∈ doc_ids) && bool_decide (is_Some (g_summary d))
        then IngestDocument (g_tenant_id d) (g_collection d) (g_doc_id d) None false now else d) <$> docs.

Definition selected (tenant_id : string) (cond : life_row → list sql_bool) (exclude_ids : list string) (r : life_row) : bool :=
  holds (and_ ([text_is (q_tenant_id (r_mem r)) tenant_id; not_deleted (r_mem r); not_quarantined (r_mem r)] ++ cond r ++
    where_if (nonempty_list exclude_ids) (text_not_in (row_id r) exclude_ids))).

(** The rows a delete takes with the ones it selects: those derived from them. *)
Definition children_of (tenant_id : string) (parents exclude_ids : list string) (r : life_row) : bool :=
  holds (and_ (derived_rows_where tenant_id parents r ++
    where_if (nonempty_list exclude_ids) (text_not_in (row_id r) exclude_ids))).

Definition _soft_delete (tenant_id : string) (cond : life_row → list sql_bool) (exclude_ids : list string) (with_derived : bool)
    (now : Z) (db : life_db) : nat * life_db :=
  let sel := selected tenant_id cond exclude_ids in
  let parents := row_id <$> matching sel (db_rows db) in
  let kids (r : life_row) := with_derived && children_of tenant_id parents exclude_ids r in
  let taken := matching kids (db_rows db) in
  let rows := sql_update kids (set_status_deleted "deleted" now) (db_rows db) in
  let gone := matching sel rows in
  let rows := sql_update sel (set_status_deleted "deleted" now) rows in
  let run_ids := (λ r, q_run_id (r_mem r)) <$> taken ++ gone in
  (length run_ids, LifeDb rows (_clear_ingest_summaries tenant_id run_ids now (db_docs db)) (db_conflicts db)).

Record delete_args : Type := DeleteArgs {
  e_fleet_id : option string; e_agent_id : option string; e_memory_type : option string; e_status : option string;
  e_run_id : option string; e_exclude_memory_types : list string; e_created_after : option Z; e_created_before : option Z;
  e_exclude_ids : list string; e_metadata_filter : list (string * string)
}.

Definition delete_filter (a : delete_args) (r : life_row) : list sql_bool :=
  let m := r_mem r in
  where_set (e_fleet_id a) (col_is (q_fleet_id m)) ++ where_set (e_agent_id a) (text_is (q_agent_id m)) ++
  where_set (e_memory_type a) (text_is (q_memory_type m)) ++ where_set (e_status a) (text_is (q_status m)) ++
  where_set (e_run_id a) (col_is (q_run_id m)) ++
  where_if (nonempty_list (e_exclude_memory_types a)) (text_not_in (q_memory_type m) (e_exclude_memory_types a)) ++
  where_given (e_created_after a) (λ x, (λ t, x <=? t) <$> q_created_at m) ++
  where_given (e_created_before a) (λ x, (λ t, t <=? x) <$> q_created_at m) ++
  ((λ kv, meta_is kv.1 kv.2 r) <$> e_metadata_filter a).

Definition memory_soft_delete_by_filter (tenant_id : string) (a : delete_args) : Z → life_db → nat * life_db :=
  _soft_delete tenant_id (delete_filter a) (e_exclude_ids a) true.
Definition memory_soft_delete_by_ids (tenant_id : string) (ids : list string) (with_derived : bool) (now : Z) (db : life_db) :
    nat * life_db :=
  match ids with
  | [] => (O, db)
  | _ => _soft_delete tenant_id (λ r, [text_in (row_id r) ids]) [] with_derived now db
  end.
Definition memory_soft_delete_by_run (tenant_id run_id metadata_source : string) : Z → life_db → nat * life_db :=
  _soft_delete tenant_id (λ r, [col_is (q_run_id (r_mem r)) run_id; meta_is "source" metadata_source r]) [] true.

(** ** A governance drop *)

Definition _DROPPED_ROW_METADATA_KEYS : list string :=
  ["parent_memory_id"; "auto_chunked"; "child_count"; "source"; "write_mode"; "contains_pii"; "pii_types"; "pii_flagged_by";
   "business_relevance"; "governance_llm_uncertain"].
Definition kept_keys (m : gmap string string) : gmap string string :=
  filter (λ kv, kv.1 ∈ _DROPPED_ROW_METADATA_KEYS) m.

(** The row with nothing left of its text: the hold is in [_system] and goes with it. *)
Definition dropped_row (now : Z) (r : life_row) : life_row :=
  LifeRow (col_deleted_at (Some (default now (q_deleted_at (r_mem r)))) (col_status "deleted" (col_untitled (r_mem r))))
    "" None None None None (kept_keys (r_metadata r)) (kept_keys (r_system r)) None
    (r_source_uri r) (r_tool_call_id r) (r_verified_by r) (Some now) (r_ts_valid_end r).

Definition memory_drop (tenant_id memory_id : string) (now : Z) (db : life_db) : bool * life_db :=
  match find (λ r, holds (and_ (on_row tenant_id memory_id r ++ [not_quarantined (r_mem r)]))) (db_rows db) with
  | None => (false, db)
  | Some r =>
      (true, LifeDb (sql_update (λ r, holds (and_ (on_row tenant_id memory_id r))) (dropped_row now) (db_rows db))
               (_clear_ingest_summaries tenant_id [q_run_id (r_mem r)] now (db_docs db)) (db_conflicts db))
  end.

(** ** Reassignment *)

Record redistribution : Type := Redistribution {
  o_moved : nat; o_promoted : nat; o_skipped : nat; o_from_agents : list string; o_not_found : list string
}.

(** The rows a reassignment locks. (Their order decides only who waits for whom.) *)
Definition lockable (tenant_id : string) (memory_ids : list string) (r : life_row) : bool :=
  holds (and_ [text_in (row_id r) memory_ids; text_is (q_tenant_id (r_mem r)) tenant_id; not_deleted (r_mem r)]).
Definition owned_by (agent_id : string) (r : life_row) : bool := bool_decide (q_agent_id (r_mem r) = agent_id).
Definition private_row (r : life_row) : bool := bool_decide (q_visibility (r_mem r) = "scope_agent").
Definition reassign (target : string) (m : stored_memory) : stored_memory :=
  col_owner target (if bool_decide (q_visibility m = "scope_agent") then "scope_team" else q_visibility m) m.

Definition memory_redistribute (tenant_id : string) (memory_ids : list string) (target_agent_id : string) (rows : list life_row) :
    redistribution * list life_row :=
  let memories := matching (lockable tenant_id memory_ids) rows in
  let moving := filter (λ r, owned_by target_agent_id r = false) memories in
  (Redistribution (length moving) (length (filter (λ r, private_row r = true) moving))
     (length (filter (λ r, owned_by target_agent_id r = true) memories))
     (py_sorted str_leb (remove_dups ((λ r, q_agent_id (r_mem r)) <$> moving)))
     (filter (λ i, i ∉ row_id <$> memories) memory_ids),
   sql_update (λ r, lockable tenant_id memory_ids r && negb (owned_by target_agent_id r)) (set_mem (reassign target_agent_id)) rows).

(** ** What a parent's edit carries to its derived rows *)

Record derived_changes : Type := DerivedChanges {
  n_soft_delete_children : bool; n_visibility : option string; n_wider : list string;
  n_mirror_expires_at : bool; n_expires_at : option Z
}.

Definition set_visibility (v : string) (m : stored_memory) : stored_memory := col_owner (q_agent_id m) v m.

(** The children deleted, as [(id, agent_id)], and the table. *)
Definition _change_derived_rows (tenant_id parent_id : string) (d : derived_changes) (now : Z) (rows : list life_row) :
    list (string * string) * list life_row :=
  let children (r : life_row) := holds (and_ (derived_rows_where tenant_id [parent_id] r)) in
  let '(deleted, rows) :=
    if n_soft_delete_children d then
      let taken := matching children rows in
      let rows := sql_update children (set_status_deleted "deleted" now) rows in
      (taken, match taken with
              | [] => rows
              | _ => sql_update (λ r, holds (and_ (derived_rows_where tenant_id (row_id <$> taken) r)))
                       (set_status_deleted "deleted" now) rows
              end)
    else ([], rows) in
  let rows :=
    match n_visibility d with
    | Some v =>
        if nonempty_list (n_wider d)
        then sql_update (λ r, children r && bool_decide (q_visibility (r_mem r) ∈ n_wider d)) (set_mem (set_visibility v)) rows
        else rows
    | None => rows
    end in
  (((λ r, (row_id r, q_agent_id (r_mem r))) <$> deleted),
   if n_mirror_expires_at d
   then sql_update (λ r, children r && negb (bool_decide (q_expires_at (r_mem r) = n_expires_at d)))
          (set_mem (col_expires_at (n_expires_at d))) rows
   else rows).

(** ** The lifecycle sweeps *)

Section Sweeps.
Context {scan_order : ScanOrder}.

Definition _EXPIRED_LIVE_ROWS (now : Z) (r : life_row) : list sql_bool :=
  [or_ [(λ t, t <? now) <$> r_ts_valid_end r; (λ t, t <? now) <$> q_expires_at (r_mem r)]; live_status r; not_deleted (r_mem r)].
Definition in_fleet (fleet_id : option string) (r : life_row) : list sql_bool := where_set fleet_id (col_is (q_fleet_id (r_mem r))).

(** [UPDATE ... WHERE id IN (SELECT id ... LIMIT batch_size) RETURNING id] *)
Definition sweep (cond : life_row → bool) (values : life_row → life_row) (batch_size : Z) (rows : list life_row) :
    nat * list life_row :=
  let ids := row_id <$> sql_page 0 batch_size (matching cond (scan rows)) in
  let here (r : life_row) := bool_decide (row_id r ∈ ids) in
  (length (matching here rows), sql_update here values rows).

Definition expired (tenant_id : string) (fleet_id : option string) (now : Z) (r : life_row) : bool :=
  holds (and_ ([text_is (q_tenant_id (r_mem r)) tenant_id] ++ in_fleet fleet_id r ++ _EXPIRED_LIVE_ROWS now r)).
(** The one status change that leaves [status_changed_at] alone. *)
Definition memory_archive_expired (tenant_id : string) (fleet_id : option string) (batch_size now : Z) : list life_row → nat * list life_row :=
  sweep (expired tenant_id fleet_id now) (set_mem (col_status "outdated")) batch_size.

Definition stale (tenant_id : string) (fleet_id : option string) (stale_days : Z) (max_weight : spec_float) (now : Z) (r : life_row) : bool :=
  let m := r_mem r in
  holds (and_ ([text_is (q_tenant_id m) tenant_id] ++ in_fleet fleet_id r ++
    [(λ t, t <? now - 86400000000 * stale_days) <$> q_created_at m; Some (bool_decide (q_recall_count m = 0));
     (λ w, SFltb w max_weight) <$> q_weight m; text_is (q_status m) "active"; not_deleted m])).
Definition memory_archive_stale (tenant_id : string) (fleet_id : option string) (stale_days : Z) (max_weight : spec_float)
    (batch_size now : Z) : list life_row → nat * list life_row :=
  sweep (stale tenant_id fleet_id stale_days max_weight now) (set_status "archived" now) batch_size.
End Sweeps.

(** ** The generations of an agent's insights *)

Definition prior_insight (tenant_id agent_id focus scope : string) (fleet_id : option string) (r : life_row) : bool :=
  let m := r_mem r in
  holds (and_ [text_is (q_tenant_id m) tenant_id; text_is (q_agent_id m) agent_id; text_is (q_memory_type m) "insight";
    text_in (q_status m) ["active"; "pending"]; not_deleted m; meta_is "insight_focus" focus r; meta_is "insight_scope" scope r;
    or_ [text_is scope "all"; and_ [is_null fleet_id; is_null (q_fleet_id m)];
         match fleet_id with Some f => col_is (q_fleet_id m) f | None => None end]]).
Definition insights_supersede_priors (tenant_id agent_id focus scope : string) (fleet_id : option string) (now : Z) :
    list life_row → list string * list life_row :=
  move (prior_insight tenant_id agent_id focus scope fleet_id) "outdated" false now.
Definition insights_restore_priors (tenant_id : string) (prior_ids : list string) (now : Z) (rows : list life_row) : nat * list life_row :=
  match prior_ids with
  | [] => (O, rows)
  | _ =>
      let here (r : life_row) :=
        holds (and_ [text_in (row_id r) prior_ids; text_is (q_status (r_mem r)) "outdated"; text_is (q_tenant_id (r_mem r)) tenant_id]) in
      (length (matching here rows), sql_update here (set_status "active" now) rows)
  end.

(** ** Facts the theorems share *)

(** A row waiting for a person's decision. *)
Definition held (r : life_row) : Prop := q_status (r_mem r) = QUARANTINED_MEMORY_STATUS ∧ q_deleted_at (r_mem r) = None.
Definition live (r : life_row) : Prop := q_status (r_mem r) ∈ LIVE_MEMORY_STATUSES ∧ q_deleted_at (r_mem r) = None.
Definition of_tenant (t : string) (r : life_row) : Prop := q_tenant_id (r_mem r) = t.

Lemma holds_live_status r : holds (live_status r) = true ↔ q_status (r_mem r) ∈ LIVE_MEMORY_STATUSES.
Proof. apply holds_text_in. Qed.
Lemma holds_held_status r : holds (is_held_status r) = true ↔ q_status (r_mem r) = QUARANTINED_MEMORY_STATUS.
Proof. apply holds_text_is. Qed.
Lemma holds_meta_is k v r : holds (meta_is k v r) = true ↔ r_metadata r !! k = Some v.
Proof. apply holds_col_is. Qed.
#[export] Hint Rewrite holds_live_status holds_held_status holds_meta_is : sql.

(** A conjunction of clauses, one by one. *)
Ltac sql_cases :=
  repeat first [ rewrite holds_and_iff in * | rewrite Forall_cons in * | rewrite Forall_app in * | rewrite Forall_nil in * ];
  autorewrite with sql in *.

Lemma derived_rows_iff t ps r : holds (and_ (derived_rows_where t ps r)) = true
  ↔ of_tenant t r ∧ q_deleted_at (r_mem r) = None ∧ ∃ p, parent_memory_id r = Some p ∧ p ∈ ps.
Proof. unfold derived_rows_where, of_tenant. sql_cases. tauto. Qed.
Lemma held_chunk_iff t ps r : held_chunk t ps r = true
  ↔ of_tenant t r ∧ held r ∧ ∃ p, parent_memory_id r = Some p ∧ p ∈ ps.
Proof. unfold held_chunk, held. rewrite holds_and_iff, Forall_app, <-holds_and_iff, derived_rows_iff. sql_cases. tauto. Qed.
Lemma session_rows_iff t s r : holds (and_ (session_rows_where t s r)) = true
  ↔ of_tenant t r ∧ q_deleted_at (r_mem r) = None ∧ session_id_of r = Some s.
Proof. unfold session_rows_where, of_tenant, session_id_of. sql_cases. tauto. Qed.
Lemma session_live_iff t s r : session_live t s r = true ↔ of_tenant t r ∧ live r ∧ session_id_of r = Some s.
Proof. unfold session_live, live. rewrite holds_and_iff, Forall_app, <-holds_and_iff, session_rows_iff. sql_cases. tauto. Qed.
Lemma session_held_iff t s r : session_held t s r = true ↔ of_tenant t r ∧ held r ∧ session_id_of r = Some s.
Proof. unfold session_held, held. rewrite holds_and_iff, Forall_app, <-holds_and_iff, session_rows_iff. sql_cases. tauto. Qed.
Lemma derived_live_iff t ps r : derived_live t ps r = true
  ↔ of_tenant t r ∧ live r ∧ ∃ p, parent_memory_id r = Some p ∧ p ∈ ps.
Proof. unfold derived_live, live. rewrite holds_and_iff, Forall_app, <-holds_and_iff, derived_rows_iff. sql_cases. tauto. Qed.
Lemma restorable_iff t s ids cs rows r : restorable t s ids cs rows r = true
  ↔ of_tenant t r ∧ q_deleted_at (r_mem r) = None ∧ q_status (r_mem r) ∈ CONTRADICTED_STATUSES ∧
    held_down t ids cs rows (row_id r) = true ∧ row_id r ∉ ids ∧ session_id_of r ≠ Some s ∧
    standing t (row_id r) rows = false ∧ standing_winner t (row_id r) cs rows = false.
Proof.
  unfold restorable, of_tenant. sql_cases. rewrite !holds_Some, !negb_true_iff, !bool_decide_eq_false. tauto.
Qed.
Lemma and_app l l' : holds (and_ (l ++ l')) = true ↔ holds (and_ l) = true ∧ holds (and_ l') = true.
Proof. by rewrite !holds_and_iff, Forall_app. Qed.
Lemma and_one p : holds (and_ [p]) = true ↔ holds p = true.
Proof. rewrite holds_and_iff, Forall_singleton. done. Qed.
Lemma on_row_iff t i r : holds (and_ (on_row t i r)) = true ↔ row_id r = i ∧ of_tenant t r.
Proof. unfold on_row, of_tenant. sql_cases. tauto. Qed.

Lemma lookup_update c v rows k : sql_update c v rows !! k = (λ r, if c r then v r else r) <$> rows !! k.
Proof. apply list_lookup_fmap. Qed.
Lemma elem_matching c rows r : r ∈ matching c rows ↔ c r = true ∧ r ∈ rows.
Proof. unfold matching. by rewrite list_elem_of_filter. Qed.
Lemma elem_ids c rows i : i ∈ row_id <$> matching c rows ↔ ∃ r, row_id r = i ∧ c r = true ∧ r ∈ rows.
Proof. rewrite list_elem_of_fmap. setoid_rewrite elem_matching. naive_solver. Qed.

(** The id is a key. *)
Lemma same_row rows r r' : NoDup (row_id <$> rows) → r ∈ rows → r' ∈ rows → row_id r = row_id r' → r = r'.
Proof.
  intros Hnd [x Hx]%list_elem_of_lookup [y Hy]%list_elem_of_lookup E.
  assert (x = y) as ->; [|congruence].
  eapply NoDup_lookup; [done|rewrite list_lookup_fmap, Hx; reflexivity|rewrite list_lookup_fmap, Hy; cbn; by rewrite E].
Qed.
Lemma ids_matching c rows r : NoDup (row_id <$> rows) → r ∈ rows → row_id r ∈ row_id <$> matching c rows ↔ c r = true.
Proof.
  intros Hnd Hr. rewrite elem_ids. split; [|by exists r].
  intros (r' & E & Hc & Hr'). by rewrite (same_row rows r r').
Qed.
Lemma update_ids c v rows : (∀ r, row_id (v r) = row_id r) → row_id <$> sql_update c v rows = row_id <$> rows.
Proof. intros Hv. unfold sql_update. rewrite <-list_fmap_compose. apply list_fmap_ext. intros k r _. cbn. destruct (c r); auto. Qed.

(** The passes of a rollback. *)
Lemma rollback_stages fuel t s now db rb db' : memory_rollback_session fuel t s now db = Some (rb, db') →
  ∃ first derived rows2 restored rows3 cancelled chunks rows5,
    first = row_id <$> matching (session_live t s) (db_rows db) ∧
    outdate_derived fuel t first now (sql_update (session_live t s) (set_status "outdated" now) (db_rows db)) = Some (derived, rows2) ∧
    restore_pass t s (first ++ derived) (db_conflicts db) now rows2 = (restored, rows3) ∧
    cancelled = row_id <$> matching (session_held t s) rows3 ∧
    reject_chunks t cancelled now (sql_update (session_held t s) (set_status_deleted QUARANTINE_REJECTED now) rows3) = (chunks, rows5) ∧
    rb = Rollback (first ++ derived) restored (cancelled ++ chunks) ∧ db' = LifeDb rows5 (db_docs db) (db_conflicts db).
Proof.
  unfold memory_rollback_session. unfold move at 1. intros H.
  destruct (outdate_derived _ _ _ _ _) as [[derived rows2]|] eqn:E; [|done]. cbn [mbind option_bind] in H.
  destruct (restore_pass _ _ _ _ _ _) as [restored rows3] eqn:E3. unfold move in H.
  destruct (reject_chunks _ _ _ _) as [chunks rows5] eqn:E5. injection H as <- <-. eauto 20.
Qed.

(** ** A table to try things on *)

Definition life_sample (i status : string) (meta : list (string * string)) (old : option string) : life_row :=
  LifeRow (StoredMemory i "acme" (Some "north") "scout" "fact" "scope_team" status None (Some 0) None (Some "run-1") None
             (Some "deploy notes") "unverified" true None (Some 50) 0 old None)
    "text" (Some "h") None None None (list_to_map meta) ∅ None None None None None None.
Definition life_samples : life_db :=
  LifeDb [life_sample "plan" "active" [("session_id", "s1")] (Some "notes");
          life_sample "notes" "outdated" [] None;
          life_sample "part" "active" [("parent_memory_id", "plan")] None;
          life_sample "draft" "quarantined" [("session_id", "s1")] None;
          life_sample "chunk" "quarantined" [("parent_memory_id", "draft")] None;
          life_sample "other" "confirmed" [("session_id", "s2")] None]
    [IngestDocument "acme" "ingest-sources" "run-1" (Some "summary") true 0] [].
