(* ===== verification/RowHold.v ===== *)
(** * A held memory waits for its decision

    Storage's statements on memory rows ([RowLife]) as one alphabet of operations, each a transaction,
    and what any sequence of them leaves of a row held for review: it stays held, its text and
    metadata as written, until an operation releases or rejects it or the write it was cut from,
    or rolls back the session either was written in. The invariant the proof rests on: ids are
    unique, and a held chunk's write is held too and was itself not cut from another. *)

From Stdlib Require Import Floats.SpecFloat.
From S2P Require Import Prelude PyStr MemoryAccess Contradiction ReadScope ListScope RowLife.

#[local] Open Scope string_scope.
#[local] Open Scope list_scope.
#[local] Open Scope Z_scope.

Inductive row_op : Type :=
| UpdateStatus (memory_id status tenant_id : string) (supersedes_id : option string) (unset_supersedes : bool)
    (expected_supersedes_id : option string) (release_hold : bool)
| SetSupersedes (memory_id supersedes_id tenant_id : string)
| RollbackSession (tenant_id session_id : string)
| DeleteByFilter (tenant_id : string) (a : delete_args)
| DeleteByIds (tenant_id : string) (ids : list string) (with_derived : bool)
| DeleteByRun (tenant_id run_id source : string)
| Drop (tenant_id memory_id : string)
| Redistribute (tenant_id : string) (memory_ids : list string) (target_agent_id : string)
| ArchiveExpired (tenant_id : string) (fleet_id : option string) (batch_size : Z)
| ArchiveStale (tenant_id : string) (fleet_id : option string) (stale_days : Z) (max_weight : spec_float) (batch_size : Z)
| SupersedePriors (tenant_id agent_id focus scope : string) (fleet_id : option string)
| RestorePriors (tenant_id : string) (prior_ids : list string).

Definition on_rows (f : list life_row → list life_row) (db : life_db) : life_db :=
  LifeDb (f (db_rows db)) (db_docs db) (db_conflicts db).

Section Ops.
Context {lower : SqlLower} {scan_order : ScanOrder}.

(** One operation at a time of the clock. One that raises, or never ends, changes nothing. *)
Definition run_op (now : Z) (op : row_op) (db : life_db) : life_db :=
  match op with
  | UpdateStatus i st t s u e rel =>
      match memory_update_status i st t s u e rel now (db_rows db) with
      | Ok (_, rows) => on_rows (λ _, rows) db
      | Err _ => db
      end
  | SetSupersedes i s t => on_rows (λ rows, (memory_set_supersedes_if_null i s t rows).2) db
  | RollbackSession t s =>
      match memory_rollback_session (S (length (db_rows db))) t s now db with Some (_, db') => db' | None => db end
  | DeleteByFilter t a => (memory_soft_delete_by_filter t a now db).2
  | DeleteByIds t ids w => (memory_soft_delete_by_ids t ids w now db).2
  | DeleteByRun t r s => (memory_soft_delete_by_run t r s now db).2
  | Drop t i => (memory_drop t i now db).2
  | Redistribute t ids a => on_rows (λ rows, (memory_redistribute t ids a rows).2) db
  | ArchiveExpired t f n => on_rows (λ rows, (memory_archive_expired t f n now rows).2) db
  | ArchiveStale t f d w n => on_rows (λ rows, (memory_archive_stale t f d w n now rows).2) db
  | SupersedePriors t a f s fl => on_rows (λ rows, (insights_supersede_priors t a f s fl now rows).2) db
  | RestorePriors t ids => on_rows (λ rows, (insights_restore_priors t ids now rows).2) db
  end.
Fixpoint run_ops (ops : list (Z * row_op)) (db : life_db) : life_db :=
  match ops with [] => db | (now, op) :: ops => run_ops ops (run_op now op db) end.

(** The operation decides the row: a release or reject of it or of the write it was cut from, or
    a rollback of the session of either. *)
Definition decides (op : row_op) (db : life_db) (r : life_row) : Prop :=
  match op with
  | UpdateStatus i _ t _ _ _ true => of_tenant t r ∧ (row_id r = i ∨ parent_memory_id r = Some i)
  | RollbackSession t s =>
      of_tenant t r ∧
      (session_id_of r = Some s ∨
       ∃ p, p ∈ db_rows db ∧ of_tenant t p ∧ held p ∧ session_id_of p = Some s ∧ parent_memory_id r = Some (row_id p))
  | _ => False
  end.

(** No operation of the sequence decides the row at a position of the table. *)
Fixpoint undecided (k : nat) (ops : list (Z * row_op)) (db : life_db) : Prop :=
  match ops with
  | [] => True
  | (now, op) :: ops =>
      (∀ r, db_rows db !! k = Some r → ¬ decides op db r) ∧ undecided k ops (run_op now op db)
  end.

Record well_held (rows : list life_row) : Prop := WellHeld {
  held_key : NoDup (row_id <$> rows);
  held_with_parent : ∀ r p, r ∈ rows → p ∈ rows → held r → parent_memory_id r = Some (row_id p) →
    q_tenant_id (r_mem p) = q_tenant_id (r_mem r) → held p ∧ parent_memory_id p = None
}.

(** ** How a row may change *)

(** The row it was, where it matters to a hold. *)
Definition same_write (r r' : life_row) : Prop :=
  r_metadata r' = r_metadata r ∧ r_content r' = r_content r.
Record evolves (D : life_row → Prop) (r r' : life_row) : Prop := Evolves {
  ev_id : row_id r' = row_id r;
  ev_tenant : q_tenant_id (r_mem r') = q_tenant_id (r_mem r);
  ev_new : held r' → held r;
  ev_same : held r → held r' → same_write r r';
  ev_stays : held r → held r' ∨ D r
}.
Definition nobody (_ : life_row) : Prop := False.

(** What a decision looks at is what a held row keeps. *)
Definition kept_by_hold (D : life_row → Prop) : Prop :=
  ∀ r r', row_id r' = row_id r → q_tenant_id (r_mem r') = q_tenant_id (r_mem r) → same_write r r' → D r' → D r.

Lemma evolves_refl D r : evolves D r r.
Proof. by split; auto. Qed.
Lemma evolves_trans D r1 r2 r3 : kept_by_hold D → evolves D r1 r2 → evolves D r2 r3 → evolves D r1 r3.
Proof.
  intros HD [i1 t1 n1 s1 k1] [i2 t2 n2 s2 k2]. split; [congruence|congruence|auto| |].
  - intros H H3. destruct (s1 H (n2 H3)), (s2 (n2 H3) H3). split; congruence.
  - intros H. destruct (k1 H) as [H2|]; [|by right]. destruct (k2 H2) as [|Hd]; [by left|].
    right. eapply HD; eauto.
Qed.
Lemma evolves_weaken (D D' : life_row → Prop) r r' : (∀ x, D x → D' x) → evolves D r r' → evolves D' r r'.
Proof. intros HD [i t n s k]. split; [done..|]. intros H. destruct (k H); auto. Qed.

(** A row that no decision concerns, one that keeps what the hold needs, one decided. *)
Lemma evolves_unheld D r r' :
  row_id r' = row_id r → q_tenant_id (r_mem r') = q_tenant_id (r_mem r) → ¬ held r → ¬ held r' → evolves D r r'.
Proof. intros Hi Ht Hn Hn'. split; [done|done|intros H; by destruct (Hn' H)|intros H; by destruct (Hn H)|intros H; by destruct (Hn H)]. Qed.
Lemma evolves_decided (D : life_row → Prop) r r' :
  row_id r' = row_id r → q_tenant_id (r_mem r') = q_tenant_id (r_mem r) → ¬ held r' → D r → evolves D r r'.
Proof. intros Hi Ht Hn Hd. split; [done|done|intros H; by destruct (Hn H)|intros _ H; by destruct (Hn H)|by right]. Qed.
Lemma evolves_quiet D r r' :
  row_id r' = row_id r → q_tenant_id (r_mem r') = q_tenant_id (r_mem r) → q_status (r_mem r') = q_status (r_mem r) →
  q_deleted_at (r_mem r') = q_deleted_at (r_mem r) → same_write r r' → evolves D r r'.
Proof.
  intros Hi Ht Hs Hd Hw.
  assert (held r' ↔ held r) as E by (unfold held; by rewrite Hs, Hd). split; [done|done|by apply E|done|left; by apply E].
Qed.

Lemma update_evolves D c v rows :
  (∀ r, r ∈ rows → c r = true → evolves D r (v r)) → Forall2 (evolves D) rows (sql_update c v rows).
Proof.
  intros Hv. apply Forall2_fmap_r, Forall_Forall2_diag, Forall_forall. intros r Hr. cbn.
  destruct (c r) eqn:E; [auto|apply evolves_refl].
Qed.
Lemma table_refl D rows : Forall2 (evolves D) rows rows.
Proof. apply Forall_Forall2_diag, Forall_true. intros. apply evolves_refl. Qed.
Lemma table_trans D rows1 rows2 rows3 : kept_by_hold D →
  Forall2 (evolves D) rows1 rows2 → Forall2 (evolves D) rows2 rows3 → Forall2 (evolves D) rows1 rows3.
Proof. intros HD. apply Forall2_trans. intros x y z. by apply evolves_trans. Qed.
Lemma table_weaken (D D' : life_row → Prop) rows rows' : (∀ x, D x → D' x) →
  Forall2 (evolves D) rows rows' → Forall2 (evolves D') rows rows'.
Proof. intros HD H. eapply Forall2_impl; [exact H|]. intros x y. by apply evolves_weaken. Qed.
Lemma table_ids D rows rows' : Forall2 (evolves D) rows rows' → row_id <$> rows' = row_id <$> rows.
Proof. induction 1 as [|r r' ?? []]; cbn; [done|]. by f_equal. Qed.
Lemma nobody_kept : kept_by_hold nobody.
Proof. by intros r r' _ _ _ []. Qed.

(** The rows of a table and of what it became, position by position. *)
Lemma table_lookup D rows rows' k r' : Forall2 (evolves D) rows rows' → rows' !! k = Some r' →
  ∃ r, rows !! k = Some r ∧ evolves D r r'.
Proof. intros H Hk. eapply Forall2_lookup_r in H as (r & ? & ?); eauto. Qed.
Lemma table_elem D rows rows' r' : Forall2 (evolves D) rows rows' → r' ∈ rows' → ∃ r, r ∈ rows ∧ evolves D r r'.
Proof.
  intros H [k Hk]%list_elem_of_lookup. destruct (table_lookup _ _ _ _ _ H Hk) as (r & Hr & ?).
  exists r. split; [by eapply list_elem_of_lookup_2|done].
Qed.

Lemma not_held_status s now r : s ≠ QUARANTINED_MEMORY_STATUS → ¬ held (set_status s now r).
Proof. by intros Hs [? _]. Qed.
Lemma not_held_deleted s now r : ¬ held (set_status_deleted s now r).
Proof. by intros [_ ?]. Qed.

(** ** Each operation *)

Lemma not_held_exit b s now r : s ≠ QUARANTINED_MEMORY_STATUS → ¬ held (exit_values b s now r).
Proof. intros Hs. destruct b; [apply not_held_deleted|by apply not_held_status]. Qed.
Lemma not_held_status_values b u p s now r : s ≠ QUARANTINED_MEMORY_STATUS → ¬ held (status_values b u p s now r).
Proof. intros Hs [H _]. apply Hs. revert H. by destruct b, u, p. Qed.
Lemma exit_key b s now r : row_id (exit_values b s now r) = row_id r ∧ q_tenant_id (r_mem (exit_values b s now r)) = q_tenant_id (r_mem r).
Proof. by destruct b. Qed.
Lemma status_values_key b u p s now r :
  row_id (status_values b u p s now r) = row_id r ∧ q_tenant_id (r_mem (status_values b u p s now r)) = q_tenant_id (r_mem r).
Proof. by destruct b, u, p. Qed.

Lemma updatable_iff t i e rel r : updatable t i e rel r = true
  ↔ row_id r = i ∧ of_tenant t r ∧ q_deleted_at (r_mem r) = None ∧
    (if rel then q_status (r_mem r) = QUARANTINED_MEMORY_STATUS else q_status (r_mem r) ≠ QUARANTINED_MEMORY_STATUS) ∧
    match e with Some x => q_supersedes_id (r_mem r) = Some x | None => True end.
Proof.
  unfold updatable. rewrite and_app, on_row_iff, and_app. destruct rel, e as [x|]; cbn [where_given app]; sql_cases; tauto.
Qed.

Definition released (t i : string) (rel : bool) (r : life_row) : Prop :=
  rel = true ∧ of_tenant t r ∧ (row_id r = i ∨ parent_memory_id r = Some i).
Lemma released_kept t i rel : kept_by_hold (released t i rel).
Proof. intros r r' Hi Ht [Hm _]. unfold released, of_tenant, parent_memory_id. by rewrite Hi, Ht, Hm. Qed.

Lemma update_status_evolves i st t s u e rel now rows b rows' :
  memory_update_status i st t s u e rel now rows = Ok (b, rows') → Forall2 (evolves (released t i rel)) rows rows'.
Proof.
  unfold memory_update_status. intros H.
  apply bind_ok in H as (? & Hq%raise_if_ok%bool_decide_eq_false & H).
  apply bind_ok in H as (? & _ & H). apply bind_ok in H as (? & _ & H). injection H as <- <-.
  assert (∀ rj, Forall2 (evolves (released t i rel)) rows
    (sql_update (updatable t i e rel) (status_values rj u s st now) rows)) as H1.
  { intros rj. apply update_evolves. intros r _ Hr. apply updatable_iff in Hr as (Hi & Ht & Hd & Hs & _).
    destruct (status_values_key rj u s st now r), rel.
    - apply evolves_decided; [done..|by apply not_held_status_values|]. split; [done|]. split; [done|by left].
    - apply evolves_unheld; [done..| |by apply not_held_status_values]. by intros [Hh _]. }
  destruct (existsb _ _ && rel) eqn:Em; [|done]. apply andb_true_iff in Em as [_ ->].
  eapply table_trans; [apply released_kept|done|]. apply update_evolves.
  intros r _ (Ht & Hh & p & Hp & ->%list_elem_of_singleton)%held_chunk_iff.
  destruct (exit_key (true && bool_decide (st = QUARANTINE_REJECTED)) st now r).
  apply evolves_decided; [done..|by apply not_held_exit|]. split; [done|]. split; [done|by right].
Qed.

#[export] Instance held_dec r : Decision (held r).
Proof. unfold held. apply _. Defined.

Lemma set_supersedes_evolves i s t rows : Forall2 (evolves nobody) rows (memory_set_supersedes_if_null i s t rows).2.
Proof. apply update_evolves. intros r _ _. by apply evolves_quiet. Qed.

(** An update that leaves the hold of every row it takes: the held ones it takes were decided. *)
Lemma leaving_evolves (D : life_row → Prop) c v rows :
  (∀ r, row_id (v r) = row_id r ∧ q_tenant_id (r_mem (v r)) = q_tenant_id (r_mem r) ∧ ¬ held (v r)) →
  (∀ r, r ∈ rows → c r = true → held r → D r) → Forall2 (evolves D) rows (sql_update c v rows).
Proof.
  intros Hv Hd. apply update_evolves. intros r Hr Hc. destruct (Hv r) as (? & ? & ?).
  destruct (decide (held r)) as [Hh|Hh]; [apply evolves_decided|apply evolves_unheld]; auto.
Qed.
Lemma exit_leaves b s now r : s ≠ QUARANTINED_MEMORY_STATUS →
  row_id (exit_values b s now r) = row_id r ∧ q_tenant_id (r_mem (exit_values b s now r)) = q_tenant_id (r_mem r) ∧
  ¬ held (exit_values b s now r).
Proof. intros Hs. destruct (exit_key b s now r). split; [done|]. split; [done|by apply not_held_exit]. Qed.

Lemma soft_delete_evolves t cond ex w now db : well_held (db_rows db) →
  Forall2 (evolves nobody) (db_rows db) (db_rows (_soft_delete t cond ex w now db).2).
Proof.
  intros [Hnd Hp]. unfold _soft_delete. cbn [db_rows snd]. eapply table_trans; [apply nobody_kept|apply leaving_evolves..].
  - intros r. by apply (exit_leaves true).
  - intros r Hr [_ Hc]%andb_true_iff Hh. unfold children_of in Hc. rewrite and_app, derived_rows_iff in Hc.
    destruct Hc as [(Ht & _ & i & Hi & (x & <- & Hx & Hin)%elem_ids) _].
    unfold selected in Hx. sql_cases. destruct Hx as [(Ht' & _ & Hx & _) _].
    destruct (Hp r x) as [[Hq _] _]; [done..|congruence|]. by apply Hx.
  - intros r. by apply (exit_leaves true).
  - intros r _ Hc [Hq _]. unfold selected in Hc. sql_cases. tauto.
Qed.

Lemma drop_evolves t i now db : well_held (db_rows db) →
  Forall2 (evolves nobody) (db_rows db) (db_rows (memory_drop t i now db).2).
Proof.
  intros [Hnd _]. unfold memory_drop. destruct (find _ _) as [x|] eqn:E; [|apply table_refl]. cbn -[sql_update].
  apply find_some in E as [Hx%list_elem_of_In Hc]. rewrite and_app, on_row_iff, and_one in Hc. destruct Hc as [[Hi Ht] Hq].
  apply leaving_evolves; [by intros r; split; [|split; [|intros [_ ?]]]|].
  intros r Hr [Hi' _]%on_row_iff [Hq' _]. assert (r = x) as -> by (apply (same_row _ _ _ Hnd); congruence).
  apply holds_not_held in Hq. by apply Hq.
Qed.

Lemma redistribute_evolves t ids a rows : Forall2 (evolves nobody) rows (memory_redistribute t ids a rows).2.
Proof. apply update_evolves. intros r _ _. by apply evolves_quiet. Qed.

Lemma sweep_evolves cond v n rows : NoDup (row_id <$> rows) →
  (∀ r, row_id (v r) = row_id r ∧ q_tenant_id (r_mem (v r)) = q_tenant_id (r_mem r) ∧ ¬ held (v r)) →
  (∀ r, cond r = true → ¬ held r) → Forall2 (evolves nobody) rows (sweep cond v n rows).2.
Proof.
  intros Hnd Hv Hc. apply leaving_evolves; [done|]. intros r Hr Hin%bool_decide_eq_true Hh.
  apply list_elem_of_fmap in Hin as (x & Hi & Hx). apply elem_of_take in Hx as (k & Hk & _).
  rewrite lookup_drop in Hk. apply list_elem_of_lookup_2, elem_matching in Hk as [Hcx Hx]. rewrite scan_perm in Hx.
  rewrite (same_row rows r x) in Hh by done. by apply (Hc x).
Qed.

Lemma live_not_held r : q_status (r_mem r) ∈ LIVE_MEMORY_STATUSES → ¬ held r.
Proof. intros Hl [Hq _]. rewrite Hq in Hl. set_solver. Qed.


Lemma outdating_evolves c now rows : (∀ r, c r = true → live r) →
  Forall2 (evolves nobody) rows (sql_update c (set_status "outdated" now) rows).
Proof.
  intros Hc. apply leaving_evolves; [intros r; by apply (exit_leaves false)|].
  intros r _ [Hl _]%Hc Hh. by apply live_not_held in Hl.
Qed.
Lemma outdate_derived_evolves fuel t ps now rows ids rows' :
  outdate_derived fuel t ps now rows = Some (ids, rows') → Forall2 (evolves nobody) rows rows'.
Proof.
  revert ps rows ids rows'. induction fuel as [|fuel IH]; intros [|p ps] rows ids rows' H; cbn -[move derived_live] in H; simplify_eq;
    try apply table_refl.
  destruct (move _ _ _ _ _) as [taken rows1] eqn:E. destruct (outdate_derived _ _ _ _ _) as [[further rows2]|] eqn:F; [|done].
  injection H as <- <-. eapply table_trans; [apply nobody_kept| |by eapply IH].
  injection E as _ <-. apply outdating_evolves. by intros r (_ & ? & _)%derived_live_iff.
Qed.

Lemma decides_kept op db : kept_by_hold (decides op db).
Proof.
  intros r r' Hi Ht [Hm _]. destruct op as [????? ? []| | | | | | | | | | |]; try done; cbn; unfold of_tenant, session_id_of, parent_memory_id;
    by rewrite ?Hi, Ht, Hm.
Qed.

(** Until it rejects, a rollback touches no held row. *)
Lemma undoing_evolves fuel t s first now rows derived rows2 cs restored rows3 :
  outdate_derived fuel t first now (sql_update (session_live t s) (set_status "outdated" now) rows) = Some (derived, rows2) →
  restore_pass t s (first ++ derived) cs now rows2 = (restored, rows3) → Forall2 (evolves nobody) rows rows3.
Proof.
  intros E E3. eapply table_trans; [apply nobody_kept| |eapply table_trans; [apply nobody_kept|by eapply outdate_derived_evolves|]].
  - apply outdating_evolves. by intros r (_ & ? & _)%session_live_iff.
  - unfold restore_pass, move in E3. destruct (_ ++ derived); injection E3 as _ <-; [apply table_refl|].
    apply leaving_evolves; [intros r; by apply (exit_leaves false)|].
    intros r _ (_ & _ & Hc & _)%restorable_iff [Hq _]. rewrite Hq in Hc. set_solver.
Qed.

Lemma rollback_evolves fuel t s now db rb db' : memory_rollback_session fuel t s now db = Some (rb, db') →
  Forall2 (evolves (decides (RollbackSession t s) db)) (db_rows db) (db_rows db').
Proof.
  intros (first & derived & rows2 & restored & rows3 & cancelled & chunks & rows5 & -> & E & E3 & -> & E5 & -> & ->)%rollback_stages.
  set (D := decides _ db).
  pose proof (undoing_evolves _ _ _ _ _ _ _ _ _ _ _ E E3) as H3.
  assert (kept_by_hold D) as HD by apply decides_kept.
  assert (∀ rows c, (∀ r, c r = true → D r) →
    Forall2 (evolves D) rows (sql_update c (set_status_deleted QUARANTINE_REJECTED now) rows)) as Hrej.
  { intros rows c Hc. apply leaving_evolves; [intros r; by apply (exit_leaves true)|auto]. }
  cbn [db_rows]. eapply table_trans; [done|by eapply table_weaken, H3|].
  eapply table_trans; [done|apply (Hrej rows3 (session_held t s))|].
  { intros r (Ht & _ & Hs)%session_held_iff. split; [done|by left]. }
  unfold reject_chunks, move in E5.
  destruct (row_id <$> matching (session_held t s) rows3) as [|c cs] eqn:Ec; injection E5 as _ <-; [apply table_refl|].
  rewrite <-Ec. apply Hrej. intros r (Ht & _ & p & Hp & (x & <- & Hx & Hin)%elem_ids)%held_chunk_iff.
  apply session_held_iff in Hx as (Htx & Hhx & Hsx). destruct (table_elem _ _ _ _ H3 Hin) as (x0 & Hx0 & [i0 t0 n0 s0 _]).
  destruct (s0 (n0 Hhx) Hhx) as [Hm _]. split; [done|]. right. exists x0. unfold session_id_of in *. rewrite <-Hm, <-i0.
  split; [done|]. split; [by unfold of_tenant in *; rewrite <-t0|]. eauto.
Qed.

Lemma run_op_evolves now op db : well_held (db_rows db) → Forall2 (evolves (decides op db)) (db_rows db) (db_rows (run_op now op db)).
Proof.
  intros Hw. destruct op; cbn [run_op].
  - destruct (memory_update_status _ _ _ _ _ _ _ _ _) as [[b rows']|] eqn:E; [|apply table_refl].
    eapply table_weaken, update_status_evolves, E. intros x (-> & ? & ?). done.
  - apply set_supersedes_evolves.
  - destruct (memory_rollback_session _ _ _ _ _) as [[rb db']|] eqn:E; [|apply table_refl]. by eapply rollback_evolves.
  - by apply soft_delete_evolves.
  - unfold memory_soft_delete_by_ids. destruct ids; [apply table_refl|by apply soft_delete_evolves].
  - by apply soft_delete_evolves.
  - by apply drop_evolves.
  - apply redistribute_evolves.
  - apply sweep_evolves; [apply Hw|by intros r; split; [|split; [|intros [? _]]]|].
    intros r Hr. unfold expired, _EXPIRED_LIVE_ROWS in Hr. sql_cases. apply live_not_held. tauto.
  - apply sweep_evolves; [apply Hw|intros r; by apply (exit_leaves false)|].
    intros r Hr [Hq _]. unfold stale in Hr. sql_cases.
    assert (q_status (r_mem r) = "active") as Ha by tauto. by rewrite Hq in Ha.
  - apply leaving_evolves; [intros r; by apply (exit_leaves false)|].
    intros r _ Hr [Hq _]. unfold prior_insight in Hr. sql_cases. rewrite Hq in Hr. set_solver.
  - unfold insights_restore_priors. destruct prior_ids; [apply table_refl|].
    apply leaving_evolves; [intros r; by apply (exit_leaves false)|].
    intros r _ Hr [Hq _]. sql_cases.
    assert (q_status (r_mem r) = "outdated") as Ha by tauto. by rewrite Hq in Ha.
Qed.

(** ** The invariant *)

Lemma release_takes_chunks i st t s u e now rows b rows' k j r x r' x' :
  memory_update_status i st t s u e true now rows = Ok (b, rows') →
  rows !! k = Some r → rows !! j = Some x → held r → held x → of_tenant t r → row_id x = i → parent_memory_id r = Some i →
  rows' !! j = Some x' → ¬ held x' → rows' !! k = Some r' → ¬ held r'.
Proof.
  unfold memory_update_status. intros H Hk Hj Hr Hx Ht Hi Hp Hj' Hx' Hk'.
  apply bind_ok in H as (? & Hq%raise_if_ok%bool_decide_eq_false & H).
  apply bind_ok in H as (? & _ & H). apply bind_ok in H as (? & _ & H). injection H as _ <-. rewrite andb_true_r in *.
  set (rj := bool_decide (st = QUARANTINE_REJECTED)) in *. destruct (existsb _ _) eqn:Em; rewrite !lookup_update in *.
  - rewrite Hk in Hk'. injection Hk' as <-. destruct (updatable t i e true r) eqn:Eu.
    + pose proof (not_held_status_values rj u s st now r Hq) as Hn. destruct (held_chunk t [i] _); [by apply not_held_exit|done].
    + assert (held_chunk t [i] r = true) as ->; [|by apply not_held_exit].
      apply held_chunk_iff. split; [done|]. split; [done|]. exists i. split; [done|by apply list_elem_of_singleton].
  - rewrite Hj in Hj'. injection Hj' as <-. destruct (updatable t i e true x) eqn:Eu; [|done].
    exfalso. apply not_true_iff_false in Em. apply Em, existsb_exists. exists x.
    split; [|done]. by eapply list_elem_of_In, list_elem_of_lookup_2.
Qed.

Lemma rollback_takes_chunks fuel t s now db rb db' k j r x r' :
  memory_rollback_session fuel t s now db = Some (rb, db') →
  db_rows db !! k = Some r → db_rows db !! j = Some x → held r → held x → of_tenant t r → of_tenant t x →
  session_id_of x = Some s → parent_memory_id r = Some (row_id x) →
  db_rows db' !! k = Some r' → ¬ held r'.
Proof.
  intros (first & derived & rows2 & restored & rows3 & cancelled & chunks & rows5 & -> & E & E3 & -> & E5 & -> & ->)%rollback_stages.
  intros Hk Hj Hr Hx Ht Htx Hs Hp Hk'. cbn [db_rows] in Hk'. pose proof (undoing_evolves _ _ _ _ _ _ _ _ _ _ _ E E3) as H3.
  destruct (Forall2_lookup_l _ _ _ _ _ H3 Hk) as (r3 & Hk3 & [ir tr _ sr kr]).
  destruct (Forall2_lookup_l _ _ _ _ _ H3 Hj) as (x3 & Hj3 & [ix tx _ sx kx]).
  destruct (kr Hr) as [Hr3|[]], (kx Hx) as [Hx3|[]], (sr Hr Hr3) as [mr _], (sx Hx Hx3) as [mx _].
  assert (row_id x ∈ row_id <$> matching (session_held t s) rows3) as Hc.
  { apply elem_ids. exists x3. split; [done|]. split; [|by eapply list_elem_of_lookup_2].
    apply session_held_iff. unfold of_tenant, session_id_of in *. by rewrite tx, mx. }
  unfold reject_chunks, move in E5. destruct (row_id <$> matching (session_held t s) rows3) as [|c cs] eqn:Ec.
  { by apply elem_of_nil in Hc. }
  injection E5 as _ <-. rewrite !lookup_update, Hk3 in Hk'. injection Hk' as <-.
  destruct (session_held t s r3).
  - destruct (held_chunk _ _ _); apply not_held_deleted.
  - assert (held_chunk t (c :: cs) r3 = true) as ->; [|apply not_held_deleted].
    apply held_chunk_iff. unfold of_tenant, parent_memory_id in *. rewrite tr, mr. eauto.
Qed.

Lemma run_op_well_held now op db : well_held (db_rows db) → well_held (db_rows (run_op now op db)).
Proof.
  intros Hw. pose proof (run_op_evolves now op db Hw) as He. pose proof Hw as [Hnd Hp].
  split; [by rewrite (table_ids _ _ _ He)|]. intros r' x' Hr' Hx' Hh' Hpar' Ht'.
  apply list_elem_of_lookup in Hr' as [k Hk'], Hx' as [j Hj'].
  destruct (table_lookup _ _ _ _ _ He Hk') as (r & Hk & [ir tr nr sr _]).
  destruct (table_lookup _ _ _ _ _ He Hj') as (x & Hj & [ix tx nx sx kx]).
  pose proof (nr Hh') as Hh. destruct (sr Hh Hh') as [mr _].
  assert (parent_memory_id r = Some (row_id x)) as Hpar by (unfold parent_memory_id in *; congruence).
  assert (q_tenant_id (r_mem x) = q_tenant_id (r_mem r)) as Ht by congruence.
  destruct (Hp r x) as [Hx Hroot]; [by eapply list_elem_of_lookup_2..|done|done|done|].
  assert (held x') as Hhx'; [|split; [done|]; destruct (sx Hx Hhx') as [mx _]; unfold parent_memory_id in *; by rewrite mx].
  destruct (kx Hx) as [|Hd]; [done|]. destruct (decide (held x')) as [|Hn]; [done|]. exfalso.
  destruct op; try done; cbn [run_op] in Hk', Hj'.
  - destruct release_hold; [|done]. destruct Hd as [Htx [Hi|Hi]]; [|congruence].
    destruct (memory_update_status _ _ _ _ _ _ _ _ _) as [[b rows']|] eqn:E; [|cbn in *; congruence].
    eapply (release_takes_chunks _ _ _ _ _ _ _ _ _ _ k j); [exact E|done..| |done|congruence|done|done|done|done].
    unfold of_tenant in *. congruence.
  - destruct Hd as [Htx Hd]. assert (session_id_of x = Some session_id) as Hs.
    { destruct Hd as [|(p & _ & _ & _ & _ & Hcontra)]; [done|congruence]. }
    destruct (memory_rollback_session _ _ _ _ _) as [[rb db']|] eqn:E; [|congruence].
    eapply (rollback_takes_chunks _ _ _ _ _ _ _ k j); [exact E|done..| | | | | |]; try done.
    unfold of_tenant in *. congruence.
Qed.

(** ** What the operations promise *)

Lemma run_ops_well_held ops db : well_held (db_rows db) → well_held (db_rows (run_ops ops db)).
Proof. revert db. induction ops as [|[now op] ops IH]; intros db Hw; [done|]. by apply IH, run_op_well_held. Qed.


(** Nothing moves a written memory into the hold: a row held after any operations was held before
    them, and is the same write. *)
Theorem held_when_written ops db k r' :
  well_held (db_rows db) → db_rows (run_ops ops db) !! k = Some r' → held r' →
  ∃ r, db_rows db !! k = Some r ∧ held r ∧ row_id r' = row_id r ∧ same_write r r'.
Proof.
  revert db. induction ops as [|[now op] ops IH]; intros db Hw Hk Hh; [exists r'; done|].
  destruct (IH (run_op now op db)) as (r1 & Hk1 & Hh1 & i1 & s1); [by apply run_op_well_held|done..|].
  destruct (table_lookup _ _ _ _ _ (run_op_evolves now op db Hw) Hk1) as (r & Hr & [i0 _ n0 s0 _]).
  exists r. pose proof (n0 Hh1). destruct (s0 (n0 Hh1) Hh1), s1. split; [done|]. split; [done|]. split; [congruence|split; congruence].
Qed.
End Ops.

Section Decision.
Context {lower : SqlLower} {text_search : TextSearch}.

(** No search scores the memory, loads it or offers it as a correction, and no list that leaves
    the deleted out shows it. *)
Definition unread (m : stored_memory) : Prop :=
  (∀ a, scored_row a m = false ∧ loaded_row a m = false ∧ successor_scope a m = false) ∧
  (∀ a, f_include_deleted a = false → listed_row a m = false).

Lemma deleted_unread m : q_deleted_at m ≠ None → unread m.
Proof.
  intros Hd. assert (∀ l, not_deleted m ∈ l → holds (and_ l) = false) as Hno.
  { intros l Hl. apply not_true_iff_false. rewrite holds_and_iff, Forall_forall. intros H. by apply Hd, holds_not_deleted, H. }
  split; [intros a; split; [|split]|intros a Ha]; apply Hno.
  - unfold _scored_search_row_filters. rewrite !fmap_app, !elem_of_app. left. cbn [fmap list_fmap snd]. set_solver.
  - rewrite !elem_of_app. left. set_solver.
  - rewrite !elem_of_app. left. set_solver.
  - unfold list_filters. rewrite Ha. cbn [negb where_if]. set_solver.
Qed.


End Decision.

(** ** Witnesses *)

#[local] Instance sample_lower : SqlLower := lower.
#[local] Instance sample_scan : ScanOrder := ScanOf (λ rows, rows) (λ rows, Permutation_refl rows).
#[local] Instance sample_text : TextSearch := λ _ _, Some true.

Lemma sample_well_held : well_held (db_rows life_samples).
Proof.
  assert (Forall (λ r, Forall (λ p, held r → parent_memory_id r = Some (row_id p) →
    q_tenant_id (r_mem p) = q_tenant_id (r_mem r) → held p ∧ parent_memory_id p = None) (db_rows life_samples)) (db_rows life_samples)) as H.
  { by_compute. }
  split; [by_compute|]. intros r p Hr Hp. rewrite Forall_forall in H. specialize (H r Hr). rewrite Forall_forall in H. by apply H.
Qed.

Definition busy_day : list (Z * row_op) :=
  [(100, DeleteByIds "acme" ["draft"; "chunk"; "plan"] true); (101, ArchiveExpired "acme" None 10);
   (102, UpdateStatus "draft" "outdated" "acme" None false None false); (103, Drop "acme" "chunk");
   (104, RollbackSession "acme" "s2"); (105, UpdateStatus "other" "active" "acme" None false None true)].


Lemma held_when_written_witness :
  (∃ r', db_rows (run_ops busy_day life_samples) !! 3%nat = Some r' ∧ held r' ∧
   ∃ r, db_rows life_samples !! 3%nat = Some r ∧ held r ∧ row_id r' = row_id r ∧ same_write r r').
Proof.
  eexists. split; [vm_compute; reflexivity|]. split; [by_compute|].
  apply (held_when_written busy_day life_samples 3); [exact sample_well_held|vm_compute; reflexivity|by_compute].
Defined.

