(* ===== verification/RowRollback.v ===== *)
(** * Rolling back a session

    What [memory_rollback_session] ([RowLife]) does to a table: its passes end within one more than
    the rows there are, each row is accounted for by the list its id is in, nothing the session
    wrote is left live or held, and a second rollback changes nothing. *)

From S2P Require Import Prelude PyStr MemoryAccess Contradiction ReadScope ListScope RowLife.

#[local] Open Scope string_scope.
#[local] Open Scope list_scope.
#[local] Open Scope Z_scope.

(** What a rollback makes of a row. *)
Inductive undone (t s : string) (now : Z) (db : life_db) (rb : rollback) (r : life_row) : life_row → Prop :=
| Undone_outdated :
    row_id r ∈ rb_outdated rb → of_tenant t r → live r →
    session_id_of r = Some s ∨ (∃ p, parent_memory_id r = Some p ∧ p ∈ rb_outdated rb) →
    undone t s now db rb r (set_status "outdated" now r)
| Undone_restored :
    row_id r ∈ rb_restored rb → row_id r ∉ rb_outdated rb → of_tenant t r → q_deleted_at (r_mem r) = None →
    q_status (r_mem r) ∈ CONTRADICTED_STATUSES → session_id_of r ≠ Some s →
    held_down t (rb_outdated rb) (db_conflicts db) (db_rows db) (row_id r) = true →
    (∀ x, x ∈ db_rows db → of_tenant t x → live x → q_supersedes_id (r_mem x) = Some (row_id r) → row_id x ∈ rb_outdated rb) →
    (∀ c x, c ∈ db_conflicts db → x ∈ db_rows db → k_tenant_id c = t → k_old_memory_id c = row_id r →
      k_new_memory_id c = row_id x → live x → row_id x ∈ rb_outdated rb) →
    undone t s now db rb r (set_status "active" now r)
| Undone_cancelled :
    row_id r ∈ rb_cancelled rb → of_tenant t r → held r →
    session_id_of r = Some s ∨ (∃ p, parent_memory_id r = Some p ∧ p ∈ rb_cancelled rb) →
    undone t s now db rb r (set_status_deleted QUARANTINE_REJECTED now r)
| Undone_kept :
    row_id r ∉ rb_outdated rb → row_id r ∉ rb_restored rb → row_id r ∉ rb_cancelled rb → undone t s now db rb r r.

(** ** Updates by id *)

(** [UPDATE ... WHERE id IN ids] *)
Definition update_in (ids : list string) (v : life_row → life_row) : list life_row → list life_row :=
  sql_update (λ r, bool_decide (row_id r ∈ ids)) v.

Lemma update_by_ids c v rows : NoDup (row_id <$> rows) →
  sql_update c v rows = update_in (row_id <$> matching c rows) v rows.
Proof.
  intros Hnd. unfold update_in, sql_update. apply list_fmap_ext. intros k r Hk. apply list_elem_of_lookup_2 in Hk.
  destruct (c r) eqn:E; case_bool_decide as H; try done.
  - destruct H. by apply ids_matching.
  - apply ids_matching in H; [congruence|done..].
Qed.
Lemma update_in_ids ids v rows : (∀ r, row_id (v r) = row_id r) → row_id <$> update_in ids v rows = row_id <$> rows.
Proof. apply update_ids. Qed.
Lemma lookup_update_in ids v rows k r : rows !! k = Some r →
  update_in ids v rows !! k = Some (if bool_decide (row_id r ∈ ids) then v r else r).
Proof. intros Hk. unfold update_in. by rewrite lookup_update, Hk. Qed.
Lemma elem_update_in ids v rows r' : r' ∈ update_in ids v rows →
  ∃ r, r ∈ rows ∧ r' = if bool_decide (row_id r ∈ ids) then v r else r.
Proof. intros (r & -> & Hr)%list_elem_of_fmap. by exists r. Qed.
Lemma elem_update_out ids v rows r : r ∈ rows → row_id r ∉ ids → r ∈ update_in ids v rows.
Proof. intros Hr Hn. apply list_elem_of_fmap. exists r. by rewrite bool_decide_false. Qed.
Lemma update_in_nil v rows : update_in [] v rows = rows.
Proof.
  unfold update_in, sql_update. rewrite <-(list_fmap_id rows) at 2. apply list_fmap_ext. intros k r _.
  rewrite bool_decide_false; [done|apply not_elem_of_nil].
Qed.
Lemma update_in_app ids ids' now s rows :
  update_in ids' (set_status s now) (update_in ids (set_status s now) rows) = update_in (ids ++ ids') (set_status s now) rows.
Proof.
  unfold update_in, sql_update. rewrite <-list_fmap_compose. apply list_fmap_ext. intros k r _. cbn.
  repeat case_bool_decide; set_unfold; try tauto; by destruct r.
Qed.

Definition outdate (ids : list string) (now : Z) : list life_row → list life_row := update_in ids (set_status "outdated" now).

Lemma not_live_outdated now r : ¬ live (set_status "outdated" now r).
Proof. intros [Hl _]. cbn in Hl. set_solver. Qed.

(** ** The derived rows *)

Definition live_row (r : life_row) : bool := holds (and_ [live_status r; not_deleted (r_mem r)]).
Lemma live_row_iff r : live_row r = true ↔ live r.
Proof. unfold live_row, live. sql_cases. tauto. Qed.

Lemma live_count c now rows : (∀ r, c r = true → live r) →
  (length (matching live_row (sql_update c (set_status "outdated" now) rows)) + length (matching c rows)
   = length (matching live_row rows))%nat.
Proof.
  intros Hc. induction rows as [|r rows IH]; [done|]. unfold sql_update, matching in *. cbn [fmap list_fmap].
  rewrite !filter_cons. destruct (c r) eqn:E.
  - pose proof (proj2 (live_row_iff r) (Hc r E)) as Hl.
    assert (live_row (set_status "outdated" now r) ≠ true) as Hn by (rewrite live_row_iff; apply not_live_outdated).
    repeat case_decide; cbn [length]; try done; lia.
  - repeat case_decide; cbn [length]; try done; lia.
Qed.

Lemma outdate_derived_ends fuel t ps now rows : (length (matching live_row rows) < fuel)%nat →
  is_Some (outdate_derived fuel t ps now rows).
Proof.
  revert ps rows. induction fuel as [|fuel IH]; intros ps rows Hf; [lia|]. destruct ps as [|p ps]; [by eexists|].
  cbn -[derived_live]. pose proof (live_count (derived_live t (p :: ps)) now rows) as Hc.
  destruct (row_id <$> matching (derived_live t (p :: ps)) rows) as [|i is_] eqn:Et.
  - destruct fuel; by eexists.
  - apply (f_equal length) in Et. rewrite length_fmap in Et. cbn in Et.
    destruct (IH (i :: is_) (sql_update (derived_live t (p :: ps)) (set_status "outdated" now) rows)) as [[] ->]; [|by eexists].
    rewrite <-Hc in Hf; [lia|]. by intros r (_ & ? & _)%derived_live_iff.
Qed.

(** The rows taken: live, of the tenant, and derived from a parent or from a row taken; all of those. *)
Lemma outdate_derived_spec fuel t ps now rows ids rows' : NoDup (row_id <$> rows) →
  outdate_derived fuel t ps now rows = Some (ids, rows') →
  rows' = outdate ids now rows ∧
  ∀ r, r ∈ rows → row_id r ∈ ids ↔ of_tenant t r ∧ live r ∧ ∃ p, parent_memory_id r = Some p ∧ p ∈ ps ++ ids.
Proof.
  revert ps rows ids rows'. induction fuel as [|fuel IH]; intros [|p ps] rows ids rows' Hnd H;
    cbn -[move derived_live] in H; simplify_eq.
  1, 2: split; [by unfold outdate; rewrite update_in_nil|]; intros r _; cbn; set_solver.
  destruct (move _ _ _ _ _) as [taken rows1] eqn:E. destruct (outdate_derived _ _ _ _ _) as [[further rows2]|] eqn:F; [|done].
  injection H as <- <-. injection E as <- E. rewrite update_by_ids in E by done.
  set (taken := row_id <$> matching _ rows) in *.
  assert (∀ r, r ∈ rows → row_id r ∈ taken ↔ of_tenant t r ∧ live r ∧ ∃ p', parent_memory_id r = Some p' ∧ p' ∈ p :: ps) as Ht.
  { intros r Hr. unfold taken. by rewrite ids_matching, derived_live_iff. }
  subst rows1. apply IH in F as [-> Hf]; [|by rewrite update_in_ids].
  split; [unfold outdate; by rewrite update_in_app|]. intros r Hr. rewrite elem_of_app, Ht by done.
  destruct (decide (row_id r ∈ taken)) as [Hin|Hin].
  { apply Ht in Hin as (? & ? & q & ? & ?); [|done]. split; intros _; [|left; eauto].
    split; [done|]. split; [done|]. exists q. set_solver. }
  specialize (Hf r (elem_update_out _ _ _ _ Hr Hin)). rewrite Ht in Hin by done. rewrite Hf. split.
  - intros [?|(? & ? & q & ? & ?)]; [done|]. split; [done|]. split; [done|]. exists q. set_solver.
  - intros (Hten & Hl & q & Hq & Hin'). right. split; [done|]. split; [done|]. exists q. split; [done|].
    destruct (decide (q ∈ p :: ps)) as [|Hn]; [destruct Hin; eauto|]. set_solver.
Qed.

(** ** The passes, by id *)

Lemma update_in_twice ids ids' v rows : (∀ r, row_id (v r) = row_id r) → (∀ r, v (v r) = v r) →
  update_in ids' v (update_in ids v rows) = update_in (ids ++ ids') v rows.
Proof.
  intros Hi Hv. unfold update_in, sql_update. rewrite <-list_fmap_compose. apply list_fmap_ext. intros k r _. cbn.
  repeat case_bool_decide; rewrite ?Hi in *; set_unfold; naive_solver.
Qed.

Lemma session_rows_spec fuel t s now rows derived rows2 : NoDup (row_id <$> rows) →
  let first := row_id <$> matching (session_live t s) rows in
  outdate_derived fuel t first now (sql_update (session_live t s) (set_status "outdated" now) rows) = Some (derived, rows2) →
  rows2 = outdate (first ++ derived) now rows ∧
  ∀ r, r ∈ rows → row_id r ∈ first ++ derived ↔
    of_tenant t r ∧ live r ∧ (session_id_of r = Some s ∨ ∃ p, parent_memory_id r = Some p ∧ p ∈ first ++ derived).
Proof.
  intros Hnd first H. rewrite update_by_ids in H by done. fold first in H.
  assert (∀ r, r ∈ rows → row_id r ∈ first ↔ of_tenant t r ∧ live r ∧ session_id_of r = Some s) as H1.
  { intros r Hr. unfold first. by rewrite ids_matching, session_live_iff. }
  apply outdate_derived_spec in H as [-> Hd]; [|by rewrite update_in_ids]. split; [apply update_in_app|].
  intros r Hr. rewrite elem_of_app. destruct (decide (row_id r ∈ first)) as [Hin|Hin].
  { apply H1 in Hin as (? & ? & ?); [|done]. split; intros _; [tauto|]. left. by apply H1. }
  specialize (Hd r (elem_update_out _ _ _ _ Hr Hin)). rewrite Hd. split; [tauto|].
  intros (Ht & Hl & [Hs|Hp]); [|tauto]. by destruct Hin; apply H1.
Qed.

Lemma restore_pass_spec t s ids cs now rows restored rows' : NoDup (row_id <$> rows) →
  restore_pass t s ids cs now rows = (restored, rows') →
  rows' = update_in restored (set_status "active" now) rows ∧
  ∀ r, r ∈ rows → row_id r ∈ restored → restorable t s ids cs rows r = true.
Proof.
  intros Hnd. unfold restore_pass, move. destruct ids as [|i ids]; intros H; injection H as <- <-.
  - rewrite update_in_nil. split; [done|]. by intros r _ ?%elem_of_nil.
  - split; [by apply update_by_ids|]. intros r Hr. by rewrite ids_matching.
Qed.

Lemma reject_pass_spec t s now rows chunks rows' : NoDup (row_id <$> rows) →
  let cancelled := row_id <$> matching (session_held t s) rows in
  reject_chunks t cancelled now (sql_update (session_held t s) (set_status_deleted QUARANTINE_REJECTED now) rows) = (chunks, rows') →
  rows' = update_in (cancelled ++ chunks) (set_status_deleted QUARANTINE_REJECTED now) rows ∧
  ∀ r, r ∈ rows → row_id r ∈ cancelled ++ chunks ↔
    of_tenant t r ∧ held r ∧ (session_id_of r = Some s ∨ ∃ p, parent_memory_id r = Some p ∧ p ∈ cancelled).
Proof.
  intros Hnd cancelled. rewrite update_by_ids by done. fold cancelled. unfold reject_chunks, move. intros H.
  assert (∀ r, r ∈ rows → row_id r ∈ cancelled ↔ of_tenant t r ∧ held r ∧ session_id_of r = Some s) as H1.
  { intros r Hr. unfold cancelled. by rewrite ids_matching, session_held_iff. }
  destruct (decide (cancelled = [])) as [Hnil|Hne].
  - rewrite Hnil in *. injection H as <- <-. split; [reflexivity|]. intros r Hr. cbn. rewrite H1 by done. set_solver.
  - assert (chunks = row_id <$> matching (held_chunk t cancelled) (update_in cancelled (set_status_deleted QUARANTINE_REJECTED now) rows) ∧
      rows' = sql_update (held_chunk t cancelled) (set_status_deleted QUARANTINE_REJECTED now)
                (update_in cancelled (set_status_deleted QUARANTINE_REJECTED now) rows)) as [Hc ->].
    { destruct cancelled; [done|]. by injection H as <- <-. }
    rewrite update_by_ids, <-Hc by (by rewrite update_in_ids). split; [by apply update_in_twice|].
    intros r Hr. rewrite elem_of_app. destruct (decide (row_id r ∈ cancelled)) as [Hin|Hin].
    { apply H1 in Hin as (? & ? & ?); [|done]. split; intros _; [tauto|]. left. by apply H1. }
    assert (row_id r ∈ chunks ↔ held_chunk t cancelled r = true) as ->.
    { rewrite Hc. apply ids_matching; [by rewrite update_in_ids|by apply elem_update_out]. }
    rewrite held_chunk_iff. split; [tauto|]. intros (Ht & Hh & [Hs|Hp]); [|tauto]. by destruct Hin; apply H1.
Qed.

(** What the passes look at besides a row's status. *)
Lemma existsb_update f ids v rows : (∀ r, f (v r) = f r) → existsb f (update_in ids v rows) = existsb f rows.
Proof.
  intros Hf. unfold update_in, sql_update. induction rows as [|r rows IH]; [done|]. cbn. rewrite <-IH. f_equal. by case_bool_decide.
Qed.
Lemma held_down_outdate t ids' cs ids now rows i : held_down t ids' cs (outdate ids now rows) i = held_down t ids' cs rows i.
Proof. unfold held_down, outdate. by rewrite existsb_update. Qed.
Lemma existsb_kept f ids v rows x : existsb f (update_in ids v rows) = false → x ∈ rows → f x = true → row_id x ∈ ids.
Proof.
  intros Hf Hx Hfx. destruct (decide (row_id x ∈ ids)) as [|Hn]; [done|]. exfalso. apply not_true_iff_false in Hf. apply Hf.
  apply existsb_exists. exists x. split; [|done]. apply list_elem_of_In. by apply elem_update_out.
Qed.
Lemma standing_outdate t ids now rows i x : standing t i (outdate ids now rows) = false → x ∈ rows → of_tenant t x → live x →
  q_supersedes_id (r_mem x) = Some i → row_id x ∈ ids.
Proof.
  intros Hs Hx Ht [Hl Hd] Hi. eapply existsb_kept; [exact Hs|done|]. sql_cases. by unfold of_tenant in Ht.
Qed.
Lemma standing_winner_outdate t ids now cs rows i c x : standing_winner t i cs (outdate ids now rows) = false →
  c ∈ cs → x ∈ rows → k_tenant_id c = t → k_old_memory_id c = i → k_new_memory_id c = row_id x → live x → row_id x ∈ ids.
Proof.
  intros Hs Hc Hx Ht Ho Hn [Hl Hd]. apply not_true_iff_false in Hs.
  destruct (decide (row_id x ∈ ids)) as [|Hout]; [done|]. exfalso. apply Hs, existsb_exists. exists c.
  split; [by apply list_elem_of_In|]. apply andb_true_iff. split; [sql_cases; tauto|].
  apply existsb_exists. exists x. split; [by apply list_elem_of_In, elem_update_out|]. sql_cases. by rewrite Hn.
Qed.

(** ** What a rollback leaves *)

Section Accounts.
Variables (t s : string) (now : Z) (db : life_db) (out restored canc written : list string).
Let rows2 := outdate out now (db_rows db).
Let rows3 := update_in restored (set_status "active" now) rows2.
Let rb := Rollback out restored canc.
Hypothesis Ho : ∀ r, r ∈ db_rows db → row_id r ∈ out ↔
  of_tenant t r ∧ live r ∧ (session_id_of r = Some s ∨ ∃ p, parent_memory_id r = Some p ∧ p ∈ out).
Hypothesis Hr : ∀ r, r ∈ rows2 → row_id r ∈ restored → restorable t s out (db_conflicts db) rows2 r = true.
Hypothesis Hc : ∀ r, r ∈ rows3 → row_id r ∈ canc ↔
  of_tenant t r ∧ held r ∧ (session_id_of r = Some s ∨ ∃ p, parent_memory_id r = Some p ∧ p ∈ written).
Hypothesis Hsub : written ⊆ canc.

Definition passed (r : life_row) : life_row :=
  let r2 := if bool_decide (row_id r ∈ out) then set_status "outdated" now r else r in
  let r3 := if bool_decide (row_id r2 ∈ restored) then set_status "active" now r2 else r2 in
  if bool_decide (row_id r3 ∈ canc) then set_status_deleted QUARANTINE_REJECTED now r3 else r3.

Lemma passed_table : update_in canc (set_status_deleted QUARANTINE_REJECTED now) rows3 = passed <$> db_rows db.
Proof. unfold rows3, rows2, outdate, update_in, sql_update. by rewrite <-!list_fmap_compose. Qed.

Lemma passed_undone r : r ∈ db_rows db → undone t s now db rb r (passed r).
Proof.
  intros Hin. unfold passed. destruct (decide (row_id r ∈ out)) as [Hi|Hi].
  - assert (set_status "outdated" now r ∈ rows2) as H2.
    { apply list_elem_of_fmap. exists r. by rewrite bool_decide_true. }
    rewrite (bool_decide_true (row_id r ∈ out)) by done.
    assert (row_id (set_status "outdated" now r) ∉ restored) as Hn.
    { intros Hx%Hr; [|done]. apply restorable_iff in Hx. tauto. }
    rewrite (bool_decide_false _ Hn). rewrite bool_decide_false.
    + apply Ho in Hi as Hx; [|done]. destruct Hx as (? & ? & ?). by apply Undone_outdated.
    + intros Hx%Hc; [|by apply elem_update_out]. by destruct Hx as (_ & [? _] & _).
  - assert (r ∈ rows2) as H2 by by apply elem_update_out. rewrite (bool_decide_false _ Hi).
    destruct (decide (row_id r ∈ restored)) as [Hi3|Hi3].
    + rewrite (bool_decide_true _ Hi3). rewrite bool_decide_false.
      * apply Hr in Hi3 as Hx; [|done]. apply restorable_iff in Hx as (? & ? & ? & Hd & _ & ? & Hs & Hw).
        unfold rows2 in Hd. rewrite held_down_outdate in Hd. apply Undone_restored; try done.
        -- intros x ????. by eapply standing_outdate.
        -- intros c x ??????. by eapply standing_winner_outdate.
      * intros Hx%Hc; [by destruct Hx as (_ & [? _] & _)|]. apply list_elem_of_fmap. exists r. by rewrite bool_decide_true.
    + rewrite (bool_decide_false _ Hi3). case_bool_decide as Hi4; [|by apply Undone_kept].
      apply Hc in Hi4 as Hx; [|by apply elem_update_out]. destruct Hx as (? & ? & Hp). apply Undone_cancelled; try done.
      destruct Hp as [|(p & ? & ?)]; [by left|right]. exists p. auto.
Qed.

Lemma passed_settles r : r ∈ db_rows db → of_tenant t (passed r) → session_id_of (passed r) = Some s →
  ¬ live (passed r) ∧ ¬ held (passed r).
Proof.
  intros Hin. destruct (passed_undone r Hin) as [_ _ _ _|_ _ _ _ _ Hn _ _ _|_ _ _ _|Hi2 Hi3 Hi4]; intros Ht Hs.
  - split; [apply not_live_outdated|by intros [? _]].
  - done.
  - by split; intros [_ ?].
  - split; intros Hl; [apply Hi2, Ho|apply Hi4, Hc]; [done|auto|by apply elem_update_out; [apply elem_update_out|]|auto].
Qed.
Lemma passed_descendants r p : r ∈ db_rows db → of_tenant t (passed r) → live (passed r) →
  parent_memory_id (passed r) = Some p → p ∈ out → row_id (passed r) ∈ restored.
Proof.
  intros Hin. destruct (passed_undone r Hin) as [_ _ _ _|Hi _ _ _ _ _ _ _ _|_ _ _ _|Hi2 Hi3 Hi4]; intros Ht Hl Hp Hout.
  - by apply not_live_outdated in Hl.
  - done.
  - by destruct Hl.
  - destruct Hi2. apply Ho; [done|]. eauto 10.
Qed.
End Accounts.

Lemma rollback_passes fuel t s now db rb db' :
  NoDup (row_id <$> db_rows db) → memory_rollback_session fuel t s now db = Some (rb, db') →
  let out := rb_outdated rb in let restored := rb_restored rb in let canc := rb_cancelled rb in
  let rows2 := outdate out now (db_rows db) in
  db_rows db' = passed now out restored canc <$> db_rows db ∧
  (∀ r, r ∈ db_rows db → row_id r ∈ out ↔
    of_tenant t r ∧ live r ∧ (session_id_of r = Some s ∨ ∃ p, parent_memory_id r = Some p ∧ p ∈ out)) ∧
  (∀ r, r ∈ rows2 → row_id r ∈ restored → restorable t s out (db_conflicts db) rows2 r = true) ∧
  ∃ written, written ⊆ canc ∧
    ∀ r, r ∈ update_in restored (set_status "active" now) rows2 → row_id r ∈ canc ↔
      of_tenant t r ∧ held r ∧ (session_id_of r = Some s ∨ ∃ p, parent_memory_id r = Some p ∧ p ∈ written).
Proof.
  intros Hnd (first & derived & rows2 & restored & rows3 & cancelled & chunks & rows5 & -> & E & E3 & -> & E5 & -> & ->)%rollback_stages.
  apply session_rows_spec in E as [-> Ho]; [|done].
  assert (NoDup (row_id <$> outdate ((row_id <$> matching (session_live t s) (db_rows db)) ++ derived) now (db_rows db))) as Hnd2.
  { unfold outdate. by rewrite update_in_ids. }
  apply restore_pass_spec in E3 as [-> Hr]; [|done].
  apply reject_pass_spec in E5 as [-> Hc]; [|by rewrite update_in_ids].
  cbn [rb_outdated rb_restored rb_cancelled db_rows]. split; [apply passed_table|]. split; [done|]. split; [done|].
  eexists. split; [|exact Hc]. set_solver.
Qed.

Lemma rollback_undone fuel t s now db rb db' :
  NoDup (row_id <$> db_rows db) → memory_rollback_session fuel t s now db = Some (rb, db') →
  Forall2 (undone t s now db rb) (db_rows db) (db_rows db').
Proof.
  intros Hnd (-> & Ho & Hr & written & Hsub & Hc)%rollback_passes; [|done].
  apply Forall2_fmap_r, Forall_Forall2_diag, Forall_forall. intros r Hin. destruct rb. by eapply passed_undone.
Qed.
Lemma rollback_settled fuel t s now db rb db' r :
  NoDup (row_id <$> db_rows db) → memory_rollback_session fuel t s now db = Some (rb, db') →
  r ∈ db_rows db' → of_tenant t r → session_id_of r = Some s → ¬ live r ∧ ¬ held r.
Proof.
  intros Hnd (-> & Ho & Hr & written & Hsub & Hc)%rollback_passes; [|done].
  intros (r0 & -> & Hin)%list_elem_of_fmap. by eapply passed_settles.
Qed.


Lemma update_none c v rows : matching c rows = [] → sql_update c v rows = rows.
Proof.
  intros Hn. unfold sql_update. rewrite <-(list_fmap_id rows) at 2. apply list_fmap_ext. intros k r Hk.
  destruct (c r) eqn:E; [|done]. apply list_elem_of_lookup_2 in Hk. assert (r ∈ matching c rows) as H by by apply elem_matching.
  rewrite Hn in H. by apply elem_of_nil in H.
Qed.
Lemma matching_none c rows : (∀ r, r ∈ rows → c r = false) → matching c rows = [].
Proof. intros Hc. apply filter_keeps_none, Forall_forall. intros r Hr. by rewrite (Hc r Hr). Qed.

Lemma rollback_ends fuel t s now db : (length (db_rows db) < fuel)%nat → is_Some (memory_rollback_session fuel t s now db).
Proof.
  intros Hf. unfold memory_rollback_session. unfold move at 1.
  destruct (outdate_derived_ends fuel t (row_id <$> matching (session_live t s) (db_rows db)) now
    (sql_update (session_live t s) (set_status "outdated" now) (db_rows db))) as [[derived rows2] ->].
  { pose proof (filter_length_le (λ r, live_row r = true) (sql_update (session_live t s) (set_status "outdated" now) (db_rows db))) as Hl.
    unfold sql_update at 2 in Hl. rewrite length_fmap in Hl. unfold matching. lia. }
  cbn [mbind option_bind]. destruct (restore_pass _ _ _ _ _ _) as [restored rows3]. unfold move.
  destruct (reject_chunks _ _ _ _). by eexists.
Qed.

(** C38: a rollback ends, and a second one of the same session changes nothing. *)
Theorem rollback_happens_once t s now db :
  NoDup (row_id <$> db_rows db) →
  ∃ rb db', memory_rollback_session (S (length (db_rows db))) t s now db = Some (rb, db') ∧
    ∀ fuel now2, memory_rollback_session fuel t s now2 db' = Some (Rollback [] [] [], db').
Proof.
  intros Hnd. destruct (rollback_ends (S (length (db_rows db))) t s now db) as [[rb db'] E]; [lia|].
  exists rb, db'. split; [done|]. intros fuel now2. pose proof (λ r, rollback_settled _ _ _ _ _ _ _ r Hnd E) as Hs.
  assert (matching (session_live t s) (db_rows db') = []) as H1.
  { apply matching_none. intros r Hr. apply not_true_iff_false. intros (Ht & Hl & Hse)%session_live_iff. destruct (Hs r Hr Ht Hse); tauto. }
  assert (matching (session_held t s) (db_rows db') = []) as H2.
  { apply matching_none. intros r Hr. apply not_true_iff_false. intros (Ht & Hl & Hse)%session_held_iff. destruct (Hs r Hr Ht Hse); tauto. }
  unfold memory_rollback_session, move. rewrite H1, (update_none _ _ _ H1). cbn [fmap list_fmap].
  assert (outdate_derived fuel t [] now2 (db_rows db') = Some ([], db_rows db')) as -> by by destruct fuel.
  cbn [mbind option_bind app restore_pass]. rewrite H2, (update_none _ _ _ H2). cbn. by destruct db'.
Qed.

(** ** Witnesses *)

Definition sample_rollback : rollback := Rollback ["plan"; "part"] ["notes"] ["draft"; "chunk"].
Definition sample_after : life_db :=
  LifeDb (passed 100 ["plan"; "part"] ["notes"] ["draft"; "chunk"] <$> db_rows life_samples) (db_docs life_samples) [].


Lemma rollback_happens_once_witness :
  NoDup (row_id <$> db_rows life_samples) ∧
  ∃ rb db', memory_rollback_session 7 "acme" "s1" 100 life_samples = Some (rb, db') ∧
    ∀ fuel now2, memory_rollback_session fuel "acme" "s1" now2 db' = Some (Rollback [] [] [], db').
Proof. split; [by_compute|]. apply (rollback_happens_once "acme" "s1" 100 life_samples). by_compute. Defined.

(** A row derived from the session's, outdated before the rollback by a later write of the session,
    comes back: the rollback takes it for what that write replaced. *)
Example derived_row_comes_back :
  let db := LifeDb [life_sample "plan" "active" [("session_id", "s1")] None;
                    life_sample "part" "outdated" [("parent_memory_id", "plan")] None;
                    life_sample "fix" "active" [("session_id", "s1")] (Some "part")] [] [] in
  fst <$> memory_rollback_session 4 "acme" "s1" 100 db = Some (Rollback ["plan"; "fix"] ["part"] []).
Proof. reflexivity. Qed.

(** Restored in one statement, two versions of one fact can both come back: the session's write
    superseded the newer, and a conflict record of it names the older, which the newer supersedes. *)
Example both_versions_come_back :
  let db := LifeDb [life_sample "old" "outdated" [] None; life_sample "new" "outdated" [] (Some "old");
                    life_sample "late" "active" [("session_id", "s1")] (Some "new")]
              [] [ConflictRecord "acme" "old" "late" "pending"] in
  fst <$> memory_rollback_session 4 "acme" "s1" 100 db = Some (Rollback ["late"] ["old"; "new"] []).
Proof. reflexivity. Qed.
