(* ===== verification/MemoryAdmin.v ===== *)
(** * Deciding, undoing, deleting and reassigning memories over HTTP

    The routes of [core-api/.../routes/memories.py] that change memories in bulk or by a person's
    decision: the review queue, [PATCH /memories/{id}/status] with its release and reject, the rollback
    of a session, [DELETE /memories], the bulk delete, the undo of an ingest and the reassignment, over
    storage's status route ([core-storage-api/.../routers/memories.py]) and its row statements ([RowLife]),
    with the credential ([AuthContext]) and the agents' trust ([MemoryAccess]).

    A handler runs over the tables and the audit events handed to the queue ([log_action]; [AuditQueue] is
    what becomes of them), of whose detail the fields below are kept. What other requests do to the
    tables between a handler's read and its write is an argument. The usage meter, the record of
    corrected statuses and the replay of a released write are left out. *)

From S2P Require Import Prelude PyStr PyVal AgentRegistry MemoryAccess Contradiction ReadScope ListScope AuthContext MemoryList RowLife RowHold RowRollback.

#[local] Open Scope string_scope.
#[local] Open Scope list_scope.
#[local] Open Scope Z_scope.

Record logged : Type := Logged {
  w_tenant_id : string; w_agent_id : option string; w_action : string; w_resource_id : option string;
  w_old_status : option string; w_new_status : option string; w_user_id : option string; w_session_id : option string;
  w_count : option nat; w_tenant_wide : option bool; w_critical : bool
}.
Record admin_state : Type := AdminState { st_db : life_db; st_log : list logged }.

(** ** Storage's status route *)

(** An id in a body: absent, not a UUID, or one. *)
Abbreviation body_id := (option (option string)).
Record status_body : Type := StatusBody {
  s_status : option string; s_tenant_id : option string; s_supersedes_id : body_id; s_unset_supersedes : bool;
  s_expected_supersedes_id : body_id; s_release_hold : bool
}.

(** The answer [app] gives to a pointer that is not the tenant's. *)
Definition pointer_answer {A} (r : result exn A) : result exn A :=
  match r with
  | Err (PyError "PointerNotInTenantError" m) => Err (HTTPException 422 m)
  | r => r
  end.

Section StatusRoute.
Context {lower : SqlLower}.

(** The retraction: status and pointer in one statement, where the pointer is the expected one or none. *)
Definition retractable (tenant_id memory_id expected : string) (r : life_row) : bool :=
  holds (and_ (on_row tenant_id memory_id r ++ [not_deleted (r_mem r); not_quarantined (r_mem r);
    or_ [col_is (q_supersedes_id (r_mem r)) expected; is_null (q_supersedes_id (r_mem r))]])).
Definition retracted (status : string) (now : Z) (r : life_row) : life_row :=
  set_mem (λ m, col_supersedes None (col_verification (verification_on_status_change status r) (col_status status m)))
    (if bool_decide (q_status (r_mem r) = status) then r else set_changed_at now r).
Definition retract_supersedes (memory_id status tenant_id expected : string) (now : Z) (rows : list life_row) :
    result exn (list life_row) :=
  if existsb (retractable tenant_id memory_id expected) rows
  then Ok (sql_update (retractable tenant_id memory_id expected) (retracted status now) rows)
  else if existsb (λ r, holds (and_ (on_row tenant_id memory_id r ++ [not_deleted (r_mem r); not_quarantined (r_mem r)]))) rows
  then Err (HTTPException 409 "stale_retraction")
  else Err (HTTPException 404 "memory not found").

Definition required (v : option string) (detail : string) : result exn string :=
  match v with
  | Some v => if bool_decide (v = "") then Err (HTTPException 422 detail) else Ok v
  | None => Err (HTTPException 422 detail)
  end.

Definition status_route (memory_id : string) (b : status_body) (now : Z) (rows : list life_row) : result exn (list life_row) :=
  status ← required (s_status b) "'status' is required and must be a non-empty string";
  tenant ← required (s_tenant_id b) "'tenant_id' is required and must be a non-empty string";
  let given := bool_decide (is_Some (s_supersedes_id b)) in
  raise_if (s_unset_supersedes b && given) (HTTPException 422 "supersedes_id and unset_supersedes are mutually exclusive");;
  raise_if (s_unset_supersedes b && bool_decide (s_expected_supersedes_id b = None))
    (HTTPException 422 "unset_supersedes=True requires expected_supersedes_id");;
  raise_if (bool_decide (status = QUARANTINED_MEMORY_STATUS))
    (HTTPException 422 "a memory is held when it is written, never by a status update");;
  raise_if (s_release_hold b && (negb (bool_decide (status ∈ QUARANTINE_EXITS)) || given || s_unset_supersedes b))
    (HTTPException 422 "release_hold sets the status to one of active, cancelled and nothing else");;
  if s_unset_supersedes b then
    match s_expected_supersedes_id b with
    | Some (Some expected) => retract_supersedes memory_id status tenant expected now rows
    | _ => Err (HTTPException 422 "expected_supersedes_id must be a UUID")
    end
  else
    match s_supersedes_id b with
    | Some None => Err (HTTPException 422 "supersedes_id does not name a row in this tenant")
    | _ => pointer_answer (_assert_pointers_in_tenant tenant (default None (s_supersedes_id b)) rows)
    end;;
    '(ok, rows) ← memory_update_status memory_id status tenant None false None (s_release_hold b) now rows;
    raise_if (negb ok) (HTTPException 404 "memory not found");;
    Ok (match s_supersedes_id b with
        | Some (Some s) => (memory_set_supersedes_if_null memory_id s tenant rows).2
        | _ => rows
        end).
End StatusRoute.

(** [memory_get_by_id_for_tenant] *)
Definition memory_get_by_id_for_tenant (memory_id tenant_id : string) (include_held : bool) (rows : list life_row) : option life_row :=
  find (λ r, holds (and_ (on_row tenant_id memory_id r ++ [not_deleted (r_mem r)] ++
    where_if (negb include_held) (not_quarantined (r_mem r))))) rows.

(** ** The routes *)

Definition MEMORY_STATUSES : list string :=
  ["active"; "pending"; "confirmed"; "cancelled"; "outdated"; "conflicted"; "archived"; "deleted"].
Definition QUARANTINE_RELEASE_ACTION : string := "quarantine.release".
Definition QUARANTINE_REJECT_ACTION : string := "quarantine.reject".
Definition SESSION_ROLLBACK_ACTION : string := "session.rollback".

Definition row_access (r : life_row) : memory_row :=
  MemoryRow (Some (q_visibility (r_mem r))) (Some (q_agent_id (r_mem r))) (q_fleet_id (r_mem r)).

Section Routes.
Context {rows_of : Rows} {coll : Collation} {lower : SqlLower} (ctx : auth_context).

Definition _require_person : result exn unit := if is_person ctx then Ok tt else deny "AUTH_PERSON_REQUIRED".

(** [GET /memories/held]: the rows, the next cursor and the size of the queue. *)
Definition list_held_memories (tenant : string) (session : option string) (page_limit : Z) (cursor : option (option (Z * string)))
    (rows : list life_row) : result exn ((list stored_memory * option (Z * string)) * nat) :=
  raise_if (negb ((1 <=? page_limit) && (page_limit <=? 200) &&
                  match session with Some s => (1 <=? str_len s) && (str_len s <=? 200) | None => true end))
    (HTTPException 422 "validation error");;
  enforce_tenant ctx (Some tenant);;
  _require_person;;
  at_ ← match cursor with
        | None => Ok None
        | Some None => bad_request "Invalid cursor"
        | Some (Some c) => Ok (Some c)
        end;
  let '(found, total) := memory_list_held tenant session (page_limit + 1) (fst <$> at_, snd <$> at_) rows in
  next ← (if page_limit <? Z.of_nat (length found) then
            match found !! Z.to_nat (page_limit - 1) with
            | Some m => match q_created_at m with Some t => Ok (Some (t, q_id m)) | None => Err (PyError "TypeError" "created_at") end
            | None => Ok None
            end
          else Ok None);
  Ok ((take (Z.to_nat page_limit) found, next), total).

(** [POST /memories/rollback-session] *)
Definition rollback_event (tenant session new_status memory_id : string) : logged :=
  Logged tenant None SESSION_ROLLBACK_ACTION (Some memory_id) None (Some new_status) (user_id ctx) (Some session) None None true.
Definition rollback_events (tenant session : string) (rb : rollback) : list logged :=
  (rollback_event tenant session "outdated" <$> rb_outdated rb) ++ (rollback_event tenant session "active" <$> rb_restored rb) ++
  (rollback_event tenant session "cancelled" <$> rb_cancelled rb).
Definition rollback_session (tenant session : string) (now : Z) (s : admin_state) : result exn rollback * admin_state :=
  match (raise_if (negb ((1 <=? str_len session) && (str_len session <=? 200))) (HTTPException 422 "validation error");;
         enforce_read_only ctx;; enforce_tenant ctx (Some tenant);; _require_person;;
         required (Some tenant) "tenant_id is required") with
  | Err e => (Err e, s)
  | Ok _ =>
      match memory_rollback_session (S (length (db_rows (st_db s)))) tenant session now (st_db s) with
      | Some (rb, db) => (Ok rb, AdminState db (st_log s ++ rollback_events tenant session rb))
      | None => (Err (PyError "TimeoutError" ""), s)
      end
  end.

(** [PATCH /memories/{id}/status] up to its write: the row as it was read. *)
Definition status_gate (memory_id tenant : string) (status : option string) (rows : list life_row) : result exn (string * life_row) :=
  enforce_read_only ctx;;
  enforce_tenant ctx (Some tenant);;
  status ← match status with
           | Some s => if bool_decide (s ∈ MEMORY_STATUSES) then Ok s else bad_request "Invalid status."
           | None => bad_request "Invalid status."
           end;
  memory ← match memory_get_by_id_for_tenant memory_id tenant (is_person ctx) rows with
           | Some m => Ok m
           | None => Err (HTTPException 404 "Memory not found")
           end;
  let held := holds (is_held_status memory) in
  raise_if (held && negb (bool_decide (status ∈ QUARANTINE_EXITS)))
    (HTTPException 409 "A held memory is released (status 'active') or rejected (status 'cancelled'), nothing else.");;
  raise_if (held && nonempty (parent_memory_id memory))
    (HTTPException 409 "This memory is part of a held write: release or reject that write instead.");;
  match agent ctx with
  | Some a => if nonempty (agent ctx) then enforce_transition tenant a (Some (q_agent_id (r_mem memory))) status else Ok tt
  | None => Ok tt
  end;;
  raise_if ((nonempty (agent ctx) || is_install_credential ctx) &&
            negb (authorize_memory_access tenant (agent ctx) (row_access memory) true None (is_install_credential ctx) (install_uuid ctx)))
    (HTTPException 403 "AUTH_FLEET_SCOPE_FORBIDDEN");;
  Ok (status, memory).

(** The client's [PATCH]: storage may run it again where an answer was lost; [None] is its 404. *)
Fixpoint patch_status (lost : nat) (memory_id : string) (b : status_body) (now : Z) (rows : list life_row) :
    result exn (option unit) * list life_row :=
  let answer := status_route memory_id b now rows in
  let after := match answer with Ok rows' => rows' | Err _ => rows end in
  match lost with
  | S lost => patch_status lost memory_id b now after
  | O => (match answer with
          | Ok _ => Ok (Some tt)
          | Err (HTTPException 404 _) => Ok None
          | Err (HTTPException _ d) => Err (PyError "HTTPStatusError" d)
          | Err e => Err e
          end, after)
  end.

Definition status_event (memory_id tenant status : string) (memory : life_row) : logged :=
  let held := holds (is_held_status memory) in
  Logged tenant (agent ctx)
    (if held then if bool_decide (status = "active") then QUARANTINE_RELEASE_ACTION else QUARANTINE_REJECT_ACTION else "status_update")
    (Some memory_id) (Some (q_status (r_mem memory))) (Some status) (if held then user_id ctx else None) None None None false.

(** [others]: what other requests did to the tables between the read and the write. *)
Definition update_memory_status (memory_id tenant : string) (status : option string) (others : life_db → life_db) (lost : nat)
    (now : Z) (s : admin_state) : result exn (string * string) * admin_state :=
  match status_gate memory_id tenant status (db_rows (st_db s)) with
  | Err e => (Err e, AdminState (others (st_db s)) (st_log s))
  | Ok (status, memory) =>
      let held := holds (is_held_status memory) in
      let db := others (st_db s) in
      let '(answer, rows) := patch_status lost memory_id (StatusBody (Some status) (Some tenant) None false None held) now (db_rows db) in
      let s := AdminState (LifeDb rows (db_docs db) (db_conflicts db)) (st_log s) in
      match answer with
      | Err e => (Err e, s)
      | Ok updated =>
          if held && bool_decide (updated = None) then (Err (HTTPException 409 "This memory is no longer held."), s)
          else (Ok (q_status (r_mem memory), status),
                AdminState (st_db s) (st_log s ++ [status_event memory_id tenant status memory]))
      end
  end.

(** ** Deletes *)

(** A list of a body: absent, not a list, or its elements, a non-UUID among them none. *)
Definition _require_uuid_list (values : option (list (option string))) (field : string) : result exn (list string) :=
  match values with
  | None => Err (HTTPException 422 ("'" +:+ field +:+ "' must be a list"))
  | Some vs =>
      match mapM (λ v, v) vs with
      | Some ids => Ok ids
      | None => Err (HTTPException 422 ("'" +:+ field +:+ "' must contain only UUID strings"))
      end
  end.

(** The metadata filter of a body: a falsy one is empty; a value that is no string is none. *)
Inductive body_filter : Type := NotAnObject | Object (pairs : list (string * option string)).

Record delete_query : Type := DeleteQuery {
  x_fleet_id : option string; x_agent_id : option string; x_memory_type : option string; x_status : option string;
  x_run_id : option string; x_exclude_memory_types : list string; x_created_after : option Z; x_created_before : option Z;
  x_confirm_scope : option string; x_exclude_ids : option (list (option string)); x_metadata_filter : body_filter
}.

Definition no_filter (f : body_filter) : bool := match f with Object [] => true | _ => false end.
Definition is_tenant_wide (q : delete_query) (exclude_ids : list string) : bool :=
  negb (nonempty (x_fleet_id q) || nonempty (x_agent_id q) || nonempty (x_memory_type q) || nonempty (x_status q) ||
        nonempty (x_run_id q) || nonempty_list (x_exclude_memory_types q) || bool_decide (is_Some (x_created_after q)) ||
        bool_decide (is_Some (x_created_before q)) || nonempty_list exclude_ids || negb (no_filter (x_metadata_filter q))).
Definition checked_filter (f : body_filter) : result exn (list (string * string)) :=
  match f with
  | NotAnObject => bad_request "metadata_filter must be an object of {key: value} equality matches"
  | Object pairs =>
      raise_if (20 <? Z.of_nat (length pairs)) (HTTPException 400 "metadata_filter supports at most 20 key/value pairs");;
      match mapM (λ kv : string * option string, pair kv.1 <$> kv.2) pairs with
      | Some kvs => Ok kvs
      | None => bad_request "metadata_filter values must be strings"
      end
  end.

(** The gates of a bulk delete: the tenant's own writing credential, an agent of trust 3 behind it. *)
Definition bulk_gate (tenant : string) : result exn unit :=
  enforce_read_only ctx;;
  enforce_tenant ctx (Some tenant);;
  enforce_tenant_admin_credential ctx;;
  match agent ctx with
  | Some a => if nonempty (tenant_id ctx) && nonempty (agent ctx) then enforce_delete tenant a else Ok tt
  | None => Ok tt
  end.

Definition delete_request (tenant : string) (q : delete_query) : result exn (delete_args * bool) :=
  bulk_gate tenant;;
  let q := DeleteQuery (x_fleet_id q) (canonical_service_agent_id <$> x_agent_id q) (x_memory_type q) (x_status q) (x_run_id q)
             (x_exclude_memory_types q) (x_created_after q) (x_created_before q) (x_confirm_scope q) (x_exclude_ids q)
             (x_metadata_filter q) in
  exclude_ids ← _require_uuid_list (x_exclude_ids q) "exclude_ids";
  let wide := is_tenant_wide q exclude_ids in
  raise_if (wide && negb (bool_decide (x_confirm_scope q = Some "tenant")))
    (HTTPException 400 "This request would soft-delete every memory in the tenant.");;
  pairs ← checked_filter (x_metadata_filter q);
  Ok (DeleteArgs (x_fleet_id q) (x_agent_id q) (x_memory_type q) (x_status q) (x_run_id q) (x_exclude_memory_types q)
        (x_created_after q) (x_created_before q) exclude_ids pairs, wide).

Definition bulk_event (tenant action : string) (resource : option string) (n : nat) (wide : option bool) : logged :=
  Logged tenant None action resource None None (user_id ctx) None (Some n) wide false.

(** [DELETE /memories]. Storage asks for a tenant again. *)
Definition delete_all_memories (tenant : string) (q : delete_query) (now : Z) (s : admin_state) : result exn unit * admin_state :=
  match (a ← delete_request tenant q; required (Some tenant) "tenant_id is required";; Ok a) with
  | Err e => (Err e, s)
  | Ok (a, wide) =>
      let '(n, db) := memory_soft_delete_by_filter tenant a now (st_db s) in
      (Ok tt, AdminState db (st_log s ++ [bulk_event tenant "bulk_delete" None n (Some wide)]))
  end.

(** [POST /memories/bulk-delete] *)
Definition bulk_delete_by_ids (tenant : option string) (ids : option (list (option string))) (now : Z) (s : admin_state) :
    result exn nat * admin_state :=
  match (t ← (match tenant with Some t => if bool_decide (t = "") then bad_request "tenant_id required" else Ok t
              | None => bad_request "tenant_id required" end);
         bulk_gate t;;
         ids ← _require_uuid_list ids "ids";
         raise_if (negb (nonempty_list ids) || (1000 <? Z.of_nat (length ids))) (HTTPException 400 "ids must be 1-1000 items");;
         Ok (t, ids)) with
  | Err e => (Err e, s)
  | Ok (t, ids) =>
      let '(n, db) := memory_soft_delete_by_ids t ids true now (st_db s) in
      (Ok n, AdminState db (st_log s ++ [bulk_event t "bulk_delete" None n None]))
  end.

(** [POST /ingest/undo/{run_id}]: the batch's memories, then its parent document where there is one. *)
Definition delete_document (tenant collection doc_id : string) (docs : list ingest_document) : list ingest_document :=
  filter (λ d, ¬ (g_tenant_id d = tenant ∧ g_collection d = collection ∧ g_doc_id d = doc_id)) docs.
Definition ingest_undo_endpoint (run_id tenant : string) (now : Z) (s : admin_state) : result exn nat * admin_state :=
  match (bulk_gate tenant;; required (Some tenant) "tenant_id and run_id are required";;
         required (Some run_id) "tenant_id and run_id are required") with
  | Err e => (Err e, s)
  | Ok _ =>
      let '(n, db) := memory_soft_delete_by_run tenant run_id "ingest" now (st_db s) in
      (Ok n, AdminState (LifeDb (db_rows db) (delete_document tenant INGEST_DOCUMENTS_COLLECTION run_id (db_docs db)) (db_conflicts db))
               (st_log s ++ [bulk_event tenant "ingest_undo" None n None]))
  end.

(** ** Reassignment *)

(** [POST /memories/redistribute] *)
Definition redistribute_memories (tenant agent_id : string) (memory_ids : list string) (target : string) (s : admin_state) :
    result exn redistribution * admin_state :=
  match (raise_if (negb ((1 <=? Z.of_nat (length memory_ids)) && (Z.of_nat (length memory_ids) <=? 500) &&
                         (1 <=? str_len target) && (str_len target <=? 256))) (HTTPException 422 "validation error");;
         enforce_read_only ctx;; enforce_usage_limits ctx;; enforce_tenant ctx (Some tenant);;
         enforce_self_agent ctx (Some agent_id);;
         match lookup tenant agent_id true with
         | Some c => if trust_level c <? 3 then deny "AUTH_AGENT_TRUST_TOO_LOW" else Ok tt
         | None => deny "AUTH_AGENT_TRUST_TOO_LOW"
         end;;
         let target := canonical_service_agent_id target in
         match lookup tenant target true with
         | None => Err (HTTPException 404 "Target agent not found in tenant.")
         | Some t => if trust_level t <? 1 then deny "AUTH_TARGET_AGENT_RESTRICTED" else Ok target
         end) with
  | Err e => (Err e, s)
  | Ok target =>
      let '(o, rows) := memory_redistribute tenant memory_ids target (db_rows (st_db s)) in
      (Ok o, AdminState (LifeDb rows (db_docs (st_db s)) (db_conflicts (st_db s)))
               (st_log s ++ [Logged tenant (Some agent_id) "redistribute" None None None None None (Some (length memory_ids)) None false]))
  end.
End Routes.

(** ** A person's decision *)

(** Any of these requests. *)
Inductive admin_call : Type :=
| PatchStatus (memory_id tenant : string) (status : option string) (others : life_db → life_db) (lost : nat)
| RollbackCall (tenant session : string)
| DeleteAll (tenant : string) (q : delete_query)
| BulkDelete (tenant : option string) (ids : option (list (option string)))
| UndoIngest (run_id tenant : string)
| Reassign (tenant agent_id : string) (memory_ids : list string) (target : string).

Section Decisions.
Context {rows_of : Rows} {lower : SqlLower} (ctx : auth_context).

Definition run_call (now : Z) (c : admin_call) (s : admin_state) : admin_state :=
  match c with
  | PatchStatus i t st others lost => (update_memory_status ctx i t st others lost now s).2
  | RollbackCall t se => (rollback_session ctx t se now s).2
  | DeleteAll t q => (delete_all_memories ctx t q now s).2
  | BulkDelete t ids => (bulk_delete_by_ids ctx t ids now s).2
  | UndoIngest r t => (ingest_undo_endpoint ctx r t now s).2
  | Reassign t a ids target => (redistribute_memories ctx t a ids target s).2
  end.
(** The tables a request writes over. *)
Definition before (c : admin_call) (s : admin_state) : life_db :=
  match c with PatchStatus _ _ _ others _ => others (st_db s) | _ => st_db s end.

(** The request asks for a decision on the row: a release or reject of it or its write, or a rollback. *)
Definition asks (c : admin_call) (s : admin_state) (r : life_row) : Prop :=
  match c with
  | PatchStatus i t (Some st) _ _ => st ∈ QUARANTINE_EXITS ∧ of_tenant t r ∧ (row_id r = i ∨ parent_memory_id r = Some i)
  | RollbackCall t se => decides (RollbackSession t se) (st_db s) r
  | _ => False
  end.

Lemma status_gate_ok i t st rows st' m : status_gate ctx i t st rows = Ok (st', m) →
  st = Some st' ∧ st' ∈ MEMORY_STATUSES ∧ m ∈ rows ∧ row_id m = i ∧ of_tenant t m ∧ q_deleted_at (r_mem m) = None ∧
  (q_status (r_mem m) = QUARANTINED_MEMORY_STATUS → is_person ctx = true ∧ st' ∈ QUARANTINE_EXITS ∧ nonempty (parent_memory_id m) = false).
Proof.
  unfold status_gate. intros H. apply bind_ok in H as (? & _ & H). apply bind_ok in H as (? & _ & H).
  apply bind_ok in H as (st0 & Hst & H). destruct st as [st1|]; [|done]. destruct (bool_decide (st1 ∈ MEMORY_STATUSES)) eqn:Hs; [|done]. injection Hst as <-. apply bool_decide_eq_true in Hs.
  apply bind_ok in H as (m0 & Hm & H). destruct (memory_get_by_id_for_tenant _ _ _ _) as [m1|] eqn:Hg; [|done]. injection Hm as ->.
  apply bind_ok in H as (? & H1%raise_if_ok & H). apply bind_ok in H as (? & H2%raise_if_ok & H).
  apply bind_ok in H as (? & _ & H). apply bind_ok in H as (? & _ & H). injection H as <- <-.
  apply find_some in Hg as [Hm%list_elem_of_In Hc]. rewrite !and_app, on_row_iff, and_one in Hc. destruct Hc as ([Hi Ht] & Hd & Hh).
  split; [done|]. split; [done|]. split; [done|]. split; [done|]. split; [done|]. split; [by apply holds_not_deleted|].
  intros Hq. assert (holds (is_held_status m0) = true) as Hq' by by apply holds_held_status. rewrite Hq' in H1, H2. cbn [andb] in H1, H2.
  split; [|split; [by apply negb_false_iff, bool_decide_eq_true in H1|done]].
  destruct (is_person ctx); [done|]. cbn [negb where_if] in Hh. rewrite and_one, holds_not_held in Hh. done.
Qed.

Lemma required_ok v d x : required v d = Ok x → v = Some x.
Proof. destruct v as [v|]; cbn; [case_bool_decide; [done|]|done]. by intros [= ->]. Qed.
Lemma status_route_evolves i st t rel now rows rows' :
  status_route i (StatusBody (Some st) (Some t) None false None rel) now rows = Ok rows' →
  Forall2 (evolves (released t i rel)) rows rows'.
Proof.
  unfold status_route. cbn [s_status s_tenant_id s_supersedes_id s_unset_supersedes s_expected_supersedes_id s_release_hold default].
  intros H. apply bind_ok in H as (st' & Hs & H). apply bind_ok in H as (t' & Ht & H).
  apply required_ok in Hs as [= <-], Ht as [= <-].
  do 4 (apply bind_ok in H as (? & _ & H)). apply bind_ok in H as (? & _ & H). apply bind_ok in H as ([ok rows1] & Hu & H).
  apply bind_ok in H as (? & _ & H). injection H as <-. by eapply update_status_evolves.
Qed.
Lemma patch_status_evolves lost i st t rel now rows :
  Forall2 (evolves (released t i rel)) rows (patch_status lost i (StatusBody (Some st) (Some t) None false None rel) now rows).2.
Proof.
  revert rows. induction lost as [|lost IH]; intros rows; cbn [patch_status].
  - destruct (status_route _ _ _ _) as [rows'|] eqn:E; [by eapply status_route_evolves|apply table_refl].
  - destruct (status_route _ _ _ _) as [rows'|] eqn:E; [|apply IH].
    eapply table_trans; [apply released_kept|by eapply status_route_evolves|apply IH].
Qed.

Lemma require_person_ok u : _require_person ctx = Ok u → is_person ctx = true.
Proof. unfold _require_person. by destruct (is_person ctx). Qed.

Lemma run_call_evolves now c s : well_held (db_rows (before c s)) →
  Forall2 (evolves (λ r, is_person ctx = true ∧ asks c s r)) (db_rows (before c s)) (db_rows (st_db (run_call now c s))).
Proof.
  intros Hw. set (D := λ r, _).
  assert (∀ rows rows', Forall2 (evolves nobody) rows rows' → Forall2 (evolves D) rows rows') as Hno.
  { intros rows rows'. by apply table_weaken. }
  destruct c as [i t st others lost|t se|t q|t ids|run t|t a ids target]; cbn [run_call before] in *.
  - unfold update_memory_status. destruct (status_gate _ _ _ _ _) as [[st' m]|] eqn:Eg; [|apply table_refl].
    apply status_gate_ok in Eg as (-> & _ & _ & _ & _ & _ & Hq).
    pose proof (patch_status_evolves lost i st' t (holds (is_held_status m)) now (db_rows (others (st_db s)))) as He.
    destruct (patch_status _ _ _ _ _) as [answer rows']. cbn [snd] in He.
    assert (Forall2 (evolves D) (db_rows (others (st_db s))) rows') as HD.
    { eapply table_weaken, He. intros x (Hh%holds_held_status & Hx). destruct (Hq Hh) as (? & ? & _). by split. }
    destruct answer as [u|]; [|done]. by destruct (_ && _).
  - unfold rollback_session. destruct (_ ≫= _) as [u|] eqn:E; [|apply table_refl].
    apply bind_ok in E as (? & _ & E). apply bind_ok in E as (? & _ & E). apply bind_ok in E as (? & _ & E).
    apply bind_ok in E as (? & Hp%require_person_ok & _).
    destruct (memory_rollback_session _ _ _ _ _) as [[rb db]|] eqn:Er; [|apply table_refl].
    eapply table_weaken, rollback_evolves, Er. intros y Hx. by split.
  - unfold delete_all_memories. destruct (_ ≫= _) as [[a wide]|]; [|apply table_refl].
    pose proof (soft_delete_evolves t (delete_filter a) (e_exclude_ids a) true now (st_db s) Hw) as He.
    unfold memory_soft_delete_by_filter. destruct (_soft_delete _ _ _ _ _ _). by apply Hno.
  - unfold bulk_delete_by_ids. destruct (_ ≫= _) as [[t' ids']|]; [|apply table_refl]. unfold memory_soft_delete_by_ids.
    destruct ids' as [|i ids']; [apply table_refl|].
    pose proof (soft_delete_evolves t' (λ r, [text_in (row_id r) (i :: ids')]) [] true now (st_db s) Hw) as He.
    destruct (_soft_delete _ _ _ _ _ _). by apply Hno.
  - unfold ingest_undo_endpoint. destruct (_ ≫= _) as [u|]; [|apply table_refl]. unfold memory_soft_delete_by_run.
    pose proof (soft_delete_evolves t (λ r, [col_is (q_run_id (r_mem r)) run; meta_is "source" "ingest" r]) [] true now (st_db s) Hw) as He.
    destruct (_soft_delete _ _ _ _ _ _). by apply Hno.
  - unfold redistribute_memories. destruct (_ ≫= _) as [target'|]; [|apply table_refl].
    pose proof (redistribute_evolves t ids target' (db_rows (st_db s))) as He.
    destruct (memory_redistribute _ _ _ _). by apply Hno.
Qed.

End Decisions.

(** ** The review queue, page by page *)

Section Queue.
Context {coll : Collation} (ctx : auth_context) (t : string) (se : option string) (page_limit : Z) (rows : list life_row).

Definition queue : list stored_memory := r_mem <$> matching (λ r, holds (and_ (held_in_session t se r))) rows.
Definition queue_order : list stored_memory := py_sorted (row_leb "created_at" "desc") queue.
Definition held_page (c : option (Z * string)) : result exn (list stored_memory * option (Z * string)) :=
  fst <$> list_held_memories ctx t se page_limit (Some <$> c) rows.

Context (Hids : NoDup (row_id <$> rows)) (Hcreated : Forall (λ m, is_Some (q_created_at m)) queue)
  (Hok : is_ok (list_held_memories ctx t se page_limit None rows) = true).

Lemma queue_ids : NoDup (q_id <$> queue).
Proof.
  unfold queue. rewrite <-list_fmap_compose. change (q_id ∘ r_mem) with row_id. by apply NoDup_fmap_filter.
Qed.

(** What storage returns at a cursor that stands after the first [j] of the queue. *)
Lemma held_at c j n : cursor_at queue_order c j →
  memory_list_held t se n c rows = (take (Z.to_nat n) (drop j queue_order), length queue).
Proof.
  intros Hat. unfold memory_list_held. f_equal; [|unfold queue; by rewrite length_fmap].
  assert (queue_order = py_sorted (row_leb "created_at" "desc") (filter (λ m, true = true) queue)) as Hq.
  { unfold queue_order. f_equal. rewrite filter_keeps_all; [done|]. by apply Forall_true. }
  rewrite Hq in Hat |- *.
  rewrite <-(page_at "created_at" "desc" (or_intror eq_refl) (λ _, true) c j n queue queue_ids); [|by eapply Forall_impl|done].
  done.
Qed.

Lemma held_page_at c j : cursor_at queue_order (fst <$> c, snd <$> c) j →
  let n := Z.to_nat page_limit in
  ∃ next, list_held_memories ctx t se page_limit (Some <$> c) rows = Ok ((take n (drop j queue_order), next), length queue) ∧
    match next with
    | None => (length queue_order ≤ j + n)%nat
    | Some p => (j + n < length queue_order)%nat ∧ cursor_at queue_order (Some p.1, Some p.2) (j + n)
    end ∧ (1 ≤ n)%nat.
Proof.
  intros Hat n. pose proof Hok as Hok'. unfold list_held_memories in Hok' |- *.
  destruct (raise_if _ _) as [[]|] eqn:Ev; [|done]. apply raise_if_ok, negb_false_iff, andb_true_iff in Ev as [[Hlo Hhi]%andb_true_iff _].
  cbn [mbind result_bind] in Hok' |- *. destruct (enforce_tenant ctx (Some t)) as [[]|]; [|done].
  cbn [mbind result_bind] in Hok' |- *. destruct (_require_person ctx) as [[]|]; [|done]. cbn [mbind result_bind].
  assert (match Some <$> c with None => Ok None | Some None => bad_request "Invalid cursor" | Some (Some c0) => Ok (Some c0) end
    = Ok c :> result exn _) as -> by by destruct c.
  cbn [mbind result_bind]. rewrite (held_at _ j) by done. apply Z.leb_le in Hlo, Hhi. subst n.
  set (n := Z.to_nat page_limit). assert (Z.to_nat (page_limit + 1) = S n) as -> by lia.
  rewrite take_take, Nat.min_l by lia. rewrite length_take, length_drop.
  destruct (Z.ltb_spec page_limit (Z.of_nat (Nat.min (S n) (length queue_order - j)))) as [Hmore|Hlast].
  - replace (Z.to_nat (page_limit - 1)) with (pred n) by lia. rewrite lookup_take, lookup_drop.
    rewrite decide_True by lia. destruct (lookup_lt_is_Some_2 queue_order (j + pred n)) as [x Hx]; [lia|]. rewrite Hx.
    assert (is_Some (q_created_at x)) as [u Hu].
    { rewrite Forall_forall in Hcreated. apply Hcreated. apply list_elem_of_lookup_2 in Hx. unfold queue_order in Hx.
      by rewrite py_sorted_elem in Hx. }
    rewrite Hu. cbn [mbind result_bind]. eexists. split; [done|]. split; [|lia]. split; [lia|]. cbn.
    replace (j + n)%nat with (S (j + pred n)) by lia. by econstructor.
  - cbn [mbind result_bind]. eexists. split; [done|]. split; [|lia]. lia.
Qed.

Lemma follow_held fuel c j : (length queue_order < j + fuel)%nat → cursor_at queue_order (fst <$> c, snd <$> c) j →
  follow fuel held_page c = Some (Ok (drop j queue_order)).
Proof.
  revert c j. induction fuel as [|fuel IH]; intros c j Hf Hat.
  - exfalso. destruct Hat as [|k x u Hk _]; [lia|]. apply lookup_lt_Some in Hk. lia.
  - cbn [follow]. unfold held_page at 1. destruct (held_page_at c j Hat) as (next & -> & Hn & Hpos). cbn [fmap result_fmap fst].
    destruct next as [[u i]|].
    + destruct Hn as [Hn Hat']. rewrite (IH (Some (u, i)) (j + Z.to_nat page_limit)%nat); [|lia|done].
      rewrite <-drop_drop. by rewrite take_drop.
    + by rewrite take_ge by (rewrite length_drop; lia).
Qed.
End Queue.

(** Following the cursor of the review queue ends, and has shown the person every held write once,
    newest first, whatever the page size; each page also gives how many there are. *)
Theorem queue_is_walked_once `{Collation} ctx t se page_limit rows fuel :
  NoDup (row_id <$> rows) → Forall (λ m, is_Some (q_created_at m)) (queue t se rows) →
  is_ok (list_held_memories ctx t se page_limit None rows) = true → (length (queue t se rows) < fuel)%nat →
  follow fuel (held_page ctx t se page_limit rows) None = Some (Ok (queue_order t se rows)) ∧
  (∀ m, m ∈ queue_order t se rows ↔
     ∃ r, r ∈ rows ∧ r_mem r = m ∧ of_tenant t r ∧ held r ∧ parent_memory_id r = None ∧
       match se with Some s => session_id_of r = Some s | None => True end) ∧
  is_person ctx = true.
Proof.
  intros Hids Hc Hok Hf. split; [|split].
  - rewrite (follow_held ctx t se page_limit rows Hids Hc Hok) with (j := 0%nat); [done| |constructor].
    unfold queue_order. by rewrite (Permutation_length (py_sorted_perm _ _)).
  - intros m. unfold queue_order. rewrite py_sorted_elem. unfold queue. rewrite list_elem_of_fmap.
    setoid_rewrite elem_matching. unfold held_in_session, held_rows_where, held, of_tenant, session_id_of.
    split; [intros (r & -> & Hr & Hin)|intros (r & Hin & <- & Hr)]; exists r; destruct se; cbn [where_given] in *; sql_cases; naive_solver.
  - unfold list_held_memories in Hok. destruct (raise_if _ _) as [[]|]; [|done]. cbn [mbind result_bind] in Hok.
    destruct (enforce_tenant _ _) as [[]|]; [|done]. cbn [mbind result_bind] in Hok.
    destruct (_require_person ctx) as [u|] eqn:Ep; [by apply require_person_ok in Ep|done].
Qed.

(** ** What the trail says *)

(** Every row a rollback changes has an event of its own, critical, with the row's new status and
    the person who asked. *)
Theorem rollback_is_on_record {rs : Rows} ctx t se now s rb s' :
  NoDup (row_id <$> db_rows (st_db s)) → rollback_session ctx t se now s = (Ok rb, s') →
  is_person ctx = true ∧
  ∀ k r r', db_rows (st_db s) !! k = Some r → db_rows (st_db s') !! k = Some r' → r' ≠ r →
    ∃ e, e ∈ drop (length (st_log s)) (st_log s') ∧ w_tenant_id e = t ∧ w_action e = SESSION_ROLLBACK_ACTION ∧
      w_resource_id e = Some (row_id r) ∧ w_new_status e = Some (q_status (r_mem r')) ∧ w_user_id e = user_id ctx ∧
      w_session_id e = Some se ∧ w_critical e = true.
Proof.
  intros Hnd H. unfold rollback_session in H. destruct (_ ≫= _) as [u|] eqn:E; [|done].
  apply bind_ok in E as (? & _ & E). apply bind_ok in E as (? & _ & E). apply bind_ok in E as (? & _ & E).
  apply bind_ok in E as (? & Hp%require_person_ok & _).
  destruct (memory_rollback_session _ _ _ _ _) as [[rb0 db]|] eqn:Er; [|done]. injection H as -> <-. split; [done|].
  intros k r r' Hk Hk' Hne. cbn [st_db st_log] in *. rewrite drop_app_length.
  pose proof (rollback_undone _ _ _ _ _ _ _ Hnd Er) as Hu.
  destruct (Forall2_lookup_lr _ _ _ _ _ _ Hu Hk Hk') as [Hi _ _ _|Hi _ _ _ _ _ _ _ _|Hi _ _ _|_ _ _]; [..|done].
  1: exists (rollback_event ctx t se "outdated" (row_id r)). 2: exists (rollback_event ctx t se "active" (row_id r)).
  3: exists (rollback_event ctx t se "cancelled" (row_id r)).
  all: split; [unfold rollback_events; rewrite !elem_of_app, !list_elem_of_fmap; eauto|done].
Qed.

(** ** Deletes and the lists *)

(** The list of a tenant by the filters of a delete. *)
Definition same_filters (t : string) (q : delete_query) : list_query :=
  ListQuery (Some t) (x_fleet_id q) (x_agent_id q) None None (x_memory_type q) (x_exclude_memory_types q)
    (x_created_after q) (x_created_before q) (x_status q) None (x_run_id q) None None None None "created_at" "desc" 0 50 false.

Lemma soft_delete_gone t cond ex w now db r' :
  r' ∈ db_rows (_soft_delete t cond ex w now db).2 → selected t cond ex r' = false.
Proof.
  cbn [snd _soft_delete db_rows]. intros (r & -> & _)%list_elem_of_fmap.
  destruct (selected t cond ex r) eqn:E; [|done]. apply not_true_iff_false. unfold selected. rewrite and_app.
  intros [Hc _]. sql_cases. by destruct Hc as (_ & ? & _).
Qed.

(** A delete changes the rows it selects and the live rows derived from one of them. *)
Lemma soft_delete_reach t cond now db k r r' :
  db_rows db !! k = Some r → db_rows (_soft_delete t cond [] true now db).2 !! k = Some r' → r' ≠ r →
  selected t cond [] r = true ∨ of_tenant t r ∧ q_deleted_at (r_mem r) = None ∧
    ∃ p, p ∈ db_rows db ∧ selected t cond [] p = true ∧ parent_memory_id r = Some (row_id p).
Proof.
  cbn [snd _soft_delete db_rows]. intros Hk. rewrite !lookup_update, Hk. cbn [fmap option_fmap option_map]. intros [= <-] Hne.
  destruct (children_of t _ [] r) eqn:Ec; cbn [andb] in Hne.
  - right. unfold children_of in Ec. cbn [where_if nonempty_list] in Ec. rewrite app_nil_r, derived_rows_iff in Ec.
    destruct Ec as (? & ? & p & Hp & (x & <- & Hx & Hin)%elem_ids). eauto 10.
  - left. by destruct (selected t cond [] r).
Qed.

Abbreviation all_hold := (Forall (λ p, holds p = true)).
Lemma fleet_pin_strict f m : all_hold (fleet_pin f m) ↔ all_hold (where_set f (col_is (q_fleet_id m))).
Proof.
  unfold fleet_pin, where_set. destruct f as [f|]; [|done]. case_bool_decide; [done|].
  rewrite !Forall_singleton, holds_fleets, holds_col_is. unfold in_fleets. set_solver.
Qed.
Lemma where_given_set x f : all_hold (where_given x f) → all_hold (where_set x f).
Proof. destruct x as [v|]; cbn; [case_bool_decide; [done|]|]; done. Qed.

(** The delete's own reading of the filters, and the payload a list of the same filters sends. *)
Definition plain_args (q : delete_query) : delete_args :=
  DeleteArgs (x_fleet_id q) (canonical_service_agent_id <$> x_agent_id q) (x_memory_type q) (x_status q) (x_run_id q)
    (x_exclude_memory_types q) (x_created_after q) (x_created_before q) [] [].
Definition plain_list (t : string) (q : delete_query) (caller caller_tenant : option string) (cursor : option (Z * string))
    (person : bool) : list_args :=
  ListArgs t caller caller_tenant (x_fleet_id q) (canonical_service_agent_id <$> x_agent_id q) (x_memory_type q)
    (x_exclude_memory_types q) (x_status q) (x_run_id q) None None None (x_created_after q) (x_created_before q) false
    "created_at" "desc" 50 0 (fst <$> cursor) (snd <$> cursor) [] None person.

Lemma same_filters_request {rs : Rows} rctx t q a : t ≠ "" → list_request rctx (same_filters t q) = Ok a →
  ∃ caller cursor, a = plain_list t q caller (tenant_id rctx) cursor (is_person rctx) ∧ (is_person rctx = true → caller = None).
Proof.
  intros Ht (author & fleet & cursor & -> & _ & _ & _ & Hs & _)%list_request_ok.
  unfold scoped in Hs. cbn [v_scope same_filters v_written_by v_agent_id v_fleet_id fmap option_fmap option_map] in Hs. injection Hs as <- <-.
  exists (if is_person rctx then None else reading_agent rctx (same_filters t q)), cursor. split; [|by intros ->].
  assert (nonempty (Some t) = true) as Hne by (cbn; by rewrite bool_decide_false).
  unfold list_payload, plain_list. cbn [same_filters v_tenant_id v_memory_type v_exclude_memory_types v_status v_run_id v_baton_id
    v_weight_min v_weight_max v_created_after v_created_before v_include_deleted v_sort v_order v_limit v_offset v_visibility v_scope].
  f_equal.
  - unfold target, py_or. by rewrite Hne.
  - unfold _effective_include_deleted. by destruct (agent rctx), (tenant_id rctx).
  - unfold widened_tenants, widened. rewrite Hne. by rewrite andb_false_r.
Qed.

(** What a reader's list of the filters shows, the delete selects; and the other way for a person,
    who sees every visibility. *)
Lemma listed_selected t q caller ct cursor person r :
  (listed_row (plain_list t q caller ct cursor person) (r_mem r) = true → selected t (delete_filter (plain_args q)) [] r = true) ∧
  (person = true → caller = None → x_run_id q ≠ Some "" →
   selected t (delete_filter (plain_args q)) [] r = true → listed_row (plain_list t q caller ct cursor person) (r_mem r) = true).
Proof.
  unfold listed_row, selected, delete_filter, list_filters. rewrite !holds_and_iff, !Forall_app, fleet_pin_strict.
  cbn [plain_list plain_args f_tenant_id f_caller_agent_id f_caller_tenant_id f_fleet_id f_written_by f_memory_type f_exclude_memory_types
    f_status f_run_id f_baton_id f_weight_min f_weight_max f_created_after f_created_before f_include_deleted f_readable_tenant_ids
    f_visibility f_include_scope_agent e_fleet_id e_agent_id e_memory_type e_status e_run_id e_exclude_memory_types e_created_after
    e_created_before e_metadata_filter where_given where_set where_if negb nonempty_list fmap list_fmap].
  rewrite !Forall_cons, !Forall_nil, holds_tenant, holds_text_is. cbn [read_tenants]. rewrite list_elem_of_singleton. split.
  - intros H. repeat match goal with H : _ ∧ _ |- _ => destruct H end. repeat (split; try done). by apply where_given_set.
  - intros -> -> Hrun H. repeat match goal with H : _ ∧ _ |- _ => destruct H end.
    assert (all_hold (where_given (x_run_id q) (col_is (q_run_id (r_mem r))))) as Hg.
    { destruct (x_run_id q) as [v|]; [|done]. cbn. revert select (all_hold (where_set (Some v) _)). cbn. by case_bool_decide; subst. }
    repeat (split; try done).
Qed.

(** The args a delete asks storage for, and what makes them the whole tenant's. *)
Definition whole (a : delete_args) : bool :=
  negb (nonempty (e_fleet_id a) || nonempty (e_agent_id a) || nonempty (e_memory_type a) || nonempty (e_status a) ||
        nonempty (e_run_id a) || nonempty_list (e_exclude_memory_types a) || bool_decide (is_Some (e_created_after a)) ||
        bool_decide (is_Some (e_created_before a)) || nonempty_list (e_exclude_ids a) || nonempty_list (e_metadata_filter a)).

Lemma checked_filter_ok f pairs : checked_filter f = Ok pairs → no_filter f = negb (nonempty_list pairs) ∧ (f = Object [] → pairs = []).
Proof.
  destruct f as [|l]; [done|]. cbn [checked_filter]. intros H. apply bind_ok in H as (? & _ & H).
  destruct (mapM _ l) as [kvs|] eqn:E; [|done]. injection H as <-. apply length_mapM in E. by destruct l, kvs.
Qed.
Lemma delete_request_ok {rs : Rows} ctx t q a wide : delete_request ctx t q = Ok (a, wide) →
  bulk_gate ctx t = Ok tt ∧ wide = whole a ∧ (wide = true → x_confirm_scope q = Some "tenant") ∧
  (x_exclude_ids q = Some [] → x_metadata_filter q = Object [] → a = plain_args q).
Proof.
  unfold delete_request. intros H. apply bind_ok in H as ([] & Hg & H).
  apply bind_ok in H as (ids & Hids & H). apply bind_ok in H as (? & Hc%raise_if_ok & H). apply bind_ok in H as (pairs & Hp & H).
  cbn [x_exclude_ids x_metadata_filter x_confirm_scope] in *. apply checked_filter_ok in Hp as [Hp Hp']. injection H as <- <-.
  split; [done|]. split; [|split].
  - unfold is_tenant_wide, whole. cbn. by rewrite Hp, negb_involutive.
  - intros Hw. rewrite Hw in Hc. by apply negb_false_iff, bool_decide_eq_true in Hc.
  - intros He Hm. rewrite Hp' by done. rewrite He in Hids. injection Hids as <-. done.
Qed.

Lemma delete_all_ok {rs : Rows} ctx t q now s s' : delete_all_memories ctx t q now s = (Ok tt, s') →
  ∃ a wide, delete_request ctx t q = Ok (a, wide) ∧ t ≠ "" ∧ st_db s' = (memory_soft_delete_by_filter t a now (st_db s)).2.
Proof.
  unfold delete_all_memories. intros H. destruct (_ ≫= _) as [[a wide]|] eqn:E; [|done].
  apply bind_ok in E as ([a' wide'] & Ha & E). apply bind_ok in E as (t' & Ht & E). injection E as -> ->.
  destruct (memory_soft_delete_by_filter _ _ _ _) as [n db] eqn:Ed. injection H as <-. exists a, wide.
  split; [done|]. split; [|by rewrite Ed]. intros ->. done.
Qed.

(** C13: a delete by filters empties the list of the same filters, for whoever reads it; what it changes
    is what a person's list showed and the live rows derived from a row of that list. *)
Theorem delete_takes_what_is_listed {rs : Rows} ctx t q now s s' rctx a :
  delete_all_memories ctx t q now s = (Ok tt, s') → x_exclude_ids q = Some [] → x_metadata_filter q = Object [] →
  list_request rctx (same_filters t q) = Ok a →
  (∀ r, r ∈ db_rows (st_db s') → listed_row a (r_mem r) = false) ∧
  (is_person rctx = true → x_run_id q ≠ Some "" → ∀ k r r',
     db_rows (st_db s) !! k = Some r → db_rows (st_db s') !! k = Some r' → r' ≠ r →
     listed_row a (r_mem r) = true ∨
     ∃ p, p ∈ db_rows (st_db s) ∧ listed_row a (r_mem p) = true ∧ parent_memory_id r = Some (row_id p)).
Proof.
  intros (args & wide & Hreq & Ht & ->)%delete_all_ok Hex Hmf Ha.
  assert (args = plain_args q) as ->.
  { apply delete_request_ok in Hreq. tauto. }
  apply same_filters_request in Ha as (caller & cursor & -> & Hcaller); [|done]. unfold memory_soft_delete_by_filter. cbn [e_exclude_ids plain_args].
  split.
  - intros r Hr%soft_delete_gone. apply not_true_iff_false. intros Hl.
    apply (listed_selected t q caller (tenant_id rctx) cursor (is_person rctx) r) in Hl. congruence.
  - intros Hp Hrun k r r' Hk Hk' Hne. rewrite Hp in *.
    destruct (listed_selected t q caller (tenant_id rctx) cursor true r) as [_ Hsel].
    destruct (soft_delete_reach _ _ _ _ _ _ _ Hk Hk' Hne) as [Hs|(_ & _ & p & Hin & Hs & Hpar)]; [left; auto|right].
    exists p. split; [done|]. split; [|done].
    apply (listed_selected t q caller (tenant_id rctx) cursor true p); auto.
Qed.

(** ** The wipe *)

(** A row no narrowing filter of a delete lets through. *)
Definition bystander (t : string) (a : delete_args) : life_row :=
  LifeRow (StoredMemory (default "" (head (e_exclude_ids a))) t None (default "" (e_agent_id a) +:+ "x")
             (default (default "" (e_memory_type a) +:+ "x") (head (e_exclude_memory_types a))) "scope_team"
             (if bool_decide (e_status a = Some "active") then "pending" else "active") None None None None None None "unverified" true
             None None 0 None None)
    "" None None None None ∅ ∅ None None None None None None.

Lemma clause_false p l : p ∈ l → holds p = false → holds (and_ l) = false.
Proof. intros Hp Hf. apply not_true_iff_false. rewrite holds_and_iff, Forall_forall. intros H. rewrite (H p Hp) in Hf. done. Qed.
Lemma where_set_clause x f v : x = Some v → v ≠ "" → f v ∈ where_set x f.
Proof. intros -> Hv. cbn. rewrite bool_decide_false by done. set_solver. Qed.
Lemma nonempty_some x : nonempty x = true → ∃ v, x = Some v ∧ v ≠ "".
Proof. destruct x as [v|]; cbn; [|done]. intros H%negb_true_iff%bool_decide_eq_false. eauto. Qed.
Lemma appended_differs (v : string) : v +:+ "x" ≠ v.
Proof. intros H. apply (f_equal String.length) in H. rewrite string_length_app in H. cbn in H. lia. Qed.

Lemma bystander_spared t a : whole a = false → selected t (delete_filter a) (e_exclude_ids a) (bystander t a) = false.
Proof.
  intros Hw. unfold whole in Hw. apply negb_false_iff in Hw. unfold selected.
  assert (∀ p, p ∈ delete_filter a (bystander t a) → holds p = false →
    holds (and_ ([text_is (q_tenant_id (r_mem (bystander t a))) t; not_deleted (r_mem (bystander t a)); not_quarantined (r_mem (bystander t a))] ++
      delete_filter a (bystander t a) ++
      where_if (nonempty_list (e_exclude_ids a)) (text_not_in (row_id (bystander t a)) (e_exclude_ids a)))) = false) as Hclause.
  { intros p Hp. apply clause_false. rewrite !elem_of_app. auto. }
  unfold delete_filter in Hclause at 1. repeat rewrite orb_true_iff in Hw.
  destruct Hw as [[[[[[[[[Hw|Hw]|Hw]|Hw]|Hw]|Hw]|Hw]|Hw]|Hw]|Hw].
  1-5: apply nonempty_some in Hw as (v & Hv & Hne).
  - apply (Hclause (col_is None v)); [rewrite !elem_of_app; left; by eapply where_set_clause|done].
  - apply (Hclause (text_is (default "" (e_agent_id a) +:+ "x") v)).
    + rewrite !elem_of_app. right. left. by eapply where_set_clause.
    + rewrite Hv. apply bool_decide_eq_false, appended_differs.
  - destruct (e_exclude_memory_types a) as [|x xs] eqn:Ex.
    + apply (Hclause (text_is (default "" (e_memory_type a) +:+ "x") v)).
      * rewrite !elem_of_app. do 2 right. left. cbn [bystander r_mem q_memory_type]. rewrite Ex. by eapply where_set_clause.
      * rewrite Hv. apply bool_decide_eq_false, appended_differs.
    + apply (Hclause (text_not_in x (x :: xs))).
      * rewrite !elem_of_app. do 5 right. left. cbn [bystander r_mem q_memory_type]. rewrite Ex. cbn. set_solver.
      * cbn. apply negb_false_iff, bool_decide_eq_true. set_solver.
  - apply (Hclause (text_is (if bool_decide (e_status a = Some "active") then "pending" else "active") v)).
    + rewrite !elem_of_app. do 3 right. left. by eapply where_set_clause.
    + rewrite Hv. apply bool_decide_eq_false. case_bool_decide as Hb; [by injection Hb as ->|by intros <-].
  - apply (Hclause (col_is None v)); [rewrite !elem_of_app; do 4 right; left; by eapply where_set_clause|done].
  - destruct (e_exclude_memory_types a) as [|x xs] eqn:Ex; [done|]. apply (Hclause (text_not_in x (x :: xs))).
    + rewrite !elem_of_app. do 5 right. left. cbn [bystander r_mem q_memory_type]. rewrite Ex. cbn. set_solver.
    + cbn. apply negb_false_iff, bool_decide_eq_true. set_solver.
  - apply bool_decide_eq_true in Hw as [v Hv]. apply (Hclause None); [|done].
    rewrite !elem_of_app. do 6 right. left. rewrite Hv. cbn. set_solver.
  - apply bool_decide_eq_true in Hw as [v Hv]. apply (Hclause None); [|done].
    rewrite !elem_of_app. do 7 right. left. rewrite Hv. cbn. set_solver.
  - destruct (e_exclude_ids a) as [|i is_] eqn:Ee; [done|]. eapply (clause_false (text_not_in i (i :: is_))).
    + rewrite !elem_of_app. right. right. unfold row_id. cbn [bystander r_mem q_id]. rewrite Ee. cbn. set_solver.
    + cbn. apply negb_false_iff, bool_decide_eq_true. set_solver.
  - destruct (e_metadata_filter a) as [|[key v] kvs] eqn:Em; [done|]. apply (Hclause (meta_is key v (bystander t a))).
    + rewrite !elem_of_app. do 8 right. apply list_elem_of_fmap. exists (key, v). split; [done|by left].
    + unfold meta_is. cbn [bystander r_metadata]. by rewrite lookup_empty.
Qed.

(** A delete that would take every memory the tenant can have is one the caller confirmed. *)
Theorem a_wipe_is_confirmed {rs : Rows} ctx t q a wide :
  delete_request ctx t q = Ok (a, wide) →
  (∀ r, of_tenant t r → q_deleted_at (r_mem r) = None → q_status (r_mem r) ≠ QUARANTINED_MEMORY_STATUS →
     selected t (delete_filter a) (e_exclude_ids a) r = true) →
  x_confirm_scope q = Some "tenant".
Proof.
  intros (_ & -> & Hc & _)%delete_request_ok Hall. destruct (whole a) eqn:Hw; [auto|].
  pose proof (bystander_spared t a Hw) as Hs. rewrite Hall in Hs; [done..|]. cbn. by case_bool_decide.
Qed.

(** ** Reassignment *)

Lemma filter_partition {A} (f : A → bool) l :
  (length (filter (λ x, f x = false) l) + length (filter (λ x, f x = true) l) = length l)%nat.
Proof. induction l as [|x l IH]; [done|]. rewrite !filter_cons. destruct (f x); repeat case_decide; cbn; try done; lia. Qed.

Lemma found_and_not t ids rows : NoDup (row_id <$> rows) → NoDup ids →
  (length (matching (lockable t ids) rows) + length (filter (λ i, i ∉ row_id <$> matching (lockable t ids) rows) ids) = length ids)%nat.
Proof.
  intros Hnd Hids. set (found := row_id <$> matching (lockable t ids) rows).
  assert (length (matching (lockable t ids) rows) = length (filter (λ i, i ∈ found) ids)) as ->.
  { transitivity (length found); [unfold found; by rewrite length_fmap|]. apply Permutation_length, NoDup_Permutation.
    - by apply NoDup_fmap_filter.
    - by apply NoDup_filter.
    - intros i. rewrite list_elem_of_filter. split; [|tauto]. intros Hi. split; [done|].
      apply elem_ids in Hi as (r & <- & Hl & _). unfold lockable in Hl. sql_cases. tauto. }
  clearbody found. clear. induction ids as [|i ids IH]; [done|]. rewrite !filter_cons. repeat case_decide; cbn; try done; lia.
Qed.

(** A reassignment is an admin agent's. It counts every id once, as moved, already the target's or
    not found; every row found is then the target's, one it moved private to nobody else; and it
    touches no other row. *)
Theorem reassignment_accounts {rs : Rows} ctx t agent_id ids target s o s' :
  redistribute_memories ctx t agent_id ids target s = (Ok o, s') → NoDup (row_id <$> db_rows (st_db s)) → NoDup ids →
  (∃ c, lookup t agent_id true = Some c ∧ 3 ≤ trust_level c) ∧
  (o_moved o + o_skipped o + length (o_not_found o) = length ids)%nat ∧
  ∀ k r r', db_rows (st_db s) !! k = Some r → db_rows (st_db s') !! k = Some r' →
    if lockable t ids r
    then q_agent_id (r_mem r') = canonical_service_agent_id target ∧ (r' = r ∨ q_visibility (r_mem r') ≠ "scope_agent")
    else r' = r.
Proof.
  intros H Hnd Hids. unfold redistribute_memories in H. destruct (_ ≫= _) as [target'|] eqn:E; [|done].
  apply bind_ok in E as (? & _ & E). apply bind_ok in E as (? & _ & E). apply bind_ok in E as (? & _ & E).
  apply bind_ok in E as (? & _ & E). apply bind_ok in E as (? & _ & E). apply bind_ok in E as (? & Hc & E).
  destruct (lookup t agent_id true) as [c|]; [|done]. destruct (Z.ltb_spec (trust_level c) 3); [done|].
  destruct (lookup t (canonical_service_agent_id target) true) as [c'|]; [|done]. destruct (_ <? _); [done|]. injection E as <-.
  injection H as <- <-. cbn [o_moved o_skipped o_not_found st_db db_rows].
  split; [by exists c|]. split.
  - rewrite <-(found_and_not t ids (db_rows (st_db s)) Hnd Hids). f_equal. apply (filter_partition (owned_by _)).
  - intros k r r' Hk Hk'. rewrite lookup_update, Hk in Hk'. injection Hk' as <-. destruct (lockable t ids r); cbn [andb]; [|done].
    destruct (owned_by _ r) eqn:Eo; cbn [negb]; [apply bool_decide_eq_true in Eo; auto|].
    split; [done|right]. cbn. by case_bool_decide.
Qed.

(** ** Witnesses *)

#[local] Instance admin_lower : SqlLower := lower.
#[local] Instance admin_order : Collation := sample_collation.
Definition admin_start : admin_state := AdminState life_samples [].
Definition person : auth_context := reader_context "acme" None true ["acme"].
Definition open_query : delete_query :=
  DeleteQuery (Some "north") None None (Some "active") None [] None None None (Some []) (Object []).


Lemma queue_is_walked_once_witness :
  follow 2 (held_page person "acme" None 1 (db_rows life_samples)) None
  = Some (Ok (queue_order "acme" None (db_rows life_samples))) ∧
  (q_id <$> queue_order "acme" None (db_rows life_samples)) = ["draft"].
Proof.
  split; [|by vm_compute].
  apply (queue_is_walked_once person "acme" None 1 (db_rows life_samples) 2); [by_compute| |reflexivity|vm_compute; lia].
  vm_compute. by repeat (apply Forall_cons; split; [eauto|]).
Defined.

Definition rolled_back : admin_state := AdminState sample_after (rollback_events person "acme" "s1" sample_rollback).
Lemma rollback_is_on_record_witness :
  let rs := reader_rows 3 in
  rollback_session person "acme" "s1" 100 admin_start = (Ok sample_rollback, rolled_back) ∧
  length (st_log rolled_back) = 5%nat ∧ is_person person = true.
Proof.
  intros rs. assert (rollback_session person "acme" "s1" 100 admin_start = (Ok sample_rollback, rolled_back)) as E.
  { vm_compute. reflexivity. }
  split; [exact E|]. split; [by vm_compute|].
  refine (proj1 (rollback_is_on_record person "acme" "s1" 100 admin_start sample_rollback rolled_back _ E)). by_compute.
Defined.

Lemma delete_takes_what_is_listed_witness :
  let rs := reader_rows 3 in
  ∃ a, list_request person (same_filters "acme" open_query) = Ok a ∧
  let '(answer, s') := delete_all_memories person "acme" open_query 100 admin_start in
    answer = Ok tt ∧
    (q_status ∘ r_mem <$> db_rows (st_db s')) = ["deleted"; "outdated"; "deleted"; "quarantined"; "quarantined"; "confirmed"] ∧
    ∀ r, r ∈ db_rows (st_db s') → listed_row a (r_mem r) = false.
Proof.
  intros rs. eexists. split; [reflexivity|].
  destruct (delete_all_memories person "acme" open_query 100 admin_start) as [answer s'] eqn:E.
  assert (answer = Ok tt) as Ha by (apply (f_equal fst) in E; vm_compute in E; by rewrite <-E). split; [done|].
  split; [apply (f_equal (λ x, q_status ∘ r_mem <$> db_rows (st_db x.2))) in E; cbn [snd] in E; rewrite <-E; by vm_compute|].
  subst answer. apply (delete_takes_what_is_listed person "acme" open_query 100 admin_start s' person _ E eq_refl eq_refl eq_refl).
Defined.

Lemma a_wipe_is_confirmed_witness :
  let rs := reader_rows 3 in
  let q := DeleteQuery None None None None None [] None None (Some "tenant") (Some []) (Object []) in
  ∃ a, delete_request person "acme" q = Ok (a, true) ∧ x_confirm_scope q = Some "tenant".
Proof.
  intros rs q. eexists. split; [reflexivity|]. eapply (a_wipe_is_confirmed person "acme" q _ true eq_refl).
  intros r Ht Hd Hq. change (holds (and_ [text_is (q_tenant_id (r_mem r)) "acme"; not_deleted (r_mem r); not_quarantined (r_mem r)]) = true).
  sql_cases. unfold of_tenant in Ht. tauto.
Defined.

Lemma reassignment_accounts_witness :
  let rs := reader_rows 3 in
  let '(answer, s') := redistribute_memories person "acme" "scout" ["plan"; "gone"; "draft"] "scout" admin_start in
  ∃ o, answer = Ok o ∧ o_skipped o = 2%nat ∧ o_not_found o = ["gone"] ∧
    (o_moved o + o_skipped o + length (o_not_found o))%nat = 3%nat.
Proof.
  intros rs. destruct (redistribute_memories person "acme" "scout" ["plan"; "gone"; "draft"] "scout" admin_start) as [answer s'] eqn:E.
  assert (answer = Ok (Redistribution 0 0 2 [] ["gone"])) as ->.
  { apply (f_equal fst) in E. cbn [fst] in E. rewrite <-E. by vm_compute. }
  eexists. split; [reflexivity|]. split; [reflexivity|]. split; [reflexivity|].
  apply (reassignment_accounts person "acme" "scout" ["plan"; "gone"; "draft"] "scout" admin_start _ s' E); by_compute.
Defined.

(** Storage runs the release, its answer is lost, and the client asks again: the memory is no longer
    held, so the person is told another reviewer came first, and no event says who released it. *)
Example a_lost_answer_is_a_decision_unrecorded :
  let rs := reader_rows 3 in
  let '(answer, s) := update_memory_status person "draft" "acme" (Some "active") (λ db, db) 1 100 admin_start in
  answer = Err (HTTPException 409 "This memory is no longer held.") ∧
  (q_status ∘ r_mem <$> db_rows (st_db s) !! 3%nat) = Some "active" ∧ st_log s = [].
Proof. by vm_compute. Qed.
