(* ===== verification/ProviderKeys.v ===== *)
(** * Tenants' provider keys, at rest and on the wire

    [common/settings_crypto.py] with core-api's [services/settings_crypto.py], the resolution, the
    display and the save of provider keys in [services/organization_settings.py], the enrich request
    that carries them ([common/events/memory_enrich_publisher.py]) and the worker that reads
    it ([core_worker/consumer.py]).

    [Fernet] is the cryptography package's: which keys it accepts, a token per key, text and nonce, and
    what a key reads of a token ([None] for [InvalidToken]). It is assumed to read back what it wrote. The
    digest a key's id is cut from is [Sha256]. A value of a settings section is a [pyval]. *)

From S2P Require Import Prelude PyStr PyVal Sha256 SettingsMerge.

#[local] Open Scope string_scope.
#[local] Open Scope list_scope.

Class Fernet : Type := FernetOf {
  fernet_valid : string → bool;
  fernet_encrypt : string → string → nat → string;
  fernet_decrypt : string → string → option string;
  fernet_reads : ∀ k v n, fernet_valid k = true → fernet_decrypt k (fernet_encrypt k v n) = Some v
}.

Definition PREFIX : string := "enc:v2:".
Definition LEGACY_PREFIX : string := "enc:v1:".
Definition PROVIDER_KEY_FIELDS : list string := ["openai_api_key"; "anthropic_api_key"; "openrouter_api_key"; "gemini_api_key"].
Definition ProviderKeyDecryptionError : exn :=
  PyError "ProviderKeyDecryptionError" "Configured provider key could not be decrypted".

Definition key_id (key : string) : string := str_take 16 (hexdigest (sha256 (utf8 key))).

Section Cipher.
Context {fernet : Fernet}.

Record cipher : Type := Cipher { c_key : string; c_readers : list (string * string) }.
Definition c_key_id (c : cipher) : string := key_id (c_key c).

(** The read keys of [SETTINGS_ENCRYPTION_PREVIOUS_KEYS]. *)
Definition previous (keys : string) : list string := filter (λ k, k ≠ "") (strip <$> split_on "," keys).
Definition read_keys (key previous_keys : string) : list string := key :: previous previous_keys.

Definition SettingsCipher (key previous_keys : string) : result exn cipher :=
  raise_if (negb (fernet_valid key)) (PyError "ValueError" "SETTINGS_ENCRYPTION_KEY must be a valid Fernet key");;
  raise_if (negb (forallb fernet_valid (read_keys key previous_keys)))
    (PyError "ValueError" "SETTINGS_ENCRYPTION_PREVIOUS_KEYS must contain Fernet keys");;
  Ok (Cipher key (fold_left (λ d k, dict_set (key_id k) k d) (read_keys key previous_keys) [])).

(** [value[len(p):]] of a value that starts with [p]. *)
Fixpoint drop_prefix (p s : string) : option string :=
  match p, s with
  | "", _ => Some s
  | String c p, String d s => if Ascii.eqb c d then drop_prefix p s else None
  | String _ _, "" => None
  end.

(** [MultiFernet]: the first reader that can. *)
Fixpoint first_reading (keys : list string) (token : string) : option string :=
  match keys with
  | [] => None
  | k :: keys => match fernet_decrypt k token with Some v => Some v | None => first_reading keys token end
  end.

Definition decrypt (c : cipher) (value : string) : result exn string :=
  let or_refuse (v : option string) := match v with Some v => Ok v | None => Err ProviderKeyDecryptionError end in
  match drop_prefix LEGACY_PREFIX value with
  | Some token => or_refuse (first_reading (c_readers c).*2 token)
  | None =>
      match drop_prefix PREFIX value with
      | Some rest =>
          or_refuse ('(kid, token) ← partition_at ":" rest; k ← dict_get kid (c_readers c); fernet_decrypt k token)
      | None => if startswith "enc:" value then Err ProviderKeyDecryptionError else Ok value
      end
  end.

Definition encrypt (c : cipher) (nonce : nat) (value : string) : result exn string :=
  value ← (if startswith "enc:" value then decrypt c value else Ok value);
  Ok (PREFIX +:+ c_key_id c +:+ ":" +:+ fernet_encrypt (c_key c) value nonce).
End Cipher.
#[global] Arguments cipher : clear implicits.

(** ** What a cipher reads *)

Lemma drop_prefix_app p s : drop_prefix p (p +:+ s) = Some s.
Proof. induction p as [|c p IH]; cbn; [done|]. by rewrite Ascii.eqb_refl. Qed.
Lemma drop_prefix_some p s r : drop_prefix p s = Some r → s = p +:+ r.
Proof.
  revert s. induction p as [|c p IH]; intros [|d s]; cbn; try (by intros [= ->]); try done.
  destruct (Ascii.eqb_spec c d) as [->|]; [|done]. by intros ->%IH.
Qed.
Lemma startswith_app p s r : startswith p (p +:+ s +:+ r) = true.
Proof. apply startswith_spec. by eexists. Qed.

Lemma str_take_all f n s : str_all f s = true → str_all f (str_take n s) = true.
Proof.
  revert s. induction n as [|n IH]; intros [|c s]; cbn; try done. intros [? ?]%andb_true_iff. rewrite IH by done. by destruct (f c).
Qed.
Lemma hex_digit_no_colon n : (n < 16)%N → negb (Ascii.eqb (hex_digit n) ":") = true.
Proof.
  intros Hn. assert (forallb (λ k, negb (Ascii.eqb (hex_digit (N.of_nat k)) ":")) (seq 0 16) = true) as E by by vm_compute.
  rewrite forallb_forall in E. specialize (E (N.to_nat n)). rewrite N2Nat.id in E. apply E, in_seq. lia.
Qed.
Lemma hex_no_colon s : str_all (λ c, negb (Ascii.eqb c ":")) (hexdigest s) = true.
Proof.
  induction s as [|c s IH]; [done|]. cbn [hexdigest str_all]. rewrite IH.
  assert (code c < 256)%N by (unfold code; pose proof (N_ascii_bounded c); lia).
  rewrite !hex_digit_no_colon; [done|apply N.mod_lt; lia|apply N.Div0.div_lt_upper_bound; lia].
Qed.

Lemma key_id_no_colon k : str_all (λ c, negb (Ascii.eqb c ":")) (key_id k) = true.
Proof. apply str_take_all, hex_no_colon. Qed.
#[local] Opaque key_id.

Section CipherFacts.
Context {fernet : Fernet}.

(** No two of the keys share an id. *)
Definition collision_free (keys : list string) : Prop := ∀ k k', k ∈ keys → k' ∈ keys → key_id k = key_id k' → k = k'.

Lemma SettingsCipher_ok k p c : SettingsCipher k p = Ok c →
  c_key c = k ∧ Forall (λ k, fernet_valid k = true) (read_keys k p) ∧
  c_readers c = fold_left (λ d k, dict_set (key_id k) k d) (read_keys k p) [].
Proof.
  unfold SettingsCipher. intros H. apply bind_ok in H as (? & _ & H). apply bind_ok in H as (? & Hv%raise_if_ok & H).
  injection H as <-. apply negb_false_iff in Hv. split; [done|]. split; [|done].
  rewrite forallb_forall in Hv. apply Forall_forall. intros y Hy. by apply Hv, list_elem_of_In.
Qed.
Lemma reader_kept keys k d : dict_get (key_id k) d = Some k → (∀ k', k' ∈ keys → key_id k' = key_id k → k' = k) →
  dict_get (key_id k) (fold_left (λ d k, dict_set (key_id k) k d) keys d) = Some k.
Proof.
  revert d. induction keys as [|x keys IH]; intros d Hd Hid; [done|]. cbn [fold_left]. apply IH; [|intros k' Hk'; apply Hid; by right].
  destruct (decide (key_id k = key_id x)) as [E|E].
  - rewrite (Hid x (list_elem_of_here _ _) (eq_sym E)). apply dict_get_set_eq.
  - rewrite dict_get_set_ne by exact E. exact Hd.
Qed.
Lemma reader_there keys k d : k ∈ keys → (∀ k', k' ∈ keys → key_id k' = key_id k → k' = k) →
  dict_get (key_id k) (fold_left (λ d k, dict_set (key_id k) k d) keys d) = Some k.
Proof.
  revert d. induction keys as [|x keys IH]; intros d Hk Hid; [set_solver|]. cbn [fold_left].
  assert (∀ k', k' ∈ keys → key_id k' = key_id k → k' = k) as Hid' by (intros k' Hk'; apply Hid; by right).
  apply elem_of_cons in Hk as [->|Hk]; [|by apply IH]. apply reader_kept; [apply dict_get_set_eq|exact Hid'].
Qed.

(** A cipher reads a token of a key among its own. *)
Lemma decrypt_token k p c x v n : SettingsCipher k p = Ok c → x ∈ read_keys k p → collision_free (read_keys k p) →
  decrypt c (PREFIX +:+ key_id x +:+ ":" +:+ fernet_encrypt x v n) = Ok v.
Proof.
  intros (_ & Hv & Hr)%SettingsCipher_ok Hx Hfree. unfold decrypt.
  change (drop_prefix LEGACY_PREFIX _) with (@None string). rewrite drop_prefix_app.
  change (key_id x +:+ ":" +:+ ?t) with (key_id x +:+ String ":" t).
  rewrite (partition_at_first ":" (key_id x)) by apply key_id_no_colon. cbn [mbind option_bind].
  rewrite Hr, (reader_there _ x); [|done|intros y Hy; by apply Hfree]. cbn [mbind option_bind].
  rewrite Forall_forall in Hv. by rewrite fernet_reads by auto.
Qed.
Lemma encrypt_plain c n v : startswith "enc:" v = false →
  encrypt c n v = Ok (PREFIX +:+ c_key_id c +:+ ":" +:+ fernet_encrypt (c_key c) v n).
Proof. intros Hv. unfold encrypt. by rewrite Hv. Qed.

(** C40: what one deployment encrypted, a later one that still lists its key among the read keys decrypts, and
    encrypts again under its own key. *)
Theorem key_survives_rotation k p c k' p' c' v n n' :
  SettingsCipher k p = Ok c → SettingsCipher k' p' = Ok c' → k ∈ read_keys k' p' → collision_free (read_keys k' p') →
  startswith "enc:" v = false →
  ∃ t t', encrypt c n v = Ok t ∧ decrypt c' t = Ok v ∧ encrypt c' n' t = Ok t' ∧ decrypt c' t' = Ok v ∧
    startswith (PREFIX +:+ c_key_id c' +:+ ":") t' = true.
Proof.
  intros Hc Hc' Hk Hfree Hv. destruct (SettingsCipher_ok _ _ _ Hc) as (Ek & _). destruct (SettingsCipher_ok _ _ _ Hc') as (Ek' & _).
  eexists _, _. split; [by apply encrypt_plain|]. unfold c_key_id. rewrite Ek, Ek'.
  assert (decrypt c' (PREFIX +:+ key_id k +:+ ":" +:+ fernet_encrypt k v n) = Ok v) as Hd by by eapply decrypt_token.
  split; [done|]. split; [|split].
  - unfold encrypt. change (startswith "enc:" (PREFIX +:+ _)) with true. cbn [mbind result_bind]. rewrite Hd. cbn. reflexivity.
  - unfold c_key_id. rewrite Ek'. by eapply decrypt_token; [|left|].
  - apply startswith_spec. exists (fernet_encrypt k' v n'). unfold c_key_id. by rewrite Ek', !string_app_assoc.
Qed.
End CipherFacts.

(** ** core-api: resolving, saving and showing a tenant's keys *)

Abbreviation key_section := (list (string * pyval)).

Section CoreApi.
Context {fernet : Fernet}.
(** [SETTINGS_ENCRYPTION_KEY] and [SETTINGS_ENCRYPTION_PREVIOUS_KEYS], the deployment's own provider keys, and
    the nonce a key's encryption draws. *)
Context (key previous_keys : string) (global : string → option string) (nonce : string → nat).

Definition _fernet : result exn (option cipher) :=
  if bool_decide (key = "") then Ok None else Some <$> SettingsCipher key previous_keys.
Definition encryption_enabled : bool := match _fernet with Ok (Some _) => true | _ => false end.

Definition needs_encryption (value : pyval) : bool :=
  match value, _fernet with
  | PStr v, Ok (Some c) => negb (bool_decide (v = "")) && negb (startswith (PREFIX +:+ c_key_id c +:+ ":") v)
  | _, _ => false
  end.
Definition encrypt_item (c : cipher) (kv : string * pyval) : result exn (string * pyval) :=
  match kv.2 with
  | PStr v => if bool_decide (v = "") then Ok kv else (λ t, (kv.1, PStr t)) <$> encrypt c (nonce kv.1) v
  | _ => Ok kv
  end.
Definition encrypt_api_keys (s : key_section) : result exn key_section :=
  c ← _fernet;
  match c with Some c => mapM (encrypt_item c) s | None => Ok s end.

Definition decrypt_api_key (value : pyval) : result exn pyval :=
  match value with
  | PStr v =>
      if startswith "enc:" v then
        match _fernet with Ok (Some c) => PStr <$> decrypt c v | _ => Err ProviderKeyDecryptionError end
      else Ok value
  | _ => Ok value
  end.

(** [ResolvedConfig.openai_api_key] and its like. *)
Definition api_key (ts : key_section) (name : string) : result exn pyval :=
  v ← decrypt_api_key (default PNone (dict_get name ts));
  Ok (if truthy v then v else match global name with Some g => PStr g | None => PNone end).

Definition encrypted_provider_keys (ts : key_section) : result exn key_section :=
  keys ← mapM (λ name, pair name <$> api_key ts name) PROVIDER_KEY_FIELDS;
  encrypt_api_keys (filter (λ kv, truthy kv.2 = true) keys).

(** *** The save and the display *)

Definition _DISPLAY_MASK : string := "****".
Definition _is_display_mask (v : pyval) : bool := match v with PStr s => startswith _DISPLAY_MASK s | _ => false end.
Definition _settings_display_view (keys : key_section) : key_section :=
  (λ kv, (kv.1, match kv.2 with PStr "" => PStr "" | PStr _ => PStr _DISPLAY_MASK | v => v end)) <$> keys.
Definition _validate_api_keys (keys : key_section) : result exn unit :=
  raise_if (negb (forallb (λ kv, match kv.2 with PNone | PStr _ => true | _ => false end) keys))
    (PyError "ValueError" "Settings key must be a string or null").
(** What [update_settings] sends storage of a payload's [api_keys]; none when it drops the section. *)
Definition saved_keys (payload : key_section) : result exn (option key_section) :=
  match filter (λ kv, _is_display_mask kv.2 = false) payload with
  | [] => Ok None
  | kept => _validate_api_keys kept;; Some <$> encrypt_api_keys kept
  end.

(** *** Keys stored before they were encrypted *)

(** What [_encrypt_legacy_api_keys] sends storage: the keys as read, and their ciphertexts. *)
Definition legacy_swap (api_keys : key_section) : result exn (list (string * string) * list (string * string)) :=
  let plaintext := filter (λ kv, needs_encryption kv.2 = true) api_keys in
  encrypted ← encrypt_api_keys plaintext;
  let strings (s : key_section) := omap (λ kv, pair kv.1 <$> as_str kv.2) s in
  Ok (strings plaintext, strings encrypted).

(** ** The enrich request *)

Record enrich_request : Type := EnrichRequest {
  n_encrypted_api_keys : list (string * string); n_credential_error : bool;
  n_plaintext : list (string * string);     (* the compatibility fields, which older publishers filled *)
  n_enrichment : option string * option string; n_fallback : option string * option string
}.

(** What an [except] clause of these names takes. *)
Definition raised (names : list string) (e : exn) : bool :=
  match e with PyError n _ => bool_decide (n ∈ names) | HTTPException _ _ => false end.

(** [publish_memory_enrich_request]. [fallback] and [enrichment] are what the tenant's configuration says of
    the models to use, or the exception reading it raised. *)
Definition publish_request (ts : key_section) (fallback enrichment : result exn (option string * option string)) :
    result exn enrich_request :=
  let read :=
    fb ← match fallback with
         | Err e => if raised ["AttributeError"; "KeyError"; "TypeError"] e then Ok (None, None) else Err e
         | r => r
         end;
    keys ← encrypted_provider_keys ts;
    strings ← match mapM (λ kv : string * pyval, v ← as_str kv.2; if startswith "enc:" v then Some (kv.1, v) else None) keys with
              | Some s => Ok s
              | None => Err (PyError "ValueError" "Settings encryption is required before publishing provider credentials")
              end;
    en ← enrichment;
    Ok (EnrichRequest strings false [] en fb) in
  match read with
  | Err e => if raised ["ProviderKeyDecryptionError"] e then Ok (EnrichRequest [] true [] (None, None) (None, None)) else Err e
  | r => r
  end.
End CoreApi.

(** The worker's [_build_tenant_config]: the credentials it enriches with. *)
Section Worker.
Context {fernet : Fernet} (key previous_keys : string).

Definition credential_of (c : cipher) (creds : list (string * option string)) (kv : string * string) :
    result exn (list (string * option string)) :=
  if negb (bool_decide (kv.1 ∈ PROVIDER_KEY_FIELDS)) || negb (startswith "enc:" kv.2) then Err ProviderKeyDecryptionError
  else (λ v, dict_set kv.1 (Some v) creds) <$> decrypt c kv.2.
Fixpoint foldM {S A} (f : S → A → result exn S) (s : S) (l : list A) : result exn S :=
  match l with [] => Ok s | x :: l => s ← f s x; foldM f s l end.
Definition worker_credentials (r : enrich_request) : result exn (list (string * option string)) :=
  raise_if (n_credential_error r) ProviderKeyDecryptionError;;
  let plain := (λ name, (name, dict_get name (n_plaintext r))) <$> PROVIDER_KEY_FIELDS in
  match n_encrypted_api_keys r with
  | [] => Ok plain
  | es => c ← SettingsCipher key previous_keys; foldM (credential_of c) plain es
  end.
End Worker.

(** ** What reaches whom *)

Lemma mapM_ok {A B} (f : A → result exn B) l k : mapM f l = Ok k ↔ Forall2 (λ x y, f x = Ok y) l k.
Proof.
  revert k. induction l as [|x l IH]; intros k; cbn.
  - split; [by intros [= <-]|]. by inversion 1.
  - split.
    + intros H. apply bind_ok in H as (y & Hy & H). apply bind_ok in H as (ys & Hys & H). injection H as <-.
      constructor; [done|by apply IH].
    + inversion 1 as [|? y ? ys Hy Hys]; subst. rewrite Hy. cbn. apply IH in Hys. by rewrite Hys.
Qed.

Section Delivery.
Context {fernet : Fernet}.

Definition carries (c : cipher) (e v : string * string) : Prop :=
  e.1 = v.1 ∧ v.1 ∈ PROVIDER_KEY_FIELDS ∧ startswith "enc:" e.2 = true ∧ decrypt c e.2 = Ok v.2.
Lemma credentials_fold c es vs creds : Forall2 (carries c) es vs →
  foldM (credential_of c) creds es = Ok (foldl (λ d v, dict_set v.1 (Some v.2) d) creds vs).
Proof.
  intros H. revert creds. induction H as [|[n t] [n' v] es vs (E & Hn & He & Hd) _ IH]; intros creds; [done|].
  cbn [fst snd] in *. subst n'. cbn [foldM foldl fst snd].
  assert (credential_of c creds (n, t) = Ok (dict_set n (Some v) creds)) as ->; [|apply IH].
  unfold credential_of. cbn [fst snd]. by rewrite bool_decide_true, He, Hd by done.
Qed.
Lemma credentials_get name (vs : list (string * string)) (creds : list (string * option string)) : NoDup vs.*1 →
  dict_get name (foldl (λ d v, dict_set v.1 (Some v.2) d) creds vs)
  = match dict_get name vs with Some v => Some (Some v) | None => dict_get name creds end.
Proof.
  revert creds. induction vs as [|[n v] vs IH]; intros creds; [done|]. intros [Hn Hnd]%NoDup_cons. cbn [foldl fst snd].
  rewrite IH by done. cbn [dict_get]. case_bool_decide as E.
  - subst. apply dict_get_None in Hn. cbn [fst] in Hn. by rewrite Hn, dict_get_set_eq.
  - by rewrite dict_get_set_ne.
Qed.

(** The keys a request should carry: those of a tenant that are set. *)
Definition set_keys (keys : key_section) : list (string * string) :=
  omap (λ kv : string * pyval, if truthy kv.2 then pair kv.1 <$> as_str kv.2 else None) keys.
Lemma set_keys_names keys : (set_keys keys).*1 ⊆ keys.*1.
Proof.
  intros n ([n' w] & -> & Hin)%list_elem_of_fmap. apply list_elem_of_omap in Hin as ([m u] & Hm & E). cbn in E.
  destruct (truthy u); [|done]. destruct (as_str u); [|done]. injection E as -> ->. apply list_elem_of_fmap. by exists (n', u).
Qed.
Lemma set_keys_get keys name : NoDup keys.*1 →
  dict_get name (set_keys keys)
  = match dict_get name keys with Some v => if truthy v then as_str v else None | None => None end.
Proof.
  induction keys as [|[n v] keys IH]; [done|]. rewrite fmap_cons. intros [Hn Hnd]%NoDup_cons. specialize (IH Hnd).
  unfold set_keys. cbn [omap list_omap dict_get fst snd]. fold (set_keys keys).
  assert (dict_get n (set_keys keys) = None) as Hno.
  { apply dict_get_None. intros Hin. by apply Hn, set_keys_names. }
  case_bool_decide as E; [subst n|]; destruct (truthy v); try done; destruct (as_str v) as [s|]; cbn; try done.
  - by rewrite bool_decide_true.
  - by rewrite bool_decide_false.
Qed.

Lemma set_keys_NoDup keys : NoDup keys.*1 → NoDup (set_keys keys).*1.
Proof.
  induction keys as [|[n v] keys IH]; [done|]. rewrite fmap_cons. intros [Hn Hnd]%NoDup_cons.
  unfold set_keys. cbn [omap list_omap fst snd]. fold (set_keys keys). specialize (IH Hnd).
  destruct (truthy v); [|done]. destruct (as_str v); [|done]. cbn. apply NoDup_cons. split; [|done].
  intros Hin. by apply Hn, set_keys_names.
Qed.
Lemma no_credentials_get name : name ∈ PROVIDER_KEY_FIELDS →
  dict_get name ((λ n, (n, @None string)) <$> PROVIDER_KEY_FIELDS) = Some None.
Proof.
  intros Hn. apply dict_get_NoDup; [by_compute|]. apply list_elem_of_fmap. by exists name.
Qed.

(** What is published is the set keys, each as a token of the publisher's. *)
Lemma published_tokens k p nonce keys enc strings k' p' c' :
  (∀ name v, (name, PStr v) ∈ keys → startswith "enc:" v = false) →
  keys.*1 = PROVIDER_KEY_FIELDS →
  encrypt_api_keys k p nonce (filter (λ kv, truthy kv.2 = true) keys) = Ok enc →
  mapM (λ kv : string * pyval, v ← as_str kv.2; if startswith "enc:" v then Some (kv.1, v) else None) enc = Some strings →
  SettingsCipher k' p' = Ok c' → k ∈ read_keys k' p' → collision_free (read_keys k' p') →
  Forall2 (carries c') strings (set_keys keys).
Proof.
  intros Hplain Hnames Henc Hstr Hc' Hk Hfree. apply mapM_Some in Hstr.
  assert (∀ kv, kv ∈ keys → kv.1 ∈ PROVIDER_KEY_FIELDS) as Hin.
  { intros kv Hkv. rewrite <-Hnames. apply list_elem_of_fmap. by exists kv. }
  unfold encrypt_api_keys in Henc. apply bind_ok in Henc as ([c|] & Hf & Henc).
  - apply mapM_ok in Henc. unfold _fernet in Hf. case_bool_decide; [done|].
    destruct (SettingsCipher k p) as [c0|] eqn:Hc; [|done]. injection Hf as <-.
    destruct (SettingsCipher_ok _ _ _ Hc) as (Ek & _).
    clear Hnames. revert enc strings Henc Hstr. induction keys as [|[n v] keys IH]; intros enc strings Henc Hstr.
    { inversion Henc; subst. inversion Hstr; subst. constructor. }
    assert (∀ enc strings, Forall2 (λ x y, encrypt_item nonce c0 x = Ok y) (filter (λ kv, truthy kv.2 = true) keys) enc →
       Forall2 (λ x y, (v ← as_str x.2; if startswith "enc:" v then Some (x.1, v) else None) = Some y) enc strings →
       Forall2 (carries c') strings (set_keys keys)) as IH'.
    { apply IH; [intros a w Ha; apply (Hplain a w); by right|intros kv Hkv; apply Hin; by right]. }
    clear IH. rewrite filter_cons in Henc. unfold set_keys. cbn [omap list_omap fst snd]. fold (set_keys keys).
    cbn [fst snd] in Henc. case_decide as Ht; [|rewrite (not_true_is_false _ Ht); by eapply IH'].
    inversion Henc as [|? e ? es He Hes]; subst. inversion Hstr as [|? s ? ss Hs Hss]; subst. rewrite Ht.
    unfold encrypt_item in He. destruct v as [| | | |v| |]; cbn [fst snd] in He; try (injection He as <-; done).
    case_bool_decide as Hne; [by subst v|].
    rewrite encrypt_plain in He by (apply (Hplain n v); by left). injection He as <-.
    cbn [as_str snd mbind option_bind fst] in Hs. change (startswith "enc:" (PREFIX +:+ _)) with true in Hs. injection Hs as <-.
    cbn. constructor; [|by eapply IH'].
    split; [done|]. split; [apply (Hin (n, PStr v)); by left|]. split; [done|]. cbn [snd]. unfold c_key_id.
    by eapply decrypt_token.
  - injection Henc as <-. destruct (filter _ keys) as [|[n v] l] eqn:Ef.
    + inversion Hstr; subst. replace (set_keys keys) with (@nil (string * string)); [constructor|].
      clear -Ef. induction keys as [|[n v] keys IH]; [done|]. rewrite filter_cons in Ef. case_decide as Ht; [done|].
      unfold set_keys. cbn [omap list_omap fst snd] in *. rewrite (not_true_is_false _ Ht). by apply IH.
    + inversion Hstr as [|? s ? ss Hs _]; subst. assert ((n, v) ∈ keys) as Hkv.
      { assert ((n, v) ∈ filter (λ kv : string * pyval, truthy kv.2 = true) keys) as H by (rewrite Ef; by left).
        by apply list_elem_of_filter in H as [_ H]. }
      destruct v; try done. cbn [fst snd as_str mbind option_bind] in Hs. by rewrite (Hplain _ _ Hkv) in Hs.
Qed.

End Delivery.

(** ** At rest *)

Section AtRest.
Context {fernet : Fernet} (k p : string) (nonce : string → nat).

Lemma fernet_made c : _fernet k p = Ok (Some c) → SettingsCipher k p = Ok c ∧ c_key c = k.
Proof.
  unfold _fernet. case_bool_decide; [done|]. destruct (SettingsCipher k p) as [c0|] eqn:E; [|done]. intros [= ->].
  split; [done|]. by apply SettingsCipher_ok in E as [? _].
Qed.
Lemma decrypt_api_key_enc c t : startswith "enc:" t = true → _fernet k p = Ok (Some c) →
  decrypt_api_key k p (PStr t) = PStr <$> decrypt c t.
Proof. intros Ht Hf. unfold decrypt_api_key. by rewrite Ht, Hf. Qed.
(** A ciphertext of a value the cipher can read says the same. *)
Lemma encrypt_reads c n v t : _fernet k p = Ok (Some c) → collision_free (read_keys k p) → encrypt c n v = Ok t →
  startswith (PREFIX +:+ c_key_id c +:+ ":") t = true ∧ decrypt_api_key k p (PStr t) = decrypt_api_key k p (PStr v).
Proof.
  intros Hf Hfree He. destruct (fernet_made c Hf) as [Hc Ek]. unfold encrypt in He. apply bind_ok in He as (w & Hw & He).
  assert (t = PREFIX +:+ c_key_id c +:+ ":" +:+ fernet_encrypt (c_key c) w n) as -> by (by injection He). split.
  { apply startswith_spec. exists (fernet_encrypt (c_key c) w n). by rewrite !string_app_assoc. }
  rewrite (decrypt_api_key_enc c) by done. unfold c_key_id. rewrite Ek, (decrypt_token k p c k w n) by (done || by left).
  destruct (startswith "enc:" v) eqn:Ev; [by rewrite (decrypt_api_key_enc c v), Hw by done|].
  injection Hw as <-. unfold decrypt_api_key. by rewrite Ev.
Qed.

(** With encryption enabled a save stores no key but as ciphertext of this deployment's key, one that reads
    as what was sent; a mask is no key and nothing is stored for it. *)
Theorem saved_keys_are_encrypted payload s name v :
  encryption_enabled k p = true → collision_free (read_keys k p) → saved_keys k p nonce payload = Ok (Some s) → (name, v) ∈ s →
  v = PNone ∨ v = PStr "" ∨
  ∃ c t w, v = PStr t ∧ _fernet k p = Ok (Some c) ∧ startswith (PREFIX +:+ c_key_id c +:+ ":") t = true ∧
    (name, PStr w) ∈ payload ∧ startswith _DISPLAY_MASK w = false ∧ decrypt_api_key k p v = decrypt_api_key k p (PStr w).
Proof.
  unfold encryption_enabled. intros Hen Hfree Hs Hv. destruct (_fernet k p) as [[c|]|] eqn:Hf; try done. clear Hen.
  assert (∀ kv, kv ∈ filter (λ kv : string * pyval, _is_display_mask kv.2 = false) payload → kv ∈ payload ∧ _is_display_mask kv.2 = false)
    as Hkept by (intros kv Hkv; by apply list_elem_of_filter in Hkv as [? ?]).
  unfold saved_keys in Hs. destruct (filter _ payload) as [|kv0 kept0] eqn:Ek; [done|]. rewrite <-Ek in Hs, Hkept.
  set (kept := filter _ payload) in *. clearbody kept. clear Ek.
  apply bind_ok in Hs as (? & Hval%raise_if_ok & Hs). apply negb_false_iff in Hval. rewrite forallb_forall in Hval.
  unfold encrypt_api_keys in Hs. rewrite Hf in Hs. cbn [mbind result_bind] in Hs.
  destruct (mapM (encrypt_item nonce c) kept) as [s'|] eqn:Em; [|done]. injection Hs as ->. apply mapM_ok in Em.
  apply list_elem_of_lookup in Hv as [i Hi]. destruct (Forall2_lookup_r _ _ _ _ _ Em Hi) as ([n w] & Hkv & Hit).
  apply list_elem_of_lookup_2 in Hkv. destruct (Hkept _ Hkv) as [Hpay Hmask].
  apply list_elem_of_In in Hkv. specialize (Hval _ Hkv). unfold encrypt_item in Hit. cbn [fst snd] in *.
  destruct w as [| | | |w| |]; try done; [by injection Hit as <- <-; left|].
  case_bool_decide as Hw; [injection Hit as <- <-; subst w; by right; left|].
  destruct (encrypt c (nonce n) w) as [t|] eqn:Ee; [|done]. injection Hit as <- <-. right. right.
  destruct (encrypt_reads c _ w t Hf Hfree Ee) as [Hpre Hd]. by exists c, t, w.
Qed.

(** Sending back what the display shows changes no key. *)
Theorem display_resaved_changes_no_key stored s name v :
  saved_keys k p nonce (_settings_display_view stored) = Ok (Some s) → (name, v) ∈ s → v = PNone ∨ v = PStr "".
Proof.
  unfold saved_keys. intros Hs Hv.
  assert (∀ kv, kv ∈ filter (λ kv : string * pyval, _is_display_mask kv.2 = false) (_settings_display_view stored) →
            match kv.2 with PNone | PStr _ => true | _ => false end = true → kv.2 = PNone ∨ kv.2 = PStr "") as Hkept.
  { intros [n w] [Hm Hin]%list_elem_of_filter Hstr. apply list_elem_of_fmap in Hin as ([n' u] & [= -> ->] & _). cbn [snd fst] in *.
    destruct u as [| | | |[|a u]| |]; try done; auto. }
  destruct (filter _ _) as [|kv0 kept0] eqn:Ek; [done|]. rewrite <-Ek in Hs, Hkept.
  set (kept := filter _ _) in *. clearbody kept. clear Ek.
  apply bind_ok in Hs as (? & Hval%raise_if_ok & Hs). apply negb_false_iff in Hval. rewrite forallb_forall in Hval.
  assert (∀ kv, kv ∈ kept → kv.2 = PNone ∨ kv.2 = PStr "") as Hall.
  { intros kv Hkv. apply Hkept; [done|]. apply Hval. by apply list_elem_of_In. }
  unfold encrypt_api_keys in Hs. destruct (_fernet k p) as [[c|]|]; cbn [mbind result_bind] in Hs; [| |done].
  - destruct (mapM (encrypt_item nonce c) kept) as [s'|] eqn:Em; [|done]. injection Hs as ->. apply mapM_ok in Em.
    apply list_elem_of_lookup in Hv as [i Hi]. destruct (Forall2_lookup_r _ _ _ _ _ Em Hi) as ([n w] & Hkv & Hit).
    apply list_elem_of_lookup_2 in Hkv. unfold encrypt_item in Hit. destruct (Hall _ Hkv) as [E|E]; cbn [snd fst] in E, Hit; subst w;
      cbn in Hit; injection Hit as <- <-; auto.
  - injection Hs as ->. by apply (Hall (name, v)).
Qed.

(** What storage finds of the keys core-api sent. *)
Lemma swapped_elem stored expected encrypted n e : (n, e) ∈ key_swap stored expected encrypted →
  ∃ v t, (n, v) ∈ expected ∧ dict_get n stored = Some (PStr v) ∧ e = PStr t ∧ dict_get n encrypted = Some t.
Proof.
  unfold key_swap. rewrite list_elem_of_omap. intros ([n' v] & Hin & E). cbn [fst snd] in E.
  destruct (existsb _ _ && py_eqb _ _) eqn:Eb; [|done]. injection E as -> <-. apply andb_true_iff in Eb as [Ep Eq].
  destruct (dict_get n encrypted) as [t|] eqn:Et; [|done]. exists v, t. split; [done|]. split; [|done].
  destruct (dict_get n stored) as [[| | | |w| |]|]; try (cbn in Eq; by repeat case_match).
  by apply bool_decide_eq_true in Eq as ->.
Qed.
Lemma swapped_names stored expected encrypted : NoDup expected.*1 → NoDup (key_swap stored expected encrypted).*1.
Proof.
  induction expected as [|[n v] l IH]; intros Hnd; [constructor|]. rewrite fmap_cons in Hnd. apply NoDup_cons in Hnd as [Hn Hnd].
  specialize (IH Hnd). unfold key_swap in *. cbn [omap list_omap fst snd]. destruct (_ && _); [|done]. rewrite fmap_cons.
  apply NoDup_cons. split; [|done]. cbn [fst]. intros ([m e] & E & Hin)%list_elem_of_fmap. cbn in E. subst m.
  apply (swapped_elem stored l encrypted) in Hin as (w & _ & Hw & _). apply Hn, list_elem_of_fmap. by exists (n, w).
Qed.

Lemma strings_of (s : key_section) n v : (n, v) ∈ omap (λ kv : string * pyval, pair kv.1 <$> as_str kv.2) s ↔ (n, PStr v) ∈ s.
Proof.
  rewrite list_elem_of_omap. split.
  - intros ([m u] & Hin & E). cbn in E. destruct u; try done. by injection E as -> ->.
  - intros Hin. by exists (n, PStr v).
Qed.
Lemma strings_names (s : key_section) : NoDup s.*1 → NoDup (omap (λ kv : string * pyval, pair kv.1 <$> as_str kv.2) s).*1.
Proof.
  induction s as [|[n u] s IH]; intros Hnd; [constructor|]. rewrite fmap_cons in Hnd. apply NoDup_cons in Hnd as [Hn Hnd].
  specialize (IH Hnd). cbn [omap list_omap fst snd]. destruct (as_str u) as [w|]; cbn; [|done]. apply NoDup_cons. split; [|done].
  intros ([m x] & E & Hin)%list_elem_of_fmap. cbn in E. subst m. apply strings_of in Hin. apply Hn, list_elem_of_fmap.
  by exists (n, PStr x).
Qed.

(** The swap of keys stored in plaintext, or under a key since replaced, leaves every key reading as it did,
    whatever was saved between core-api's read and storage's write. *)
Theorem legacy_swap_keeps_keys api_keys expected encrypted cur stored audit :
  encryption_enabled k p = true → collision_free (read_keys k p) →
  legacy_swap k p nonce api_keys = Ok (expected, encrypted) → NoDup api_keys.*1 →
  dict_get "api_keys" cur = Some (PDict stored) →
  ∃ cur' stored', (organization_settings_encrypt_api_keys expected encrypted (OrgStore (Some (PDict cur)) audit)).2.(os_row) = Some (PDict cur') ∧
    dict_get "api_keys" cur' = Some (PDict stored') ∧
    ∀ name, decrypt_api_key k p (default PNone (dict_get name stored')) = decrypt_api_key k p (default PNone (dict_get name stored)).
Proof.
  unfold encryption_enabled. intros Hen Hfree Hl Hnd Hcur. destruct (_fernet k p) as [[c|]|] eqn:Hf; try done. clear Hen.
  unfold legacy_swap in Hl. set (plain := filter _ api_keys) in *. assert (NoDup plain.*1) as Hpn by by apply NoDup_fmap_filter.
  clearbody plain. apply bind_ok in Hl as (enc & He & Hl). injection Hl as <- <-.
  unfold encrypt_api_keys in He. rewrite Hf in He. cbn [mbind result_bind] in He. apply mapM_ok in He.
  assert (∀ n v, (n, PStr v) ∈ plain → ∀ t, (n, PStr t) ∈ enc → decrypt_api_key k p (PStr t) = decrypt_api_key k p (PStr v)) as Hsame.
  { intros n v Hv t Ht. apply list_elem_of_lookup in Ht as [i Hi]. destruct (Forall2_lookup_r _ _ _ _ _ He Hi) as ([m u] & Hm & E).
    assert (m = n) as ->.
    { unfold encrypt_item in E. cbn [fst snd] in E. destruct u as [| | | |w| |]; try by injection E. case_bool_decide; [by injection E|].
      destruct (encrypt c _ w); [|done]. by injection E. }
    apply list_elem_of_lookup_2 in Hm. assert (u = PStr v) as ->.
    { apply (dict_get_NoDup n) in Hm, Hv; [|done..]. congruence. }
    unfold encrypt_item in E. cbn [fst snd] in E. case_bool_decide as Hne; [by injection E as ->|].
    destruct (encrypt c _ v) as [t'|] eqn:Ee; [|done]. injection E as ->. by apply (encrypt_reads c) in Ee as [_ ?]. }
  unfold organization_settings_encrypt_api_keys. cbn [os_row]. rewrite Hcur. set (swap := key_swap _ _ _).
  assert (NoDup swap.*1) as Hsn by apply swapped_names, strings_names, Hpn.
  assert (∀ n e, (n, e) ∈ swap → ∃ t v, e = PStr t ∧ dict_get n stored = Some (PStr v) ∧
            decrypt_api_key k p (PStr t) = decrypt_api_key k p (PStr v)) as Hswap.
  { intros n e (v & t & Hv & Hst & -> & Ht)%swapped_elem. exists t, v. split; [done|]. split; [done|].
    apply (Hsame n); [by apply strings_of|]. by apply strings_of, dict_get_elem. }
  clearbody swap. destruct swap as [|e0 swap0] eqn:Esw; [by exists cur, stored|]. rewrite <-Esw in *. clear Esw.
  cbn [snd os_row]. rewrite merge_settings_update_dict. cbn [foldl].
  exists (msu_step cur ("api_keys", PDict swap)), (foldl msu_step stored swap).
  split; [done|]. split.
  { rewrite msu_step_get, bool_decide_true, Hcur by done. cbn [msu_post msu_value]. by rewrite merge_settings_update_dict. }
  intros name. destruct (decide (name ∈ swap.*1)) as [Hin|Hin]; [|by rewrite msu_fold_get_other].
  apply list_elem_of_fmap in Hin as ([n e] & -> & Hin). cbn [fst]. destruct (Hswap n e Hin) as (t & v & -> & Hst & Hd).
  by rewrite (msu_fold_get _ _ n (PStr t)), Hst.
Qed.
End AtRest.

(** ** A deployment to try things on *)

#[local] Transparent key_id.

(** A cipher that marks a text with its key. *)
#[local] Instance sample_fernet : Fernet.
Proof.
  refine (FernetOf (λ k, negb (bool_decide (k = ""))) (λ k v _, k +:+ "|" +:+ v) (λ k t, drop_prefix (k +:+ "|") t) _).
  intros k v _ _. rewrite <-string_app_assoc. apply drop_prefix_app.
Defined.

Definition old_key : string := "key-of-last-year".
Definition new_key : string := "key-of-this-year".
Definition key_nonce (name : string) : nat := String.length name.
Definition no_global (name : string) : option string := None.

Lemma sample_collision_free : collision_free (read_keys new_key " key-of-last-year ,").
Proof.
  intros a b Ha Hb. assert (∀ x, x ∈ read_keys new_key " key-of-last-year ," → x = new_key ∨ x = old_key) as Hcase.
  { intros x Hx. change (x ∈ [new_key; old_key]) in Hx. set_solver. }
  assert (String.eqb (key_id new_key) (key_id old_key) = false) as Hne by by vm_compute.
  apply String.eqb_neq in Hne.
  destruct (Hcase a Ha) as [-> | ->], (Hcase b Hb) as [-> | ->]; intros E;
    [reflexivity|destruct (Hne E)|destruct (Hne (eq_sym E))|reflexivity].
Qed.

Lemma key_survives_rotation_witness :
  ∃ c c' t t', SettingsCipher old_key "" = Ok c ∧ SettingsCipher new_key " key-of-last-year ," = Ok c' ∧
    encrypt c 1 "sk-123" = Ok t ∧ decrypt c' t = Ok "sk-123" ∧ encrypt c' 2 t = Ok t' ∧ decrypt c' t' = Ok "sk-123".
Proof.
  destruct (SettingsCipher old_key "") as [c|] eqn:Hc; [|vm_compute in Hc; done].
  destruct (SettingsCipher new_key " key-of-last-year ,") as [c'|] eqn:Hc'; [|vm_compute in Hc'; done].
  destruct (key_survives_rotation old_key "" c new_key " key-of-last-year ," c' "sk-123" 1 2 Hc Hc') as (t & t' & H1 & H2 & H3 & H4 & _);
    [by_compute|apply sample_collision_free|done|].
  by exists c, c', t, t'.
Defined.

Definition tenant_keys : key_section := [("openai_api_key", PStr "sk-123"); ("gemini_api_key", PStr "enc:v2:0123:junk")].


Lemma saved_keys_are_encrypted_witness :
  let payload := [("openai_api_key", PStr "****"); ("gemini_api_key", PStr "g-9"); ("anthropic_api_key", PNone)] in
  ∃ s v, saved_keys new_key " key-of-last-year ," key_nonce payload = Ok (Some s) ∧ s.*1 = ["gemini_api_key"; "anthropic_api_key"] ∧
    ("gemini_api_key", v) ∈ s ∧ decrypt_api_key new_key " key-of-last-year ," v = Ok (PStr "g-9").
Proof.
  intros payload. destruct (saved_keys new_key " key-of-last-year ," key_nonce payload) as [[s|]|] eqn:Hs; try (vm_compute in Hs; done).
  assert (s.*1 = ["gemini_api_key"; "anthropic_api_key"]) as Hn by (vm_compute in Hs; by injection Hs as <-).
  assert (∃ v, ("gemini_api_key", v) ∈ s ∧ v ≠ PNone ∧ v ≠ PStr "") as (v & Hv & Hv1 & Hv2).
  { vm_compute in Hs. injection Hs as <-. eexists. split; [by left|]. done. }
  exists s, v. split; [done|]. split; [done|]. split; [done|].
  pose proof (saved_keys_are_encrypted new_key " key-of-last-year ," key_nonce payload s "gemini_api_key" v) as H.
  destruct H as [E|[E|(c & t & w & E & _ & _ & Hw & _ & Hd)]]; [by vm_compute|apply sample_collision_free|done..|].
  rewrite Hd. assert (w = "g-9") as ->; [|by vm_compute].
  unfold payload in Hw. apply elem_of_cons in Hw as [?|Hw]; [done|]. apply elem_of_cons in Hw as [[= ->]|Hw]; [done|].
  apply elem_of_cons in Hw as [?|Hw]; [done|]. by apply not_elem_of_nil in Hw.
Defined.

Lemma display_resaved_changes_no_key_witness :
  let stored := [("openai_api_key", PStr "enc:v2:0123:t"); ("gemini_api_key", PStr "")] in
  saved_keys new_key "" key_nonce (_settings_display_view stored) = Ok (Some [("gemini_api_key", PStr "")]) ∧
  ∀ v, ("gemini_api_key", v) ∈ [("gemini_api_key", PStr "")] → v = PNone ∨ v = PStr "".
Proof.
  intros stored. assert (saved_keys new_key "" key_nonce (_settings_display_view stored) = Ok (Some [("gemini_api_key", PStr "")])) as E
    by by vm_compute.
  split; [exact E|]. intros v. apply (display_resaved_changes_no_key new_key "" key_nonce stored _ "gemini_api_key" v E).
Defined.

Lemma legacy_swap_keeps_keys_witness :
  let cur := [("api_keys", PDict [("openai_api_key", PStr "sk-123"); ("gemini_api_key", PStr "saved meanwhile")])] in
  ∃ expected encrypted cur' stored',
    legacy_swap new_key " key-of-last-year ," key_nonce [("openai_api_key", PStr "sk-123"); ("gemini_api_key", PStr "g-9")] = Ok (expected, encrypted) ∧
    (organization_settings_encrypt_api_keys expected encrypted (OrgStore (Some (PDict cur)) [])).2.(os_row) = Some (PDict cur') ∧
    dict_get "api_keys" cur' = Some (PDict stored') ∧
    decrypt_api_key new_key " key-of-last-year ," (default PNone (dict_get "openai_api_key" stored')) = Ok (PStr "sk-123").
Proof.
  intros cur.
  destruct (legacy_swap new_key " key-of-last-year ," key_nonce [("openai_api_key", PStr "sk-123"); ("gemini_api_key", PStr "g-9")])
    as [[expected encrypted]|] eqn:E; [|vm_compute in E; done].
  destruct (legacy_swap_keeps_keys new_key " key-of-last-year ," key_nonce
    [("openai_api_key", PStr "sk-123"); ("gemini_api_key", PStr "g-9")] expected encrypted cur
    [("openai_api_key", PStr "sk-123"); ("gemini_api_key", PStr "saved meanwhile")] []) as (cur' & stored' & H1 & H2 & H3);
    [by vm_compute|apply sample_collision_free|exact E|by_compute|reflexivity|].
  exists expected, encrypted, cur', stored'. split; [done|]. split; [done|]. split; [done|]. by rewrite H3.
Defined.

(** A tenant whose own key is AtlasCloud's: an inline enrichment uses it, a deferred one never carries it,
    and the worker is left with its own account's. *)
Example worker_lacks_the_atlascloud_key :
  let ts := [("atlascloud_api_key", PStr "ac-7")] in
  api_key new_key "" no_global ts "atlascloud_api_key" = Ok (PStr "ac-7") ∧
  ∃ r creds, publish_request new_key "" no_global key_nonce ts (Ok (None, None)) (Ok (Some "atlascloud", None)) = Ok r ∧
    n_credential_error r = false ∧ worker_credentials new_key "" r = Ok creds ∧ dict_get "atlascloud_api_key" creds = None.
Proof. intros ts. split; [by vm_compute|]. eexists _, _. repeat split; by vm_compute. Qed.
