(* ===== verification/EventBus.v ===== *)
(** * The event bus: topics, subscriptions and the resolver

    [common/events]: the topic names and their rename ([topics.py]), the in-process bus
    ([inprocess.py]), the part of the Pub/Sub bus ([pubsub.py]) that names topics and
    subscriptions, and [get_event_bus] ([factory.py]), which builds one from the environment.
    What a pull loop does with a batch is [EventPull]; the identity of a broadcast
    subscription is [EventSlots].

    A handler is an element of any type. Google's client is a service: of a subscription, the
    development keeps the name it is pulled under and the topic it is attached to, and whether a
    create call succeeded is an argument. *)

From S2P Require Import Prelude PyStr PyVal.

#[local] Open Scope string_scope.
#[local] Open Scope list_scope.
#[local] Open Scope Z_scope.

(** ** Topics *)

Definition RENAMED_PREFIX : string := "caura.".
Definition renamed (topic : string) : string :=
  match partition_at "." topic with Some (_, rest) => RENAMED_PREFIX +:+ rest | None => topic end.
Definition family (topic : string) : string :=
  let parts := split_on "." topic in
  if (2 <? length parts)%nat then default "" (parts !! 1%nat) else "".

Definition Collaboration : list string := ["caura.collaboration.wake"].
Definition Memory : list string :=
  ["caura.memory.embed-requested"; "caura.memory.embedded"; "caura.memory.enrich-requested"; "caura.memory.enriched";
   "caura.memory.corrected"].
Definition Audit : list string := ["caura.audit.event-recorded"].
Definition Lifecycle : list string :=
  ["caura.lifecycle.archive-expired-requested"; "caura.lifecycle.archive-stale-requested";
   "caura.lifecycle.purge-soft-deleted-requested"; "caura.lifecycle.crystallize-requested";
   "caura.lifecycle.crystallize-on-demand-requested"; "caura.lifecycle.entity-link-requested";
   "caura.lifecycle.insights-requested"; "caura.lifecycle.embed-backfill-requested";
   "caura.lifecycle.forge-distill-requested"].
Definition Org : list string := ["caura.org.suppression-changed"; "caura.org.settings-changed"].
Definition all_topics : list string := Collaboration ++ Memory ++ Audit ++ Lifecycle ++ Org.

Definition FLIPPED_FAMILIES : list string := ["audit"; "lifecycle"; "memory"; "org"].
Definition known_families : list string := filter (λ f, f ≠ "") (family <$> all_topics).
Definition _validate_flipped_families : result exn unit :=
  raise_if (negb (forallb (λ f, bool_decide (f ∈ known_families)) FLIPPED_FAMILIES))
    (PyError "ValueError" "FLIPPED_FAMILIES names a family no topic declares").

Definition publish_name (topic : string) : string :=
  if bool_decide (family topic ∈ FLIPPED_FAMILIES) then renamed topic else topic.
Definition subscribe_names (topic : string) (dual : bool) : list string :=
  if dual then if bool_decide (renamed topic = topic) then [topic] else [topic; renamed topic] else [topic].
Definition unbound_publish_topics (dual : bool) : list string :=
  filter (λ t, publish_name t ∉ subscribe_names t dual) all_topics.

Lemma renamed_idempotent t : renamed (renamed t) = renamed t.
Proof. unfold renamed. destruct (partition_at "." t) as [[a rest]|] eqn:E; [done|by rewrite E]. Qed.
Lemma publish_bound_dual t : publish_name t ∈ subscribe_names t true.
Proof.
  unfold publish_name, subscribe_names. destruct (decide (renamed t = t)) as [E|E].
  - rewrite (bool_decide_true _ E), E. case_bool_decide; set_solver.
  - rewrite (bool_decide_false _ E). case_bool_decide; set_solver.
Qed.
Lemma subscribe_names_NoDup t dual : NoDup (subscribe_names t dual).
Proof. unfold subscribe_names. destruct dual; [case_bool_decide|]; repeat constructor; set_solver. Qed.
Lemma nothing_unbound dual : unbound_publish_topics dual = [].
Proof. destruct dual; by vm_compute. Qed.

(** Among the declared topics a name is bound for one topic only, whichever names are bound. *)
Lemma declared_names t t' dual : t ∈ all_topics → t' ∈ all_topics →
  publish_name t ∈ subscribe_names t' dual ↔ t' = t.
Proof.
  intros Ht Ht'.
  assert (forallb (λ a, forallb (λ b, forallb (λ d, bool_decide (publish_name a ∈ subscribe_names b d ↔ b = a)) [true; false])
            all_topics) all_topics = true) as H by by vm_compute.
  rewrite forallb_forall in H. apply list_elem_of_In in Ht, Ht'. specialize (H t Ht). rewrite forallb_forall in H.
  specialize (H t' Ht'). rewrite forallb_forall in H. apply (bool_decide_unpack _), Is_true_true, H. destruct dual; cbn; auto.
Qed.

(** ** Subscriptions *)

Section Bus.
Context {H : Type}.

(** [_handlers], a [defaultdict(list)]. *)
Abbreviation handlers := (list (string * list H)).
Definition bind_name (h : H) (d : handlers) (name : string) : handlers :=
  dict_set name (default [] (dict_get name d) ++ [h]) d.
Definition subscribe_all (dual : bool) (subs : list (string * H)) : handlers :=
  fold_left (λ d s, fold_left (bind_name s.2) (subscribe_names s.1 dual) d) subs [].

(** [InProcessEventBus.publish]: the handlers a task is created for. *)
Definition dispatched (subs : list (string * H)) (topic : string) : list H :=
  default [] (dict_get (publish_name topic) (subscribe_all true subs)).

(** Who subscribed a name. *)
Definition subscribers (dual : bool) (subs : list (string * H)) (name : string) : list H :=
  snd <$> filter (λ s, name ∈ subscribe_names s.1 dual) subs.

Lemma bind_names h names d name : NoDup names →
  default [] (dict_get name (fold_left (bind_name h) names d))
  = default [] (dict_get name d) ++ (if bool_decide (name ∈ names) then [h] else []).
Proof.
  intros Hnd. revert d. induction Hnd as [|n ns Hn Hnd IH]; intros d; cbn [fold_left]; [by rewrite app_nil_r|].
  rewrite IH. unfold bind_name. destruct (decide (n = name)) as [->|Hne].
  - rewrite dict_get_set_eq. cbn. rewrite !bool_decide_false by done. rewrite app_nil_r. rewrite bool_decide_true by set_solver. done.
  - rewrite dict_get_set_ne by done. f_equal. repeat case_bool_decide; set_solver.
Qed.
Lemma subscribed dual subs name : default [] (dict_get name (subscribe_all dual subs)) = subscribers dual subs name.
Proof.
  unfold subscribe_all, subscribers.
  assert (∀ d, default [] (dict_get name (fold_left (λ d s, fold_left (bind_name s.2) (subscribe_names s.1 dual) d) subs d))
    = default [] (dict_get name d) ++ (snd <$> filter (λ s, name ∈ subscribe_names s.1 dual) subs)) as E; [|by rewrite E].
  induction subs as [|[t h] subs IH]; intros d; cbn [fold_left]; [by rewrite app_nil_r|].
  rewrite IH, bind_names by apply subscribe_names_NoDup. rewrite <-app_assoc. f_equal. rewrite filter_cons. cbn [fst snd].
  case_decide; [by rewrite bool_decide_true|by rewrite bool_decide_false].
Qed.
Lemma bind_names_keys h names d : NoDup d.*1 → NoDup (fold_left (bind_name h) names d).*1.
Proof. revert d. induction names as [|n ns IH]; intros d Hd; [done|]. apply IH. by apply dict_set_NoDup. Qed.
Lemma subscribed_keys dual subs : NoDup (subscribe_all dual subs).*1.
Proof.
  unfold subscribe_all. assert (NoDup (@nil (string * list H)).*1) as Hd by constructor. revert Hd.
  generalize (@nil (string * list H)). induction subs as [|s subs IH]; intros d Hd; cbn [fold_left]; [done|].
  by apply IH, bind_names_keys.
Qed.

(** Of declared topics, an event published in process runs each handler of its topic once, in the order
    they subscribed, and no other. *)
Theorem dispatched_once_to_each subs t :
  t ∈ all_topics → Forall (λ s, s.1 ∈ all_topics) subs → dispatched subs t = snd <$> filter (λ s, s.1 = t) subs.
Proof.
  intros Ht Hs. unfold dispatched. rewrite subscribed. unfold subscribers. f_equal.
  induction Hs as [|[t' h] subs Hx Hs IH]; [done|]. rewrite !filter_cons. cbn [fst] in *. rewrite IH.
  pose proof (declared_names t t' true Ht Hx). repeat case_decide; tauto.
Qed.
End Bus.

Lemma dispatched_once_to_each_witness :
  dispatched [("caura.memory.embedded", 1%nat); ("caura.memory.enriched", 2%nat); ("caura.memory.embedded", 3%nat)]
    "caura.memory.embedded" = [1; 3]%nat.
Proof.
  apply (dispatched_once_to_each [("caura.memory.embedded", 1%nat); ("caura.memory.enriched", 2%nat); ("caura.memory.embedded", 3%nat)]);
    [by_compute|by_compute].
Defined.

(** ** The Pub/Sub bus *)

Record bus_config : Type := BusConfig {
  b_project_id : string; b_subscription_prefix : string; b_env : option string; b_max_messages : Z;
  b_topic_prefix : string; b_broadcast_project : string; b_dual_subscribe : bool
}.

(** [re.fullmatch(r"[a-z][a-z0-9-]{4,28}[a-z0-9]", p)] *)
Definition valid_project_id (p : string) : bool :=
  match p with String c _ => is_az c | "" => false end &&
  str_all (λ c, is_az c || is_digit c || Ascii.eqb c "-") p && negb (endswith "-" p) &&
  (6 <=? str_len p) && (str_len p <=? 30).

(** A value that is set and not blank. *)
Definition stripped (v : option string) : option string :=
  match v with Some e => if bool_decide (strip e = "") then None else Some (strip e) | None => None end.

Definition PubSubEventBus (project_id subscription_prefix : string) (env : option string) (max_messages : Z) (topic_prefix : string)
    (broadcast_subscription_project_id : option string) (dual_subscribe : bool) : result exn bus_config :=
  let broadcast := stripped broadcast_subscription_project_id in
  raise_if match broadcast with Some b => negb (valid_project_id b) || bool_decide (b = project_id) | None => false end
    (PyError "ValueError" "broadcast_subscription_project_id");;
  raise_if (negb (bool_decide (unbound_publish_topics dual_subscribe = []))) (PyError "ValueError" "dual_subscribe is off");;
  Ok (BusConfig project_id subscription_prefix (stripped env) max_messages topic_prefix
        (default project_id broadcast) dual_subscribe).

Definition _topic_name (c : bus_config) (topic : string) : string :=
  if bool_decide (b_topic_prefix c = "") then topic else b_topic_prefix c +:+ "--" +:+ topic.
(** Where an event is published: the project and the topic in it. *)
Definition topic_path (c : bus_config) (topic : string) : string * string :=
  (b_project_id c, _topic_name c (publish_name topic)).

Section Start.
Context {H : Type}.

(** A subscription a pull loop reads: its project and name, the topic it is attached to, its handlers. *)
Record pulled : Type := Pulled { l_project : string; l_name : string; l_topic : string * string; l_handlers : list H }.

Record subscription : Type := Subscription { u_topic : string; u_handler : H; u_broadcast : bool }.
Definition broadcast_topics (dual : bool) (subs : list subscription) : list string :=
  concat ((λ s, subscribe_names (u_topic s) dual) <$> filter (λ s, u_broadcast s = true) subs).

(** [start]: the loops it spawns and the subscriptions it marks failed. [created]: whether the create call
    of a broadcast subscription succeeded or found it there. *)
Definition start_one (c : bus_config) (slot : string) (created : string → bool) (broadcast : list string) (e : string * list H) :
    option pulled * list string :=
  let name := b_subscription_prefix c +:+ "--" +:+ _topic_name c e.1 in
  let attached := (b_project_id c, _topic_name c e.1) in
  if bool_decide (e.1 ∈ broadcast) then
    let name := name +:+ "--" +:+ slot in
    if created name then (Some (Pulled (b_broadcast_project c) name attached e.2), [])
    else (None, if bool_decide (b_broadcast_project c = b_project_id c) then [] else [name])
  else (Some (Pulled (b_project_id c) name attached e.2), []).
Definition start (c : bus_config) (slot : string) (created : string → bool) (subs : list subscription) : list pulled * list string :=
  let dual := b_dual_subscribe c in
  let each := start_one c slot created (broadcast_topics dual subs) <$>
    subscribe_all dual ((λ s, (u_topic s, u_handler s)) <$> subs) in
  (omap fst each, concat (each.*2)).

Lemma topic_name_inj c t t' : _topic_name c t = _topic_name c t' → t = t'.
Proof. unfold _topic_name. case_bool_decide; [done|]. by intros ?%string_app_inj_l%string_app_inj_l. Qed.

(** The loops of a name: the one of its entry. *)
Lemma loops_of c slot (d : list (string * list H)) br name :
  NoDup d.*1 →
  filter (λ l, l_topic l = (b_project_id c, _topic_name c name)) (omap fst (start_one c slot (λ _, true) br <$> d))
  = match dict_get name d with Some hs => omap fst [start_one c slot (λ _, true) br (name, hs)] | None => [] end.
Proof.
  assert (∀ e, ∃ l, (start_one c slot (λ _, true) br e).1 = Some l ∧ l_topic l = (b_project_id c, _topic_name c e.1)) as Hone.
  { intros e. unfold start_one. case_bool_decide; eexists; split; reflexivity. }
  induction d as [|[t hs] d IH]; [done|]. rewrite fmap_cons. intros [Ht Hd]%NoDup_cons.
  specialize (IH Hd). rewrite fmap_cons. cbn [dict_get].
  destruct (Hone (t, hs)) as (l & El & Etopic). destruct (start_one c slot (λ _, true) br (t, hs)) as [o f] eqn:E1.
  cbn [fst] in *. subst o. cbn [omap list_omap fst]. rewrite filter_cons, Etopic. case_bool_decide as Hn.
  - subst name. rewrite decide_True by done. setoid_rewrite IH. rewrite (proj2 (dict_get_None t d) Ht), E1. done.
  - rewrite decide_False; [exact IH|]. by intros [= ->%topic_name_inj].
Qed.
End Start.
#[global] Instance pulled_eq_dec {H} `{EqDecision H} : EqDecision (@pulled H).
Proof. solve_decision. Defined.
#[global] Arguments pulled : clear implicits.
#[global] Arguments subscription : clear implicits.

(** An event one bus publishes is pulled, where the topics and prefix agree, by at most one loop of another
    process, whose handlers are those that subscribed the event's topic: each runs once, whichever of
    the two buses binds renamed twins. *)
Theorem published_event_is_pulled {H} publisher consumer slot (subs : list (subscription H)) t :
  b_project_id publisher = b_project_id consumer → b_topic_prefix publisher = b_topic_prefix consumer →
  t ∈ all_topics → Forall (λ s, u_topic s ∈ all_topics) subs →
  let here := filter (λ l, l_topic l = topic_path publisher t) (start consumer slot (λ _, true) subs).1 in
  (length here ≤ 1)%nat ∧ concat (l_handlers <$> here) = u_handler <$> filter (λ s, u_topic s = t) subs.
Proof.
  intros Hproj Hpre Ht Hs. cbn zeta.
  replace (topic_path publisher t) with (b_project_id consumer, _topic_name consumer (publish_name t))
    by (unfold topic_path, _topic_name; by rewrite Hproj, Hpre).
  unfold start. cbn [fst]. rewrite loops_of by apply subscribed_keys.
  pose proof (subscribed (b_dual_subscribe consumer) ((λ s, (u_topic s, u_handler s)) <$> subs) (publish_name t)) as E.
  assert (subscribers (b_dual_subscribe consumer) ((λ s, (u_topic s, u_handler s)) <$> subs) (publish_name t)
          = u_handler <$> filter (λ s, u_topic s = t) subs) as Ewho.
  { unfold subscribers. clear E. induction Hs as [|s subs Hx Hs IH]; [done|].
    pose proof (declared_names t (u_topic s) (b_dual_subscribe consumer) Ht Hx) as Hd.
    rewrite fmap_cons, !filter_cons. cbn [fst snd]. repeat case_decide; rewrite ?fmap_cons, ?IH; tauto. }
  rewrite Ewho in E. destruct (dict_get _ _) as [hs|]; cbn in E; rewrite <-E; [|cbn; split; [lia|done]].
  cbn. unfold start_one. cbn [fst]. case_bool_decide; cbn; rewrite app_nil_r; split; done || lia.
Qed.

(** The loops of one topic in two processes of a service pull one subscription between them, or one each
    where the topic is broadcast and the processes' slots differ. *)
Theorem broadcasts_fan_out {H} c slot slot' (subs : list (subscription H)) l l' :
  l ∈ (start c slot (λ _, true) subs).1 → l' ∈ (start c slot' (λ _, true) subs).1 → l_topic l = l_topic l' → slot ≠ slot' →
  l_name l = l_name l' ↔ ∃ t, l_topic l = (b_project_id c, _topic_name c t) ∧ t ∉ broadcast_topics (b_dual_subscribe c) subs.
Proof.
  assert (∀ s k, k ∈ (start c s (λ _, true) subs).1 → ∃ t hs, l_topic k = (b_project_id c, _topic_name c t) ∧
    (start_one c s (λ _, true) (broadcast_topics (b_dual_subscribe c) subs) (t, hs)).1 = Some k) as Hk.
  { intros s k. unfold start. cbn [fst]. rewrite list_elem_of_omap. intros (o & Ho & Ek).
    apply list_elem_of_fmap in Ho as ([t hs] & -> & _). exists t, hs. split; [|done].
    unfold start_one in Ek. case_bool_decide; by injection Ek as <-. }
  intros (t & hs & Et & El)%Hk (t' & hs' & Et' & El')%Hk Htop Hslot.
  assert (t' = t) as ->.
  { rewrite Et, Et' in Htop. injection Htop as E. symmetry. by eapply topic_name_inj. }
  unfold start_one in El, El'. cbn [fst snd] in *. case_bool_decide as Hb; injection El as <-; injection El' as <-; cbn.
  - split; [|intros (u & [= <-%topic_name_inj] & Hu); done].
    intros E. repeat apply string_app_inj_l in E. by injection E.
  - split; [by exists t|done].
Qed.

Definition prod_bus (dual : bool) : bus_config := BusConfig "caura-prod" "core-api" (Some "production") 25 "prod" "caura-prod" dual.
Definition sample_subs : list (subscription nat) :=
  [Subscription "caura.org.settings-changed" 1%nat true; Subscription "caura.memory.enriched" 2%nat false;
   Subscription "caura.memory.enriched" 3%nat false].

Lemma published_event_is_pulled_witness :
  let here := filter (λ l, l_topic l = topic_path (prod_bus false) "caura.memory.enriched")
                (start (prod_bus true) "a-0" (λ _, true) sample_subs).1 in
  (length here ≤ 1)%nat ∧ concat (l_handlers <$> here) = [2; 3]%nat.
Proof.
  apply (published_event_is_pulled (prod_bus false) (prod_bus true) "a-0" sample_subs "caura.memory.enriched");
    [reflexivity|reflexivity|by_compute|by_compute].
Defined.

Lemma broadcasts_fan_out_witness :
  let l s := Pulled (H:=nat) "caura-prod" ("core-api--prod--caura.org.settings-changed--" +:+ s)
               ("caura-prod", "prod--caura.org.settings-changed") [1%nat] in
  l_name (l "a-0") ≠ l_name (l "a-1").
Proof.
  intros l. rewrite (broadcasts_fan_out (prod_bus false) "a-0" "a-1" sample_subs (l "a-0") (l "a-1"));
    [|by_compute|by_compute|reflexivity|done].
  intros (t & Ht & Hb). apply Hb.
  assert (_topic_name (prod_bus false) "caura.org.settings-changed" = _topic_name (prod_bus false) t) as E%topic_name_inj by exact (f_equal snd Ht).
  rewrite <-E. by_compute.
Defined.

(** ** The resolver *)

(** [int(s)]: a sign, and digits single underscores may part. *)
Fixpoint digits_of (need : bool) (acc : Z) (s : string) : option Z :=
  match s with
  | "" => if need then None else Some acc
  | String c s =>
      if is_digit c then digits_of false (10 * acc + Z.of_N (code c - 48)) s
      else if Ascii.eqb c "_" && negb need then digits_of true acc s else None
  end.
Definition int_of_str (s : string) : option Z :=
  match strip s with
  | String "+" r => digits_of true 0 r
  | String "-" r => Z.opp <$> digits_of true 0 r
  | r => digits_of true 0 r
  end.

Inductive event_bus : Type := InProcess | PubSub (c : bus_config).

Section Factory.
(** The environment, and whether Google's client is installed. *)
Context (getenv : string → option string) (sdk : bool).

(** [os.getenv(a) or os.getenv(b)], and what [not] makes of it. *)
Definition env_or (a b : string) : option string :=
  match getenv a with Some v => if bool_decide (v = "") then getenv b else Some v | None => getenv b end.
Definition env_set (v : option string) : result exn string :=
  match v with
  | Some v => if bool_decide (v = "") then Err (PyError "RuntimeError" "EVENT_BUS_BACKEND=pubsub requires") else Ok v
  | None => Err (PyError "RuntimeError" "EVENT_BUS_BACKEND=pubsub requires")
  end.
Definition is_affirmative (v : option string) : bool :=
  bool_decide (lower (strip (default "" v)) ∈ ["1"; "true"; "yes"; "on"]).
(** [EVENT_BUS_PUBSUB_MAX_MESSAGES], or the constructor's default. *)
Definition max_messages : result exn Z :=
  match getenv "EVENT_BUS_PUBSUB_MAX_MESSAGES" with
  | None | Some "" => Ok 25
  | Some raw =>
      match int_of_str raw with
      | Some n => if (1 <=? n) && (n <=? 1000) then Ok n else Err (PyError "RuntimeError" "EVENT_BUS_PUBSUB_MAX_MESSAGES")
      | None => Err (PyError "RuntimeError" "EVENT_BUS_PUBSUB_MAX_MESSAGES")
      end
  end.

Definition pubsub_bus : result exn event_bus :=
  project ← env_set (env_or "GCP_PROJECT_ID" "EVENT_BUS_PROJECT_ID");
  prefix ← env_set (getenv "EVENT_BUS_SUBSCRIPTION_PREFIX");
  let env := match stripped (getenv "EVENT_BUS_ENV") with Some e => Some e | None => stripped (getenv "ENVIRONMENT") end in
  n ← max_messages;
  raise_if (negb sdk) (PyError "RuntimeError" "PubSubEventBus requires google-cloud-pubsub");;
  PubSub <$> PubSubEventBus project prefix env n (default "" (stripped (getenv "EVENT_BUS_TOPIC_PREFIX")))
    (stripped (getenv "EVENT_BUS_BROADCAST_SUBSCRIPTION_PROJECT_ID")) (is_affirmative (getenv "EVENT_BUS_DUAL_SUBSCRIBE")).

(** The bus, and what the process remembers. *)
Definition get_event_bus (cached : option event_bus) : result exn event_bus * option event_bus :=
  match cached with
  | Some b => (Ok b, cached)
  | None =>
      let backend := lower (default "inprocess" (getenv "EVENT_BUS_BACKEND")) in
      let made :=
        if bool_decide (backend = "inprocess") then Ok InProcess
        else if bool_decide (backend = "pubsub") then pubsub_bus
        else Err (PyError "ValueError" "Unknown EVENT_BUS_BACKEND") in
      (made, match made with Ok b => Some b | Err _ => None end)
  end.
End Factory.

(** A Pub/Sub bus the resolver makes has a project, a prefix and a batch the API accepts, publishes no topic
    it would not bind, and keeps its broadcast subscriptions in its project or in another valid one; it
    is the bus of every later call. *)
Theorem resolved_bus_is_sound getenv sdk c kept :
  get_event_bus getenv sdk None = (Ok (PubSub c), kept) →
  (b_project_id c ≠ "" ∧ b_subscription_prefix c ≠ "" ∧ 1 ≤ b_max_messages c ≤ 1000 ∧ b_env c ≠ Some "") ∧
  (b_broadcast_project c = b_project_id c ∨ valid_project_id (b_broadcast_project c) = true) ∧
  (∀ t, t ∈ all_topics → publish_name t ∈ subscribe_names t (b_dual_subscribe c)) ∧
  ∀ getenv' sdk', get_event_bus getenv' sdk' kept = (Ok (PubSub c), kept).
Proof.
  unfold get_event_bus. case_bool_decide; [done|]. case_bool_decide; [|done].
  destruct (pubsub_bus getenv sdk) as [b|] eqn:E; [|done]. intros [= -> <-]. unfold pubsub_bus in E.
  apply bind_ok in E as (project & Hp & E). apply bind_ok in E as (prefix & Hx & E). apply bind_ok in E as (n & Hn & E).
  apply bind_ok in E as (? & _ & E). destruct (PubSubEventBus _ _ _ _ _ _ _) as [c'|] eqn:Ec; [|done].
  injection E as ->. unfold PubSubEventBus in Ec. apply bind_ok in Ec as (? & Hb%raise_if_ok & Ec).
  apply bind_ok in Ec as (? & _ & Ec). injection Ec as <-. cbn [b_project_id b_subscription_prefix b_max_messages b_env
    b_broadcast_project b_dual_subscribe].
  assert (∀ v w, env_set v = Ok w → w ≠ "") as Hset.
  { intros [v|] w; cbn; [|done]. case_bool_decide; [done|]. by intros [= <-]. }
  split; [split; [by eapply Hset|split; [by eapply Hset|split]]|split; [|split; [|done]]].
  - unfold max_messages in Hn. destruct (getenv "EVENT_BUS_PUBSUB_MAX_MESSAGES") as [[|a r]|]; cbn in Hn; [injection Hn as <-; lia| |injection Hn as <-; lia].
    destruct (int_of_str _) as [z|]; [|done]. destruct (_ && _) eqn:Ez; [|done]. injection Hn as <-. lia.
  - unfold stripped. repeat case_match; try done; case_bool_decide; congruence.
  - destruct (stripped (stripped _)) as [b|] eqn:Eb; [|by left]. right. cbn in *. apply orb_false_iff in Hb as [Hb _].
    by apply negb_false_iff.
  - intros t Ht. apply dec_stable. intros Hu.
    assert (t ∈ unbound_publish_topics (is_affirmative (getenv "EVENT_BUS_DUAL_SUBSCRIBE"))) as Hin
      by (by apply list_elem_of_filter).
    rewrite nothing_unbound in Hin. by apply not_elem_of_nil in Hin.
Qed.

Lemma resolved_bus_is_sound_witness :
  let getenv (n : string) : option string :=
    list_to_map (M:=gmap string string)
      [("EVENT_BUS_BACKEND", "PubSub"); ("EVENT_BUS_PROJECT_ID", "caura-prod"); ("EVENT_BUS_SUBSCRIPTION_PREFIX", "core-api");
       ("EVENT_BUS_TOPIC_PREFIX", "prod "); ("EVENT_BUS_ENV", "  "); ("ENVIRONMENT", "production");
       ("EVENT_BUS_DUAL_SUBSCRIBE", "flase"); ("EVENT_BUS_PUBSUB_MAX_MESSAGES", "")] !! n in
  get_event_bus getenv true None = (Ok (PubSub (prod_bus false)), Some (PubSub (prod_bus false))) ∧
  ∀ getenv' sdk', get_event_bus getenv' sdk' (Some (PubSub (prod_bus false))) = (Ok (PubSub (prod_bus false)), Some (PubSub (prod_bus false))).
Proof.
  intros getenv. assert (get_event_bus getenv true None = (Ok (PubSub (prod_bus false)), Some (PubSub (prod_bus false)))) as E
    by (by vm_compute).
  split; [exact E|]. apply (resolved_bus_is_sound getenv true (prod_bus false) _ E).
Defined.
