(* ===== verification/EventPull.v ===== *)
(** * A pulled batch: dispatched, leased, settled

    [_pull_loop] of [common/events/pubsub.py] over one batch, with [_foreign_source_env], [_decode],
    [_dispatch_all], [_replace_legacy_enrich_retry], [_nack_delay_seconds] and [_hold_leases].

    The first part is what the loop decides of each message. What a handler did, whether the bus was stopping
    when a message's turn came, and whether a replacement was confirmed are arguments, by the message's
    position. [json] with pydantic, which turn a message's bytes into an event, are the class [Decoder].

    The second part, Module [Lease], is the loop and its lease keeper as two tasks whose calls run on threads:
    a call in flight reaches Pub/Sub when it lands, and one that has returned does not land later. *)

From S2P Require Import Prelude PyStr PyVal ProviderKeys.

#[local] Open Scope string_scope.
#[local] Open Scope list_scope.
#[local] Open Scope Z_scope.

Definition NACK_BACKOFF_BASE_SECONDS : Z := 10.
Definition NACK_BACKOFF_MAX_SECONDS : Z := 600.

(** [None]: an attempt that is not an [int]. *)
Definition _nack_delay_seconds (delivery_attempt : option Z) : Z :=
  let attempt := default 0 delivery_attempt in
  if attempt <=? 1 then NACK_BACKOFF_BASE_SECONDS
  else Z.min (NACK_BACKOFF_BASE_SECONDS * 2 ^ Z.min (attempt - 1) 16) NACK_BACKOFF_MAX_SECONDS.

(** The delay doubles with each delivery, from ten seconds to ten minutes. *)
Lemma nack_delay_bounds a : 10 ≤ _nack_delay_seconds a ≤ 600.
Proof.
  unfold _nack_delay_seconds, NACK_BACKOFF_BASE_SECONDS, NACK_BACKOFF_MAX_SECONDS. destruct (Z.leb_spec (default 0 a) 1); [lia|].
  assert (1 ≤ 2 ^ Z.min (default 0 a - 1) 16) as Hp by (apply (Z.pow_le_mono_r 2 0); lia).
  revert Hp. generalize (2 ^ Z.min (default 0 a - 1) 16). lia.
Qed.
Lemma nack_delay_doubles a : 1 ≤ a →
  _nack_delay_seconds (Some (a + 1)) = Z.min (2 * _nack_delay_seconds (Some a)) 600.
Proof.
  intros Ha. unfold _nack_delay_seconds, NACK_BACKOFF_BASE_SECONDS, NACK_BACKOFF_MAX_SECONDS.
  change (default 0 (Some (a + 1))) with (a + 1). change (default 0 (Some a)) with a.
  destruct (Z.leb_spec (a + 1) 1); [lia|]. destruct (Z.leb_spec a 1).
  - replace a with 1 by lia. done.
  - destruct (decide (a ≤ 16)).
    + rewrite !(Z.min_l _ 16) by lia. replace (a + 1 - 1) with (Z.succ (a - 1)) by lia. rewrite Z.pow_succ_r by lia.
      generalize (2 ^ (a - 1)). lia.
    + rewrite !(Z.min_r _ 16) by lia. done.
Qed.

(** ** One message *)

Record message : Type := Message {
  g_ack_id : string; g_data : string; g_source_env : option string; g_delivery_attempt : option Z
}.
(** The parts of an [Event] the bus reads. *)
Record bus_event : Type := BusEvent { e_type : string; e_payload : list (string * pyval) }.
Class Decoder : Type := _decode : string → option bus_event.

Inductive outcome : Type := Returned | Raised | Cancelled.
#[global] Instance outcome_eq_dec : EqDecision outcome.
Proof. solve_decision. Defined.

Definition _foreign_source_env (env source_env : option string) : option string :=
  match env, source_env with
  | Some e, Some s => if bool_decide (s = "") || bool_decide (s = e) then None else Some s
  | _, _ => None
  end.

(** [None]: the [CancelledError] of a handler is raised again. *)
Definition _dispatch_all (results : list outcome) : option bool :=
  if bool_decide (Cancelled ∈ results) then None else Some (negb (bool_decide (Raised ∈ results))).

Definition ENRICH_REQUESTED : string := "caura.memory.enrich-requested".

Section Replace.
Context {fernet : Fernet} (key previous_keys : string) (nonce : string → nat).

(** The plaintext keys of an older publisher's payload. *)
Definition legacy_keys (payload : list (string * pyval)) : list (string * string) :=
  omap (λ name, match dict_get name payload with
                | Some (PStr v) => if bool_decide (v = "") then None else Some (name, v)
                | _ => None
                end) PROVIDER_KEY_FIELDS.
Definition add_encrypted (c : cipher) (encrypted : list (string * pyval)) (kv : string * string) : result exn (list (string * pyval)) :=
  t ← encrypt c (nonce kv.1) kv.2;
  Ok (if dict_mem kv.1 encrypted then encrypted else dict_set kv.1 (PStr t) encrypted).
(** [dict(v or {})]; a list of pairs, which [dict] also takes, is no value of the field. *)
Definition held_tokens (v : option pyval) : result exn (list (string * pyval)) :=
  match v with
  | Some (PDict d) => Ok d
  | Some v => if truthy v then Err (PyError "TypeError" "dict()") else Ok []
  | None => Ok []
  end.
(** [**event.payload, **dict.fromkeys(PROVIDER_KEY_FIELDS)] *)
Definition nulled (payload : list (string * pyval)) : list (string * pyval) :=
  foldl (λ d name, dict_set name PNone d) payload PROVIDER_KEY_FIELDS.
(** The event published in the place of one whose keys travel in plaintext. *)
Definition replacement (e : bus_event) : result exn (option bus_event) :=
  if negb (bool_decide (e_type e = ENRICH_REQUESTED)) then Ok None
  else match legacy_keys (e_payload e) with
       | [] => Ok None
       | legacy =>
           c ← SettingsCipher key previous_keys;
           encrypted ← held_tokens (dict_get "encrypted_api_keys" (e_payload e));
           encrypted ← foldM (add_encrypted c) encrypted legacy;
           Ok (Some (BusEvent (e_type e)
             (dict_set "encrypted_api_keys" (PDict encrypted)
               (nulled (e_payload e)))))
       end.
(** [confirmed]: what waiting for the broker's acceptance gave. *)
Definition _replace_legacy_enrich_retry (e : bus_event) (confirmed : result exn unit) : result exn bool :=
  r ← replacement e;
  match r with None => Ok false | Some _ => confirmed;; Ok true end.
End Replace.

(** ** The batch *)

Inductive disposition : Type := Acked | Nacked (delay : Z).
Record batch_settlement : Type := BatchSettlement { ack_ids : list string; nack_ids : list (Z * list string) }.

(** [nack_ids.setdefault(delay, []).append(id)] *)
Fixpoint add_nack (delay : Z) (id : string) (nacks : list (Z * list string)) : list (Z * list string) :=
  match nacks with
  | [] => [(delay, [id])]
  | (d, ids) :: nacks => if d =? delay then (d, ids ++ [id]) :: nacks else (d, ids) :: add_nack delay id nacks
  end.
Definition add_disposition (id : string) (d : disposition) (s : batch_settlement) : batch_settlement :=
  match d with
  | Acked => BatchSettlement (ack_ids s ++ [id]) (nack_ids s)
  | Nacked delay => BatchSettlement (ack_ids s) (add_nack delay id (nack_ids s))
  end.

Section Batch.
Context {fernet : Fernet} {decoder : Decoder} (key previous_keys : string) (nonce : string → nat) (env : option string).
(** Of the message at each position: whether the bus is stopping or draining when its turn comes, what each
    handler does with its event, and whether a replacement of it is confirmed. *)
Context (stopping : nat → bool) (run : nat → bus_event → list outcome) (confirmed : nat → result exn unit).

Definition settle_one (i : nat) (m : message) : option disposition :=
  if stopping i then Some (Nacked 0)
  else match _foreign_source_env env (g_source_env m) with
       | Some _ => Some Acked
       | None =>
           match _decode (g_data m) with
           | None => Some Acked
           | Some e =>
               success ← _dispatch_all (run i e);
               Some (if (success : bool) then Acked
                     else match _replace_legacy_enrich_retry key previous_keys nonce e (confirmed i) with
                          | Ok true => Acked
                          | _ => Nacked (_nack_delay_seconds (g_delivery_attempt m))
                          end)
           end
       end.

(** [None]: a handler's cancellation ended the loop, and nothing of the batch is settled. *)
Fixpoint settle_from (i : nat) (batch : list message) (s : batch_settlement) : option batch_settlement :=
  match batch with
  | [] => Some s
  | m :: batch => d ← settle_one i m; settle_from (S i) batch (add_disposition (g_ack_id m) d s)
  end.
Definition settle_batch (batch : list message) : option batch_settlement := settle_from 0 batch (BatchSettlement [] []).

(** The event of a message needs no more deliveries. *)
Definition is_done (i : nat) (m : message) : Prop :=
  (∃ other, _foreign_source_env env (g_source_env m) = Some other) ∨ _decode (g_data m) = None ∨
  ∃ e, _decode (g_data m) = Some e ∧
    (Forall (λ o, o = Returned) (run i e) ∨
     ∃ e', replacement key previous_keys nonce e = Ok (Some e') ∧ confirmed i = Ok tt).
(** Some handler of it failed. *)
Definition failed (i : nat) (m : message) : Prop := ∃ e, _decode (g_data m) = Some e ∧ Raised ∈ run i e.
End Batch.

(** What a settlement asks of one id. *)
Definition settles (s : batch_settlement) (id : string) (d : disposition) : Prop :=
  match d with
  | Acked => id ∈ ack_ids s
  | Nacked delay => ∃ ids, (delay, ids) ∈ nack_ids s ∧ id ∈ ids
  end.
Definition settled_ids (s : batch_settlement) : list string := ack_ids s ++ concat (nack_ids s).*2.
(** One request for each delay, and none for no message. *)
Definition one_each (s : batch_settlement) : Prop := NoDup (nack_ids s).*1 ∧ Forall (λ g, g.2 ≠ []) (nack_ids s).

Lemma add_nack_ids delay id nacks : concat (add_nack delay id nacks).*2 ≡ₚ concat nacks.*2 ++ [id].
Proof.
  induction nacks as [|[d ids] nacks IH]; simpl; [done|]. destruct (Z.eqb_spec d delay) as [->|]; simpl.
  - rewrite <- !app_assoc. f_equiv. by rewrite Permutation_app_comm.
  - by rewrite IH, app_assoc.
Qed.
Lemma add_nack_delays delay id nacks d : d ∈ (add_nack delay id nacks).*1 ↔ d = delay ∨ d ∈ nacks.*1.
Proof.
  induction nacks as [|[d' ids] nacks IH]; simpl; [set_solver|].
  destruct (Z.eqb_spec d' delay) as [->|]; simpl; [set_solver|]. rewrite !elem_of_cons, IH. naive_solver.
Qed.
Lemma add_nack_group delay id nacks d id' :
  (∃ ids, (d, ids) ∈ add_nack delay id nacks ∧ id' ∈ ids) ↔ (d = delay ∧ id' = id) ∨ ∃ ids, (d, ids) ∈ nacks ∧ id' ∈ ids.
Proof.
  induction nacks as [|[d' ids] nacks IH]; simpl.
  - split.
    + intros (l & [= -> ->]%list_elem_of_singleton & ->%list_elem_of_singleton). by left.
    + intros [[-> ->]|(l & Hl%elem_of_nil & _)]; [|done]. exists [id]. split; by apply list_elem_of_singleton.
  - destruct (Z.eqb_spec d' delay) as [->|]; simpl; setoid_rewrite elem_of_cons; [|naive_solver]. split.
    + intros (l & [[= -> ->]|Hl] & Hi); [|by eauto]. apply elem_of_app in Hi as [Hi|Hi%list_elem_of_singleton]; eauto.
    + intros [[-> ->]|(l & [[= -> ->]|Hl] & Hi)]; eauto.
      * eexists. split; [by left|]. apply elem_of_app. right. by apply list_elem_of_singleton.
      * eexists. split; [by left|]. apply elem_of_app. by left.
Qed.
Lemma add_disposition_settles id d s id' d' :
  settles (add_disposition id d s) id' d' ↔ (id' = id ∧ d' = d) ∨ settles s id' d'.
Proof.
  destruct d as [|delay], d' as [|delay']; simpl.
  - rewrite elem_of_app, list_elem_of_singleton. naive_solver.
  - naive_solver.
  - naive_solver.
  - rewrite add_nack_group. naive_solver.
Qed.
Lemma add_disposition_ids id d s : settled_ids (add_disposition id d s) ≡ₚ settled_ids s ++ [id].
Proof.
  unfold settled_ids. destruct d as [|delay]; simpl.
  - rewrite <- !app_assoc. f_equiv. by rewrite Permutation_app_comm.
  - by rewrite add_nack_ids, app_assoc.
Qed.
Lemma add_disposition_grouped id d s : one_each s → one_each (add_disposition id d s).
Proof.
  destruct d as [|delay]; [done|]. unfold one_each. simpl. intros [Hd Hne].
  induction (nack_ids s) as [|[d' ids] nacks IH]; simpl.
  - split; [apply NoDup_singleton|by repeat constructor].
  - apply NoDup_cons in Hd as [Hd' Hd]. apply Forall_cons in Hne as [Hn Hne].
    destruct (IH Hd Hne) as [IH1 IH2]. destruct (Z.eqb_spec d' delay) as [->|Hdd]; simpl.
    + split; [by constructor|]. constructor; [simpl; by destruct ids|done].
    + split; [constructor; [|done]|by constructor]. rewrite add_nack_delays. naive_solver.
Qed.

Section Settled.
Context {fernet : Fernet} {decoder : Decoder} (key previous_keys : string) (nonce : string → nat) (env : option string)
  (stopping : nat → bool) (run : nat → bus_event → list outcome) (confirmed : nat → result exn unit).
Local Notation settle_one := (settle_one key previous_keys nonce env stopping run confirmed).
Local Notation settle_from := (settle_from key previous_keys nonce env stopping run confirmed).
Local Notation settle_batch := (settle_batch key previous_keys nonce env stopping run confirmed).
Local Notation is_done := (is_done key previous_keys nonce env run confirmed).

Lemma settle_from_each i batch s s' : settle_from i batch s = Some s' →
  settled_ids s' ≡ₚ settled_ids s ++ (g_ack_id <$> batch) ∧ (one_each s → one_each s') ∧
  ∀ id d, settles s' id d ↔ settles s id d ∨ ∃ j m, batch !! j = Some m ∧ g_ack_id m = id ∧ settle_one (i + j) m = Some d.
Proof.
  revert i s. induction batch as [|m batch IH]; intros i s; simpl.
  { intros [= ->]. rewrite app_nil_r. naive_solver. }
  destruct (settle_one i m) as [d0|] eqn:E; [|done]. simpl. intros H. apply IH in H as (H1 & H2 & H3).
  split; [|split].
  - rewrite H1, add_disposition_ids, <- app_assoc. done.
  - intros Hg. by apply H2, add_disposition_grouped.
  - intros id d. rewrite H3, add_disposition_settles. split.
    + intros [[[-> ->]|Hs]|(j & m' & Hm & Hid & Ho)].
      * right. exists 0%nat, m. by rewrite Nat.add_0_r.
      * by left.
      * right. exists (S j), m'. by rewrite Nat.add_succ_r.
    + intros [Hs|([|j] & m' & Hm & Hid & Ho)]; [by auto| |].
      * simplify_eq/=. rewrite Nat.add_0_r in Ho. naive_solver.
      * right. exists j, m'. by rewrite Nat.add_succ_r in Ho.
Qed.
Lemma settle_from_total i batch s : settle_from i batch s = None ↔ ∃ j m, batch !! j = Some m ∧ settle_one (i + j) m = None.
Proof.
  revert i s. induction batch as [|m batch IH]; intros i s; simpl; [naive_solver|].
  destruct (settle_one i m) as [d|] eqn:E; simpl.
  - rewrite IH. split; intros (j & m' & Hm & Ho).
    + exists (S j), m'. by rewrite Nat.add_succ_r.
    + destruct j as [|j]; simplify_eq/=; [rewrite Nat.add_0_r in Ho; congruence|]. exists j, m'. by rewrite Nat.add_succ_r in Ho.
  - split; [intros _|done]. exists 0%nat, m. by rewrite Nat.add_0_r.
Qed.
Lemma dispatched_ok results : _dispatch_all results = Some true ↔ Forall (λ o, o = Returned) results.
Proof.
  unfold _dispatch_all. rewrite Forall_forall. repeat case_bool_decide; split; try done; intros Hf.
  - by apply Hf in H.
  - by apply Hf in H0.
  - intros [] Ho; naive_solver.
Qed.
Lemma replaced e c : _replace_legacy_enrich_retry key previous_keys nonce e c = Ok true ↔
  ∃ e', replacement key previous_keys nonce e = Ok (Some e') ∧ c = Ok tt.
Proof.
  unfold _replace_legacy_enrich_retry. destruct (replacement key previous_keys nonce e) as [[e'|]|]; simpl; [|naive_solver..].
  destruct c as [[]|]; simpl; naive_solver.
Qed.
(** The disposition of one message. *)
Lemma settle_one_decides i m d : settle_one i m = Some d →
  if stopping i then d = Nacked 0
  else (is_done i m ∧ d = Acked) ∨ (¬ is_done i m ∧ failed run i m ∧ d = Nacked (_nack_delay_seconds (g_delivery_attempt m))).
Proof.
  unfold EventPull.settle_one, EventPull.is_done, failed. destruct (stopping i); [congruence|].
  destruct (_foreign_source_env env (g_source_env m)) as [o|]; [naive_solver|].
  destruct (_decode (g_data m)) as [e|]; [|naive_solver].
  destruct (_dispatch_all (run i e)) as [b|] eqn:Ea; simpl; [|done]. destruct b; intros [= <-].
  { left. apply dispatched_ok in Ea. split; [|done]. right. right. eauto. }
  assert (Raised ∈ run i e) as Hr by (unfold _dispatch_all in Ea; repeat case_bool_decide; done).
  assert (¬ (∃ e', replacement key previous_keys nonce e = Ok (Some e') ∧ confirmed i = Ok tt) →
    ¬ ((∃ other : string, None = Some other) ∨ Some e = None ∨ ∃ e0, Some e = Some e0 ∧ (Forall (λ o, o = Returned) (run i e0) ∨
       ∃ e', replacement key previous_keys nonce e0 = Ok (Some e') ∧ confirmed i = Ok tt))) as Hnot.
  { intros Hn [[? [=]]|[[=]|(e0 & [= <-] & [Hf|Hf])]]; [|done]. rewrite Forall_forall in Hf. by apply Hf in Hr. }
  destruct (_replace_legacy_enrich_retry key previous_keys nonce e (confirmed i)) as [[|]|] eqn:Ex.
  - apply replaced in Ex. naive_solver.
  - right. split; [|by eauto]. apply Hnot. rewrite <- replaced. congruence.
  - right. split; [|by eauto]. apply Hnot. rewrite <- replaced. congruence.
Qed.
Lemma settle_one_total i m : settle_one i m = None ↔
  stopping i = false ∧ _foreign_source_env env (g_source_env m) = None ∧
  ∃ e, _decode (g_data m) = Some e ∧ Cancelled ∈ run i e.
Proof.
  unfold EventPull.settle_one, _dispatch_all. destruct (stopping i); [naive_solver|].
  destruct (_foreign_source_env env (g_source_env m)) as [o|]; [naive_solver|].
  destruct (_decode (g_data m)) as [e|]; [|naive_solver]. case_bool_decide; simpl; naive_solver.
Qed.

(** A batch whose loop was not cancelled is settled: each of its messages once, in one acknowledgement and one
    request for each delay. Acknowledged are the messages whose event needs no more deliveries: another
    environment's, unreadable ones, those every handler returned for, and those replaced; the others were not
    reached before the bus stopped, and go straight back, or failed, and wait their delay. *)
Theorem batch_is_settled batch s : settle_batch batch = Some s →
  settled_ids s ≡ₚ g_ack_id <$> batch ∧ one_each s ∧
  (∀ id, id ∈ ack_ids s → ∃ i m, batch !! i = Some m ∧ g_ack_id m = id ∧ stopping i = false ∧ is_done i m) ∧
  (∀ id delay ids, (delay, ids) ∈ nack_ids s → id ∈ ids → ∃ i m, batch !! i = Some m ∧ g_ack_id m = id ∧
     if stopping i then delay = 0
     else ¬ is_done i m ∧ failed run i m ∧ delay = _nack_delay_seconds (g_delivery_attempt m) ∧ 10 ≤ delay ≤ 600).
Proof.
  intros H. apply settle_from_each in H as (H1 & H2 & H3). split; [done|]. split; [by apply H2; split; constructor|]. split.
  - intros id Hid. destruct (H3 id Acked) as [[Hn|(i & m & Hm & <- & Ho)] _]; [done|by cbn in Hn; apply elem_of_nil in Hn|].
    apply settle_one_decides in Ho. rewrite Nat.add_0_l in Ho. exists i, m. destruct (stopping i); [done|]. destruct Ho as [[? _]|(_ & _ & [=])]. done.
  - intros id delay ids Hd Hid. destruct (H3 id (Nacked delay)) as [[(? & Hn & _)|(i & m & Hm & <- & Ho)] _];
      [by exists ids|by cbn in Hn; apply elem_of_nil in Hn|].
    apply settle_one_decides in Ho. rewrite Nat.add_0_l in Ho. exists i, m. split; [done|]. split; [done|]. simpl in Ho.
    destruct (stopping i); [congruence|]. destruct Ho as [[_ [=]]|(? & ? & [= ->])]. eauto using nack_delay_bounds.
Qed.

(** A batch is not settled only where a handler of a message the loop dispatched was cancelled. *)
Lemma batch_not_settled batch : settle_batch batch = None ↔
  ∃ i m e, batch !! i = Some m ∧ stopping i = false ∧ _foreign_source_env env (g_source_env m) = None ∧
    _decode (g_data m) = Some e ∧ Cancelled ∈ run i e.
Proof.
  unfold EventPull.settle_batch. rewrite settle_from_total. setoid_rewrite settle_one_total. naive_solver.
Qed.
End Settled.

(** ** The replacement of a plaintext event *)

#[local] Opaque key_id.

Section Replaced.
Context {fernet : Fernet} (key previous_keys : string) (nonce : string → nat).

Lemma legacy_keys_elem payload name v : (name, v) ∈ legacy_keys payload ↔
  name ∈ PROVIDER_KEY_FIELDS ∧ dict_get name payload = Some (PStr v) ∧ v ≠ "".
Proof.
  unfold legacy_keys. rewrite list_elem_of_omap. split.
  - intros (n & Hn & H). destruct (dict_get n payload) as [[]|] eqn:E; try done. case_bool_decide; naive_solver.
  - intros (Hn & E & Hv). exists name. split; [done|]. rewrite E. by rewrite bool_decide_false.
Qed.
Lemma legacy_keys_NoDup payload : NoDup (legacy_keys payload).*1.
Proof.
  unfold legacy_keys. assert (NoDup PROVIDER_KEY_FIELDS) as Hd by (apply (bool_decide_unpack _); by vm_compute).
  induction Hd as [|n l Hn Hd IH]; simpl; [constructor|].
  destruct (dict_get n payload) as [[]|]; try done. case_bool_decide; simpl; [done|]. constructor; [|done].
  intros ([n' v] & -> & Hin)%list_elem_of_fmap. apply list_elem_of_omap in Hin as (n & Hin & H').
  destruct (dict_get n payload) as [[]|]; try done. case_bool_decide; naive_solver.
Qed.
Lemma add_encrypted_all c legacy encrypted encrypted' :
  foldM (add_encrypted nonce c) encrypted legacy = Ok encrypted' → NoDup legacy.*1 →
  (∀ name, name ∉ legacy.*1 ∨ dict_mem name encrypted = true → dict_get name encrypted' = dict_get name encrypted) ∧
  ∀ name v, (name, v) ∈ legacy → dict_mem name encrypted = false →
    ∃ t, encrypt c (nonce name) v = Ok t ∧ dict_get name encrypted' = Some (PStr t).
Proof.
  revert encrypted. induction legacy as [|[n v0] legacy IH]; intros encrypted; simpl.
  { intros [= ->] _. set_solver. }
  intros H Hd. apply NoDup_cons in Hd as [Hn Hd]. apply bind_ok in H as (mid & Hm & H).
  unfold add_encrypted in Hm. apply bind_ok in Hm as (t & Ht & [= <-]). simpl in Ht.
  set (mid := if dict_mem n encrypted then encrypted else dict_set n (PStr t) encrypted) in H.
  assert (∀ name, name ≠ n ∨ dict_mem name encrypted = true → dict_get name mid = dict_get name encrypted) as Hmid.
  { intros name Hname. unfold mid. destruct (dict_mem n encrypted) eqn:En; [done|]. destruct (decide (name = n)) as [->|]; [naive_solver congruence|].
    by rewrite dict_get_set_ne. }
  destruct (IH _ H Hd) as [IH1 IH2]. split.
  - intros name Hname. assert (dict_get name mid = dict_get name encrypted) as E by (apply Hmid; set_solver).
    rewrite <- E. apply IH1. unfold dict_mem in *. rewrite E. set_solver.
  - intros name v [[= -> ->]|Hin]%elem_of_cons Hm.
    + exists t. split; [done|]. rewrite IH1 by auto. unfold mid. by rewrite Hm, dict_get_set_eq.
    + apply IH2; [done|]. unfold dict_mem in *. rewrite Hmid; [done|]. left. intros ->. apply Hn, list_elem_of_fmap. by exists (n, v).
Qed.
Lemma held_tokens_ok v d : held_tokens v = Ok d → v = Some (PDict d) ∨ d = [].
Proof. unfold held_tokens. destruct v as [[]|]; try (destruct (truthy _)); intros [=]; subst; auto. Qed.
Lemma nulled_get payload name :
  dict_get name (nulled payload) = if bool_decide (name ∈ PROVIDER_KEY_FIELDS) then Some PNone else dict_get name payload.
Proof.
  unfold nulled. generalize PROVIDER_KEY_FIELDS as names. intros names. revert payload.
  induction names as [|n names IH]; intros payload; simpl; [done|]. rewrite IH.
  destruct (decide (name ∈ names)); [by rewrite !bool_decide_true by set_solver|]. rewrite (bool_decide_false (name ∈ names)) by done.
  rewrite dict_get_set. repeat case_bool_decide; set_solver.
Qed.

(** A message that carries provider keys in plaintext, and whose handler failed, is replaced by one in which no
    field of them has a value, and each has a token that every deployment which still lists this one's key reads
    as that value, unless it had one already; everything else of the event is as it was. *)
Theorem replacement_keeps_keys e e' :
  replacement key previous_keys nonce e = Ok (Some e') → 
  e_type e' = e_type e ∧
  (∀ f, f ∈ PROVIDER_KEY_FIELDS → dict_get f (e_payload e') = Some PNone) ∧
  (∀ f, f ∉ PROVIDER_KEY_FIELDS → f ≠ "encrypted_api_keys" → dict_get f (e_payload e') = dict_get f (e_payload e)) ∧
  ∃ tokens, dict_get "encrypted_api_keys" (e_payload e') = Some (PDict tokens) ∧
    (∀ had, dict_get "encrypted_api_keys" (e_payload e) = Some (PDict had) →
       ∀ f, dict_mem f had = true → dict_get f tokens = dict_get f had) ∧
    ∀ f v, f ∈ PROVIDER_KEY_FIELDS → dict_get f (e_payload e) = Some (PStr v) → v ≠ "" → startswith "enc:" v = false →
      (∀ had, dict_get "encrypted_api_keys" (e_payload e) = Some (PDict had) → dict_mem f had = false) →
      ∃ t, dict_get f tokens = Some (PStr t) ∧ ∀ k' p' c', SettingsCipher k' p' = Ok c' → key ∈ read_keys k' p' →
        collision_free (read_keys k' p') → decrypt c' t = Ok v.
Proof.
  unfold replacement. case_bool_decide as Et; cbn [negb]; [|done]. destruct (legacy_keys (e_payload e)) as [|kv legacy] eqn:El; [done|].
  intros H. apply bind_ok in H as (c & Hc & H). apply bind_ok in H as (had & Hhad & H). apply bind_ok in H as (tokens & Htok & [= <-]).
  change (foldM (add_encrypted nonce c) had (kv :: legacy) = Ok tokens) in Htok. rewrite <- El in Htok.
  destruct (add_encrypted_all _ _ _ _ Htok (legacy_keys_NoDup _)) as [Hold Hnew]. clear Htok.
  assert (∀ d, dict_get "encrypted_api_keys" (e_payload e) = Some (PDict d) → had = d) as Hd by (intros d E; rewrite E in Hhad; by injection Hhad).
  cbn [e_type e_payload]. split; [done|]. split; [|split].
  - intros f Hf. rewrite dict_get_set_ne by (intros ->; vm_compute in Hf; set_solver). by rewrite nulled_get, bool_decide_true.
  - intros f Hf He. rewrite dict_get_set_ne by done. by rewrite nulled_get, bool_decide_false.
  - exists tokens. split; [by rewrite dict_get_set_eq|]. split.
    + intros d ->%Hd f Hf. apply Hold. by right.
    + intros f v Hf Hv Hne Henc Hmem. destruct (Hnew f v) as (t & Ht & Hget); [by apply legacy_keys_elem| |].
      { apply held_tokens_ok in Hhad as [Hhad| ->]; [by apply Hmem|done]. }
      exists t. split; [done|]. intros k' p' c' Hc' Hk Hfree. rewrite encrypt_plain in Ht by done. injection Ht as <-.
      destruct (SettingsCipher_ok _ _ _ Hc) as (Ek & _). unfold c_key_id. rewrite Ek. by eapply decrypt_token.
Qed.
End Replaced.

(** ** The lease keeper and the settlement's calls *)

Definition LEASE_EXTENSION_SECONDS : Z := 60.

Module Lease.

Inductive request : Type := Acknowledge (ids : list string) | ModifyDeadline (ids : list string) (seconds : Z).
(** The loop, from the batch it pulled: [Calling k landed] waits for the [k]th call of the settlement. *)
Inductive phase : Type := Dispatching | Draining | Settling (k : nat) | Calling (k : nat) (landed : bool) | Over.
Inductive keeper : Type := Waiting | Refreshing (landed : bool) | Gone.
(** [stray]: calls whose task was cancelled while a thread ran them. *)
Record state : Type := State {
  at_phase : phase; stop_extending : bool; lease_keeper : keeper; stray : list request; landed : list request
}.

(** The calls of a settlement, in order. *)
Definition requests (s : batch_settlement) : list request :=
  (if decide (ack_ids s = []) then [] else [Acknowledge (ack_ids s)]) ++
  ((λ g, ModifyDeadline g.2 g.1) <$> nack_ids s).

Section Leased.
Context (leased_ids : list string) (s : batch_settlement).

Definition extension : request := ModifyDeadline leased_ids LEASE_EXTENSION_SECONDS.
Definition started : state := State Dispatching false Waiting [] [].

(** What the threads still run of a loop and a keeper that are cancelled. *)
Definition left_running (p : phase) (k : keeper) : list request :=
  match k with Refreshing false => [extension] | _ => [] end ++
  match p with Calling k false => option_list (requests s !! k) | _ => [] end.

(** [elapsed] may come with [stop_extending] set: the timer and the event may fire in one turn of the event loop.
    A call returns with or without having reached Pub/Sub. [interrupted] is every exit through the [finally]:
    a cancellation of the loop's task, or an exception. *)
Inductive step : state → state → Prop :=
  | elapsed p stop st la : step (State p stop Waiting st la) (State p stop (Refreshing false) st la)
  | leaves p st la : step (State p true Waiting st la) (State p true Gone st la)
  | refresh_lands p stop st la : step (State p stop (Refreshing false) st la) (State p stop (Refreshing true) st (la ++ [extension]))
  | refresh_returns p stop b st la : step (State p stop (Refreshing b) st la) (State p stop Waiting st la)
  | dispatched stop k st la : step (State Dispatching stop k st la) (State Draining true k st la)
  | drained stop st la : step (State Draining stop Gone st la) (State (Settling 0) stop Gone st la)
  | calls i r stop k st la : requests s !! i = Some r → step (State (Settling i) stop k st la) (State (Calling i false) stop k st la)
  | call_lands i r stop k st la : requests s !! i = Some r →
      step (State (Calling i false) stop k st la) (State (Calling i true) stop k st (la ++ [r]))
  | call_returns i b stop k st la : step (State (Calling i b) stop k st la) (State (Settling (S i)) stop k st la)
  | settled stop k st la : step (State (Settling (length (requests s))) stop k st la) (State Over stop k st la)
  | interrupted p stop k st la : p ≠ Over → step (State p stop k st la) (State Over true Gone (st ++ left_running p k) la)
  | stray_lands p stop k r st la : step (State p stop k (r :: st) la) (State p stop k st (la ++ [r])).

Definition reachable (st : state) : Prop := rtc step started st.

(** How far the settlement has come, and what it and the keeper may still have in flight. *)
Definition come_to (st : state) (l : list request) : Prop :=
  match at_phase st with
  | Dispatching => l = [] ∧ stop_extending st = false ∧ lease_keeper st ≠ Gone ∧ stray st = []
  | Draining => l = [] ∧ stop_extending st = true ∧ stray st = []
  | Settling k => lease_keeper st = Gone ∧ stray st = [] ∧ l `sublist_of` take k (requests s)
  | Calling k b => lease_keeper st = Gone ∧ stray st = [] ∧ k < length (requests s) ∧ l `sublist_of` take (if b then S k else k) (requests s)
  | Over => lease_keeper st = Gone ∧
      (stray st = [] ∧ l `sublist_of` requests s ∨ stray st = [extension] ∧ l = [] ∨
       ∃ r, stray st = [r] ∧ l ++ [r] `sublist_of` requests s)
  end%nat.
Definition ordered (st : state) : Prop := ∃ n l, landed st = replicate n extension ++ l ∧ come_to st l.

Lemma replicate_then n : replicate n extension ++ [extension] = replicate (S n) extension ++ [].
Proof. rewrite app_nil_r. symmetry. apply replicate_cons_app. Qed.
Lemma sublist_upto i j (l : list request) : (i ≤ j)%nat → l `sublist_of` take i (requests s) → l `sublist_of` take j (requests s).
Proof.
  intros Hij Hl. etrans; [exact Hl|]. rewrite <- (Nat.min_l i j Hij), <- take_take. apply sublist_take.
Qed.
Lemma sublist_next i r l : requests s !! i = Some r → l `sublist_of` take i (requests s) → l ++ [r] `sublist_of` take (S i) (requests s).
Proof. intros Hr Hl. rewrite (take_S_r _ _ _ Hr). by apply sublist_app. Qed.

Lemma interrupted_come p stop k st la l : p ≠ Over → come_to (State p stop k st la) l →
  come_to (State Over true Gone (st ++ left_running p k) la) l.
Proof.
  unfold come_to, left_running. simpl. intros Hp Hc. split; [done|].
  assert (∀ j, l `sublist_of` take j (requests s) → l `sublist_of` requests s) as Htake by (intros j Hl; etrans; [exact Hl|apply sublist_take]).
  destruct p as [| |j|j b|]; [..|done].
  - destruct Hc as (-> & _ & _ & ->). destruct k as [|[]|]; simpl; eauto using sublist_nil_l.
  - destruct Hc as (-> & _ & ->). destruct k as [|[]|]; simpl; eauto using sublist_nil_l.
  - destruct Hc as (-> & -> & Hl). simpl. eauto.
  - destruct Hc as (-> & -> & Hj & Hl). simpl. destruct b; simpl; [by eauto|].
    apply lookup_lt_is_Some_2 in Hj as [r Hr]. rewrite Hr. right. right. exists r. split; [done|].
    etrans; [by apply sublist_next|apply sublist_take].
Qed.
Lemma step_ordered st st' : step st st' → ordered st → ordered st'.
Proof.
  intros Hstep (n & l & Hla & Hc). destruct Hstep; simpl in Hla; subst la.
  - exists n, l. split; [done|]. unfold come_to in *. destruct p; simpl in *; naive_solver.
  - exists n, l. split; [done|]. unfold come_to in *. destruct p; simpl in *; naive_solver.
  - assert (l = []) as -> by (unfold come_to in Hc; destruct p; simpl in *; naive_solver).
    exists (S n), []. rewrite app_nil_r. split; [apply replicate_then|]. unfold come_to in *. destruct p; simpl in *; naive_solver.
  - exists n, l. split; [done|]. unfold come_to in *. destruct p; simpl in *; naive_solver.
  - exists n, l. split; [done|]. unfold come_to in *. simpl in *. naive_solver.
  - exists n, l. split; [done|]. unfold come_to in *. simpl in *. destruct Hc as (-> & _ & ->). eauto using sublist_nil_l.
  - exists n, l. split; [done|]. unfold come_to in *. simpl in *. apply lookup_lt_Some in H. naive_solver.
  - exists n, (l ++ [r]). rewrite app_assoc. split; [done|]. unfold come_to in *. simpl in *. destruct Hc as (? & ? & ? & ?). eauto using sublist_next.
  - exists n, l. split; [done|]. unfold come_to in *. simpl in *. destruct Hc as (? & ? & ? & ?). split; [done|]. split; [done|].
    eapply sublist_upto; [|done]. destruct b; lia.
  - exists n, l. split; [done|]. unfold come_to in *. simpl in *. rewrite firstn_all in Hc. naive_solver.
  - exists n, l. split; [done|]. eapply interrupted_come; [done|exact Hc].
  - unfold come_to in Hc. destruct p; simpl in Hc; try naive_solver.
    destruct Hc as (-> & [[? ?]|[[[= -> ->] ->]|(r' & [= -> ->] & Hl)]]); [done|..].
    + exists (S n), []. rewrite app_nil_r. split; [apply replicate_then|]. unfold come_to. simpl. eauto using sublist_nil_l.
    + exists n, (l ++ [r']). rewrite app_assoc. split; [done|]. unfold come_to. simpl. eauto.
Qed.
Lemma reachable_ordered st : reachable st → ordered st.
Proof.
  unfold reachable. intros H. remember started as st0 eqn:E. assert (ordered st0) as H0.
  { subst. exists 0%nat, []. by repeat split. }
  clear E. induction H; eauto using step_ordered.
Qed.

Lemma come_sublist st l : come_to st l → l `sublist_of` requests s.
Proof.
  unfold come_to. assert (∀ j, l `sublist_of` take j (requests s) → l `sublist_of` requests s) as Htake
    by (intros j Hl; etrans; [exact Hl|apply sublist_take]).
  destruct (at_phase st); [intros (-> & _)|intros (-> & _)|naive_solver..|]; [apply sublist_nil_l..|].
  intros (_ & [[_ Hl]|[[_ ->]|(r & _ & Hl)]]); [done|apply sublist_nil_l|]. etrans; [|exact Hl]. by apply sublist_inserts_r.
Qed.

(** Whatever the two tasks and their threads do, and wherever the loop is interrupted, no extension reaches
    Pub/Sub behind a call of the settlement; the settlement's calls come in order, each at most once; and the batch
    has its keeper as long as its messages are dispatched. *)
Theorem extensions_precede_the_settlement st : reachable st →
  ∃ n l, landed st = replicate n extension ++ l ∧ l `sublist_of` requests s ∧
    (at_phase st = Dispatching → l = [] ∧ lease_keeper st ≠ Gone).
Proof.
  intros (n & l & Hla & Hc)%reachable_ordered. exists n, l. split; [done|]. split; [by eapply come_sublist|].
  intros E. unfold come_to in Hc. rewrite E in Hc. naive_solver.
Qed.

(** ** What a message's deadline is in the end *)

(** The deadline a request gives an id. *)
Definition deadline_of (id : string) (r : request) : option Z :=
  match r with ModifyDeadline ids d => if decide (id ∈ ids) then Some d else None | Acknowledge _ => None end.
(** The one in force after requests that reached Pub/Sub in this order. *)
Definition deadline (id : string) (l : list request) : option Z := last (omap (deadline_of id) l).
Definition names_id (id : string) (r : request) : bool :=
  match r with ModifyDeadline ids _ => bool_decide (id ∈ ids) | Acknowledge ids => bool_decide (id ∈ ids) end.

Lemma concat_disjoint id (ll : list (list string)) a b l l' : NoDup (concat ll) →
  ll !! a = Some l → ll !! b = Some l' → id ∈ l → id ∈ l' → a = b.
Proof.
  revert a b. induction ll as [|x ll IH]; intros a b Hd Ha Hb Hl Hl'; [by rewrite lookup_nil in Ha|].
  simpl in Hd. apply NoDup_app in Hd as (_ & Hx & Hd).
  assert (∀ i y, ll !! i = Some y → id ∈ y → id ∈ concat ll) as Hc.
  { intros i y Hi Hy. apply list_elem_of_In, in_concat. exists y. split; apply list_elem_of_In; [by eapply list_elem_of_lookup_2|done]. }
  destruct a as [|a], b as [|b]; simplify_eq/=; [done| | |by f_equal; eapply IH].
  - destruct (Hx id Hl). eauto.
  - destruct (Hx id Hl'). eauto.
Qed.
Lemma request_of_id id i j r r' : NoDup (settled_ids s) → requests s !! i = Some r → requests s !! j = Some r' →
  names_id id r = true → names_id id r' = true → i = j.
Proof.
  set (ids := λ r, match r with ModifyDeadline ids _ | Acknowledge ids => ids end).
  assert (∀ r, names_id id r = true ↔ id ∈ ids r) as Hn by (intros []; apply bool_decide_eq_true).
  assert (concat (ids <$> requests s) = settled_ids s) as Hc.
  { unfold requests, settled_ids, ids. rewrite fmap_app, concat_app. f_equal.
    - case_decide as E; simpl; [done|by rewrite app_nil_r].
    - f_equal. by rewrite <- list_fmap_compose. }
  rewrite <- Hc, !Hn. intros Hd Hi Hj. apply concat_disjoint with (ll := ids <$> requests s); [done|..]; by rewrite list_lookup_fmap, ?Hi, ?Hj.
Qed.
Lemma nacked_requested ids delay : (delay, ids) ∈ nack_ids s → ModifyDeadline ids delay ∈ requests s.
Proof. intros H. apply elem_of_app. right. apply list_elem_of_fmap. by exists (delay, ids). Qed.
Lemma sublist_omap {A B} (f : A → option B) (l k : list A) : l `sublist_of` k → omap f l `sublist_of` omap f k.
Proof. induction 1; simpl; [done|destruct (f x); [by apply sublist_skip|done]|destruct (f x); [by apply sublist_cons|done]]. Qed.
Lemma omap_none {A B} (f : A → option B) l : (∀ x, x ∈ l → f x = None) → omap f l = [].
Proof. induction l as [|x l IH]; intros H; simpl; [done|]. rewrite (H x) by by left. apply IH. intros y Hy. apply H. by right. Qed.
Lemma omap_only {A B} (f : A → option B) l i x y : l !! i = Some x → f x = Some y →
  (∀ j x', l !! j = Some x' → is_Some (f x') → j = i) → omap f l = [y].
Proof.
  revert i. induction l as [|z l IH]; intros i Hi Hf Ho; [done|]. destruct i as [|i]; simplify_eq/=.
  - rewrite Hf. f_equal. apply omap_none. intros x' [j Hj]%list_elem_of_lookup. destruct (f x') eqn:E; [|done].
    by specialize (Ho (S j) x' Hj (mk_is_Some _ _ E)).
  - destruct (f z) eqn:E; [by specialize (Ho 0%nat z eq_refl (mk_is_Some _ _ E))|]. apply (IH i); [done|done|].
    intros j x' Hj Hx. specialize (Ho (S j) x' Hj Hx). lia.
Qed.
Lemma sublist_one {A} (l : list A) x : l `sublist_of` [x] → l = [] ∨ l = [x].
Proof. inversion 1 as [|? ? ? H'|? ? ? H']; inversion H'; auto. Qed.
Lemma deadline_names id r : is_Some (deadline_of id r) → names_id id r = true.
Proof. destruct r as [|ids d]; simpl; [by intros []|]. case_decide; [by rewrite bool_decide_true|by intros []]. Qed.

(** Of the extensions and a part of the settlement, a nack that is there prevails. *)
Lemma nack_prevails id ids delay n l : NoDup (settled_ids s) → l `sublist_of` requests s →
  (delay, ids) ∈ nack_ids s → id ∈ ids → ModifyDeadline ids delay ∈ replicate n extension ++ l →
  deadline id (replicate n extension ++ l) = Some delay.
Proof.
  intros Hd Hl Hg Hid Hin. assert (deadline_of id (ModifyDeadline ids delay) = Some delay) as Hf by (simpl; by rewrite decide_True).
  pose proof (nacked_requested _ _ Hg) as [i Hi]%list_elem_of_lookup.
  assert (omap (deadline_of id) (requests s) = [delay]) as Hone.
  { eapply omap_only; [exact Hi|exact Hf|]. intros j r' Hj Hr'. eapply request_of_id; [done|exact Hj|exact Hi| |]; apply deadline_names; eauto. }
  pose proof (sublist_omap (deadline_of id) _ _ Hl) as Hsub. rewrite Hone in Hsub.
  unfold deadline. rewrite omap_app. apply sublist_one in Hsub as [E|E]; rewrite E; [|apply last_snoc].
  apply elem_of_app in Hin as [[Ee Hn]%elem_of_replicate|Hin].
  - rewrite app_nil_r. destruct n as [|n]; [lia|]. rewrite <- Ee. cbn [replicate]. rewrite replicate_cons_app, omap_app.
    assert (omap (deadline_of id) [ModifyDeadline ids delay] = [delay]) as -> by (simpl; by rewrite decide_True).
    apply last_snoc.
  - assert (delay ∈ omap (deadline_of id) l) as Hx by (apply list_elem_of_omap; eauto). rewrite E in Hx. by apply elem_of_nil in Hx.
Qed.

(** Nothing keeps a batch from being settled: from any state in which its messages are dispatched or its keeper is
    awaited, the two tasks can run to the end with every call of the settlement made, in order. *)
Lemma keeper_leaves p k la : ∃ n, rtc step (State p true k [] la) (State p true Gone [] (la ++ replicate n extension)).
Proof.
  exists 0%nat. rewrite app_nil_r. destruct k as [|b|]; [by eapply rtc_once, leaves| |done].
  eapply rtc_l; [apply refresh_returns|]. by eapply rtc_once, leaves.
Qed.
Lemma settlement_runs i st la : (i ≤ length (requests s))%nat →
  rtc step (State (Settling i) true Gone st la) (State Over true Gone st (la ++ drop i (requests s))).
Proof.
  intros Hi. remember (length (requests s) - i)%nat as m eqn:Em. revert i la Hi Em. induction m as [|m IH]; intros i la Hi Em.
  - replace i with (length (requests s)) by lia. rewrite drop_all, app_nil_r. apply rtc_once, settled.
  - destruct (lookup_lt_is_Some_2 (requests s) i) as [r Hr]; [lia|].
    eapply rtc_l; [by eapply calls|]. eapply rtc_l; [by eapply call_lands|]. eapply rtc_l; [apply call_returns|].
    rewrite (drop_S _ r) by done. rewrite (cons_middle r la (drop (S i) _)), app_assoc. apply IH; lia.
Qed.
Theorem batch_can_settle st : reachable st → at_phase st = Dispatching ∨ at_phase st = Draining →
  ∃ n, rtc step st (State Over true Gone [] (replicate n extension ++ requests s)).
Proof.
  intros (n & l & Hla & Hc)%reachable_ordered Hp. destruct st as [p stop k stray la]. simpl in *.
  assert (l = [] ∧ stray = [] ∧ rtc step (State p stop k stray la) (State Draining true k [] la)) as (-> & -> & Hrun).
  { unfold come_to in Hc. destruct Hp as [-> | ->]; simpl in Hc; [|by destruct Hc as (-> & -> & ->)].
    destruct Hc as (-> & _ & _ & ->). split; [done|]. split; [done|]. apply rtc_once, dispatched. }
  rewrite app_nil_r in Hla. subst la. destruct (keeper_leaves Draining k (replicate n extension)) as [n' Hleave].
  rewrite <- replicate_add in Hleave. exists (n + n')%nat. etrans; [exact Hrun|]. etrans; [exact Hleave|].
  eapply rtc_l; [apply drained|]. apply (settlement_runs 0). lia.
Qed.
End Leased.
End Lease.

Section Waits.
Context {fernet : Fernet} {decoder : Decoder} (key previous_keys : string) (nonce : string → nat) (env : option string)
  (stopping : nat → bool) (run : nat → bus_event → list outcome) (confirmed : nat → result exn unit).
Local Notation settle_batch := (settle_batch key previous_keys nonce env stopping run confirmed).
Local Notation is_done := (is_done key previous_keys nonce env run confirmed).

(** C19: a message whose event is done with is acknowledged; any other is nacked with its own delay, or none where the
    bus was stopping, and once that nack has reached Pub/Sub its deadline is that delay, whatever its keeper's
    extensions did before, between and after, and wherever the loop was interrupted. *)
Theorem message_waits_its_delay batch s st i m :
  settle_batch batch = Some s → NoDup (g_ack_id <$> batch) → Lease.reachable (g_ack_id <$> batch) s st → batch !! i = Some m →
  (g_ack_id m ∈ ack_ids s ∧ stopping i = false ∧ is_done i m) ∨
  ∃ delay ids, (delay, ids) ∈ nack_ids s ∧ g_ack_id m ∈ ids ∧
    (if stopping i then delay = 0 else ¬ is_done i m ∧ delay = _nack_delay_seconds (g_delivery_attempt m)) ∧
    (Lease.ModifyDeadline ids delay ∈ Lease.landed st → Lease.deadline (g_ack_id m) (Lease.landed st) = Some delay).
Proof.
  intros H Hd Hst Hm. destruct (settle_one key previous_keys nonce env stopping run confirmed i m) as [d|] eqn:Eo.
  2: { assert (settle_batch batch = None); [|congruence]. unfold EventPull.settle_batch. rewrite settle_from_total. eauto. }
  apply settle_from_each in H as (Hp & _ & Heach).
  assert (settles s (g_ack_id m) d) as Hs by (apply Heach; right; eauto). apply settle_one_decides in Eo.
  assert (NoDup (settled_ids s)) as Hnd by by rewrite Hp.
  apply Lease.reachable_ordered in Hst as (n & l & Hla & Hc).
  assert (∀ ids delay, (delay, ids) ∈ nack_ids s → g_ack_id m ∈ ids → Lease.ModifyDeadline ids delay ∈ Lease.landed st →
    Lease.deadline (g_ack_id m) (Lease.landed st) = Some delay) as Hprev.
  { intros ids delay Hg Hid. rewrite Hla. intros Hin.
    eapply Lease.nack_prevails; [done|by eapply Lease.come_sublist|done..]. }
  destruct d as [|delay]; simpl in Hs.
  - left. destruct (stopping i); [done|]. destruct Eo as [[? _]|(_ & _ & [=])]. done.
  - right. destruct Hs as (ids & Hg & Hid). exists delay, ids. split; [done|]. split; [done|]. split; [|by apply Hprev].
    destruct (stopping i); [congruence|]. destruct Eo as [[_ [=]]|(? & _ & [= ->])]. done.
Qed.
End Waits.

(** ** A batch to try things on *)

#[local] Transparent key_id.
#[local] Existing Instance sample_fernet.

#[local] Instance sample_decoder : Decoder := λ data,
  if bool_decide (data = "plain") then Some (BusEvent "caura.memory.embed-requested" [])
  else if bool_decide (data = "keys") then Some (BusEvent ENRICH_REQUESTED [("openai_api_key", PStr "sk-123"); ("memory_id", PStr "m-1")])
  else None.
Definition sample_batch : list message :=
  [Message "a" "plain" (Some "dev") None; Message "b" "plain" None (Some 3); Message "c" "junk" None None;
   Message "d" "plain" (Some "prod") None; Message "e" "keys" None None; Message "f" "plain" None (Some 3)].
Definition sample_run (i : nat) (_ : bus_event) : list outcome := if decide (i = 0)%nat then [Returned; Returned] else [Returned; Raised].
Definition sample_settle : option batch_settlement :=
  settle_batch new_key "" key_nonce (Some "dev") (λ i, bool_decide (i = 5%nat)) sample_run (λ _, Ok tt) sample_batch.
Definition sample_settlement : batch_settlement := BatchSettlement ["a"; "c"; "d"; "e"] [(40, ["b"]); (0, ["f"])].

Lemma batch_is_settled_witness : sample_settle = Some sample_settlement ∧
  settled_ids sample_settlement ≡ₚ ["a"; "b"; "c"; "d"; "e"; "f"].
Proof.
  assert (sample_settle = Some sample_settlement) as H by by vm_compute. split; [done|].
  exact (proj1 (batch_is_settled _ _ _ _ _ _ _ _ _ H)).
Defined.

Lemma replacement_keeps_keys_witness :
  ∃ e' t, replacement new_key "" key_nonce (BusEvent ENRICH_REQUESTED [("openai_api_key", PStr "sk-123"); ("memory_id", PStr "m-1")]) = Ok (Some e') ∧
    dict_get "openai_api_key" (e_payload e') = Some PNone ∧ dict_get "memory_id" (e_payload e') = Some (PStr "m-1") ∧
    ∃ tokens, dict_get "encrypted_api_keys" (e_payload e') = Some (PDict tokens) ∧ dict_get "openai_api_key" tokens = Some (PStr t).
Proof.
  destruct (replacement new_key "" key_nonce (BusEvent ENRICH_REQUESTED [("openai_api_key", PStr "sk-123"); ("memory_id", PStr "m-1")])) as [[e'|]|] eqn:E;
    [|vm_compute in E; done..].
  destruct (replacement_keeps_keys _ _ _ _ _ E) as (_ & H1 & H2 & tokens & H3 & _ & H4).
  destruct (H4 "openai_api_key" "sk-123") as (t & Ht & _); [by left|done|done|by vm_compute|intros had [=]|].
  exists e', t. split; [done|]. split; [by apply H1; left|]. split; [|by eauto].
  apply (H2 "memory_id"); [|done]. intros Hin. apply (bool_decide_pack _) in Hin. by vm_compute in Hin.
Defined.

Lemma sample_lease : Lease.reachable (g_ack_id <$> sample_batch) sample_settlement
  (Lease.State Lease.Over true Lease.Gone [] (Lease.extension (g_ack_id <$> sample_batch) :: Lease.requests sample_settlement)).
Proof.
  unfold Lease.reachable, Lease.started. eapply rtc_l; [apply Lease.elapsed|]. eapply rtc_l; [apply Lease.refresh_lands|].
  eapply rtc_l; [apply Lease.dispatched|]. eapply rtc_l; [apply Lease.refresh_returns|]. eapply rtc_l; [apply Lease.leaves|].
  eapply rtc_l; [apply Lease.drained|]. exact (Lease.settlement_runs _ sample_settlement 0 [] [_] (Nat.le_0_l _)).
Qed.
Lemma extensions_precede_the_settlement_witness :
  ∃ n l, Lease.extension (g_ack_id <$> sample_batch) :: Lease.requests sample_settlement
         = replicate n (Lease.extension (g_ack_id <$> sample_batch)) ++ l ∧ l `sublist_of` Lease.requests sample_settlement.
Proof.
  destruct (Lease.extensions_precede_the_settlement _ _ _ sample_lease) as (n & l & H1 & H2 & _). by exists n, l.
Defined.
Lemma batch_can_settle_witness :
  ∃ n, rtc (Lease.step ["a"] (BatchSettlement ["a"] [])) Lease.started
    (Lease.State Lease.Over true Lease.Gone [] (replicate n (Lease.extension ["a"]) ++ Lease.requests (BatchSettlement ["a"] []))).
Proof. apply (Lease.batch_can_settle ["a"] (BatchSettlement ["a"] []) Lease.started); [apply rtc_refl|by left]. Defined.
Lemma message_waits_its_delay_witness :
  Lease.deadline "b" (Lease.extension (g_ack_id <$> sample_batch) :: Lease.requests sample_settlement) = Some 40.
Proof.
  assert (sample_settle = Some sample_settlement) as H by by vm_compute.
  assert (NoDup (g_ack_id <$> sample_batch)) as Hd by (apply (bool_decide_unpack _); by vm_compute).
  destruct (message_waits_its_delay _ _ _ _ _ _ _ _ _ _ 1 (Message "b" "plain" None (Some 3)) H Hd sample_lease eq_refl)
    as [[Hin _]|(delay & ids & Hg & _ & [_ ->] & Hw)]; [apply (bool_decide_pack _) in Hin; by vm_compute in Hin|].
  change (_nack_delay_seconds _) with 40 in *. apply Hw.
  assert (ids = ["b"]) as -> by (clear Hw; change ((40, ids) ∈ [(40, ["b"]); (0, ["f"])]) in Hg; set_solver).
  apply list_elem_of_lookup. by exists 2%nat.
Defined.
