(* ===== verification/EventSlots.v ===== *)
(** * Broadcast slots: one subscription for each process, kept across respawns

    [_instance_token], [_claim_broadcast_slot] and [_process_broadcast_slot_id] of [common/events/pubsub.py]: how the
    worker processes of an instance agree on a token and each claim a slot through the files of one directory.

    A process is where it has come in these functions; [next_call] is its next system call, which works or raises
    [OSError] as the file system has it. The processes of an instance run in any order, new ones start, and any may be
    killed at any point, which releases its lock. [flock], [link] and [unlink] are as POSIX and Python document them: a
    lock is one process's at a time and falls with it, a link is made whole or not at all and replaces no file. A process
    id is not used twice, and the random hex strings drawn are nonempty and distinct. *)

From S2P Require Import Prelude PyStr EventBus.

#[local] Open Scope string_scope.
#[local] Open Scope list_scope.

Definition BROADCAST_MAX_SLOTS : nat := 16.

(** [uuid.uuid4().hex[:12]]: the draws of a process, the token's and the fallback's. *)
Class Hex12 : Type := Hex12Of {
  hex12 : nat * bool → string;
  hex12_nonempty : ∀ d, hex12 d ≠ "";
  hex12_inj : Inj (=) (=) hex12;
  hex12_chars : ∀ d, str_all (λ c, negb (Ascii.eqb c "-")) (hex12 d) = true
}.

(** The directory: the file [instance] with its text, stripped, and which process holds the lock of each slot. *)
Record directory : Type := Directory { instance : option string; locks : gmap nat nat }.

(** Where a process is: before [mkdir]; before the first read of [instance]; before it writes its own file, before it
    links it, before it reads again; before it tries a slot; or with its id, claimed or random. *)
Inductive progress : Type :=
  | Starting | Reading | Writing | Linking (own : string) | Rereading
  | Probing (token : string) (slot : nat) | Claimed (token : string) (slot : nat) | Random (id : string).

Definition read_text (text : option string) : option string :=
  match text with Some t => if bool_decide (t = "") then None else Some t | None => None end.

Section Slots.
Context {hex : Hex12} (max_slots : nat).

(** [f"{token}-{slot}"] *)
Definition slot_name (token : string) (slot : nat) : string := token +:+ "-" +:+ str_of_Z (Z.of_nat slot).
Definition slot_id (p : progress) : option string :=
  match p with Claimed token slot => Some (slot_name token slot) | Random id => Some id | _ => None end.
Definition fallback (pid : nat) : progress := Random (hex12 (pid, true)).

(** What [_read] gives. *)
Definition read_token (works : bool) (d : directory) : option string := if works then read_text (instance d) else None.

(** The next call of process [pid]: what it leaves of the directory, and where the process comes to. *)
Definition next_call (pid : nat) (works : bool) (d : directory) (p : progress) : directory * progress :=
  match p with
  | Starting => (d, if works then Reading else fallback pid)
  | Reading => (d, match read_token works d with Some token => Probing token 0 | None => Writing end)
  | Writing => (d, if works then Linking (hex12 (pid, false)) else fallback pid)
  | Linking own =>
      if works then (match instance d with Some _ => d | None => Directory (Some own) (locks d) end, Rereading)
      else (d, fallback pid)
  | Rereading => (d, match read_token works d with Some token => Probing token 0 | None => fallback pid end)
  | Probing token slot =>
      if (max_slots <=? slot)%nat then (d, fallback pid)
      else if works then
        match locks d !! slot with
        | Some _ => (d, Probing token (S slot))
        | None => (Directory (instance d) (<[slot := pid]> (locks d)), Claimed token slot)
        end
      else (d, Probing token (S slot))
  | Claimed _ _ | Random _ => (d, p)
  end.

(** What a killed process leaves. *)
Definition release (pid : nat) (d : directory) : directory := Directory (instance d) (filter (λ kv, kv.2 ≠ pid) (locks d)).

Fixpoint run (fuel pid : nat) (works : nat → bool) (d : directory) (p : progress) : directory * progress :=
  match fuel with
  | O => (d, p)
  | S fuel => let '(d, p) := next_call pid (works fuel) d p in run fuel pid works d p
  end.
(** How many calls a process makes at most. *)
Definition calls_left (p : progress) : nat :=
  match p with
  | Starting => max_slots + 6 | Reading => max_slots + 5 | Writing => max_slots + 4 | Linking _ => max_slots + 3
  | Rereading => max_slots + 2 | Probing _ slot => S (max_slots - slot) | Claimed _ _ | Random _ => 0
  end.
(** A process's claim, undisturbed: enough calls for any. *)
Definition _process_broadcast_slot_id (pid : nat) (works : nat → bool) (d : directory) : directory * progress :=
  run (max_slots + 6) pid works d Starting.

(** The instance: its directory, its live processes, and how many it has started. *)
Record system : Type := System { dir : directory; live : gmap nat progress; spawned : nat }.

Inductive step : system → system → Prop :=
  | moves pid works d d' p p' ps n : ps !! pid = Some p → next_call pid works d p = (d', p') →
      step (System d ps n) (System d' (<[pid := p']> ps) n)
  | spawns d ps n : step (System d ps n) (System d (<[n := Starting]> ps) (S n))
  | dies pid d ps n : step (System d ps n) (System (release pid d) (delete pid ps) n).

(** An instance starts with a directory no live process has a lock in; its [instance] file may be there. *)
Definition reachable (s : system) : Prop := ∃ text, rtc step (System (Directory text ∅) ∅ 0) s.
End Slots.

(** ** Names *)

Section SlotFacts.
Context {hex : Hex12} (max_slots : nat).
Local Notation next_call := (next_call max_slots).
Local Notation step := (step max_slots).
Local Notation reachable := (reachable max_slots).

Lemma slot_name_inj token slot slot' : slot_name token slot = slot_name token slot' → slot = slot'.
Proof. unfold slot_name. intros H%string_app_inj_l%string_app_inj_l%str_of_Z_inj. lia. Qed.
(** Two instances whose tokens differ, and hold no dash, name their slots differently. *)
Lemma slot_name_tokens token slot token' slot' :
  str_all (λ c, negb (Ascii.eqb c "-")) token = true → str_all (λ c, negb (Ascii.eqb c "-")) token' = true →
  slot_name token slot = slot_name token' slot' → token = token' ∧ slot = slot'.
Proof.
  intros Ht Ht' H. assert (token = token') as ->; [|by split; [|eapply slot_name_inj]].
  apply (f_equal (partition_at "-")) in H. unfold slot_name in H.
  change (?t +:+ "-" +:+ ?n) with (t +:+ String "-" n) in H. rewrite !partition_at_first in H by done. by injection H.
Qed.
Lemma str_all_concat f a b : str_all f (a +:+ b) = str_all f a && str_all f b.
Proof. induction a as [|c a IH]; cbn; [done|]. by rewrite IH, andb_assoc. Qed.
Lemma slot_name_not_random token slot d : slot_name token slot ≠ hex12 d.
Proof.
  intros H. pose proof (hex12_chars d) as Hd. rewrite <- H in Hd. unfold slot_name in Hd. rewrite !str_all_concat in Hd.
  apply andb_true_iff in Hd as [_ [[=] _]%andb_true_iff].
Qed.

(** ** What the processes of an instance agree on *)

Definition agreed (d : directory) (pid : nat) (p : progress) : Prop :=
  match p with
  | Linking own => own ≠ ""
  | Probing token _ => instance d = Some token
  | Claimed token slot => instance d = Some token ∧ locks d !! slot = Some pid
  | Random id => id = hex12 (pid, true)
  | _ => True
  end.
Record consistent (s : system) : Prop := Consistent {
  spawned_before : ∀ pid p, live s !! pid = Some p → (pid < spawned s)%nat;
  all_agreed : ∀ pid p, live s !! pid = Some p → agreed (dir s) pid p;
  locks_live : ∀ slot pid, locks (dir s) !! slot = Some pid → ∃ token, live s !! pid = Some (Claimed token slot)
}.

Lemma read_text_some text t : read_text text = Some t → text = Some t.
Proof. unfold read_text. destruct text; [|done]. case_bool_decide; congruence. Qed.
Lemma read_token_some works d t : read_token works d = Some t → instance d = Some t.
Proof. unfold read_token. destruct works; [apply read_text_some|done]. Qed.

(** A call keeps a token that is there, and takes no lock but a free one, for the process that claims its slot. *)
Lemma next_call_keeps pid works d p d' p' : next_call pid works d p = (d', p') → agreed d pid p →
  agreed d' pid p' ∧ (∀ t, instance d = Some t → instance d' = Some t) ∧
  (locks d' = locks d ∧ (∀ t k, p' = Claimed t k → p = p') ∨
   ∃ t k, p = Probing t k ∧ p' = Claimed t k ∧ locks d !! k = None ∧ locks d' = <[k := pid]> (locks d)).
Proof.
  unfold EventSlots.next_call, fallback. intros H Ha. destruct p as [| | |own| |token slot|token slot|id]; simpl in Ha.
  - destruct works; injection H as <- <-; naive_solver.
  - destruct (read_token works d) as [t|] eqn:E; injection H as <- <-; [apply read_token_some in E|]; naive_solver.
  - destruct works; injection H as <- <-; [|naive_solver]. pose proof (hex12_nonempty (pid, false)). naive_solver.
  - destruct works; injection H as <- <-; [|naive_solver]. destruct (instance d) eqn:E; simpl; naive_solver.
  - destruct (read_token works d) as [t|] eqn:E; injection H as <- <-; [apply read_token_some in E|]; naive_solver.
  - destruct (_ <=? _)%nat; [injection H as <- <-; naive_solver|]. destruct works; [|injection H as <- <-; naive_solver].
    destruct (locks d !! slot) as [holder|] eqn:E; injection H as <- <-; [naive_solver|]. simpl. rewrite lookup_insert_eq.
    split; [done|]. split; [done|]. right. by exists token, slot.
  - injection H as <- <-. naive_solver.
  - injection H as <- <-. naive_solver.
Qed.
Lemma agreed_later pid d d' p : agreed d pid p → (∀ t, instance d = Some t → instance d' = Some t) →
  (∀ t k, p = Claimed t k → locks d !! k = Some pid → locks d' !! k = Some pid) → agreed d' pid p.
Proof. destruct p; simpl; naive_solver. Qed.

Lemma step_consistent s s' : step s s' → consistent s → consistent s'.
Proof.
  intros Hstep [H1 H2 H3]. destruct Hstep as [pid works d d' p p' ps n Hp Ha|d ps n|pid d ps n]; simpl in *.
  - destruct (next_call_keeps _ _ _ _ _ _ Ha (H2 _ _ Hp)) as (Hag & Hins & Hlk). split; simpl.
    + intros q y [[<- _]|[_ Hq]]%lookup_insert_Some; eauto.
    + intros q y [[<- <-]|[Hne Hq]]%lookup_insert_Some; [done|]. eapply agreed_later; [by apply H2|done|].
      intros t k -> Hk. destruct Hlk as [[-> _]|(t' & k' & _ & _ & Hfree & ->)]; [done|].
      rewrite lookup_insert_ne by (intros ->; congruence). done.
    + intros k q Hk. destruct Hlk as [[E Hcl]|(t' & k' & -> & -> & Hfree & E)]; rewrite E in Hk.
      * destruct (H3 k q Hk) as [t Ht]. exists t. destruct (decide (q = pid)) as [->|]; [|by rewrite lookup_insert_ne].
        rewrite lookup_insert_eq. rewrite Hp in Ht. injection Ht as ->. simpl in Ha. by injection Ha as <- <-.
      * apply lookup_insert_Some in Hk as [[<- <-]|[Hne Hk]]; [exists t'; by rewrite lookup_insert_eq|].
        destruct (H3 k q Hk) as [t Ht]. exists t. destruct (decide (q = pid)) as [->|]; [congruence|]. by rewrite lookup_insert_ne.
  - split; simpl.
    + intros q y [[<- _]|[_ Hq]]%lookup_insert_Some; [lia|]. apply H1 in Hq. lia.
    + intros q y [[<- <-]|[_ Hq]]%lookup_insert_Some; [done|by apply H2].
    + intros k q Hk. destruct (H3 k q Hk) as [t Ht]. exists t. rewrite lookup_insert_ne; [done|]. intros ->. apply H1 in Ht. lia.
  - split; simpl.
    + intros q y [_ Hq]%lookup_delete_Some. eauto.
    + intros q y [Hne Hq]%lookup_delete_Some. eapply agreed_later; [by apply H2|done|].
      intros t k -> Hk. simpl. apply map_lookup_filter_Some. split; [done|]. simpl. congruence.
    + intros k q [Hk Hne]%map_lookup_filter_Some. simpl in Hne. destruct (H3 k q Hk) as [t Ht]. exists t. by rewrite lookup_delete_ne.
Qed.
Lemma reachable_consistent s : reachable s → consistent s.
Proof.
  intros [text H]. remember (System (Directory text ∅) ∅ 0) as s0 eqn:E. assert (consistent s0) as H0.
  { subst. split; simpl; intros *; rewrite ?lookup_empty; done. }
  clear E. induction H; eauto using step_consistent.
Qed.

(** Two live processes of an instance never have one id, whatever calls fail, however the processes' calls
    interleave and whichever of them were killed where. *)
Theorem live_slots_differ s pid pid' p p' id : reachable s → live s !! pid = Some p → live s !! pid' = Some p' →
  slot_id p = Some id → slot_id p' = Some id → pid = pid'.
Proof.
  intros [_ Hag _]%reachable_consistent Hp%Hag Hp'%Hag. destruct p as [| | | | | |t k|i], p' as [| | | | | |t' k'|i']; try done; simpl in *; intros [= <-] [= E].
  - destruct Hp as [Ht Hk], Hp' as [Ht' Hk']. assert (t' = t) as -> by congruence. apply slot_name_inj in E as ->. congruence.
  - subst. symmetry in E. by apply slot_name_not_random in E.
  - subst. by apply slot_name_not_random in E.
  - subst. apply hex12_inj in E. congruence.
Qed.

(** A process keeps its id as long as it lives. *)
Lemma step_keeps_id s s' pid p id : step s s' → consistent s → live s !! pid = Some p → slot_id p = Some id →
  live s' !! pid = Some p ∨ live s' !! pid = None.
Proof.
  intros Hstep [H1 _ _] Hp Hid. destruct Hstep as [q works d d' y y' ps n Hq Ha|d ps n|q d ps n]; simpl in *.
  - left. destruct (decide (q = pid)) as [->|]; [|by rewrite lookup_insert_ne]. rewrite lookup_insert_eq. rewrite Hp in Hq.
    injection Hq as ->. destruct y; simpl in Hid; try done; simpl in Ha; by injection Ha as _ <-.
  - left. rewrite lookup_insert_ne; [done|]. intros ->. apply H1 in Hp. lia.
  - destruct (decide (q = pid)) as [->|]; [right; apply lookup_delete_eq|left; by rewrite lookup_delete_ne].
Qed.
Lemma dead_stay s s' pid : step s s' → live s !! pid = None → (pid < spawned s)%nat → live s' !! pid = None ∧ (pid < spawned s')%nat.
Proof.
  intros Hstep Hp Hlt. destruct Hstep as [q works d d' y y' ps n Hq Ha|d ps n|q d ps n]; simpl in *.
  - split; [|done]. rewrite lookup_insert_ne; [done|congruence].
  - split; [|lia]. rewrite lookup_insert_ne; [done|lia].
  - split; [|done]. apply lookup_delete_None. by right.
Qed.
Lemma steps_keep_id s s' pid p id : rtc step s s' → consistent s → live s !! pid = Some p → slot_id p = Some id →
  live s' !! pid = Some p ∨ live s' !! pid = None.
Proof.
  intros H. induction H as [s|s s1 s2 Hs Hss IH]; intros Hc Hp Hid; [by left|].
  pose proof (step_consistent _ _ Hs Hc) as Hc1. destruct (step_keeps_id _ _ _ _ _ Hs Hc Hp Hid) as [Hp1|Hp1]; [by apply IH|].
  right. assert (pid < spawned s1)%nat as Hlt.
  { pose proof (spawned_before _ Hc _ _ Hp) as Hlt. destruct Hs; simpl in *; lia. }
  clear -Hss Hp1 Hlt. induction Hss as [s|s s1 s2 Hs _ IH]; [done|]. destruct (dead_stay _ _ _ Hs Hp1 Hlt). by apply IH.
Qed.

(** ** One claim, undisturbed *)

Lemma next_call_progress pid works d p : (0 < calls_left max_slots p)%nat →
  (calls_left max_slots (next_call pid works d p).2 < calls_left max_slots p)%nat.
Proof.
  unfold EventSlots.next_call, fallback. destruct p as [| | |own| |token slot|token slot|id]; simpl; intros Hc; try lia.
  - destruct works; simpl; lia.
  - destruct (read_token works d); simpl; lia.
  - destruct works; simpl; lia.
  - destruct works; simpl; lia.
  - destruct (read_token works d); simpl; lia.
  - destruct (Nat.leb_spec max_slots slot); simpl; [lia|]. destruct works; simpl; [|lia].
    destruct (locks d !! slot); simpl; lia.
Qed.
Lemma calls_over p : calls_left max_slots p = 0%nat ↔ is_Some (slot_id p).
Proof. destruct p; simpl; (split; [intros H; try lia; by eexists|intros [? H]; try done; lia]). Qed.
Lemma run_ends fuel pid works d p : (calls_left max_slots p ≤ fuel)%nat → is_Some (slot_id (run max_slots fuel pid works d p).2).
Proof.
  revert d p. induction fuel as [|fuel IH]; intros d p Hf; simpl; [apply calls_over; lia|].
  pose proof (next_call_progress pid (works fuel) d p) as Hp. destruct (next_call pid (works fuel) d p) as [d' p'] eqn:E.
  simpl in Hp. destruct (decide (calls_left max_slots p = 0)%nat) as [E0|]; [|apply IH; lia].
  apply calls_over in E0. destruct p; simpl in E0; try (by destruct E0); simpl in E; injection E as <- <-; apply IH; simpl; lia.
Qed.

(** The claim always comes to an id, whichever of its calls fail. *)
Theorem claim_always_has_an_id pid works d : is_Some (slot_id (_process_broadcast_slot_id max_slots pid works d).2).
Proof. apply run_ends. simpl. lia. Qed.

Lemma run_done fuel pid works d p : is_Some (slot_id p) → run max_slots fuel pid works d p = (d, p).
Proof. intros H. revert p H. induction fuel as [|fuel IH]; intros p H; simpl; [done|]. destruct p; simpl in *; try (by destruct H); by apply IH. Qed.
(** The probe passes held slots up to the first free one. *)
Lemma probe_runs pid d token slot k fuel : (slot ≤ k < max_slots)%nat → (k - slot < fuel)%nat →
  (∀ j, (slot ≤ j < k)%nat → is_Some (locks d !! j)) → locks d !! k = None →
  run max_slots fuel pid (λ _, true) d (Probing token slot) = (Directory (instance d) (<[k := pid]> (locks d)), Claimed token k).
Proof.
  revert slot. induction fuel as [|fuel IH]; intros slot Hk Hf Hheld Hfree; [lia|]. simpl.
  destruct (Nat.leb_spec max_slots slot); [lia|]. destruct (decide (slot = k)) as [->|Hne].
  - rewrite Hfree. by apply run_done.
  - destruct (Hheld slot) as [holder ->]; [lia|]. apply IH; [lia|lia| |done]. intros j Hj. apply Hheld. lia.
Qed.

(** The replacement of a process that was killed comes to the id of its predecessor, where the slots below are
    still held and its own calls do not fail: both pull one subscription, one after the other. *)
Theorem respawn_takes_the_slot s pid token slot pid' : reachable s → live s !! pid = Some (Claimed token slot) → token ≠ "" →
  (slot < max_slots)%nat → (∀ j, (j < slot)%nat → is_Some (locks (dir s) !! j)) →
  (_process_broadcast_slot_id max_slots pid' (λ _, true) (release pid (dir s))).2 = Claimed token slot.
Proof.
  intros [_ Hag Hlive]%reachable_consistent Hp Ht Hslot Hbelow. destruct (Hag _ _ Hp) as [Hins Hlock].
  unfold _process_broadcast_slot_id. replace (max_slots + 6)%nat with (S (S (max_slots + 4))) by lia. simpl. rewrite Hins. simpl.
  rewrite bool_decide_false by done. rewrite (probe_runs pid' _ token 0 slot); [done|lia|lia| |].
  - intros j Hj. destruct (Hbelow j) as [q Hq]; [lia|]. exists q. simpl. apply map_lookup_filter_Some. split; [done|]. simpl. intros ->.
    destruct (Hlive j pid Hq) as [t Hq']. rewrite Hp in Hq'. injection Hq' as <- <-. lia.
  - simpl. apply map_lookup_filter_None. right. intros q Hq. simpl. rewrite Hlock in Hq. injection Hq as <-. naive_solver.
Qed.
End SlotFacts.

(** ** The subscriptions of an instance *)

(** C33: the workers of an instance each pull their own subscription of a broadcast topic. *)
Theorem workers_pull_their_own {hex : Hex12} max_slots {H} c (subs : list (subscription H)) s pid pid' p p' id id' l l' :
  reachable max_slots s → live s !! pid = Some p → live s !! pid' = Some p' → slot_id p = Some id → slot_id p' = Some id' →
  pid ≠ pid' → l ∈ (start c id (λ _, true) subs).1 → l' ∈ (start c id' (λ _, true) subs).1 → l_topic l = l_topic l' →
  (∀ t, l_topic l = (b_project_id c, _topic_name c t) → t ∈ broadcast_topics (b_dual_subscribe c) subs) → l_name l ≠ l_name l'.
Proof.
  intros Hs Hp Hp' Hid Hid' Hne Hl Hl' Htop Hb E.
  assert (id ≠ id') as Hids by (intros <-; eapply Hne, live_slots_differ; eauto).
  apply (broadcasts_fan_out c id id' subs l l' Hl Hl' Htop Hids) in E as (t & Ht & Hn). eauto.
Qed.

(** ** An instance to try things on *)

Fixpoint marks (n : nat) : string := match n with O => "" | S n => String "a" (marks n) end.
Lemma marks_inj n n' : marks n = marks n' → n = n'.
Proof. revert n'. induction n as [|n IH]; intros [|n']; simpl; try done. intros [= E]. f_equal. by apply IH. Qed.
#[local] Instance sample_hex : Hex12.
Proof.
  refine (Hex12Of (λ d, String (if d.2 then "f" else "0") (marks d.1)) _ _ _); [done| |].
  - intros [n b] [n' b'] E. simpl in E. injection E as Eb En. apply marks_inj in En as ->. by destruct b, b'.
  - intros [n b]. simpl. destruct b; simpl; induction n; done.
Defined.

(** A process makes its next call, which works, or is started. *)
Definition turn (s : system) (q : nat) : system :=
  match live s !! q with
  | Some p => let '(d, p') := next_call BROADCAST_MAX_SLOTS q true (dir s) p in System d (<[q := p']> (live s)) (spawned s)
  | None => System (dir s) (<[spawned s := Starting]> (live s)) (S (spawned s))
  end.
Lemma turns_run qs s : rtc (step BROADCAST_MAX_SLOTS) s (foldl turn s qs).
Proof.
  revert s. induction qs as [|q qs IH]; intros s; [done|]. eapply rtc_l; [|apply IH]. unfold turn.
  destruct s as [d ps n]. simpl. destruct (ps !! q) as [p|] eqn:E; [|apply spawns].
  destruct (next_call BROADCAST_MAX_SLOTS q true d p) as [d' p'] eqn:Ea. by eapply moves.
Qed.
(** Two processes race for the token: both write theirs, the second links first, and each finds a slot. *)
Definition sample_system : system :=
  foldl turn (System (Directory None ∅) ∅ 0) [0; 1; 0; 0; 0; 1; 1; 1; 1; 0; 1; 1; 0; 0; 0; 0]%nat.
Lemma sample_reachable : reachable BROADCAST_MAX_SLOTS sample_system.
Proof. exists None. apply turns_run. Qed.

Lemma live_slots_differ_witness : live sample_system !! 0%nat = Some (Claimed "0a" 1) ∧ live sample_system !! 1%nat = Some (Claimed "0a" 0) ∧
  slot_name "0a" 1 ≠ slot_name "0a" 0.
Proof.
  split; [by vm_compute|]. split; [by vm_compute|]. intros E.
  assert (0 = 1)%nat as [=]. eapply (live_slots_differ BROADCAST_MAX_SLOTS sample_system 0 1); [apply sample_reachable|..].
  - instantiate (1 := Claimed "0a" 1). by vm_compute.
  - instantiate (1 := Claimed "0a" 0). by vm_compute.
  - simpl. by rewrite E.
  - done.
Defined.
Lemma respawn_takes_the_slot_witness :
  (_process_broadcast_slot_id BROADCAST_MAX_SLOTS 2 (λ _, true) (release 1 (dir sample_system))).2 = Claimed "0a" 0.
Proof.
  apply (respawn_takes_the_slot BROADCAST_MAX_SLOTS sample_system 1 "0a" 0 2);
    [apply sample_reachable|by vm_compute|done|unfold BROADCAST_MAX_SLOTS; lia|intros j Hj; lia].
Defined.
Lemma workers_pull_their_own_witness :
  let l s := Pulled (H:=nat) "caura-prod" ("core-api--prod--caura.org.settings-changed--" +:+ s)
               ("caura-prod", "prod--caura.org.settings-changed") [1%nat] in
  l_name (l (slot_name "0a" 1)) ≠ l_name (l (slot_name "0a" 0)).
Proof.
  intros l. apply (workers_pull_their_own BROADCAST_MAX_SLOTS (prod_bus false) sample_subs sample_system 0 1 (Claimed "0a" 1) (Claimed "0a" 0)
    (slot_name "0a" 1) (slot_name "0a" 0) (l (slot_name "0a" 1)) (l (slot_name "0a" 0)));
    [apply sample_reachable|by vm_compute|by vm_compute|reflexivity|reflexivity|done|by_compute|by_compute|reflexivity|].
  intros t Ht. assert (_topic_name (prod_bus false) "caura.org.settings-changed" = _topic_name (prod_bus false) t) as E%topic_name_inj by exact (f_equal snd Ht).
  rewrite <-E. by_compute.
Defined.
