(* ===== verification/SuppressionMirror.v ===== *)
(** * The suppression mirror: events to rows to refusals

    [_handle_suppression_changed] of [common/events/suppression_handlers.py] with the worker's adapter, the storage
    route [upsert_tenant_suppression] of [routers/tenant_suppression.py] over [set_tenant_suppression] and
    [is_tenant_suppressed] of [postgres_service.py], and the guard's cache of [Suppression.v] that reads them.

    Times are microseconds. An upsert is one statement under the row's lock, so upserts of any number of handlers are a
    sequence; [now] is its transaction's clock, and what becomes of a call (done, done with its answer lost, or not done)
    is an argument. [json] and pydantic give the payload, [None] for one that does not validate. *)

From S2P Require Import Prelude Suppression.

#[local] Open Scope string_scope.
#[local] Open Scope list_scope.
#[local] Open Scope Z_scope.

(** ** Storage *)

Inductive suppress_action : Type := Suppress | Restore.
#[global] Instance suppress_action_eq_dec : EqDecision suppress_action.
Proof. solve_decision. Defined.

(** A row of [public.tenant_suppression]. *)
Record suppression_row : Type := SuppressionRow { suppressed_at : option Z; updated_at : Z; updated_by : option string }.
Abbreviation mirror := (gmap string suppression_row).

Section Storage.
Context (now : Z).

(** The row an insert gives, and what [ON CONFLICT DO UPDATE] makes of the stored one. *)
Definition inserted_row (a : suppress_action) (who : option string) (at_ : option Z) : suppression_row :=
  SuppressionRow (match a with Suppress => Some now | Restore => None end) (default now at_) who.
Definition on_conflict (a : suppress_action) (old new : suppression_row) : suppression_row :=
  SuppressionRow (match a with
                  | Suppress => match suppressed_at old with Some t => Some t | None => suppressed_at new end
                  | Restore => None
                  end) (updated_at new) (updated_by new).
(** The row as it then stands, and whether the upsert applied. *)
Definition set_tenant_suppression (tenant_id : string) (a : suppress_action) (who : option string) (at_ : option Z) (m : mirror) :
    (suppression_row * bool) * mirror :=
  let new := inserted_row a who at_ in
  match m !! tenant_id with
  | None => ((new, true), <[tenant_id := new]> m)
  | Some old =>
      if updated_at old <=? updated_at new then ((on_conflict a old new, true), <[tenant_id := on_conflict a old new]> m)
      else ((old, false), m)
  end.
End Storage.

Definition mirror_is_tenant_suppressed (m : mirror) (tenant_id : string) : bool :=
  match m !! tenant_id with Some r => bool_decide (is_Some (suppressed_at r)) | None => false end.

(** [occurred_at]: a time, and whether it has an offset. *)
Definition occurred : Type := Z * bool.
(** The route: [None] for a 422. *)
Definition upsert_tenant_suppression (now : Z) (tenant_id : string) (a : suppress_action) (who : option string) (at_ : option occurred)
    (m : mirror) : option (suppression_row * bool) * mirror :=
  if bool_decide (tenant_id = "") then (None, m)
  else match at_ with
       | Some (_, false) => (None, m)
       | _ => let '(r, m) := set_tenant_suppression now tenant_id a who (fst <$> at_) m in (Some r, m)
       end.

(** ** The handler *)

Record OrgSuppressionEvent : Type := OrgSuppressed { tenant_ids : list string; s_action : suppress_action }.
Record suppression_event : Type := SuppressionEvent {
  s_payload : option OrgSuppressionEvent; s_correlation_id : option string; s_occurred_at : occurred
}.
(** What becomes of a call to storage. *)
Inductive call : Type := Answered | LostAnswer | NotMade.

Definition s_updated_by (e : suppression_event) : string :=
  match s_correlation_id e with Some c => if bool_decide (c = "") then "core-worker" else c | None => "core-worker" end.

(** The loop over the tenants, up to the first that fails: whether the event is acknowledged. *)
Fixpoint mirror_tenants (e : suppression_event) (a : suppress_action) (calls : list (call * Z)) (tenants : list string) (m : mirror) {struct tenants} : bool * mirror :=
  match tenants with
  | [] => (true, m)
  | t :: tenants =>
      match calls with
      | [] => (false, m)
      | (NotMade, _) :: _ => (false, m)
      | (c, now) :: calls =>
          let '(r, m) := upsert_tenant_suppression now t a (Some (s_updated_by e)) (Some (s_occurred_at e)) m in
          match r, c with
          | Some _, Answered => mirror_tenants e a calls tenants m
          | _, _ => (false, m)
          end
      end
  end.
Definition _handle_suppression_changed (e : suppression_event) (calls : list (call * Z)) (m : mirror) : bool * mirror :=
  match s_payload e with
  | None => (true, m)
  | Some p => mirror_tenants e (s_action p) calls (tenant_ids p) m
  end.

(** ** The upserts of a delivery *)

Record upsert : Type := Upsert { u_tenant : string; u_action : suppress_action; u_who : option string; u_at : Z; u_now : Z }.
Definition run_upsert (m : mirror) (u : upsert) : mirror :=
  (set_tenant_suppression (u_now u) (u_tenant u) (u_action u) (u_who u) (Some (u_at u)) m).2.
Definition run_upserts (us : list upsert) (m : mirror) : mirror := foldl run_upsert m us.

(** Storage refuses the call: no tenant, or a time without an offset. *)
Definition refused (e : suppression_event) (t : string) : bool := bool_decide (t = "") || negb (snd (s_occurred_at e)).
(** The upserts that reach storage of a delivery, and whether it is acknowledged. *)
Fixpoint performed_of (e : suppression_event) (a : suppress_action) (calls : list (call * Z)) (tenants : list string) {struct tenants} : list upsert * bool :=
  match tenants with
  | [] => ([], true)
  | t :: tenants =>
      match calls with
      | [] | (NotMade, _) :: _ => ([], false)
      | (c, now) :: calls =>
          if refused e t then ([], false)
          else let u := Upsert t a (Some (s_updated_by e)) (fst (s_occurred_at e)) now in
               match c with Answered => let '(us, ack) := performed_of e a calls tenants in (u :: us, ack) | _ => ([u], false) end
      end
  end.
Definition performed (d : suppression_event * list (call * Z)) : list upsert * bool :=
  match s_payload d.1 with None => ([], true) | Some p => performed_of d.1 (s_action p) d.2 (tenant_ids p) end.

(** What the handler does to the mirror is its upserts. *)
Lemma mirror_tenants_performed e a calls ts m :
  mirror_tenants e a calls ts m = ((performed_of e a calls ts).2, run_upserts (performed_of e a calls ts).1 m).
Proof.
  revert calls m. induction ts as [|t ts IH]; intros calls m; simpl; [reflexivity|]. destruct calls as [|[c now] calls]; [reflexivity|].
  unfold upsert_tenant_suppression, refused. destruct (s_occurred_at e) as [at_ [|]] eqn:E; simpl; rewrite ?orb_true_r, ?orb_false_r.
  2: { destruct c; [by case_bool_decide..|done]. }
  case_bool_decide; [by destruct c|].
  destruct (set_tenant_suppression now t a (Some (s_updated_by e)) (Some at_) m) as [r m'] eqn:Es.
  assert (m' = run_upsert m (Upsert t a (Some (s_updated_by e)) at_ now)) as -> by (unfold run_upsert; simpl; by rewrite Es).
  destruct c; simpl; [|done|done]. rewrite IH. by destruct (performed_of e a calls ts).
Qed.
Lemma handler_performs e calls m :
  _handle_suppression_changed e calls m = ((performed (e, calls)).2, run_upserts (performed (e, calls)).1 m).
Proof. unfold _handle_suppression_changed, performed. simpl. destruct (s_payload e); [apply mirror_tenants_performed|done]. Qed.

(** The upserts of a delivery are of the event's tenants, in order; of all of them where it is acknowledged. *)
Lemma performed_of_tenants e a calls ts :
  (u_tenant <$> (performed_of e a calls ts).1) `prefix_of` ts ∧
  ((performed_of e a calls ts).2 = true → u_tenant <$> (performed_of e a calls ts).1 = ts) ∧
  Forall (λ u, u_action u = a ∧ u_at u = fst (s_occurred_at e)) (performed_of e a calls ts).1.
Proof.
  revert calls. induction ts as [|t ts IH]; intros calls; simpl; [done|].
  assert ((([] : list string) `prefix_of` t :: ts) ∧ (false = true → ([] : list string) = t :: ts) ∧
    Forall (λ u, u_action u = a ∧ u_at u = fst (s_occurred_at e)) []) as Hnil by (split; [apply prefix_nil|done]).
  destruct calls as [|[c now] calls]; [exact Hnil|]. destruct (refused e t); [by destruct c|].
  destruct c; simpl; [|split; [by apply prefix_cons, prefix_nil|by repeat constructor]|exact Hnil].
  specialize (IH calls). destruct (performed_of e a calls ts) as [us ack]. simpl in *. destruct IH as (H1 & H2 & H3).
  split; [by apply prefix_cons|]. split; [|by constructor]. intros E. f_equal. by apply H2.
Qed.

(** ** The newest decision stands *)

Section Newest.
Context (t : string) (a : suppress_action) (at_ : Z).

(** The row is of the newest decision. *)
Definition stands (m : mirror) : Prop := ∃ r, m !! t = Some r ∧ updated_at r = at_ ∧ (is_Some (suppressed_at r) ↔ a = Suppress).
(** No later decision is stored. *)
Definition not_later (m : mirror) : Prop := ∀ r, m !! t = Some r → updated_at r ≤ at_.
(** An upsert of the tenant no later than the newest decision, and the same where at its time. *)
Definition no_later (u : upsert) : Prop := u_tenant u = t → u_at u ≤ at_ ∧ (u_at u = at_ → u_action u = a).

Lemma run_upsert_lookup m u : run_upsert m u !! t =
  if decide (u_tenant u = t) then
    let new := inserted_row (u_now u) (u_action u) (u_who u) (Some (u_at u)) in
    match m !! t with
    | None => Some new
    | Some old => Some (if updated_at old <=? u_at u then on_conflict (u_action u) old new else old)
    end
  else m !! t.
Proof.
  unfold run_upsert, set_tenant_suppression. destruct u as [t' a' who at' now]. simpl. destruct (decide (t' = t)) as [->|Hne].
  - destruct (m !! t) as [old|] eqn:E; [|simpl; by rewrite lookup_insert_eq]. destruct (updated_at old <=? at'); simpl; [by rewrite lookup_insert_eq|done].
  - destruct (m !! t') as [old|] eqn:E; [|simpl; by rewrite lookup_insert_ne]. destruct (updated_at old <=? at'); simpl; [by rewrite lookup_insert_ne|done].
Qed.
Lemma run_upsert_stands m u : u_tenant u = t → u_at u = at_ → u_action u = a → not_later m → stands (run_upsert m u).
Proof.
  intros Ht Hat Ha Hm. unfold stands. rewrite run_upsert_lookup, decide_True by done. rewrite Hat, Ha. destruct (m !! t) as [old|] eqn:E.
  - apply Hm in E. replace (updated_at old <=? at_) with true by lia. eexists. split; [done|]. split; [done|].
    unfold on_conflict, inserted_row. simpl. destruct a; [|split; [by intros []|done]]. split; [done|intros _]. by destruct (suppressed_at old).
  - eexists. split; [done|]. split; [done|]. simpl. destruct a; [by split|]. split; [by intros []|done].
Qed.
Lemma run_upsert_keeps m u : no_later u → stands m → stands (run_upsert m u).
Proof.
  intros Hu (r & Hr & Hat & Hs). destruct (decide (u_tenant u = t)) as [Ht|Ht].
  - destruct (Hu Ht) as [Hle Heq]. destruct (decide (u_at u = at_)) as [E|E].
    + apply run_upsert_stands; auto. intros r' Hr'. rewrite Hr in Hr'. injection Hr' as <-. lia.
    + exists r. rewrite run_upsert_lookup, decide_True, Hr by done. simpl. replace (updated_at r <=? u_at u) with false by lia. done.
  - exists r. rewrite run_upsert_lookup, decide_False by done. done.
Qed.
Lemma run_upsert_not_later m u : no_later u → not_later m → not_later (run_upsert m u).
Proof.
  intros Hu Hm r. rewrite run_upsert_lookup. destruct (decide (u_tenant u = t)) as [Ht|Ht]; [|apply Hm].
  destruct (Hu Ht) as [Hle _]. destruct (m !! t) as [old|] eqn:E; [|by intros [= <-]].
  destruct (updated_at old <=? u_at u); intros [= <-]; [done|by apply Hm].
Qed.
Lemma run_upserts_stands us m u : Forall no_later us → not_later m → u ∈ us → u_tenant u = t → u_at u = at_ → u_action u = a →
  stands (run_upserts us m).
Proof.
  intros Hus Hm Hu Ht Hat Ha. apply list_elem_of_split in Hu as (us1 & us2 & ->). unfold run_upserts. rewrite foldl_app. simpl.
  apply Forall_app in Hus as [H1 H2]. apply Forall_cons in H2 as [_ H2].
  assert (not_later (foldl run_upsert m us1)) as Hm1.
  { revert m Hm. induction H1; intros m Hm; simpl; [done|]. by apply IHForall, run_upsert_not_later. }
  assert (∀ m', stands m' → stands (foldl run_upsert m' us2)) as Hk.
  { clear -H2. induction H2 as [|u' us2 Hu' _ IH]; intros m' Hs; simpl; [done|]. by apply IH, run_upsert_keeps. }
  by apply Hk, run_upsert_stands.
Qed.
End Newest.
Lemma stands_suppressed t a at_ m : stands t a at_ m → mirror_is_tenant_suppressed m t = bool_decide (a = Suppress).
Proof.
  intros (r & Hr & _ & Hs). unfold mirror_is_tenant_suppressed. rewrite Hr. by apply bool_decide_ext.
Qed.

(** ** What a decision comes to *)

(** Any run of upserts leaves a tenant as its newest decision says, in whatever order, however often and however late
    they come. *)
Theorem mirror_takes_the_newest t a at_ m us : not_later t at_ m → Forall (no_later t a at_) us →
  (∃ u, u ∈ us ∧ u_tenant u = t ∧ u_at u = at_ ∧ u_action u = a) →
  mirror_is_tenant_suppressed (run_upserts us m) t = bool_decide (a = Suppress).
Proof. intros Hm Hus (u & Hu & Ht & Hat & Ha). eapply stands_suppressed, run_upserts_stands; eauto. Qed.

(** The upserts that landed by a time. *)
Definition landed_by (history : list (Z * upsert)) (τ : Z) : list upsert := snd <$> filter (λ x, x.1 ≤ τ) history.
(** Storage's answer to a check that read its clock at [now]: it was asked then or later. *)
Definition asked_after (m : mirror) (history : list (Z * upsert)) (t : string) (now : Z) (answer : option bool) : Prop :=
  ∃ τ, now ≤ τ ∧ answer = Some (mirror_is_tenant_suppressed (run_upserts (landed_by history τ) m) t).
Definition names (t : string) (e : suppression_event) : Prop := ∃ p, s_payload e = Some p ∧ t ∈ tenant_ids p.

(** C35: once a delivery of a suppression has been acknowledged, every check from thirty seconds on refuses the tenant,
    unless a newer decision is published: whatever older events are delivered again, late or in part, whatever their
    handlers' upserts run between, and whatever checks had cached. The checks since are answered: while storage is
    down the guard lets a tenant in ([Suppression.outage_fails_open]). *)
Theorem published_suppression_cuts_off m (ds : list (suppression_event * list (call * Z))) history d p t since ws now answer :
  (∀ x, x ∈ history → ∃ d', d' ∈ ds ∧ x.2 ∈ (performed d').1) →
  d ∈ ds → s_payload d.1 = Some p → s_action p = Suppress → t ∈ tenant_ids p → (performed d).2 = true →
  (∀ u, u ∈ (performed d).1 → ∃ x, x ∈ history ∧ x.1 ≤ since ∧ x.2 = u) →
  not_later t (s_occurred_at d.1).1 m →
  (∀ d' p', d' ∈ ds → s_payload d'.1 = Some p' → t ∈ tenant_ids p' → (s_occurred_at d'.1).1 ≤ (s_occurred_at d.1).1 ∧
     ((s_occurred_at d'.1).1 = (s_occurred_at d.1).1 → s_action p' = Suppress)) →
  Forall (λ w, w_tenant w = t → since ≤ w_now w → asked_after m history t (w_now w) (w_answer w)) ws →
  since + _TTL_SECONDS ≤ now → asked_after m history t now answer →
  (is_tenant_suppressed t now answer (run_writes ws ∅)).1 = true.
Proof.
  intros Hfrom Hd Hp Ha Ht Hack Hland Hm Hnew Hws Hnow Hans.
  assert (∀ now answer, since ≤ now → asked_after m history t now answer → answer = Some true) as Hsup.
  { intros n ans Hn (τ & Hτ & ->). f_equal.
    erewrite (mirror_takes_the_newest t Suppress (s_occurred_at d.1).1); [done|done|..].
    - apply Forall_forall. intros u Hu Hut. apply list_elem_of_fmap in Hu as (x & -> & [_ Hx]%list_elem_of_filter).
      destruct (Hfrom x Hx) as (d' & Hd' & Hpf). unfold performed in Hpf. destruct (s_payload d'.1) as [p'|] eqn:Ep; [|by apply elem_of_nil in Hpf].
      destruct (performed_of_tenants d'.1 (s_action p') d'.2 (tenant_ids p')) as (Hpre & _ & Hall).
      rewrite Forall_forall in Hall. destruct (Hall _ Hpf) as [Hact Hat].
      destruct (Hnew d' p' Hd' Ep) as [H1 H2]; [|rewrite Hat, Hact; auto].
      eapply elem_of_prefix; [|exact Hpre]. rewrite <- Hut. by apply list_elem_of_fmap_2.
    - unfold performed in Hack, Hland. rewrite Hp in Hack, Hland.
      destruct (performed_of_tenants d.1 (s_action p) d.2 (tenant_ids p)) as (_ & Hall & Hof). specialize (Hall Hack).
      rewrite <- Hall in Ht. apply list_elem_of_fmap in Ht as (u & -> & Hu). rewrite Forall_forall in Hof. destruct (Hof u Hu) as [Hact Hat].
      destruct (Hland u Hu) as (x & Hx & Hle & <-). exists x.2. split; [|by rewrite Hact].
      apply list_elem_of_fmap_2, list_elem_of_filter. split; [simpl; lia|done]. }
  rewrite (Hsup now answer) by (unfold _TTL_SECONDS in Hnow; done || lia).
  apply (suppression_cuts_off_in_thirty_seconds t since); [|done].
  eapply Forall_impl; [exact Hws|]. simpl. intros w Hw Hwt Hle. by apply (Hsup (w_now w)), Hw.
Qed.

(** ** Two events to try things on *)

(** The restore was decided first, fails once, and is delivered again after the suppression has landed. *)
Definition old_restore : suppression_event := SuppressionEvent (Some (OrgSuppressed ["acme"] Restore)) None (5, true).
Definition new_suppress : suppression_event := SuppressionEvent (Some (OrgSuppressed ["acme"; "acme-eu"] Suppress)) (Some "corr-1") (10, true).
Definition sample_deliveries : list (suppression_event * list (call * Z)) :=
  [(new_suppress, [(Answered, 20); (Answered, 21)]); (old_restore, [(LostAnswer, 30)]); (old_restore, [(Answered, 40)])].
Definition sample_history : list (Z * upsert) :=
  [(20, Upsert "acme" Suppress (Some "corr-1") 10 20); (30, Upsert "acme" Restore (Some "core-worker") 5 30);
   (21, Upsert "acme-eu" Suppress (Some "corr-1") 10 21); (40, Upsert "acme" Restore (Some "core-worker") 5 40)].

Lemma mirror_takes_the_newest_witness :
  mirror_is_tenant_suppressed (run_upserts sample_history.*2 ∅) "acme" = true.
Proof.
  apply (mirror_takes_the_newest "acme" Suppress 10).
  - intros r. by rewrite lookup_empty.
  - repeat constructor; simpl; intros; lia || done.
  - eexists. split; [by left|done].
Defined.
Lemma published_suppression_cuts_off_witness :
  (is_tenant_suppressed "acme" 30000025 (Some true) (run_writes [Write "acme" 26 (Some true); Write "acme" 4 (Some false)] ∅)).1 = true.
Proof.
  assert (∀ τ, 25 ≤ τ → Some true = Some (mirror_is_tenant_suppressed (run_upserts (landed_by sample_history τ) ∅) "acme")) as Hs.
  { intros τ Hτ. unfold landed_by, sample_history. rewrite !filter_cons, filter_nil. repeat case_decide; simpl in *; try lia; by vm_compute. }
  apply (published_suppression_cuts_off ∅ sample_deliveries sample_history (new_suppress, [(Answered, 20); (Answered, 21)])
    (OrgSuppressed ["acme"; "acme-eu"] Suppress) "acme" 25).
  - intros x Hx. repeat (apply elem_of_cons in Hx as [->|Hx]); [..|by apply elem_of_nil in Hx]; simpl.
    + eexists. split; [by left|by left].
    + eexists. split; [right; by left|by left].
    + eexists. split; [by left|right; by left].
    + eexists. split; [do 2 right; by left|by left].
  - by left.
  - done.
  - done.
  - by left.
  - by vm_compute.
  - intros u Hu. repeat (apply elem_of_cons in Hu as [->|Hu]); [..|by apply elem_of_nil in Hu].
    + eexists. split; [by left|done].
    + eexists. split; [do 2 right; by left|done].
  - intros r. by rewrite lookup_empty.
  - intros d' p' Hd' Hp' Ht. repeat (apply elem_of_cons in Hd' as [->|Hd']); [..|by apply elem_of_nil in Hd'];
      simpl in *; injection Hp' as <-; (split; [lia|]); done || lia.
  - repeat constructor; simpl; intros; [|lia]. exists 26. split; [done|]. apply Hs. lia.
  - unfold _TTL_SECONDS. lia.
  - exists 30000025. split; [done|]. apply Hs. lia.
Defined.

(** An event that names no tenant among others is valid, and storage refuses that one: every delivery stops there,
    and the tenants after it are never mirrored. *)
Example empty_tenant_blocks_the_rest calls m :
  let e := SuppressionEvent (Some (OrgSuppressed [""; "acme"] Suppress)) None (10, true) in
  _handle_suppression_changed e calls m = (false, m).
Proof. cbn zeta. rewrite handler_performs. destruct calls as [|[[] now] calls]; reflexivity. Qed.
